(* ===== verification/_CoqProject ===== *)
-Q . S2P
Prelude.v
Json.v
Base64.v
WsFrame.v
ApiTypes.v
PubSub.v
Util.v
ConfigReader.v
Md5.v
MuduoBuffer.v
TcpConnection.v
EventLoop.v
ThreadPool.v
LogicClient.v
HttpMachine.v
HttpSafe.v
HttpRun.v
HttpHeader.v
HttpRequest.v
HttpCut.v
HttpLimits.v
HttpUrl.v
HttpParserWrapper.v
HttpConn.v
HttpFront.v
WsConn.v
CometService.v
HttpHandler.v
CometMain.v
ConnPool.v
CacheConn.v
Sds.v
RedisFormat.v
Resp.v
RedisReader.v
ReaderRefines.v
Hiredis.v
DbPool.v
PoolManager.v
LogicEnv.v
LogicApi.v
MessageService.v
RoomService.v
Kafka.v
LogicMain.v
Job.v
EndToEnd.v
