(* ===== verification/Prelude.v ===== *)
(** * The distributed chat room: comet, logic and job services

    This library models the three services of the program and proves what makes them
    correct.  Paths are relative to [src/server/application].

    ** The program

    - The comet service ([chat-room/]) holds the browsers' connections.  One TCP connection
      is first an [HttpHandler], which becomes an HTTP connection (login and registration,
      forwarded to the logic service) or a WebSocket connection (frames of chat messages,
      history requests and room creations, forwarded to the logic service).  It keeps the
      registered connection of each user, the topics of rooms with their subscribers, and
      the list of rooms, and offers [Broadcast] and [BroadcastRoom] by gRPC.
    - The logic service ([logic/]) answers the HTTP requests of the comet service.  It keeps
      users, rooms and messages in MySQL and Redis through pools of connections, and gives
      what must reach the users to Kafka.
    - The job service ([job/]) takes the messages from Kafka and calls the comet service.

    A chat message travels: frame, [CWebSocketConn], [LogicClient::handleSend], HTTP,
    [HttpServer::handleSend], Redis and MySQL, Kafka, the loop of the job, gRPC,
    [BroadcastRoom], frames to the subscribers.

    ** The files

    Shared: this file (C++ strings as lists of bytes, machine integers, the outcomes of a C++
    computation, the monad [io] of stateful computations, lemmas and tactics); [Json]
    (jsoncpp as a class with laws, and the implementation [Mini] used by the witnesses);
    [Base64] ([base/base64.cpp]); [Util] ([base/util.cc]); [ConfigReader]
    ([base/config_file_reader.cc]); [ApiTypes] ([api/api_types.h]); of the network library
    that each service vendors, [MuduoBuffer] ([muduo/net/Buffer.*], [Endian.h]),
    [TcpConnection] ([muduo/net/TcpConnection.*], [Channel.*], and what [EventLoop.cc] and
    [TcpServer.cc] do with a connection), [EventLoop] ([muduo/net/EventLoop.*],
    [poller/EPollPoller.*]) and [ThreadPool] ([muduo/base/ThreadPool.*]), and [Md5]
    ([muduo/base/md5.*]).

    Comet: [WsFrame] and [WsConn] ([service/websocket_conn.cc]: the frame codec; the
    connection, its tasks and handlers); [PubSub] ([service/pub_sub_service.*]);
    [LogicClient] ([service/logic_client.cc], [logic_config.cc]); the vendored parser of HTTP
    ([service/http_parser.cc]): [HttpMachine] (the model), [HttpSafe] (it stays inside its
    tables and buffers), [HttpRun], [HttpHeader] and [HttpRequest] (a grammar of requests and
    what is reported of each), [HttpCut] (a request cut by TCP), [HttpLimits] (what it refuses
    or miscounts), [HttpUrl] (the fields of a URL, and the small functions); [HttpParserWrapper] ([service/http_parser_wrapper.cc]); [HttpConn]
    ([service/http_conn.cc]); [HttpFront] (both on that parser); [HttpHandler]
    ([service/http_handler.h]); [CometService] ([rpc/comet_service.cc]); [CometMain]
    ([main.cc]: the configuration, the start, and the process as a step relation).

    Logic: [ConnPool] (the monitor that [CDBPool] and [CachePool] both are); [CacheConn]
    ([redis/cache_pool.cc]), over hiredis, whose sources the service compiles: [Sds]
    ([redis/sds.*]), [RedisFormat] (the commands, [redis/hiredis.c]), [Resp] (the bytes of
    the protocol and the machine that reads them), [RedisReader] ([redis/read.c], with
    reply objects in an explicit store), [ReaderRefines] (the reader implements the
    machine), [Hiredis] (the blocking connection, and a server at its other end); [DbPool]
    ([mysql/db_pool.cc]); [PoolManager] ([CDBManager], [CacheManager]); [LogicEnv] (the singletons, and the scopes that take and release a
    connection); [LogicApi] ([api/*.cc], over [Md5]); [MessageService] and [RoomService]
    ([service/message_service.cc], [room_service.cc]); [Kafka] ([service/kafka_producer.cpp]
    and the [KafkaConsumer] of the job); [LogicMain] ([main.cc], [service/http_parser.h]).

    Job: [Job] ([main.cc]).  [EndToEnd] composes the three.

    ** How code is modelled

    A computation returns [Ok], [Throw] (a C++ exception) or [Undef] (undefined behaviour),
    and changes an explicit state: [comet] for the objects of the comet process,
    [logic_env] and [logic_state] for those of the logic service, each with the outside
    world as a component.  Objects that are shared through pointers (connections, pooled
    connections, handlers, reply objects) are numbers into a map of the state, so aliasing
    is visible.
    Integers carry their width ([u16], [u32], [u64], [i32]).  A library that the repository
    only calls is a class ([JsonCpp], [CurlClient], [Socket], [MySql],
    [RdKafka], [CometStub], [PushMsgCodec], [Host], [Clock]); laws are separate classes
    ([JsonLaws], [RedisStreams], [MySqlRows], [PushMsgLaws]) that state documented
    behaviour, and the witnesses instantiate them.  Interfaces inside the program are
    classes too: [SubscriptionService] (what the push service needs of [PubSubService]),
    [PoolConn] (what a pool needs of a connection), [HttpParser] (the
    events of a buffer, which [HttpFront] gives by the vendored parser) and [HiRedis] (what
    [CacheConn] needs of hiredis: a command and its reply, which is what
    [Hiredis.calls_refine_server] gives).

    Operations that hold a mutex from start to end are one step.  The pools are step
    relations, since a thread waits inside them ([ConnPool]); the comet process is a step
    relation over connections, received bytes, worker tasks and gRPC calls ([CometMain]);
    a TCP connection is one over the poller's events, the functors queued in its loop and in the server's, the calls of the
    user's callbacks, those of other threads, each in its test of the state, its store and
    its functor, and the end of the server ([TcpConnection]); so are the loop with the
    threads that queue functors and wake it ([EventLoop]) and the thread pool with its two
    conditions ([ThreadPool]).
    In the logic service, what other threads do to the pools while a thread waits is the
    argument [others] of the operations.

    ** What the theorems show

    - End to end ([EndToEnd]): a forwarded chat message reaches exactly the online
      subscribers of its room, if the room's id is UTF-8, without which the job drops it
      (protobuf's rule for strings, [PushMsgLaws]); a created room becomes known to everybody online; a session
      has at the comet service the identity that the logic service finds; the comet service
      starts with the rooms of the logic service.
    - WebSocket: frames are received whole and in order however TCP cuts them, built and
      parsed back at every length, unmasked; the receive loop ends unless a length wraps to
      zero, and then it does not; Base64 is RFC 4648.
    - Comet state: a registered user's connection is authenticated as that user in every
      reachable state; a client's frame touches nobody else's connection; the topics refine
      the history of their operations, as long as no topic that exists is deleted (which the
      code does not do when asked); broadcasts deliver once.
    - Requests between the services carry the identity of the session and are parsed as
      they were written; the handshake without a cookie is answered and left open.
    - Pools: no connection is lent twice, no more than the maximum exists, no wake-up is
      lost, and no request of the logic service leaks a connection, by any path.
    - Storage: messages stored are the history that is read, newest first, page by page;
      batches are inserted with matching placeholders; rooms and users are recorded only by
      an executed statement; a login is accepted only for a matching password.
    - Redis: commands are exactly the argument vectors meant, whatever the arguments
      contain; replies are read whole however TCP cuts them; no bytes make the reader leave
      its buffers, its stack or its objects, and an error leaks nothing; a sequence of
      commands returns the server's replies in order; numbers are parsed exactly.
    - HTTP: whatever its bytes, callbacks and history, the parser stays inside its tables and
      buffers; a well-formed request is reported exactly; a login is answered once however
      TCP cuts it; the size of a head is bounded, and that of a body wraps; the fields of a
      URL lie in it, and its port is what its digits say.
    - TCP: what is sent on a connection leaves it in order, once, and gets out when there is
      room to write; no assertion of a connection fails in any order of events, as long as
      the server lives and no other thread stores the state of a connection that has gone
      down since it looked (the source's race, which a ghost flag marks), and the user hears
      that it is up, its messages, and that it is down; a buffer is a queue of bytes, up to
      the largest size of a vector, beyond which its sizes wrap.
    - Threads: a loop runs the functors queued for it once each, in order, and never sleeps
      on one but those that its own thread queued before [loop()]; the poller watches exactly what its channels ask for; a pool's tasks are taken
      in order, nobody waits for ever for a task or for room, and [stop] returns.
    - Digests: however its input is cut, the object gives the MD5 of RFC 1321.
    - Helpers: SQL templates, configuration files (round trip, typed fields), HTTP headers.

    ** Fuel

    [frame_loop] takes the number of its iterations; one more than the number of bytes is
    enough unless an announced total wraps to zero ([WsFrame.ws_loop_terminates]), and then
    no number is ([WsFrame.ws_zero_total_diverges]).  [fetch_rooms] has one more than the
    rows of the result, which the laws of [MySqlRows] make enough.  [drain] (the loop of
    [KafkaProducer::close]) ends within the length of the queue when every poll shortens it
    ([Kafka.drain_ends]).  The other fuels ([dec_digits], [url_decode_loop],
    [mem_forward], [fmt_loop], [countDigits_loop]) are given at the calls as the number of
    digits, bytes or positions left.  [process_loop] has two more than the bytes it is
    given, which each of its rounds shortens; [free_fuel] the number of cells; the loops of
    [redisGetReply] as many rounds as bytes and interruptions ([Hiredis.fits]).
    [http_parser_execute] has one iteration more than bytes, and a byte is executed at most
    four times ([REEXECUTIONS]), which [HttpSafe.execute_safe] shows to be enough.
    [Md5.Digest.update_blocks] has one round more than bytes; a round takes 64, below 4 GiB.
    The endless loop of the job is any number of its iterations ([job_loop]).

    ** Not modelled

    Logging and [std::cout]; signals, thread creation and argument parsing beyond the path of
    the configuration; of muduo, the timers (which no service uses), the acceptor, the
    creation of threads and the life of the objects (the services' models get its callbacks
    as steps); running out of memory; the asynchronous half of hiredis and its sockets; SHA-1, jsoncpp, libcurl,
    librdkafka, gRPC and protobuf with its generated code (parameters); [parseRoomHistoryParams], [getSubdirectoryFromHttpRequest] and
    [deliveryCallback], which nothing calls or which only log; the null member that a
    non-const [operator[]] of jsoncpp adds while it reads; the order of unordered
    containers, on which no statement depends; the interleaving of two requests inside the
    logic service outside the pools; the network between the services, which [EndToEnd]
    takes to carry the bytes of requests and answers. *)

From Stdlib Require Export ZArith Ascii Lia.
From stdpp Require Export strings list gmap.

#[export] Set Default Goal Selector "!".

(** ** Bytes, characters and C++ strings

    A [std::string] (and any [char*] buffer) is a list of bytes.  The byte type
    is [ascii]: 256 values, so every string is well formed by typing. *)

Abbreviation str := (list ascii).

Definition cstr (s : string) : str := String.list_ascii_of_string s.
Coercion cstr : string >-> list.

(** Text with its double quotes written as single quotes (JSON in the source). *)
Definition dq (s : string) : str :=
  (λ c, if bool_decide (c = "'"%char) then ascii_of_N 34 else c) <$> cstr s.

(** [(uint8_t)c] *)
Definition u8 (c : ascii) : Z := Z.of_N (N_of_ascii c).

(** [static_cast<char>(z)]: the low eight bits of [z]. *)
Definition chr (z : Z) : ascii := ascii_of_N (Z.to_N (z `mod` 256)).

(** The value of an unsigned [w]-bit integer after wrap-around. *)
Definition wrap (w z : Z) : Z := z `mod` 2 ^ w.

(** The value of a signed (two's complement) [w]-bit integer. *)
Definition swrap (w z : Z) : Z := (z + 2 ^ (w - 1)) `mod` 2 ^ w - 2 ^ (w - 1).

Abbreviation u16 := (wrap 16).
Abbreviation u32 := (wrap 32).
Abbreviation u64 := (wrap 64).
Abbreviation i32 := (swrap 32).

Definition NUL : ascii := chr 0.
Definition LF : ascii := chr 10.
Definition CR : ascii := chr 13.
Definition TAB : ascii := chr 9.
Definition CRLF : str := [CR; LF].

(** ** Outcomes of a C++ computation

    [Ok v]: the call returns.  [Throw e]: a C++ exception propagates.
    [Undef u]: the execution is undefined (the standard promises nothing). *)

Inductive cxx_exn : Type :=
  | OutOfRange        (* std::out_of_range *)
  | LogicErr          (* std::logic_error, e.g. a std::string from a null char* *)
  | JsonError         (* Json::LogicError / Json::RuntimeError *).

Inductive ub : Type :=
  | OutOfBounds       (* read or write outside an object *)
  | NullDeref         (* dereference of a null pointer *)
  | UninitRead        (* read of an indeterminate value *)
  | SignedOverflow    (* of a signed integer *)
  | EnumRange         (* conversion to an enumeration that has no such value *)
  | Dangling          (* use of an object after its destruction *)
  | AssertFailed      (* not undefined: [assert] ends the process *).

Inductive result (A : Type) : Type :=
  | Ok (a : A)
  | Throw (e : cxx_exn)
  | Undef (u : ub).
Arguments Ok {A} _.
Arguments Throw {A} _.
Arguments Undef {A} _.

Definition rbind {A B} (m : result A) (k : A → result B) : result B :=
  match m with
  | Ok a => k a
  | Throw e => Throw e
  | Undef u => Undef u
  end.

Declare Scope cxx_scope.
Delimit Scope cxx_scope with cxx.
Open Scope cxx_scope.

Notation "'let*' x ':=' m 'in' k" := (rbind m (λ x, k))
  (at level 10, x pattern, m at level 100, k at level 200)
  : cxx_scope.

Definition is_Ok {A} (m : result A) : Prop := ∃ a, m = Ok a.

#[export] Instance cxx_exn_eq_dec : EqDecision cxx_exn.
Proof. solve_decision. Defined.

#[export] Instance ub_eq_dec : EqDecision ub.
Proof. solve_decision. Defined.

#[export] Instance result_eq_dec {A} `{EqDecision A} : EqDecision (result A).
Proof. solve_decision. Defined.

(** ** Byte arithmetic *)

Lemma u8_range c : (0 ≤ u8 c < 256)%Z.
Proof.
  unfold u8. split; [lia|].
  pose proof (N_ascii_bounded c). lia.
Qed.

Lemma u8_chr z : u8 (chr z) = (z `mod` 256)%Z.
Proof.
  unfold u8, chr. pose proof (Z.mod_pos_bound z 256 ltac:(lia)).
  rewrite N_ascii_embedding by lia. lia.
Qed.

Lemma chr_u8 c : chr (u8 c) = c.
Proof.
  unfold chr. rewrite Z.mod_small by apply u8_range.
  unfold u8. rewrite N2Z.id. apply ascii_N_embedding.
Qed.

Lemma u8_inj c d : u8 c = u8 d → c = d.
Proof. intros H. by rewrite <- (chr_u8 c), H, chr_u8. Qed.

Lemma u8_chr_small z : (0 ≤ z < 256)%Z → u8 (chr z) = z.
Proof. intros H. rewrite u8_chr. by apply Z.mod_small. Qed.

Lemma wrap_small w z : (0 ≤ z < 2 ^ w)%Z → wrap w z = z.
Proof. apply Z.mod_small. Qed.

Lemma wrap_range w z : (0 ≤ w)%Z → (0 ≤ wrap w z < 2 ^ w)%Z.
Proof. intros. apply Z.mod_pos_bound. lia. Qed.

Lemma wrap_swrap w z : wrap w (swrap w z) = wrap w z.
Proof. unfold wrap, swrap. rewrite Zminus_mod_idemp_l. f_equal. lia. Qed.

Lemma swrap_small w z : (0 < w)%Z → (- 2 ^ (w - 1) ≤ z < 2 ^ (w - 1))%Z → swrap w z = z.
Proof.
  intros Hw Hz. unfold swrap. assert (2 ^ w = 2 * 2 ^ (w - 1))%Z as ->.
  { rewrite <- Z.pow_succ_r by lia. f_equal. lia. }
  rewrite Z.mod_small; lia.
Qed.

(** Finite checks over the 256 byte values. *)
Definition all_bytes : list ascii := (λ n : nat, chr (Z.of_nat n)) <$> seq 0 256.

Lemma all_bytes_complete c : c ∈ all_bytes.
Proof.
  unfold all_bytes. apply list_elem_of_fmap. exists (Z.to_nat (u8 c)).
  pose proof (u8_range c). split.
  - rewrite Z2Nat.id by lia. by rewrite chr_u8.
  - apply elem_of_seq. lia.
Qed.

Lemma byte_forallb (P : ascii → bool) c :
  forallb P all_bytes = true → P c = true.
Proof.
  intros H. rewrite forallb_forall in H. apply H.
  apply list_elem_of_In, all_bytes_complete.
Qed.

Create HintDb bytes discriminated.
Create Rewrite HintDb bytes.
#[export] Hint Resolve u8_range all_bytes_complete : bytes.
#[export] Hint Rewrite chr_u8 u8_chr : bytes.

(** An equation between integers that depend on one byte [c]: check 256 cases. *)
Ltac byte_decide c :=
  apply Z.eqb_eq;
  match goal with
  | |- ?b = true =>
      let P := eval pattern c in b in
      match P with ?f _ => apply (byte_forallb f c) end
  end; vm_compute; reflexivity.

(** Ranges of the bytes in the context. *)
Ltac u8_ranges :=
  repeat match goal with
  | |- context [u8 ?c] =>
      lazymatch goal with
      | _ : (0 ≤ u8 c < 256)%Z |- _ => fail
      | _ => pose proof (u8_range c)
      end
  end.

(** Goals about [/] and [mod] by constants. *)
Ltac zdiv := Z.to_euclidean_division_equations; nia.

(** Induction on a list three elements at a time. *)
Lemma list_ind3 {A} (P : list A → Prop) :
  P [] → (∀ a, P [a]) → (∀ a b, P [a; b]) →
  (∀ a b c l, P l → P (a :: b :: c :: l)) → ∀ l, P l.
Proof.
  intros H0 H1 H2 H3 l.
  enough (H : P l ∧ (∀ a, P (a :: l)) ∧ (∀ a b, P (a :: b :: l))) by apply H.
  induction l as [|x l (IH0 & IH1 & IH2)]; [by auto|].
  split_and!; [by apply IH1|by intros; apply IH2|]. intros a b. by apply H3.
Qed.

(** ** [std::string] operations

    A [size_t] is a [Z] in [0, 2^64); [npos] is [2^64 - 1]. *)

Definition npos : Z := 2 ^ 64 - 1.

(** [s.size()] *)
Definition slen (s : str) : Z := Z.of_nat (length s).

Fixpoint starts_with (pat s : str) : bool :=
  match pat, s with
  | [], _ => true
  | _, [] => false
  | p :: pat', c :: s' => bool_decide (p = c) && starts_with pat' s'
  end.

Fixpoint find_nat (pat s : str) (pos : nat) : option nat :=
  if starts_with pat s then Some pos
  else match s with
       | [] => None
       | _ :: s' => find_nat pat s' (S pos)
       end.

Definition of_pos (o : option nat) : Z :=
  match o with Some n => Z.of_nat n | None => npos end.

(** [s.find(pat, from)] *)
Definition sfind (s pat : str) (from : Z) : Z :=
  if (from <=? slen s)%Z
  then of_pos (find_nat pat (drop (Z.to_nat from) s) (Z.to_nat from))
  else npos.

Fixpoint find_char_nat (P : ascii → bool) (s : str) (pos : nat) : option nat :=
  match s with
  | [] => None
  | c :: s' => if P c then Some pos else find_char_nat P s' (S pos)
  end.

(** [s.find_first_of(set, from)], and with a singleton set [s.find(ch, from)]. *)
Definition sfind_first_of (s set : str) (from : Z) : Z :=
  if (from <=? slen s)%Z
  then of_pos (find_char_nat (λ c, bool_decide (c ∈ set))
                 (drop (Z.to_nat from) s) (Z.to_nat from))
  else npos.

Definition sfind_char (s : str) (c : ascii) (from : Z) : Z := sfind_first_of s [c] from.

(** [s.substr(pos, n)]: throws when [pos > size()], clips [n] to the rest. *)
Definition substr (s : str) (pos n : Z) : result str :=
  if (slen s <? pos)%Z then Throw OutOfRange
  else Ok (take (Z.to_nat (Z.min n (slen s - pos))) (drop (Z.to_nat pos) s)).

(** [s.substr(pos)] *)
Definition substr_from (s : str) (pos : Z) : result str :=
  if (slen s <? pos)%Z then Throw OutOfRange else Ok (drop (Z.to_nat pos) s).

(** [((const uint8_t* )s.data())[i]]: the terminating NUL at [size()] is readable,
    anything beyond it is not part of the object. *)
Definition data_at (s : str) (i : Z) : result Z :=
  if (i <? 0)%Z then Undef OutOfBounds else
  match s !! Z.to_nat i with
  | Some c => Ok (u8 c)
  | None => if (i =? slen s)%Z then Ok 0%Z else Undef OutOfBounds
  end.

(** [p.c_str()] read as a C string: the bytes before the first NUL. *)
Fixpoint c_str (s : str) : str :=
  match s with
  | [] => []
  | c :: s' => if bool_decide (c = NUL) then [] else c :: c_str s'
  end.

Definition is_digit (c : ascii) : bool := ((48 <=? u8 c) && (u8 c <=? 57))%Z.
Definition is_alpha (c : ascii) : bool :=
  ((65 <=? u8 c) && (u8 c <=? 90) || (97 <=? u8 c) && (u8 c <=? 122))%Z.
Definition is_alnum (c : ascii) : bool := is_digit c || is_alpha c.
Definition to_lower (c : ascii) : ascii :=
  if ((65 <=? u8 c) && (u8 c <=? 90))%Z then chr (u8 c + 32) else c.

(** [isspace] in the C locale *)
Definition is_space (c : ascii) : bool :=
  ((u8 c =? 32) || (9 <=? u8 c) && (u8 c <=? 13))%Z.

(** Decimal notation of a non-negative number, most significant digit first.
    [fuel] bounds the number of digits. *)
Fixpoint dec_digits (fuel : nat) (z : Z) (acc : str) : str :=
  match fuel with
  | O => acc
  | S fuel' =>
      let acc' := chr (48 + z `mod` 10) :: acc in
      if (z <? 10)%Z then acc' else dec_digits fuel' (z / 10) acc'
  end.

(** [std::to_string] of an integer of at most 64 bits (20 digits). *)
Definition to_string (z : Z) : str :=
  if (z <? 0)%Z then chr 45 :: dec_digits 20 (- z) [] else dec_digits 20 z [].

Fixpoint digits_value (acc : Z) (s : str) : Z :=
  match s with
  | c :: s' => if is_digit c then digits_value (acc * 10 + (u8 c - 48))%Z s' else acc
  | [] => acc
  end.

Fixpoint skip_space (s : str) : str :=
  match s with
  | c :: s' => if is_space c then skip_space s' else s
  | [] => []
  end.

(** [atoi]: leading blanks, an optional sign, then decimal digits.  glibc computes
    [strtol] (saturating at 64 bits) and truncates to [int]. *)
Definition sat64 (z : Z) : Z := Z.max (- 2 ^ 63) (Z.min (2 ^ 63 - 1) z).
Definition atoi (s : str) : Z :=
  let s := skip_space (c_str s) in
  match s with
  | c :: s' =>
      if bool_decide (c = chr 45) then i32 (sat64 (- digits_value 0 s'))
      else if bool_decide (c = chr 43) then i32 (sat64 (digits_value 0 s'))
      else i32 (sat64 (digits_value 0 s))
  | [] => 0%Z
  end.

(** [std::getline(stream, line, delim)] repeated: the list of lines produced.  A
    trailing delimiter does not yield an extra empty line. *)
Fixpoint lines_on (delim : ascii) (cur s : str) : list str :=
  match s with
  | [] => match cur with [] => [] | _ => [rev cur] end
  | c :: s' => if bool_decide (c = delim) then rev cur :: lines_on delim [] s'
               else lines_on delim (c :: cur) s'
  end.
Definition getlines (delim : ascii) (s : str) : list str := lines_on delim [] s.

(** [snprintf(buf, n, ...)] stores at most [n - 1] bytes of the formatted text. *)
Definition snprintf_trunc (n : nat) (s : str) : str := take (n - 1) s.

(** ** Facts about the string operations *)

Lemma slen_nonneg s : (0 ≤ slen s)%Z.
Proof. unfold slen. lia. Qed.

Lemma slen_app s t : slen (s ++ t) = (slen s + slen t)%Z.
Proof. unfold slen. rewrite length_app. lia. Qed.

Lemma slen_cons c s : slen (c :: s) = (1 + slen s)%Z.
Proof. unfold slen. simpl length. lia. Qed.

Lemma slen_nil : slen [] = 0%Z.
Proof. done. Qed.

Lemma slen_pos_cons c s : (0 < slen (c :: s))%Z.
Proof. rewrite slen_cons. pose proof (slen_nonneg s). lia. Qed.

Create Rewrite HintDb strs.
#[export] Hint Rewrite slen_app slen_cons slen_nil : strs.
Create HintDb strs discriminated.
#[export] Hint Resolve slen_nonneg slen_pos_cons : strs.

(** Arithmetic about string lengths. *)
Ltac slia :=
  autorewrite with strs in *;
  repeat match goal with
  | |- context [slen ?s] =>
      lazymatch goal with
      | _ : (0 ≤ slen s)%Z |- _ => fail
      | _ => pose proof (slen_nonneg s)
      end
  | _ : context [slen ?s] |- _ =>
      lazymatch goal with
      | _ : (0 ≤ slen s)%Z |- _ => fail
      | _ => pose proof (slen_nonneg s)
      end
  end; unfold slen in *; lia.

Lemma data_at_lookup s n c : s !! n = Some c → data_at s (Z.of_nat n) = Ok (u8 c).
Proof.
  intros H. unfold data_at. rewrite (proj2 (Z.ltb_ge _ _)) by lia.
  by rewrite Nat2Z.id, H.
Qed.

(** Evaluate reads at literal indices of a buffer whose first bytes are explicit. *)
Ltac data_at_eval :=
  repeat match goal with
  | |- context [data_at ?s ?i] =>
      let n := eval cbv in (Z.to_nat i) in
      let r := eval cbn in (s !! n) in
      match r with
      | Some ?c =>
          rewrite (data_at_lookup s n c eq_refl : data_at s i = Ok (u8 c)); cbn [rbind]
      end
  end.

Lemma data_at_Ok s i : (0 ≤ i ≤ slen s)%Z → ∃ b, data_at s i = Ok b ∧ (0 ≤ b < 256)%Z.
Proof.
  intros Hi. unfold data_at. rewrite (proj2 (Z.ltb_ge _ _)) by lia.
  destruct (s !! Z.to_nat i) as [c|] eqn:E; [eauto using u8_range|].
  apply lookup_ge_None in E. rewrite (proj2 (Z.eqb_eq _ _)) by slia. eexists; split; [done|lia].
Qed.

Lemma data_at_app s t i : (0 ≤ i < slen s)%Z → data_at (s ++ t) i = data_at s i.
Proof.
  intros Hi. unfold data_at. rewrite (proj2 (Z.ltb_ge _ _)) by lia.
  rewrite lookup_app_l by slia.
  destruct (lookup_lt_is_Some_2 s (Z.to_nat i)) as [c ->]; [slia|done].
Qed.

Lemma data_at_app_r s t i : (0 ≤ i)%Z → data_at (s ++ t) (slen s + i) = data_at t i.
Proof.
  intros Hi. unfold data_at. pose proof (slen_nonneg s).
  rewrite !(proj2 (Z.ltb_ge _ _)) by lia.
  rewrite lookup_app_r by slia. rewrite slen_app.
  replace (Z.to_nat (slen s + i) - length s)%nat with (Z.to_nat i) by slia.
  destruct (t !! _); [done|].
  destruct (Z.eqb_spec i (slen t)), (Z.eqb_spec (slen s + i) (slen s + slen t)); done || lia.
Qed.

Lemma substr_prefix s t : substr (s ++ t) 0 (slen s) = Ok s.
Proof.
  unfold substr. rewrite (proj2 (Z.ltb_ge _ _)) by slia. f_equal.
  change (Z.to_nat 0) with 0%nat. rewrite drop_0.
  rewrite Z.min_l by slia. unfold slen. by rewrite Nat2Z.id, take_app_length.
Qed.

Lemma substr_from_suffix s t : substr_from (s ++ t) (slen s) = Ok t.
Proof.
  unfold substr_from. rewrite (proj2 (Z.ltb_ge _ _)) by slia. f_equal.
  unfold slen. by rewrite Nat2Z.id, drop_app_length.
Qed.

(** [(x << k) | y] with [y] below [2 ^ k] is [x * 2 ^ k + y]. *)
Lemma lor_shiftl_add x y k :
  (0 ≤ k)%Z → (0 ≤ y < 2 ^ k)%Z → Z.lor (Z.shiftl x k) y = (x * 2 ^ k + y)%Z.
Proof.
  intros Hk Hy. rewrite <- Z.shiftl_mul_pow2 by done. symmetry. apply Z.add_nocarry_lor.
  apply Z.bits_inj'. intros i Hi. rewrite Z.land_spec, Z.bits_0, Z.shiftl_spec by done.
  destruct (decide (i < k)%Z).
  - by rewrite Z.testbit_neg_r by lia.
  - destruct (decide (y = 0)%Z) as [->|]; [by rewrite Z.bits_0, andb_false_r|].
    rewrite (Z.bits_above_log2 y i), andb_false_r; [done|lia|].
    apply Z.lt_le_trans with k; [|lia]. apply Z.log2_lt_pow2; lia.
Qed.

Arguments data_at : simpl never.
Arguments substr : simpl never.
Arguments substr_from : simpl never.
Arguments slen : simpl never.

(** ** Searching *)

Lemma starts_with_app pat s : starts_with pat (pat ++ s) = true.
Proof. induction pat as [|c pat IH]; cbn; [by destruct s|]. by rewrite bool_decide_true, IH. Qed.

(** The first occurrence of [pat] in [pre ++ pat ++ tl] when none starts in [pre]. *)
Definition no_occurrence (pat pre tl : str) : Prop :=
  ∀ k, (k < length pre)%nat → starts_with pat (drop k (pre ++ tl)) = false.

Lemma find_nat_first pat pre tl n :
  no_occurrence pat pre (pat ++ tl) → find_nat pat (pre ++ pat ++ tl) n = Some (n + length pre)%nat.
Proof.
  revert n. induction pre as [|c pre IH]; intros n Hno.
  - cbn [app length]. rewrite Nat.add_0_r.
    destruct (pat ++ tl) as [|d s] eqn:E; cbn [find_nat]; by rewrite <- E, starts_with_app.
  - cbn [app find_nat]. pose proof (Hno 0%nat ltac:(simpl; lia)) as H0.
    cbn [drop app] in H0. rewrite H0, IH.
    + f_equal. simpl. lia.
    + intros k Hk. apply (Hno (S k)). simpl. lia.
Qed.

Lemma sfind_first s pat pre tl :
  s = pre ++ pat ++ tl → no_occurrence pat pre (pat ++ tl) → sfind s pat 0 = slen pre.
Proof.
  intros -> Hno. unfold sfind. rewrite (proj2 (Z.leb_le _ _)) by apply slen_nonneg.
  change (Z.to_nat 0) with 0%nat. rewrite drop_0, find_nat_first by done. done.
Qed.

Lemma find_char_nat_first P pre c tl n :
  Forall (λ d, P d = false) pre → P c = true →
  find_char_nat P (pre ++ c :: tl) n = Some (n + length pre)%nat.
Proof.
  revert n. induction pre as [|d pre IH]; intros n Hpre Hc; cbn.
  - by rewrite Hc, Nat.add_0_r.
  - apply Forall_cons in Hpre as [-> Hpre]. rewrite IH by done. f_equal. lia.
Qed.

Lemma find_char_nat_None P s n : Forall (λ d, P d = false) s → find_char_nat P s n = None.
Proof.
  revert n. induction s as [|d s IH]; intros n Hs; cbn; [done|].
  apply Forall_cons in Hs as [-> Hs]. by apply IH.
Qed.

(** ** Decimal conversion *)

Lemma chr_digit d : (0 ≤ d < 10)%Z → u8 (chr (48 + d)) = (48 + d)%Z.
Proof. intros. apply u8_chr_small. lia. Qed.

Lemma is_digit_chr d : (0 ≤ d < 10)%Z → is_digit (chr (48 + d)) = true.
Proof.
  intros. unfold is_digit. rewrite chr_digit by done.
  apply andb_true_iff. split; apply Z.leb_le; lia.
Qed.

(** Every digit sequence produced is non-empty, made of digits, and denotes [z]. *)
Lemma dec_digits_spec fuel z acc :
  (0 ≤ z < 10 ^ Z.of_nat fuel)%Z → (0 < fuel)%nat →
  ∃ d ds, dec_digits fuel z acc = d :: ds ++ acc ∧ Forall (λ c, is_digit c = true) (d :: ds) ∧
          ∀ a t, digits_value a (d :: ds ++ t) = digits_value (a * 10 ^ (slen (d :: ds)) + z) t.
Proof.
  revert z acc. induction fuel as [|fuel IH]; intros z acc Hz Hf; [lia|].
  cbn [dec_digits]. pose proof (Z.mod_pos_bound z 10 ltac:(lia)) as Hm.
  destruct (Z.ltb_spec z 10) as [Hlt|Hge].
  - rewrite (Z.mod_small z 10) in * by lia. exists (chr (48 + z)), []. split_and!; [done| |].
    + constructor; [by apply is_digit_chr|constructor].
    + intros a t. cbn [digits_value app]. rewrite is_digit_chr, chr_digit by lia.
      f_equal. change (slen [_]) with 1%Z. lia.
  - rewrite Nat2Z.inj_succ, Z.pow_succ_r in Hz by lia.
    destruct (IH (z / 10)%Z (chr (48 + z `mod` 10) :: acc)) as (d & ds & -> & Hd & Hv).
    { zdiv. }
    { destruct fuel; [simpl in Hz; lia|lia]. }
    exists d, (ds ++ [chr (48 + z `mod` 10)]). split_and!.
    + by rewrite <- app_assoc.
    + rewrite app_comm_cons. apply Forall_app. split; [done|].
      constructor; [by apply is_digit_chr|constructor].
    + intros a t. rewrite <- app_assoc, Hv. cbn [digits_value app].
      rewrite is_digit_chr, chr_digit by done. f_equal.
      rewrite app_comm_cons, slen_app. change (slen [_]) with 1%Z.
      rewrite Z.pow_add_r by (try apply slen_nonneg; lia).
      pose proof (Z.div_mod z 10 ltac:(lia)). lia.
Qed.

Lemma digits_value_app a s t :
  Forall (λ c, is_digit c = true) s → digits_value a (s ++ t) = digits_value (digits_value a s) t.
Proof.
  revert a. induction s as [|c s IH]; intros a H; [done|]. apply Forall_cons in H as [Hc H].
  cbn. rewrite Hc. by apply IH.
Qed.

Lemma digits_value_ge s a :
  Forall (λ c, is_digit c = true) s → (0 ≤ a)%Z → (a ≤ digits_value a s)%Z.
Proof.
  revert a. induction s as [|c s IH]; intros a Hs Ha; [done|].
  apply Forall_cons in Hs as [Hc Hs]. cbn [digits_value]. rewrite Hc.
  unfold is_digit in Hc. apply andb_true_iff in Hc as [H1%Z.leb_le H2%Z.leb_le].
  specialize (IH (a * 10 + (u8 c - 48))%Z Hs ltac:(lia)). lia.
Qed.

Lemma to_string_nonneg z : (0 ≤ z)%Z → to_string z = dec_digits 20 z [].
Proof. intros. unfold to_string. by rewrite (proj2 (Z.ltb_ge _ _)). Qed.

Lemma to_string_digits z :
  (0 ≤ z < 10 ^ 20)%Z →
  ∃ d ds, to_string z = d :: ds ∧ Forall (λ c, is_digit c = true) (d :: ds) ∧
          digits_value 0 (d :: ds) = z.
Proof.
  intros Hz. rewrite to_string_nonneg by lia.
  destruct (dec_digits_spec 20 z [] Hz ltac:(lia)) as (d & ds & -> & Hd & Hv).
  exists d, ds. rewrite app_nil_r. split_and!; [done|done|].
  specialize (Hv 0%Z []). rewrite app_nil_r in Hv. rewrite Hv. done.
Qed.

Lemma digit_not_special c :
  is_digit c = true → is_space c = false ∧ c ≠ NUL ∧ c ≠ chr 45 ∧ c ≠ chr 43.
Proof.
  unfold is_digit. rewrite andb_true_iff, !Z.leb_le. intros [H1 H2].
  assert (∀ z, (0 ≤ z < 48)%Z → c ≠ chr z).
  { intros z Hz ->. rewrite u8_chr_small in * by lia. lia. }
  split_and!; try (apply H; lia). unfold is_space.
  rewrite orb_false_iff, andb_false_iff, Z.eqb_neq, !Z.leb_gt. lia.
Qed.

Lemma c_str_id s : Forall (λ c, c ≠ NUL) s → c_str s = s.
Proof.
  induction s as [|c s IH]; intros H; [done|]. apply Forall_cons in H as [Hc H].
  cbn. by rewrite bool_decide_false, IH.
Qed.

(** [atoi(std::to_string(z).c_str())] *)
Lemma atoi_to_string z : (0 ≤ z < 2 ^ 63)%Z → atoi (to_string z) = i32 z.
Proof.
  intros Hz. destruct (to_string_digits z ltac:(lia)) as (d & ds & -> & Hd & Hv).
  unfold atoi. rewrite c_str_id.
  2: { eapply Forall_impl; [exact Hd|]. intros c Hc. apply (digit_not_special c Hc). }
  apply Forall_cons in Hd as [Hd _]. apply digit_not_special in Hd as (Hs & _ & Hm & Hp).
  cbn [skip_space]. rewrite Hs, !bool_decide_false by done. rewrite Hv.
  unfold sat64. f_equal. lia.
Qed.

(** ** Effects

    Calls to the outside (an HTTP client, a database or Redis connection, a Kafka
    producer, a random generator) go through a class that describes the library, over an
    abstract world [W].  A computation consumes and produces the world; the world keeps
    the effects made before an exception. *)

Definition io (W A : Type) : Type := W → result A * W.

Definition iret {W A} (a : A) : io W A := λ w, (Ok a, w).
Definition ilift {W A} (m : result A) : io W A := λ w, (m, w).
Definition ibind {W A B} (m : io W A) (k : A → io W B) : io W B := λ w,
  match m w with
  | (Ok a, w') => k a w'
  | (Throw e, w') => (Throw e, w')
  | (Undef u, w') => (Undef u, w')
  end.

Notation "'do*' x ':=' m 'in' k" := (ibind m (λ x, k))
  (at level 10, x pattern, m at level 100, k at level 200)
  : cxx_scope.

(** [try { m } catch (const std::exception&) { return a; }] *)
Definition icatch {W A} (m : io W A) (a : A) : io W A := λ w,
  match m w with
  | (Throw _, w') => (Ok a, w')
  | r => r
  end.

Lemma ibind_Ok {W A B} (m : io W A) (k : A → io W B) w a w' :
  m w = (Ok a, w') → ibind m k w = k a w'.
Proof. intros H. unfold ibind. by rewrite H. Qed.

Lemma ibind_lift {W A B} (m : result A) (k : A → io W B) a :
  m = Ok a → ibind (ilift m) k = k a.
Proof. by intros ->. Qed.

Lemma ibind_ext {W A B} (m : io W A) (f g : A → io W B) w :
  (∀ a w', f a w' = g a w') → ibind m f w = ibind m g w.
Proof. intros H. unfold ibind. destruct (m w) as [[a|e|u] w']; [apply H|done..]. Qed.

(** An outcome [Ok] of a sequence comes from an outcome [Ok] of its first part. *)
Lemma ibind_inv {W A B} (m : io W A) (k : A → io W B) w b w' :
  ibind m k w = (Ok b, w') → ∃ a w1, m w = (Ok a, w1) ∧ k a w1 = (Ok b, w').
Proof. unfold ibind. destruct (m w) as [[a|e|u] w1]; [eauto|done..]. Qed.

Lemma rbind_inv {A B} (m : result A) (k : A → result B) b :
  rbind m k = Ok b → ∃ a, m = Ok a ∧ k a = Ok b.
Proof. destruct m; [eauto|done..]. Qed.

(** Decompose a hypothesis that a monadic computation returned. *)
Ltac io_inv :=
  repeat match goal with
  | H : ibind _ _ _ = (Ok _, _) |- _ => apply ibind_inv in H as (? & ? & ? & ?)
  | H : rbind _ _ = Ok _ |- _ => apply rbind_inv in H as (? & ? & ?)
  | H : ilift _ _ = (Ok _, _) |- _ => injection H as ? ?
  | H : iret _ _ = (Ok _, _) |- _ => injection H as ? ?
  end.
