(* ===== verification/Json.v ===== *)
(** The interface of jsoncpp ([Json::Value], [Json::Reader], [Json::FastWriter]).

    jsoncpp is not part of the repository, so the handlers are modelled against a
    class of its operations; every theorem holds for any implementation of the
    class (and, where it says so, of its laws).  The last section gives one
    implementation, used by the witnesses. *)

From S2P Require Import Prelude.

(** Operations on a [Json::Value].  An access that jsoncpp rejects (for instance a
    member access on a string, or [asString] of an object) throws.  Reading
    [v[k]] for an absent key yields the null value. *)
Class JsonCpp (J : Type) : Type := {
  jnull : J;                                  (* Json::Value() *)
  jbool : bool → J;
  jint : Z → J;                               (* from int *)
  juint : Z → J;                              (* from Json::UInt64 *)
  jstring : str → J;
  jarray : J;                                 (* Json::arrayValue *)
  jset : J → str → J → result J;              (* v[k] = x *)
  jset_idx : J → nat → J → result J;          (* v[i] = x *)
  jappend : J → J → result J;                 (* v.append(x) *)
  jget : J → str → result J;                  (* v[k] *)
  jidx : J → nat → result J;                  (* v[i] *)
  jsize : J → nat;                            (* v.size() *)
  jelems : J → list J;                        (* the values a range-for visits *)
  jisMember : J → str → result bool;
  jisNull : J → bool;
  jisObject : J → bool;
  jisBool : J → bool;
  jasBool : J → result bool;
  jasString : J → result str;
  jasInt : J → result Z;
  jasInt64 : J → result Z;
  jparse : str → option J;                    (* Reader::parse, None when it fails *)
  jread : str → option J;                     (* CharReader::parse, None when it fails *)
  jwrite : J → str                            (* FastWriter::write *)
}.

(** [v.get(k, d)] *)
Definition jget_default {J} `{JsonCpp J} (v : J) (k : str) (d : J) : result J :=
  let* m := jisMember v k in if m then jget v k else Ok d.

(** A JSON object built by successive assignments [v[k1] = x1; v[k2] = x2; ...]
    to a default-constructed value. *)
Fixpoint jset_all {J} `{JsonCpp J} (v : J) (l : list (str * J)) : result J :=
  match l with
  | [] => Ok v
  | (k, x) :: l' => let* v' := jset v k x in jset_all v' l'
  end.
Definition jobj {J} `{JsonCpp J} (l : list (str * J)) : result J := jset_all jnull l.

Fixpoint jappend_all {J} `{JsonCpp J} (v : J) (l : list J) : result J :=
  match l with
  | [] => Ok v
  | x :: l' => let* v' := jappend v x in jappend_all v' l'
  end.

(** The most recent binding of a key in an association list. *)
Fixpoint assoc {V} (k : str) (l : list (str * V)) : option V :=
  match l with
  | [] => None
  | (k', x) :: l' => if bool_decide (k' = k) then Some x else assoc k l'
  end.

(** Documented behaviour of objects.  [jfields v l] reads: [v] is the null value or
    an object, and [l] lists its members, the latest assignment first. *)
Class JsonLaws (J : Type) `{JsonCpp J} : Type := {
  jfields : J → list (str * J) → Prop;
  jfields_null : jfields jnull [];
  jfields_set v l k x : jfields v l → ∃ v', jset v k x = Ok v' ∧ jfields v' ((k, x) :: l);
  jfields_get v l k : jfields v l → jget v k = Ok (default jnull (assoc k l));
  jfields_isMember v l k :
    jfields v l → jisMember v k = Ok (bool_decide (is_Some (assoc k l)));
  jfields_isObject v l k x : jfields v ((k, x) :: l) → jisObject v = true ∧ jisNull v = false;
  jasString_jstring s : jasString (jstring s) = Ok s;
  jisNull_jstring s : jisNull (jstring s) = false;
  jisNull_jnull : jisNull jnull = true;
  jasBool_jbool b : jasBool (jbool b) = Ok b;
  jisBool_jbool b : jisBool (jbool b) = true;
  jasInt64_juint z : (0 ≤ z < 2 ^ 63)%Z → jasInt64 (juint z) = Ok z;
  jisNull_juint z : jisNull (juint z) = false;
  (* [v] is an array with these elements *)
  jitems : J → list J → Prop;
  jitems_array : jitems jarray [];
  jitems_append v l x : jitems v l → ∃ v', jappend v x = Ok v' ∧ jitems v' (l ++ [x]);
  jitems_elems v l : jitems v l → jelems v = l;
  jitems_size v l : jitems v l → jsize v = length l;
  jitems_idx v l i x : jitems v l → l !! i = Some x → jidx v i = Ok x
}.

(** The text of [v] is read back as [v], and a C string holds it. *)
Definition parses_back {J} `{JsonCpp J} (v : J) : Prop :=
  jparse (jwrite v) = Some v ∧ c_str (jwrite v) = jwrite v.

Lemma assoc_elem {V} (l : list (str * V)) k x : NoDup l.*1 → (k, x) ∈ l → assoc k l = Some x.
Proof.
  induction l as [|[k' x'] l IH]; cbn; [by intros _ ?%elem_of_nil|].
  intros [Hn Hnd]%NoDup_cons [Heq|Hin]%elem_of_cons.
  - injection Heq as -> ->. by rewrite bool_decide_true.
  - rewrite bool_decide_false; [by apply IH|]. intros ->.
    apply Hn, list_elem_of_fmap. by exists (k, x).
Qed.

Lemma assoc_rev {V} (l : list (str * V)) k x :
  NoDup l.*1 → (k, x) ∈ l → assoc k (rev l) = Some x.
Proof.
  intros Hnd Hin. apply assoc_elem.
  - by rewrite <- (Permutation_rev l).
  - by rewrite <- (Permutation_rev l).
Qed.

Section Objects.
Context {J : Type} `{JL : JsonLaws J}.

Lemma jset_all_fields (l : list (str * J)) v l0 :
  jfields v l0 → ∃ v', jset_all v l = Ok v' ∧ jfields v' (rev l ++ l0).
Proof.
  revert v l0. induction l as [|[k x] l IH]; intros v l0 Hv; simpl.
  - eauto.
  - destruct (jfields_set v l0 k x Hv) as (v1 & -> & H1). simpl.
    destruct (IH _ _ H1) as (v' & -> & H'). exists v'. split; [done|].
    by rewrite <- app_assoc.
Qed.

(** An object built member by member is defined and holds exactly its members. *)
Lemma jobj_fields (l : list (str * J)) : ∃ v, jobj l = Ok v ∧ jfields v (rev l).
Proof.
  destruct (jset_all_fields l jnull [] jfields_null) as (v & Hv & Hf).
  rewrite app_nil_r in Hf. eauto.
Qed.

(** An array built by appending. *)
Lemma jappend_all_items (l : list J) v l0 :
  jitems v l0 → ∃ v', jappend_all v l = Ok v' ∧ jitems v' (l0 ++ l).
Proof.
  revert v l0. induction l as [|x l IH]; intros v l0 Hv; simpl.
  - rewrite app_nil_r. eauto.
  - destruct (jitems_append v l0 x Hv) as (v1 & -> & H1). simpl.
    destruct (IH _ _ H1) as (v' & -> & H'). exists v'. split; [done|].
    by rewrite <- app_assoc in H'.
Qed.

Lemma jobj_Ok (l : list (str * J)) : ∃ v, jobj l = Ok v.
Proof. destruct (jobj_fields l) as (v & Hv & _). eauto. Qed.

(** The members of an object just built; the side condition holds by computation. *)
Lemma jobj_get (l : list (str * J)) v k x :
  jobj l = Ok v → assoc k (rev l) = Some x → jget v k = Ok x.
Proof.
  intros Hv Hk. destruct (jobj_fields l) as (v' & Hv' & Hf). rewrite Hv in Hv'. injection Hv' as <-.
  by rewrite (jfields_get _ _ _ Hf), Hk.
Qed.

(** Reading an array by index. *)
Lemma jidx_Forall2 {A} (Q : A → J → Prop) v l (xs : list A) :
  jitems v l → Forall2 Q xs l → Forall2 (λ i x, ∃ o, jidx v i = Ok o ∧ Q x o) (seq 0 (jsize v)) xs.
Proof.
  intros Hv HQ. rewrite (jitems_size _ _ Hv). apply Forall2_same_length_lookup_2.
  - by rewrite length_seq, (Forall2_length _ _ _ HQ).
  - intros i j x [-> _]%lookup_seq Hx. destruct (Forall2_lookup_l _ _ _ _ _ HQ Hx) as (o & Ho & Hq).
    exists o. split; [by apply (jitems_idx _ l)|done].
Qed.

Lemma jobj_isMember (l : list (str * J)) v k :
  jobj l = Ok v → is_Some (assoc k (rev l)) → jisMember v k = Ok true.
Proof.
  intros Hv Hk. destruct (jobj_fields l) as (v' & Hv' & Hf). rewrite Hv in Hv'. injection Hv' as <-.
  rewrite (jfields_isMember _ _ _ Hf). by rewrite bool_decide_true.
Qed.
End Objects.

(** Read the members of the object that [H : jobj l = Ok v] built. *)
Ltac jget_in H :=
  match type of H with
  | jobj _ = Ok ?v =>
      repeat match goal with |- context [jget v ?k] => rewrite (jobj_get _ v k _ H eq_refl) end
  end.

Ltac jmember_in H :=
  match type of H with
  | jobj _ = Ok ?v =>
      repeat match goal with
      | |- context [jisMember v ?k] => rewrite (jobj_isMember _ v k H) by (eexists; reflexivity)
      end
  end.

(** ** A concrete implementation, for the witnesses

    Member order is insertion order; strings are written without escapes. *)
Module Mini.
#[warnings="-register-all"]
Inductive jv : Type :=
  | JNull | JBool (b : bool) | JInt (z : Z) | JStr (s : str)
  | JArr (l : list jv) | JObj (l : list (str * jv)).

Fixpoint put (l : list (str * jv)) (k : str) (x : jv) : list (str * jv) :=
  match l with
  | [] => [(k, x)]
  | (k', y) :: l' => if bool_decide (k' = k) then (k, x) :: l' else (k', y) :: put l' k x
  end.

Definition set (v : jv) (k : str) (x : jv) : result jv :=
  match v with
  | JNull => Ok (JObj [(k, x)])
  | JObj l => Ok (JObj (put l k x))
  | _ => Throw JsonError
  end.
Definition get (v : jv) (k : str) : result jv :=
  match v with
  | JNull => Ok JNull
  | JObj l => Ok (default JNull (assoc k l))
  | _ => Throw JsonError
  end.
Definition isMember (v : jv) (k : str) : result bool :=
  match v with
  | JNull => Ok false
  | JObj l => Ok (bool_decide (is_Some (assoc k l)))
  | _ => Throw JsonError
  end.
Definition asString (v : jv) : result str :=
  match v with
  | JNull => Ok []
  | JBool b => Ok (if b then "true" : str else "false")
  | JInt z => Ok (to_string z)
  | JStr s => Ok s
  | _ => Throw JsonError
  end.
Definition asInt (v : jv) : result Z :=
  match v with
  | JNull => Ok 0%Z
  | JBool b => Ok (if b then 1 else 0)%Z
  | JInt z => Ok z
  | _ => Throw JsonError
  end.
Definition elems (v : jv) : list jv :=
  match v with JArr l => l | JObj l => snd <$> l | _ => [] end.
Definition idx (v : jv) (i : nat) : result jv :=
  match v with
  | JNull => Ok JNull
  | JArr l => Ok (default JNull (l !! i))
  | _ => Throw JsonError
  end.
Definition append (v x : jv) : result jv :=
  match v with
  | JNull => Ok (JArr [x])
  | JArr l => Ok (JArr (l ++ [x]))
  | _ => Throw JsonError
  end.
Definition set_idx (v : jv) (i : nat) (x : jv) : result jv :=
  match v with
  | JNull => Ok (JArr (replicate i JNull ++ [x]))
  | JArr l => Ok (JArr (take i (l ++ replicate (i - length l) JNull) ++ x :: drop (S i) l))
  | _ => Throw JsonError
  end.

Definition quote : ascii := chr 34.
Definition write_str (s : str) : str := quote :: s ++ [quote].

Fixpoint write (v : jv) : str :=
  match v with
  | JNull => "null"
  | JBool b => if b then "true" else "false"
  | JInt z => to_string z
  | JStr s => write_str s
  | JArr l =>
      "[" ++ (fix go (first : bool) (l : list jv) : str :=
                match l with
                | [] => []
                | x :: l' => (if first then [] else "," : str) ++ write x ++ go false l'
                end) true l ++ "]"
  | JObj l =>
      "{" ++ (fix go (first : bool) (l : list (str * jv)) : str :=
                match l with
                | [] => []
                | (k, x) :: l' => (if first then [] else "," : str)
                                  ++ write_str k ++ ":" ++ write x ++ go false l'
                end) true l ++ "}"
  end.

Fixpoint until_quote (s acc : str) : option (str * str) :=
  match s with
  | [] => None
  | c :: s' => if bool_decide (c = quote) then Some (rev acc, s')
               else until_quote s' (c :: acc)
  end.
Fixpoint span_digits (s acc : str) : str * str :=
  match s with
  | c :: s' => if is_digit c then span_digits s' (c :: acc) else (rev acc, s)
  | [] => (rev acc, [])
  end.

Fixpoint parse_val (fuel : nat) (s : str) : option (jv * str) :=
  match fuel with O => None | S fuel =>
  match skip_space s with
  | [] => None
  | c :: s' =>
      if bool_decide (c = quote) then
        p ← until_quote s' []; Some (JStr p.1, p.2)
      else if bool_decide (c = "{"%char) then
        p ← parse_members fuel s' []; Some (JObj p.1, p.2)
      else if bool_decide (c = "["%char) then
        p ← parse_items fuel s' []; Some (JArr p.1, p.2)
      else if is_digit c then
        let p := span_digits (c :: s') [] in Some (JInt (digits_value 0 p.1), p.2)
      else if starts_with "true" (c :: s') then Some (JBool true, drop 4 (c :: s'))
      else if starts_with "false" (c :: s') then Some (JBool false, drop 5 (c :: s'))
      else if starts_with "null" (c :: s') then Some (JNull, drop 4 (c :: s'))
      else None
  end end
  with parse_members (fuel : nat) (s : str) (acc : list (str * jv))
    : option (list (str * jv) * str) :=
  match fuel with O => None | S fuel =>
  match skip_space s with
  | [] => None
  | c :: s' =>
      if bool_decide (c = "}"%char) then Some (acc, s')
      else if bool_decide (c = ","%char) then parse_members fuel s' acc
      else if bool_decide (c = quote) then
        k ← until_quote s' [];
        match skip_space k.2 with
        | d :: s2 =>
            if bool_decide (d = ":"%char) then
              v ← parse_val fuel s2; parse_members fuel v.2 (put acc k.1 v.1)
            else None
        | [] => None
        end
      else None
  end end
  with parse_items (fuel : nat) (s : str) (acc : list jv) : option (list jv * str) :=
  match fuel with O => None | S fuel =>
  match skip_space s with
  | [] => None
  | c :: s' =>
      if bool_decide (c = "]"%char) then Some (acc, s')
      else if bool_decide (c = ","%char) then parse_items fuel s' acc
      else v ← parse_val fuel (c :: s'); parse_items fuel v.2 (acc ++ [v.1])
  end end.

Definition parse (s : str) : option jv := fst <$> parse_val (S (length s)) s.

#[global] Instance ops : JsonCpp jv := {|
  jnull := JNull; jbool := JBool; jint := JInt; juint := JInt; jstring := JStr;
  jarray := JArr []; jset := set; jset_idx := set_idx; jappend := append;
  jget := get; jidx := idx; jsize v := length (elems v); jelems := elems;
  jisMember := isMember;
  jisNull v := match v with JNull => true | _ => false end;
  jisObject v := match v with JObj _ => true | _ => false end;
  jisBool v := match v with JBool _ => true | _ => false end;
  jasBool v := match v with JBool b => Ok b | JNull => Ok false | _ => Throw JsonError end;
  jasString := asString; jasInt := asInt; jasInt64 := asInt;
  jparse := parse; jread := parse; jwrite v := write v ++ [LF]
|}.

Lemma assoc_put l k x k' :
  assoc k' (put l k x) = if bool_decide (k = k') then Some x else assoc k' l.
Proof.
  induction l as [|[k0 y] l IH]; simpl; [done|].
  repeat case_bool_decide; simplify_eq/=; repeat case_bool_decide; simplify_eq/=; try done;
    by rewrite IH, bool_decide_false.
Qed.

Definition fields (v : jv) (l : list (str * jv)) : Prop :=
  match v with
  | JNull => l = []
  | JObj l' => l' ≠ [] ∧ ∀ k, assoc k l' = assoc k l
  | _ => False
  end.

#[global] Instance laws : JsonLaws jv.
Proof.
  refine {| jfields := fields; jitems := λ v l, v = JArr l |}; try done.
  - intros [|?|?|?|?|l'] m k x; simpl; try done.
    + intros ->. eexists; split; [done|]. by split.
    + intros [Hne Hm]. eexists; split; [done|]. split.
      * destruct l' as [|[k0 y] l']; [done|]. simpl. by case_bool_decide.
      * intros k'. rewrite assoc_put. simpl. by rewrite Hm.
  - intros [|?|?|?|?|l'] m k; simpl; try done; [by intros -> | by intros [_ ->]].
  - intros [|?|?|?|?|l'] m k; simpl; try done; [by intros -> | by intros [_ ->]].
  - intros [|?|?|?|?|l'] m k x; simpl; by try intros ?.
  - intros v l x ->. by eexists.
  - by intros v l ->.
  - by intros v l ->.
  - intros v l i x -> Hi. cbn. by rewrite Hi.
Defined.
End Mini.
