(* ===== verification/Base64.v ===== *)
(** [base/base64.cpp]: the two overloads of [base64_encode], an RFC 4648 reference
    encoder and decoder, and the agreement of the code with them. *)

From S2P Require Import Prelude.
Open Scope Z_scope.

(** ** The code *)

Definition base64_chars : str :=
  "ABCDEFGHIJKLMNOPQRSTUVWXYZ" ++ "abcdefghijklmnopqrstuvwxyz" ++ "0123456789+/".

(** [base64_chars[i]] *)
Definition b64_char (i : Z) : ascii := nth (Z.to_nat i) base64_chars NUL.

Definition arr (a : list Z) (i : nat) : Z := nth i a 0.

(** [char_array_4] as computed from [char_array_3]; each entry is a [uint8_t]. *)
Definition char_array_4 (a3 : list Z) : list Z :=
  [ wrap 8 (Z.shiftr (Z.land (arr a3 0) 0xfc) 2);
    wrap 8 (Z.shiftl (Z.land (arr a3 0) 0x03) 4 + Z.shiftr (Z.land (arr a3 1) 0xf0) 4);
    wrap 8 (Z.shiftl (Z.land (arr a3 1) 0x0f) 2 + Z.shiftr (Z.land (arr a3 2) 0xc0) 6);
    wrap 8 (Z.land (arr a3 2) 0x3f) ].

(** The locals of the encoding loop: [i], [char_array_3], [encoded]. *)
Record b64_state : Type := B64 { b_i : nat; b_a3 : list Z; b_out : str }.

(** One iteration: store the byte; on the third, emit four characters. *)
Definition b64_step (st : b64_state) (byte : ascii) : b64_state :=
  let a3 := <[b_i st := u8 byte]> (b_a3 st) in
  let i := S (b_i st) in
  if (i =? 3)%nat
  then B64 0 a3 (b_out st ++ (b64_char <$> char_array_4 a3))
  else B64 i a3 (b_out st).

(** After the loop: pad [char_array_3] with zeros, emit [i + 1] characters and
    [3 - i] equals signs. *)
Definition b64_finish (st : b64_state) : str :=
  let i := b_i st in
  if (0 <? i)%nat then
    let a3 := take i (b_a3 st) ++ replicate (3 - i) 0 in
    b_out st ++ (b64_char <$> take (i + 1) (char_array_4 a3)) ++ replicate (3 - i) "="%char
  else b_out st.

(** [base64_encode(const std::vector<uint8_t>&)]; [junk] is the indeterminate initial
    content of [char_array_3]. *)
Definition base64_encode_vec (junk : list Z) (data : list ascii) : str :=
  b64_finish (foldl b64_step (B64 0 junk []) data).

(** [base64_encode(const uint8_t* data, int size)]: reads [data[idx]] for
    [idx < size]; [data] is the readable object behind the pointer. *)
Fixpoint b64_ptr_loop (data : list ascii) (idx n : nat) (st : b64_state)
    : result b64_state :=
  match n with
  | O => Ok st
  | S n' =>
      match data !! idx with
      | Some c => b64_ptr_loop data (S idx) n' (b64_step st c)
      | None => Undef OutOfBounds
      end
  end.
Definition base64_encode_ptr (junk : list Z) (data : list ascii) (size : Z) : result str :=
  let* st := b64_ptr_loop data 0 (Z.to_nat size) (B64 0 junk []) in
  Ok (b64_finish st).

(** ** Reference encoder and decoder (RFC 4648, section 4) *)

Definition sextet (k n : Z) : ascii := b64_char (n / 64 ^ k mod 64).

Fixpoint rfc_encode (l : list ascii) : str :=
  match l with
  | a :: b :: c :: l' =>
      let n := u8 a * 65536 + u8 b * 256 + u8 c in
      sextet 3 n :: sextet 2 n :: sextet 1 n :: sextet 0 n :: rfc_encode l'
  | [a; b] =>
      let n := u8 a * 65536 + u8 b * 256 in
      [sextet 3 n; sextet 2 n; sextet 1 n; "="%char]
  | [a] =>
      let n := u8 a * 65536 in
      [sextet 3 n; sextet 2 n; "="%char; "="%char]
  | [] => []
  end.

Definition b64_value (c : ascii) : option Z :=
  Z.of_nat <$> find_char_nat (λ d, bool_decide (d = c)) base64_chars 0.

Fixpoint rfc_decode (s : str) : option (list ascii) :=
  match s with
  | [] => Some []
  | x :: y :: z :: w :: s' =>
      a ← b64_value x; b ← b64_value y;
      if bool_decide (z = "="%char) then
        if bool_decide (w = "="%char) && bool_decide (s' = []) then Some [chr (a * 4 + b / 16)]
        else None
      else
        c ← b64_value z;
        if bool_decide (w = "="%char) then
          if bool_decide (s' = []) then Some [chr (a * 4 + b / 16); chr (b * 16 + c / 4)]
          else None
        else
          d ← b64_value w; r ← rfc_decode s';
          Some (chr (a * 4 + b / 16) :: chr (b * 16 + c / 4) :: chr (c * 64 + d) :: r)
  | _ => None
  end.

(** ** Lemmas *)

Lemma b64_bits_fc c : Z.shiftr (Z.land (u8 c) 0xfc) 2 = u8 c / 4.
Proof. byte_decide c. Qed.
Lemma b64_bits_03 c : Z.shiftl (Z.land (u8 c) 0x03) 4 = (u8 c mod 4) * 16.
Proof. byte_decide c. Qed.
Lemma b64_bits_f0 c : Z.shiftr (Z.land (u8 c) 0xf0) 4 = u8 c / 16.
Proof. byte_decide c. Qed.
Lemma b64_bits_0f c : Z.shiftl (Z.land (u8 c) 0x0f) 2 = (u8 c mod 16) * 4.
Proof. byte_decide c. Qed.
Lemma b64_bits_c0 c : Z.shiftr (Z.land (u8 c) 0xc0) 6 = u8 c / 64.
Proof. byte_decide c. Qed.
Lemma b64_bits_3f c : Z.land (u8 c) 0x3f = u8 c mod 64.
Proof. byte_decide c. Qed.

Create Rewrite HintDb b64.
#[export] Hint Rewrite b64_bits_fc b64_bits_03 b64_bits_f0 b64_bits_0f b64_bits_c0 b64_bits_3f : b64.

Lemma sextet_split a b c : 0 <= a < 256 → 0 <= b < 256 → 0 <= c < 256 →
  let n := a * 65536 + b * 256 + c in
  (a / 4) mod 256 = n / 64 ^ 3 mod 64 ∧
  (a mod 4 * 16 + b / 16) mod 256 = n / 64 ^ 2 mod 64 ∧
  (b mod 16 * 4 + c / 64) mod 256 = n / 64 ^ 1 mod 64 ∧
  (c mod 64) mod 256 = n / 64 ^ 0 mod 64.
Proof.
  intros Ha Hb Hc. cbv zeta.
  change (64 ^ 3) with 262144. change (64 ^ 2) with 4096.
  change (64 ^ 1) with 64. change (64 ^ 0) with 1.
  assert ((a * 65536 + b * 256 + c) / 262144 = a / 4) as -> by zdiv.
  assert ((a * 65536 + b * 256 + c) / 4096 = a * 16 + b / 16) as -> by zdiv.
  assert ((a * 65536 + b * 256 + c) / 64 = a * 1024 + b * 4 + c / 64) as -> by zdiv.
  rewrite Z.div_1_r. split_and!; zdiv.
Qed.

Lemma char_array_4_sextets a b c :
  b64_char <$> char_array_4 [u8 a; u8 b; u8 c] =
  let n := u8 a * 65536 + u8 b * 256 + u8 c in
  [sextet 3 n; sextet 2 n; sextet 1 n; sextet 0 n].
Proof.
  unfold char_array_4, arr, sextet, wrap. simpl nth. autorewrite with b64.
  destruct (sextet_split (u8 a) (u8 b) (u8 c)) as (H3 & H2 & H1 & H0); auto using u8_range.
  cbv zeta in *. change (2 ^ 8) with 256. by rewrite H3, H2, H1, H0.
Qed.

(** With no third byte the first three characters are those of the zero-padded group. *)
Lemma char_array_4_pad2 a b :
  b64_char <$> take 3 (char_array_4 [u8 a; u8 b; 0]) =
  let n := u8 a * 65536 + u8 b * 256 in [sextet 3 n; sextet 2 n; sextet 1 n].
Proof.
  pose proof (char_array_4_sextets a b NUL) as H.
  change (u8 NUL) with 0 in H. rewrite Z.add_0_r in H.
  rewrite fmap_take, H. done.
Qed.

Lemma char_array_4_pad1 a :
  b64_char <$> take 2 (char_array_4 [u8 a; 0; 0]) =
  let n := u8 a * 65536 in [sextet 3 n; sextet 2 n].
Proof.
  pose proof (char_array_4_sextets a NUL NUL) as H.
  change (u8 NUL) with 0 in H. rewrite !Z.add_0_r in H.
  rewrite fmap_take, H. done.
Qed.

Lemma b64_loop_rfc l : ∀ a3 out, length a3 = 3%nat →
  b64_finish (foldl b64_step (B64 0 a3 out) l) = out ++ rfc_encode l.
Proof.
  induction l as [|a|a b|a b c l IH] using list_ind3;
    intros [|x [|y [|z [|]]]] out Hl; simplify_eq/=.
  - by rewrite app_nil_r.
  - unfold b64_finish, b64_step; simpl b_i; simpl b_a3; simpl b_out.
    change (take 1 _ ++ replicate _ _) with [u8 a; 0; 0].
    change (1 + 1)%nat with 2%nat. by rewrite char_array_4_pad1.
  - unfold b64_finish, b64_step; simpl b_i; simpl b_a3; simpl b_out.
    change (take 2 _ ++ replicate _ _) with [u8 a; u8 b; 0].
    change (2 + 1)%nat with 3%nat. by rewrite char_array_4_pad2.
  - change (b64_step (b64_step (b64_step (B64 0 [x; y; z] out) a) b) c) with
      (B64 0 [u8 a; u8 b; u8 c] (out ++ (b64_char <$> char_array_4 [u8 a; u8 b; u8 c]))).
    rewrite IH, char_array_4_sextets by done. by rewrite <- app_assoc.
Qed.

Lemma b64_ptr_loop_foldl data : ∀ pre st,
  b64_ptr_loop (pre ++ data) (length pre) (length data) st = Ok (foldl b64_step st data).
Proof.
  induction data as [|c data IH]; intros pre st; simpl; [done|].
  rewrite lookup_app_r, Nat.sub_diag by lia. simpl.
  specialize (IH (pre ++ [c]) (b64_step st c)).
  by rewrite <- app_assoc, length_app, Nat.add_comm in IH.
Qed.

(** Every alphabet character is the image of its own value, and is not [=]. *)
Lemma b64_value_char z : 0 <= z < 64 →
  b64_value (b64_char z) = Some z ∧ b64_char z ≠ "="%char.
Proof.
  intros Hz.
  assert (H : Forall (λ n, b64_value (b64_char (Z.of_nat n)) = Some (Z.of_nat n) ∧
                           b64_char (Z.of_nat n) ≠ "="%char) (seq 0 64)).
  { apply (bool_decide_unpack _). vm_compute. done. }
  rewrite Forall_forall in H. specialize (H (Z.to_nat z)).
  rewrite Z2Nat.id in H by lia. apply H, elem_of_seq. lia.
Qed.

Lemma b64_value_sextet k n : b64_value (sextet k n) = Some (n / 64 ^ k mod 64).
Proof. apply b64_value_char, Z.mod_pos_bound. lia. Qed.

Lemma sextet_not_eq k n : bool_decide (sextet k n = "="%char) = false.
Proof. apply bool_decide_false, b64_value_char, Z.mod_pos_bound. lia. Qed.

#[export] Hint Rewrite b64_value_sextet sextet_not_eq : b64.

(** The three bytes of a group from its four sextets. *)
Lemma sextets_join a b c : 0 <= a < 256 → 0 <= b < 256 → 0 <= c < 256 →
  let n := a * 65536 + b * 256 + c in
  let s k := n / 64 ^ k mod 64 in
  (s 3 * 4 + s 2 / 16) mod 256 = a ∧
  (s 2 * 16 + s 1 / 4) mod 256 = b ∧
  (s 1 * 64 + s 0) mod 256 = c.
Proof.
  intros Ha Hb Hc. cbv zeta.
  destruct (sextet_split a b c Ha Hb Hc) as (H3 & H2 & H1 & H0). cbv zeta in *.
  rewrite <- H3, <- H2, <- H1, <- H0. split_and!; zdiv.
Qed.

Lemma rfc_decode_encode l : rfc_decode (rfc_encode l) = Some l.
Proof.
  induction l as [|a|a b|a b c l IH] using list_ind3; [done|..];
    simpl rfc_encode; cbn [rfc_decode]; autorewrite with b64; simpl.
  - destruct (sextets_join (u8 a) 0 0) as (H & _ & _); [auto using u8_range|lia|lia|].
    cbv zeta in H. rewrite !Z.add_0_r in H.
    f_equal. f_equal. apply u8_inj. by rewrite u8_chr.
  - destruct (sextets_join (u8 a) (u8 b) 0) as (H & H' & _); [auto using u8_range..|lia|].
    cbv zeta in H, H'. rewrite !Z.add_0_r in H, H'.
    f_equal. f_equal; [|f_equal]; apply u8_inj; by rewrite u8_chr.
  - destruct (sextets_join (u8 a) (u8 b) (u8 c)) as (H & H' & H''); [auto using u8_range..|].
    rewrite IH. simpl. f_equal.
    f_equal; [|f_equal; [|f_equal]]; apply u8_inj; by rewrite u8_chr.
Qed.

Lemma length_rfc_encode l : length (rfc_encode l) = (4 * ((length l + 2) / 3))%nat.
Proof.
  induction l as [|a|a b|a b c l IH] using list_ind3; [done..|].
  cbn [rfc_encode length]. rewrite IH.
  replace (S (S (S (length l))) + 2)%nat with (length l + 2 + 1 * 3)%nat by lia.
  rewrite Nat.div_add by lia. lia.
Qed.

(** ** Properties *)

(** C36: both overloads of [base64_encode] compute the RFC 4648 encoding, whatever the
    uninitialised content of [char_array_3]: decoding gives the data back and the
    length is four characters per started group of three bytes. *)
Theorem base64_encode_correct (x y z : Z) (data : list ascii) :
  base64_encode_vec [x; y; z] data = rfc_encode data ∧
  base64_encode_ptr [x; y; z] data (slen data) = Ok (rfc_encode data) ∧
  rfc_decode (base64_encode_vec [x; y; z] data) = Some data ∧
  length (base64_encode_vec [x; y; z] data) = (4 * ((length data + 2) / 3))%nat.
Proof.
  assert (H : base64_encode_vec [x; y; z] data = rfc_encode data) by by apply b64_loop_rfc.
  split_and!; [done| |by rewrite H, rfc_decode_encode|by rewrite H, length_rfc_encode].
  unfold base64_encode_ptr, slen. rewrite Nat2Z.id.
  rewrite (b64_ptr_loop_foldl data [] _). cbn [rbind]. f_equal. by apply b64_loop_rfc.
Qed.
