(* ===== verification/WsFrame.v ===== *)
(** The WebSocket codec of [service/websocket_conn.cc]: building and parsing frames,
    cutting frames out of the receive buffer, the handshake response and the
    extraction of the session id from the cookie. *)

From S2P Require Import Prelude Base64.
Open Scope Z_scope.

(** ** The code *)

(** [struct WebSocketFrame]; [masking_key] is [None] while it is uninitialised. *)
Record WebSocketFrame : Type := Frame {
  fin : bool;
  opcode : Z;
  mask : bool;
  payload_length : Z;
  masking_key : option (list ascii);
  payload_data : str
}.

#[export] Instance WebSocketFrame_eq_dec : EqDecision WebSocketFrame.
Proof. solve_decision. Defined.

(** [(payload_length >> (8 * i)) & 0xFF] *)
Definition len_byte (n : Z) (i : Z) : ascii := chr (Z.land (Z.shiftr n (8 * i)) 0xFF).

Definition BuildWebSocketFrame (payload : str) (op : Z) : str :=
  let payload_length := slen payload in
  [chr (Z.lor 0x80 (Z.land op 0x0F))]
  ++ (if payload_length <=? 125 then [chr payload_length]
      else if payload_length <=? 65535 then
        chr 126 :: [len_byte payload_length 1; len_byte payload_length 0]
      else chr 127 :: (len_byte payload_length <$> [7; 6; 5; 4; 3; 2; 1; 0]))
  ++ payload.

(** The eight-byte extended length: [(b2 << 56) | ... | b9]. *)
Definition length64 (data : str) : result Z :=
  let* b2 := data_at data 2 in let* b3 := data_at data 3 in
  let* b4 := data_at data 4 in let* b5 := data_at data 5 in
  let* b6 := data_at data 6 in let* b7 := data_at data 7 in
  let* b8 := data_at data 8 in let* b9 := data_at data 9 in
  Ok (Z.lor (Z.lor (Z.lor (Z.lor (Z.lor (Z.lor (Z.lor
        (Z.shiftl b2 56) (Z.shiftl b3 48)) (Z.shiftl b4 40)) (Z.shiftl b5 32))
        (Z.shiftl b6 24)) (Z.shiftl b7 16)) (Z.shiftl b8 8)) b9).

(** The two-byte extended length: [(b2 << 8) | b3]. *)
Definition length16 (data : str) : result Z :=
  let* b2 := data_at data 2 in let* b3 := data_at data 3 in
  Ok (Z.lor (Z.shiftl b2 8) b3).

(** [memcpy(masking_key, bytes + offset, 4)] *)
Definition copy_key (data : str) (offset : Z) : result (list ascii) :=
  let* k0 := data_at data offset in let* k1 := data_at data (offset + 1) in
  let* k2 := data_at data (offset + 2) in let* k3 := data_at data (offset + 3) in
  Ok (chr <$> [k0; k1; k2; k3]).

(** [payload_data[i] ^= masking_key[i % 4]] for every [i]. *)
Definition xor_mask (key : list ascii) (payload : str) : str :=
  imap (λ i c, chr (Z.lxor (u8 c) (u8 (nth (i mod 4)%nat key NUL)))) payload.

(** [payload_data.assign(data.begin() + offset, data.end())] *)
Definition assign_from (data : str) (offset : Z) : result str :=
  if slen data <? offset then Undef OutOfBounds else Ok (drop (Z.to_nat offset) data).

Definition ParseWebSocketFrame (data : str) : result WebSocketFrame :=
  let* b0 := data_at data 0 in
  let* b1 := data_at data 1 in
  let mask := negb (Z.land b1 0x80 =? 0) in
  let len7 := Z.land b1 0x7F in
  let* (len, offset) :=
    (if len7 =? 126 then let* n := length16 data in Ok (n, 4)
     else if len7 =? 127 then let* n := length64 data in Ok (n, 10)
     else Ok (len7, 2)) in
  let* (key, offset) :=
    (if mask then let* k := copy_key data offset in Ok (Some k, offset + 4)
     else Ok (None, offset)) in
  let* payload := assign_from data offset in
  Ok (Frame (negb (Z.land b0 0x80 =? 0)) (Z.land b0 0x0F) mask len key
        (match key with Some k => xor_mask k payload | None => payload end)).

(** One pass of the [while] loop of [CWebSocketConn::OnRead] over
    [incomplete_frame_buffer]: either more data is needed or a frame of [total]
    bytes is complete.  [total] is a [size_t] sum. *)
Inductive scan : Type := NeedMore | Complete (total : Z).

Definition scan_frame (buf : str) : result scan :=
  if slen buf <? 2 then Ok NeedMore else
  let* b1 := data_at buf 1 in
  let len7 := Z.land b1 0x7F in
  let* hdr :=
    (if len7 =? 126 then
       if slen buf <? 4 then Ok None else let* n := length16 buf in Ok (Some (4, n))
     else if len7 =? 127 then
       if slen buf <? 10 then Ok None else let* n := length64 buf in Ok (Some (10, n))
     else Ok (Some (2, len7))) in
  match hdr with
  | None => Ok NeedMore
  | Some (header_length, payload_len) =>
      let header_length :=
        if Z.land b1 0x80 =? 0 then header_length else header_length + 4 in
      let total := u64 (header_length + payload_len) in
      if slen buf <? total then Ok NeedMore else Ok (Complete total)
  end.

(** The loop: [tasks] are the frames pushed to the thread pool so far, in order.
    [Ok None] means that [fuel] iterations did not reach the end of the loop. *)
Fixpoint frame_loop (fuel : nat) (buf : str) (tasks : list str)
    : result (option (list str * str)) :=
  match fuel with
  | O => Ok None
  | S fuel' =>
      match buf with
      | [] => Ok (Some (tasks, []))
      | _ =>
          let* s := scan_frame buf in
          match s with
          | NeedMore => Ok (Some (tasks, buf))
          | Complete total =>
              let* frame_data := substr buf 0 total in
              let* rest := substr_from buf total in
              frame_loop fuel' rest (tasks ++ [frame_data])
          end
      end
  end.

(** [GenerateWebSocketHandshakeResponse]; [SHA1] is OpenSSL's digest. *)
Definition ws_magic : str := "258EAFA5-E914-47DA-95CA-C5AB0DC85B11".
Definition GenerateWebSocketHandshakeResponse
    (SHA1 : str → list ascii) (junk : list Z) (key : str) : result str :=
  let* accept := base64_encode_ptr junk (SHA1 (key ++ ws_magic)) 20 in
  Ok ("HTTP/1.1 101 Switching Protocols" ++ CRLF ++
      "Upgrade: websocket" ++ CRLF ++
      "Connection: Upgrade" ++ CRLF ++
      "Sec-WebSocket-Accept: " ++ accept ++ CRLF ++ CRLF).

Definition ExtractSid (input : str) : result str :=
  let sid_start := sfind input "sid=" 0 in
  if sid_start =? npos then Ok [] else
  let sid_start := sid_start + 4 in
  let sid_end := sfind_first_of input " &;" sid_start in
  let sid_end := if sid_end =? npos then slen input else sid_end in
  substr input sid_start (u64 (sid_end - sid_start)).

(** ** Frame layout

    [encode b0 key payload] is the frame with first byte [b0], masked when [key] is
    given; the server's frames and a client's masked frames are both instances. *)

Definition len_field (n : Z) : Z * str :=
  if n <=? 125 then (n, [])
  else if n <=? 65535 then (126, [len_byte n 1; len_byte n 0])
  else (127, len_byte n <$> [7; 6; 5; 4; 3; 2; 1; 0]).

Definition key_bytes (key : option (list ascii)) : str := default [] key.
Definition key_ok (key : option (list ascii)) : Prop :=
  match key with Some k => length k = 4%nat | None => True end.
(** The masking of RFC 6455: each byte is combined with the next byte of the key, which is
    used cyclically. *)
Fixpoint rfc_mask (key payload : str) : str :=
  match key, payload with
  | k :: key', c :: payload' => chr (Z.lxor (u8 c) (u8 k)) :: rfc_mask (key' ++ [k]) payload'
  | _, _ => payload
  end.
Definition apply_key (key : option (list ascii)) (payload : str) : str :=
  match key with Some k => rfc_mask k payload | None => payload end.

Definition encode (b0 : ascii) (key : option (list ascii)) (payload : str) : str :=
  b0 :: chr ((if key is Some _ then 128 else 0) + (len_field (slen payload)).1)
     :: (len_field (slen payload)).2 ++ key_bytes key ++ apply_key key payload.

(** A client's frame: FIN set, opcode [op], masked with [key]. *)
Definition client_frame (op : Z) (key : list ascii) (payload : str) : str :=
  encode (chr (Z.lor 0x80 (Z.land op 0x0F))) (Some key) payload.

Lemma Build_encode payload op :
  BuildWebSocketFrame payload op = encode (chr (Z.lor 0x80 (Z.land op 0x0F))) None payload.
Proof.
  unfold BuildWebSocketFrame, encode, len_field. simpl.
  repeat case_match; done.
Qed.

(** *** Bytes of the header *)

Lemma land_7F z : Z.land z 0x7F = z mod 128.
Proof. apply (Z.land_ones z 7). lia. Qed.

Lemma land_80 c : Z.land (u8 c) 0x80 = 128 * (u8 c / 128).
Proof. byte_decide c. Qed.

Lemma land_FF z : Z.land z 0xFF = z mod 256.
Proof. apply (Z.land_ones z 8). lia. Qed.

Lemma u8_len_byte n i : 0 <= i → u8 (len_byte n i) = n / 2 ^ (8 * i) mod 256.
Proof.
  intros. unfold len_byte. rewrite u8_chr, land_FF, Z.shiftr_div_pow2 by lia.
  apply Z.mod_mod. lia.
Qed.

Lemma len_field_range n : 0 <= n → 0 <= (len_field n).1 < 128.
Proof. intros. unfold len_field. repeat case_match; simpl; lia. Qed.

(** One step of reassembling a big-endian number. *)
Lemma be_step n k : 0 <= k →
  n / 2 ^ (k + 8) * 2 ^ 8 + n / 2 ^ k mod 2 ^ 8 = n / 2 ^ k.
Proof.
  intros. rewrite Z.pow_add_r by lia. rewrite <- Z.div_div by lia.
  rewrite (Z.mul_comm (_ / _)). symmetry. apply Z.div_mod. lia.
Qed.

(** [(acc << (k + 8)) | (b << k)] extends a big-endian accumulator by one byte. *)
Lemma shiftl_lor_step acc b k : 0 <= k → 0 <= b < 256 →
  Z.lor (Z.shiftl acc (k + 8)) (Z.shiftl b k) = Z.shiftl (acc * 2 ^ 8 + b) k.
Proof.
  intros. rewrite Z.add_comm, <- Z.shiftl_shiftl, <- Z.shiftl_lor by lia.
  by rewrite lor_shiftl_add by lia.
Qed.

Lemma lor_be n k k' : 0 <= k → k' = k + 8 →
  Z.lor (Z.shiftl (n / 2 ^ k') k') (Z.shiftl (n / 2 ^ k mod 256) k) = Z.shiftl (n / 2 ^ k) k.
Proof.
  intros Hk ->. rewrite shiftl_lor_step; [|done|apply Z.mod_pos_bound; lia].
  change 256 with (2 ^ 8). by rewrite be_step.
Qed.

Lemma length64_spec b0 b1 n tl : 0 <= n < 2 ^ 64 →
  length64 (b0 :: b1 :: (len_byte n <$> [7; 6; 5; 4; 3; 2; 1; 0]) ++ tl) = Ok n.
Proof.
  intros Hn. unfold length64. cbn [fmap list_fmap app]. data_at_eval. f_equal.
  rewrite !u8_len_byte by lia.
  change (8 * 7) with 56. change (8 * 6) with 48. change (8 * 5) with 40.
  change (8 * 4) with 32. change (8 * 3) with 24. change (8 * 2) with 16.
  change (8 * 1) with 8. change (8 * 0) with 0.
  rewrite (Z.mod_small (n / 2 ^ 56) 256) by (change (2 ^ 56) with 72057594037927936; zdiv).
  rewrite (lor_be n 48 56), (lor_be n 40 48), (lor_be n 32 40), (lor_be n 24 32),
    (lor_be n 16 24), (lor_be n 8 16) by lia.
  change (2 ^ 0) with 1. rewrite Z.div_1_r.
  rewrite lor_shiftl_add by zdiv. change (2 ^ 8) with 256. zdiv.
Qed.

Lemma length16_spec b0 b1 n tl : 0 <= n < 2 ^ 16 →
  length16 (b0 :: b1 :: [len_byte n 1; len_byte n 0] ++ tl) = Ok n.
Proof.
  intros Hn. unfold length16. cbn [app]. data_at_eval. f_equal.
  rewrite !u8_len_byte by lia.
  change (2 ^ (8 * 1)) with 256. change (2 ^ (8 * 0)) with 1.
  rewrite Z.div_1_r, lor_shiftl_add by zdiv. change (2 ^ 8) with 256.
  change (2 ^ 16) with 65536 in Hn. zdiv.
Qed.

(** *** The mask *)

Lemma log2_byte z : 0 <= z < 256 → Z.log2 z < 8.
Proof.
  intros Hz. destruct (decide (z = 0)) as [->|]; [done|]. apply Z.log2_lt_pow2; lia.
Qed.

Lemma u8_lxor c d : u8 (chr (Z.lxor (u8 c) (u8 d))) = Z.lxor (u8 c) (u8 d).
Proof.
  rewrite u8_chr. apply Z.mod_small. pose proof (u8_range c). pose proof (u8_range d).
  split; [apply Z.lxor_nonneg; lia|].
  destruct (decide (Z.lxor (u8 c) (u8 d) = 0)) as [->|]; [lia|].
  apply Z.log2_lt_cancel. change (Z.log2 256) with 8.
  eapply Z.le_lt_trans; [apply Z.log2_lxor; lia|].
  apply Z.max_lub_lt; apply log2_byte; lia.
Qed.

Lemma xor_mask_involutive key payload : xor_mask key (xor_mask key payload) = payload.
Proof.
  apply list_eq. intros i. unfold xor_mask. rewrite !list_lookup_imap.
  destruct (payload !! i) as [c|]; simpl; [|done].
  f_equal. apply u8_inj. rewrite !u8_lxor.
  by rewrite Z.lxor_assoc, Z.lxor_nilpotent, Z.lxor_0_r.
Qed.

(** The loop of [ParseWebSocketFrame] indexes the key modulo 4, started at byte [n] of it. *)
Lemma rfc_mask_imap key n payload :
  length key = 4%nat →
  rfc_mask (drop (n mod 4) key ++ take (n mod 4) key) payload =
    imap (λ i c, chr (Z.lxor (u8 c) (u8 (nth ((n + i) mod 4)%nat key NUL)))) payload.
Proof.
  intros Hk. revert n. induction payload as [|c payload IH]; intros n;
    [by destruct (drop _ _ ++ _)|].
  destruct key as [|k0 [|k1 [|k2 [|k3 [|]]]]]; try done. rewrite imap_cons.
  rewrite Nat.add_0_r.
  rewrite (imap_ext _ (λ i c, chr (Z.lxor (u8 c)
    (u8 (nth ((S n + i) mod 4)%nat [k0; k1; k2; k3] NUL)))))
    by (intros i d _; unfold compose; by rewrite Nat.add_succ_comm).
  rewrite <- IH.
  assert (S n mod 4 = (S (n mod 4)) mod 4)%nat as -> by
    (rewrite <- (Nat.add_1_r n), <- Nat.Div0.add_mod_idemp_l; f_equal; lia).
  pose proof (Nat.mod_upper_bound n 4 ltac:(lia)).
  destruct (n mod 4)%nat as [|[|[|[|]]]]; [reflexivity..|lia].
Qed.

Lemma rfc_mask_xor key payload : length key = 4%nat → rfc_mask key payload = xor_mask key payload.
Proof.
  intros Hk. rewrite <- (app_nil_r key) at 1. by apply (rfc_mask_imap key 0).
Qed.

Lemma length_rfc_mask key payload : length (rfc_mask key payload) = length payload.
Proof.
  revert key. induction payload as [|c payload IH]; intros [|k key]; cbn; [done..|].
  by rewrite IH.
Qed.

(** *** Reading a whole frame *)

(** The second byte of a frame gives back the mask bit and the seven-bit length. *)
Lemma second_byte (m : bool) x : 0 <= x < 128 →
  let b1 := u8 (chr ((if m then 128 else 0) + x)) in
  Z.land b1 0x7F = x ∧ (Z.land b1 0x80 =? 0) = negb m.
Proof.
  intros Hx b1. subst b1. rewrite land_7F, land_80, u8_chr_small by (destruct m; lia).
  destruct m; cbn [negb]; (split; [|apply Z.eqb_neq || apply Z.eqb_eq]); zdiv.
Qed.

(** The three forms of the length field, as the header readers see them. *)
Lemma len_field_cases b0 b1 n tl : 0 <= n < 2 ^ 64 →
  let '(x, ext) := len_field n in
  (x = n ∧ n <= 125 ∧ ext = []) ∨
  (x = 126 ∧ slen ext = 2 ∧ length16 (b0 :: b1 :: ext ++ tl) = Ok n) ∨
  (x = 127 ∧ slen ext = 8 ∧ length64 (b0 :: b1 :: ext ++ tl) = Ok n).
Proof.
  intros Hn. unfold len_field.
  destruct (Z.leb_spec n 125) as [?|?]; [by auto|].
  destruct (Z.leb_spec n 65535) as [?|?]; right.
  - left. split_and!; [done..|]. apply length16_spec. lia.
  - right. split_and!; [done..|]. by apply length64_spec.
Qed.

(** The length field and the offset behind it, as [ParseWebSocketFrame] reads them. *)
Lemma length_field_read b0 b1 n tl x ext : 0 <= n < 2 ^ 64 → len_field n = (x, ext) →
  (if x =? 126 then let* n := length16 (b0 :: b1 :: ext ++ tl) in Ok (n, 4)
   else if x =? 127 then let* n := length64 (b0 :: b1 :: ext ++ tl) in Ok (n, 10)
   else Ok (x, 2)) = Ok (n, slen (b0 :: b1 :: ext)).
Proof.
  intros Hn Hf. pose proof (len_field_cases b0 b1 n tl Hn) as H. rewrite Hf in H.
  autorewrite with strs.
  destruct H as [(-> & ? & ->)|[(-> & -> & H)|(-> & -> & H)]]; simpl Z.eqb; cbn iota.
  - by rewrite (proj2 (Z.eqb_neq _ _)), (proj2 (Z.eqb_neq _ _)) by lia.
  - by rewrite H.
  - by rewrite H.
Qed.

Lemma copy_key_app pre k tl : length k = 4%nat →
  copy_key (pre ++ k ++ tl) (slen pre) = Ok k.
Proof.
  intros Hk. destruct k as [|k0 [|k1 [|k2 [|k3 [|]]]]]; try done.
  unfold copy_key. rewrite <- (Z.add_0_r (slen pre)) at 1.
  rewrite !data_at_app_r by lia. cbn [app]. data_at_eval.
  cbn [fmap list_fmap]. by rewrite !chr_u8.
Qed.

Lemma assign_from_app pre tl : assign_from (pre ++ tl) (slen pre) = Ok tl.
Proof.
  unfold assign_from. rewrite (proj2 (Z.ltb_ge _ _)) by slia.
  unfold slen. by rewrite Nat2Z.id, drop_app_length.
Qed.

Lemma parse_encode b0 key payload :
  key_ok key → slen payload < 2 ^ 64 →
  ParseWebSocketFrame (encode b0 key payload) =
  Ok (Frame (negb (Z.land (u8 b0) 0x80 =? 0)) (Z.land (u8 b0) 0x0F)
        (if key is Some _ then true else false) (slen payload) key payload).
Proof.
  intros Hkey Hlen. unfold ParseWebSocketFrame, encode. data_at_eval.
  assert (Hn : 0 <= slen payload < 2 ^ 64) by slia.
  pose proof (len_field_range (slen payload) ltac:(lia)) as Hx.
  destruct (len_field (slen payload)) as [x ext] eqn:Hf. cbn [fst snd] in *.
  destruct (second_byte (if key is Some _ then true else false) x Hx) as [H7F H80].
  destruct key as [k|]; cbn -[app] in *; rewrite H7F, H80;
    rewrite (length_field_read _ _ _ _ _ _ Hn Hf); cbn -[app].
  - set (pre := b0 :: chr (128 + x) :: ext).
    rewrite rfc_mask_xor by done. change (b0 :: chr (128 + x) :: ext ++ k ++ xor_mask k payload)
      with (pre ++ k ++ xor_mask k payload).
    rewrite copy_key_app by done. cbn -[app].
    replace (slen pre + 4) with (slen (pre ++ k)) by slia.
    rewrite app_assoc, assign_from_app. cbn. by rewrite xor_mask_involutive.
  - change (b0 :: ?b :: ext ++ [] ++ payload) with ((b0 :: b :: ext) ++ payload).
    by rewrite assign_from_app.
Qed.

Lemma slen_apply_key key payload : slen (apply_key key payload) = slen payload.
Proof. unfold slen, apply_key. destruct key; by rewrite ?length_rfc_mask. Qed.
#[export] Hint Rewrite slen_apply_key : strs.

Lemma slen_key_bytes key : key_ok key →
  slen (key_bytes key) = if key is Some _ then 4 else 0.
Proof. intros Hk. destruct key; cbn in *; [|done]. unfold slen. lia. Qed.

(** Decide a [<?] guard from the lengths in the context. *)
Ltac ltb_false := rewrite (proj2 (Z.ltb_ge _ _)) by slia.

Ltac ltb_false_at a := rewrite (proj2 (Z.ltb_ge a _)) by slia.

Lemma scan_encode b0 key payload rest :
  key_ok key → slen (encode b0 key payload) < 2 ^ 64 →
  scan_frame (encode b0 key payload ++ rest) = Ok (Complete (slen (encode b0 key payload))).
Proof.
  intros Hkey Hlen. pose proof (slen_key_bytes key Hkey) as Hkb.
  unfold scan_frame, encode in *. ltb_false.
  assert (Hn : 0 <= slen payload < 2 ^ 64) by slia.
  pose proof (len_field_range (slen payload) ltac:(lia)) as Hx.
  destruct (len_field (slen payload)) as [x ext] eqn:Hf. cbn [fst snd app] in *.
  rewrite <- !app_assoc. data_at_eval.
  destruct (second_byte (if key is Some _ then true else false) x Hx) as [H7F H80].
  replace (chr ((if key is Some _ then 128 else 0) + x)) with
    (chr ((if (if key is Some _ then true else false) then 128 else 0) + x)) in *
    by (by destruct key).
  cbv zeta in H7F, H80. set (b1 := chr _) in *. rewrite H7F, H80. clear H7F H80.
  pose proof (len_field_cases b0 b1 (slen payload)
    (key_bytes key ++ apply_key key payload ++ rest) Hn) as H. rewrite Hf in H.
  assert (Htotal : ∀ h, h = slen (b0 :: b1 :: ext) →
    u64 ((if negb (if key is Some _ then true else false) then h else h + 4) + slen payload)
    = slen (b0 :: b1 :: ext ++ key_bytes key ++ apply_key key payload)).
  { intros h ->. unfold wrap. autorewrite with strs in *.
    rewrite Hkb in *. destruct key; cbn [negb]; rewrite Z.mod_small by slia; lia. }
  destruct H as [(-> & ? & ->)|[(-> & Hext & H)|(-> & Hext & H)]]; simpl Z.eqb; cbn iota.
  - rewrite (proj2 (Z.eqb_neq _ _)), (proj2 (Z.eqb_neq _ _)) by lia. cbn [rbind].
    rewrite Htotal by done. by ltb_false.
  - ltb_false. rewrite H. cbn [rbind]. rewrite Htotal by slia. by ltb_false.
  - ltb_false. rewrite H. cbn [rbind]. rewrite Htotal by slia. by ltb_false.
Qed.

(** *** The receive loop *)

Ltac data_at_ok :=
  repeat match goal with
  | |- context [data_at ?s ?i] =>
      let b := fresh "b" in let E := fresh "E" in let H := fresh "H" in
      destruct (data_at_Ok s i ltac:(slia)) as (b & E & H); rewrite !E; cbn [rbind]
  end.

Lemma length16_Ok buf : 3 <= slen buf → is_Ok (length16 buf).
Proof. intros. unfold length16. data_at_ok. by eexists. Qed.

Lemma length64_Ok buf : 9 <= slen buf → is_Ok (length64 buf).
Proof. intros. unfold length64. data_at_ok. by eexists. Qed.

Lemma length16_app buf x : 4 <= slen buf → length16 (buf ++ x) = length16 buf.
Proof. intros. unfold length16. by rewrite !data_at_app by lia. Qed.

Lemma length64_app buf x : 10 <= slen buf → length64 (buf ++ x) = length64 buf.
Proof. intros. unfold length64. by rewrite !data_at_app by lia. Qed.

(** The loop body never reads outside the buffer, and a complete frame lies in it. *)
Lemma scan_frame_Ok buf : ∃ s, scan_frame buf = Ok s ∧
  match s with NeedMore => True | Complete t => 0 <= t <= slen buf end.
Proof.
  unfold scan_frame. destruct (Z.ltb_spec (slen buf) 2); [by eexists|].
  data_at_ok.
  assert (Hfin : ∀ h n, ∃ s,
    (if slen buf <? u64 (h + n) then Ok NeedMore else Ok (Complete (u64 (h + n)))) = Ok s ∧
    match s with NeedMore => True | Complete t => 0 <= t <= slen buf end).
  { intros h n. destruct (Z.ltb_spec (slen buf) (u64 (h + n))); [by eexists|].
    eexists; split; [done|]. pose proof (wrap_range 64 (h + n) ltac:(lia)). cbn. lia. }
  destruct (_ =? 126).
  - destruct (Z.ltb_spec (slen buf) 4); [by eexists|].
    destruct (length16_Ok buf) as [n ->]; [lia|]. cbn [rbind]. apply Hfin.
  - destruct (_ =? 127); [|cbn [rbind]; apply Hfin].
    destruct (Z.ltb_spec (slen buf) 10); [by eexists|].
    destruct (length64_Ok buf) as [n ->]; [lia|]. cbn [rbind]. apply Hfin.
Qed.

(** Bytes that arrive later do not change a frame that is already complete. *)
Lemma scan_frame_app buf x t :
  scan_frame buf = Ok (Complete t) → scan_frame (buf ++ x) = Ok (Complete t).
Proof.
  unfold scan_frame. destruct (Z.ltb_spec (slen buf) 2); [done|].
  ltb_false_at (slen (buf ++ x)). rewrite data_at_app by lia. data_at_ok.
  assert (Hfin : ∀ h n,
    (if slen buf <? u64 (h + n) then Ok NeedMore else Ok (Complete (u64 (h + n))))
      = Ok (Complete t) →
    (if slen (buf ++ x) <? u64 (h + n) then Ok NeedMore else Ok (Complete (u64 (h + n))))
      = Ok (Complete t)).
  { intros h n. destruct (Z.ltb_spec (slen buf) (u64 (h + n))); [done|]. by ltb_false_at (slen (buf ++ x)). }
  destruct (_ =? 126).
  - destruct (Z.ltb_spec (slen buf) 4); [done|]. ltb_false_at (slen (buf ++ x)).
    rewrite length16_app by done. destruct (length16_Ok buf) as [n ->]; [lia|].
    cbn [rbind]. apply Hfin.
  - destruct (_ =? 127); [|cbn [rbind]; apply Hfin].
    destruct (Z.ltb_spec (slen buf) 10); [done|]. ltb_false_at (slen (buf ++ x)).
    rewrite length64_app by done. destruct (length64_Ok buf) as [n ->]; [lia|].
    cbn [rbind]. apply Hfin.
Qed.

(** A byte string that the loop cuts out whole, whatever follows it. *)
Definition is_frame (f : str) : Prop :=
  f ≠ [] ∧ ∀ rest, scan_frame (f ++ rest) = Ok (Complete (slen f)).

Lemma encode_is_frame b0 key payload :
  key_ok key → slen (encode b0 key payload) < 2 ^ 64 → is_frame (encode b0 key payload).
Proof. intros. split; [done|]. intros. by apply scan_encode. Qed.

(** A proper prefix of a frame is waited for. *)
Lemma scan_prefix p q : q ≠ [] → is_frame (p ++ q) → scan_frame p = Ok NeedMore.
Proof.
  intros Hq [_ Hf]. destruct (scan_frame_Ok p) as ([|t] & Hs & Ht); [done|].
  apply (scan_frame_app _ q) in Hs. specialize (Hf []). rewrite app_nil_r in Hf.
  rewrite Hs in Hf. simplify_eq. destruct q; [done|]. slia.
Qed.

Lemma frame_loop_frame fuel f rest tasks : is_frame f →
  frame_loop (S fuel) (f ++ rest) tasks = frame_loop fuel rest (tasks ++ [f]).
Proof.
  intros [Hne Hf]. destruct f as [|c f]; [done|]. cbn [frame_loop].
  change ((c :: f) ++ rest) with (c :: f ++ rest) in *. cbn iota.
  change (c :: f ++ rest) with ((c :: f) ++ rest). rewrite Hf. cbn [rbind].
  by rewrite substr_prefix, substr_from_suffix.
Qed.

Lemma frame_loop_partial fuel p tasks :
  scan_frame p = Ok NeedMore → frame_loop (S fuel) p tasks = Ok (Some (tasks, p)).
Proof. intros Hs. destruct p; cbn [frame_loop]; [done|]. by rewrite Hs. Qed.

(** [OnRead] called once per received chunk, after the handshake. *)
Fixpoint feed_chunks (buf : str) (chunks : list str) (tasks : list str)
    : result (option (list str * str)) :=
  match chunks with
  | [] => Ok (Some (tasks, buf))
  | c :: cs =>
      let* r := frame_loop (S (length (buf ++ c))) (buf ++ c) tasks in
      match r with
      | Some (tasks', buf') => feed_chunks buf' cs tasks'
      | None => Ok None
      end
  end.

(** One call: the loop takes the complete frames off the front and stops. *)
Lemma frame_loop_stream fs : ∀ fuel buf tl tasks,
  Forall is_frame fs → (length buf < fuel)%nat → buf ++ tl = concat fs →
  ∃ fs1 fs2 p, fs = fs1 ++ fs2 ∧ p ++ tl = concat fs2 ∧
    (p = [] ∨ scan_frame p = Ok NeedMore) ∧
    frame_loop fuel buf tasks = Ok (Some (tasks ++ fs1, p)).
Proof.
  induction fs as [|f fs IH]; intros fuel buf tl tasks Hfs Hfuel Hcat;
    (destruct fuel as [|fuel]; [lia|]).
  - apply app_eq_nil in Hcat as [-> ->]. exists [], [], [].
    split_and!; [done..|by left|]. by rewrite app_nil_r.
  - apply Forall_cons in Hfs as [Hf Hfs]. simpl in Hcat.
    assert (Hcase : (∃ q, buf = f ++ q ∧ q ++ tl = concat fs) ∨
                    (∃ q, q ≠ [] ∧ buf ++ q = f ∧ tl = q ++ concat fs)).
    { apply app_eq_inv in Hcat as [(q & -> & Hq)|(q & Hf' & Htl)]; [by eauto|].
      destruct q as [|c q]; [|right; by exists (c :: q)].
      left. exists []. rewrite app_nil_r in *. by subst. }
    destruct Hcase as [(q & -> & Hq)|(q & Hne & <- & ->)].
    + rewrite frame_loop_frame by done.
      destruct (IH fuel q tl (tasks ++ [f]) Hfs) as (fs1 & fs2 & p & -> & Hp & Hor & Hl).
      { rewrite length_app in Hfuel. destruct Hf as [Hne _]. destruct f; [done|].
        simpl in Hfuel. lia. }
      { done. }
      exists (f :: fs1), fs2, p. split_and!; [done..|]. by rewrite Hl, <- app_assoc.
    + exists [], ((buf ++ q) :: fs), buf.
      pose proof (scan_prefix buf q Hne Hf) as Hs. split_and!; [done| |by right|].
      * simpl. by rewrite <- app_assoc.
      * rewrite app_nil_r. by apply frame_loop_partial.
Qed.

Lemma feed_chunks_stream chunks : ∀ fs buf tasks,
  Forall is_frame fs → buf ++ concat chunks = concat fs →
  (buf = [] ∨ scan_frame buf = Ok NeedMore) →
  feed_chunks buf chunks tasks = Ok (Some (tasks ++ fs, [])).
Proof.
  induction chunks as [|c cs IH]; intros fs buf tasks Hfs Hcat Hbuf; cbn [feed_chunks].
  - simpl in Hcat. rewrite app_nil_r in Hcat. subst buf.
    destruct fs as [|f fs]; [by rewrite app_nil_r|].
    apply Forall_cons in Hfs as [[Hne Hf] _]. simpl in Hbuf.
    destruct Hbuf as [[-> _]%app_eq_nil|Hs]; [done|]. by rewrite Hf in Hs.
  - destruct (frame_loop_stream fs (S (length (buf ++ c))) (buf ++ c) (concat cs) tasks)
      as (fs1 & fs2 & p & -> & Hp & Hor & ->); [done|lia|by rewrite <- app_assoc|].
    cbn [rbind]. apply Forall_app in Hfs as [_ Hfs2].
    rewrite (IH fs2 p (tasks ++ fs1)) by done. by rewrite <- app_assoc.
Qed.

(** The loop body on a buffer that is not empty. *)
Lemma frame_loop_S fuel buf tasks : buf ≠ [] →
  frame_loop (S fuel) buf tasks =
  match scan_frame buf with
  | Ok NeedMore => Ok (Some (tasks, buf))
  | Ok (Complete t) =>
      frame_loop fuel (drop (Z.to_nat t) buf) (tasks ++ [take (Z.to_nat t) buf])
  | Throw e => Throw e
  | Undef u => Undef u
  end.
Proof.
  intros Hne. destruct buf as [|c buf]; [done|]. cbn [frame_loop].
  destruct (scan_frame_Ok (c :: buf)) as ([|t] & -> & Ht); cbn [rbind]; [done|].
  unfold substr, substr_from. ltb_false. ltb_false. cbn [rbind].
  rewrite Z.sub_0_r, Z.min_l by lia. done.
Qed.

(** *** The size that a frame declares

    RFC 6455, 5.2, as an integer of any size: [None] while the length field is incomplete. *)
Definition declared_size (buf : str) : option Z :=
  match buf with
  | _ :: b1 :: rest =>
      let key := if u8 b1 <? 128 then 0 else 4 in
      let len7 := u8 b1 mod 128 in
      if len7 <? 126 then Some (2 + key + len7)
      else
        let n := if len7 =? 126 then 2%nat else 8%nat in
        if bool_decide (n ≤ length rest)%nat
        then Some (2 + Z.of_nat n + key + foldl (λ a c, a * 256 + u8 c) 0 (take n rest))
        else None
  | _ => None
  end.

Lemma foldl_be_range s : 0 ≤ foldl (λ a c, a * 256 + u8 c) 0 s < 2 ^ (8 * slen s).
Proof.
  induction s as [|c s IH] using rev_ind; [done|]. rewrite foldl_app. cbn [foldl].
  pose proof (u8_range c). rewrite slen_app. change (slen [c]) with 1.
  rewrite Z.mul_add_distr_l, Z.pow_add_r by slia. change (2 ^ (8 * 1)) with 256. lia.
Qed.

(** A declared size is between 2 and 2^64 + 13. *)
Lemma declared_size_range buf n : declared_size buf = Some n → 2 ≤ n ≤ 2 ^ 64 + 13.
Proof.
  destruct buf as [|b0 [|b1 rest]]; [done..|]. cbn. pose proof (u8_range b1).
  assert (0 ≤ u8 b1 mod 128 < 128) by (apply Z.mod_pos_bound; lia).
  destruct (Z.ltb_spec (u8 b1 mod 128) 126).
  { intros [= <-]. destruct (_ <? 128); lia. }
  set (k := if _ =? 126 then _ else _). case_bool_decide as Hk; [|done]. intros [= <-].
  pose proof (foldl_be_range (take k rest)) as Hf. unfold slen in Hf. rewrite length_take, Nat.min_l in Hf by done.
  assert (2 ^ (8 * Z.of_nat k) ≤ 2 ^ 64) by (unfold k; destruct (_ =? 126); cbn; lia).
  assert (Z.of_nat k ≤ 8) by (unfold k; destruct (_ =? 126); lia).
  destruct (_ <? 128); lia.
Qed.

(** The scan computes that size modulo 2^64. *)
Lemma length16_be b0 b1 c d s : length16 (b0 :: b1 :: c :: d :: s) = Ok (u8 c * 256 + u8 d).
Proof.
  unfold length16. data_at_eval. pose proof (u8_range d). by rewrite lor_shiftl_add by lia.
Qed.

Lemma length64_be b0 b1 ext s :
  length ext = 8%nat → length64 (b0 :: b1 :: ext ++ s) = Ok (foldl (λ a c, a * 256 + u8 c) 0 ext).
Proof.
  intros Hl. do 8 (destruct ext as [|? ext]; [done|]). destruct ext; [|done].
  unfold length64. cbn [app]. data_at_eval. f_equal. cbn [foldl]. u8_ranges.
  change 56 with (48 + 8). rewrite shiftl_lor_step by lia.
  change 48 with (40 + 8). rewrite shiftl_lor_step by lia.
  change 40 with (32 + 8). rewrite shiftl_lor_step by lia.
  change 32 with (24 + 8). rewrite shiftl_lor_step by lia.
  change 24 with (16 + 8). rewrite shiftl_lor_step by lia.
  change 16 with (8 + 8). rewrite shiftl_lor_step by lia.
  rewrite (lor_shiftl_add _ _ 8) by lia. lia.
Qed.

Lemma land_80_zero c : (Z.land (u8 c) 0x80 =? 0) = (u8 c <? 128).
Proof.
  rewrite land_80. pose proof (u8_range c).
  destruct (Z.ltb_spec (u8 c) 128); [apply Z.eqb_eq|apply Z.eqb_neq]; zdiv.
Qed.

Lemma scan_frame_declared buf :
  scan_frame buf = Ok match declared_size buf with
                      | None => NeedMore
                      | Some n => if slen buf <? u64 n then NeedMore else Complete (u64 n)
                      end.
Proof.
  unfold scan_frame. destruct buf as [|b0 [|b1 rest]]; [done..|].
  rewrite (proj2 (Z.ltb_ge _ _)) by slia. data_at_eval. rewrite land_7F, land_80_zero. cbn [declared_size].
  pose proof (u8_range b1). assert (0 ≤ u8 b1 mod 128 < 128) by (apply Z.mod_pos_bound; lia).
  assert (Hfin : ∀ h n, h + n = n + h → ∀ m, m = (if u8 b1 <? 128 then h else h + 4) + n →
    (if slen (b0 :: b1 :: rest) <? u64 ((if u8 b1 <? 128 then h else h + 4) + n)
     then Ok NeedMore else Ok (Complete (u64 ((if u8 b1 <? 128 then h else h + 4) + n)))) =
    Ok (if slen (b0 :: b1 :: rest) <? u64 m then NeedMore else Complete (u64 m))).
  { intros h n _ m ->. by destruct (_ <? u64 _). }
  destruct (Z.ltb_spec (u8 b1 mod 128) 126).
  - rewrite (proj2 (Z.eqb_neq _ _)), (proj2 (Z.eqb_neq _ _)) by lia. cbn [rbind].
    apply Hfin; [lia|]. destruct (_ <? 128); lia.
  - destruct (Z.eqb_spec (u8 b1 mod 128) 126).
    + case_bool_decide as Hl.
      * rewrite (proj2 (Z.ltb_ge _ _)) by slia. destruct rest as [|c [|d rest]]; [cbn in Hl; lia..|].
        rewrite length16_be. cbn [rbind take foldl]. rewrite take_0. cbn [foldl]. apply Hfin; [lia|]. destruct (_ <? 128); lia.
      * by rewrite (proj2 (Z.ltb_lt _ _)) by slia.
    + rewrite (proj2 (Z.eqb_eq _ _)) by lia. case_bool_decide as Hl.
      * rewrite (proj2 (Z.ltb_ge _ _)) by slia.
        assert (length64 (b0 :: b1 :: rest) = Ok (foldl (λ a c, a * 256 + u8 c) 0 (take 8 rest))) as ->.
        { rewrite <- (take_drop 8 rest) at 1. apply length64_be. rewrite length_take. lia. }
        cbn [rbind].
        apply Hfin; [lia|]. destruct (_ <? 128); lia.
      * by rewrite (proj2 (Z.ltb_lt _ _)) by slia.
Qed.

(** What is left of the buffer after each frame that the loop cuts off: it cuts as many
    bytes as a [size_t] shows of the declared size. *)
Inductive frame_start (buf : str) : str → Prop :=
  | frame_start_first : frame_start buf buf
  | frame_start_next b n :
      frame_start buf b → declared_size b = Some n → u64 n ≤ slen b →
      frame_start buf (drop (Z.to_nat (u64 n)) b).

Lemma frame_start_cut buf n b :
  declared_size buf = Some n → u64 n ≤ slen buf →
  frame_start (drop (Z.to_nat (u64 n)) buf) b → frame_start buf b.
Proof.
  intros Hd Hn. induction 1 as [|b n' _ IH Hd' Hn']; [|by apply frame_start_next].
  apply frame_start_next; [apply frame_start_first|done..].
Qed.

Lemma frame_start_first_or_next buf b :
  frame_start buf b → b = buf ∨ ∃ n, declared_size buf = Some n ∧ u64 n ≤ slen buf ∧
    frame_start (drop (Z.to_nat (u64 n)) buf) b.
Proof.
  induction 1 as [|b n _ IH Hd Hn]; [by left|right]. destruct IH as [->|(n' & Hd' & Hn' & Hb)].
  - exists n. split_and!; [done..|apply frame_start_first].
  - exists n'. split_and!; [done..|by apply frame_start_next].
Qed.

(** The only declared size that a [size_t] shows as zero. *)
Lemma declared_zero buf n : declared_size buf = Some n → u64 n = 0 → n = 2 ^ 64.
Proof. intros H%declared_size_range E. unfold wrap in E. apply Z.div_exact in E; [|done]. revert H E.
  generalize (n / 2 ^ 64). intros q H E. lia. Qed.

Lemma frame_start_stuck buf b :
  (∀ n, declared_size buf = Some n → slen buf < u64 n) → frame_start buf b → b = buf.
Proof.
  intros Hd. induction 1 as [|b n _ IH Hb Hn]; [done|]. subst b. specialize (Hd n Hb). lia.
Qed.

Lemma frame_loop_ends fuel : ∀ buf tasks, (length buf < fuel)%nat →
  (∃ b, frame_start buf b ∧ declared_size b = Some (2 ^ 64)) ∧
    (∀ k, frame_loop k buf tasks = Ok None) ∨
  (∀ b, frame_start buf b → declared_size b ≠ Some (2 ^ 64)) ∧
    ∃ fs rest, frame_loop fuel buf tasks = Ok (Some (tasks ++ fs, rest)) ∧ buf = concat fs ++ rest.
Proof.
  induction fuel as [|fuel IH]; intros buf tasks Hlen; [lia|].
  assert (Hend : frame_loop (S fuel) buf tasks = Ok (Some (tasks, buf)) →
    (∀ n, declared_size buf = Some n → slen buf < u64 n) →
    (∀ b, frame_start buf b → declared_size b ≠ Some (2 ^ 64)) ∧
    ∃ fs rest, frame_loop (S fuel) buf tasks = Ok (Some (tasks ++ fs, rest)) ∧ buf = concat fs ++ rest).
  { intros E Hd. split; [|exists [], buf; by rewrite app_nil_r].
    intros b ->%frame_start_stuck Hz; [|done]. apply Hd in Hz. change (u64 (2 ^ 64)) with 0 in Hz. slia. }
  destruct (decide (buf = [])) as [->|Hne]; [right; by apply Hend|].
  pose proof (scan_frame_declared buf) as Hs. destruct (declared_size buf) as [n|] eqn:Hd; cycle 1.
  { right. apply Hend; [|done]. by rewrite frame_loop_S, Hs by done. }
  destruct (Z.ltb_spec (slen buf) (u64 n)) as [Hlt|Hge].
  { right. apply Hend; [by rewrite frame_loop_S, Hs by done|]. by intros ? [= <-]. }
  assert (Hstep : ∀ k, frame_loop (S k) buf tasks =
    frame_loop k (drop (Z.to_nat (u64 n)) buf) (tasks ++ [take (Z.to_nat (u64 n)) buf]))
    by (intros k; by rewrite frame_loop_S, Hs by done).
  destruct (decide (u64 n = 0)) as [Hz|Hnz].
  { left. split.
    - exists buf. split; [apply frame_start_first|]. by rewrite Hd, (declared_zero buf n).
    - intros k. clear IH Hend Hlen. revert tasks Hstep. rewrite Hz. change (Z.to_nat 0) with 0%nat.
      rewrite drop_0. induction k as [|k IHk]; intros tasks Hstep; [done|]. rewrite Hstep. apply IHk.
      intros k'. rewrite frame_loop_S, Hs by done. rewrite Hz. change (Z.to_nat 0) with 0%nat. by rewrite drop_0. }
  pose proof (wrap_range 64 n ltac:(lia)) as Hr.
  destruct (IH (drop (Z.to_nat (u64 n)) buf) (tasks ++ [take (Z.to_nat (u64 n)) buf]))
    as [[(b & Hb & Hz) Hdiv]|[Hno (fs & rest & E & Hcat)]].
  - rewrite length_drop. unfold slen in Hge. lia.
  - left. split; [exists b; split; [by eapply frame_start_cut|done]|].
    intros [|k]; [done|]. by rewrite Hstep.
  - right. split.
    + intros b Hb. destruct (frame_start_first_or_next buf b Hb) as [->|(n' & Hd' & Hn' & Hb')].
      * rewrite Hd. intros [= ->]. by destruct Hnz.
      * rewrite Hd in Hd'. injection Hd' as <-. by apply Hno.
    + exists (take (Z.to_nat (u64 n)) buf :: fs), rest. split; [by rewrite Hstep, E, <- app_assoc|].
      cbn [concat]. by rewrite <- app_assoc, <- Hcat, take_drop.
Qed.

(** A 14-byte masked frame that declares a payload of 2^64 - 14 bytes: header and
    payload lengths add up to zero modulo 2^64. *)
Definition zero_total_frame : str :=
  chr <$> [0x81; 0xFF; 0xFF; 0xFF; 0xFF; 0xFF; 0xFF; 0xFF; 0xFF; 0xF2; 1; 2; 3; 4].

Lemma zero_total_scan rest :
  scan_frame (zero_total_frame ++ rest) = Ok (Complete 0).
Proof. apply scan_frame_app. vm_compute. done. Qed.

Lemma frame_loop_diverges fuel rest tasks :
  frame_loop fuel (zero_total_frame ++ rest) tasks = Ok None.
Proof.
  revert tasks. induction fuel as [|fuel IH]; intros tasks; [done|].
  rewrite frame_loop_S by done. rewrite zero_total_scan.
  change (Z.to_nat 0) with 0%nat. rewrite drop_0. apply IH.
Qed.

(** *** The session id *)

(** The characters that end the session id. *)
Definition sid_stop (c : ascii) : bool := bool_decide (c ∈ (" &;" : str)).

Lemma substr_mid pre s tl : slen s < 2 ^ 64 →
  substr (pre ++ s ++ tl) (slen pre) (u64 (slen pre + slen s - slen pre)) = Ok s.
Proof.
  intros Hs. unfold substr. ltb_false. f_equal.
  replace (slen pre + slen s - slen pre) with (slen s) by lia.
  rewrite wrap_small by slia. rewrite Z.min_l by slia.
  unfold slen. by rewrite !Nat2Z.id, drop_app_length, take_app_length.
Qed.

Lemma ExtractSid_spec pre sid tl :
  slen (pre ++ "sid=" ++ sid ++ tl) < npos →
  no_occurrence "sid=" pre ("sid=" ++ sid ++ tl) →
  Forall (λ c, sid_stop c = false) sid →
  match tl with [] => True | c :: _ => sid_stop c = true end →
  ExtractSid (pre ++ "sid=" ++ sid ++ tl) = Ok sid.
Proof.
  intros Hlen Hno Hsid Htl. unfold ExtractSid, npos in *.
  assert (H4 : slen "sid=" = 4) by done.
  rewrite (sfind_first _ "sid=" pre (sid ++ tl)) by done.
  rewrite (proj2 (Z.eqb_neq _ _)) by slia. cbn zeta iota.
  rewrite <- H4, <- slen_app, app_assoc.
  set (p := pre ++ "sid="). assert (Hp : slen p = slen pre + slen "sid=") by apply slen_app.
  clearbody p. unfold sfind_first_of.
  rewrite (proj2 (Z.leb_le _ _)) by slia.
  replace (Z.to_nat (slen p)) with (length p) by slia. rewrite drop_app_length.
  assert (Hend : (let sid_end := of_pos (find_char_nat (λ c, bool_decide (c ∈ (" &;" : str)))
      (sid ++ tl) (length p)) in
      if sid_end =? 2 ^ 64 - 1 then slen (p ++ sid ++ tl) else sid_end) = slen p + slen sid).
  { destruct tl as [|c tl].
    - rewrite app_nil_r, find_char_nat_None by done. cbn. by rewrite slen_app.
    - rewrite find_char_nat_first by done. cbn [of_pos].
      rewrite (proj2 (Z.eqb_neq _ _)); slia. }
  cbv zeta in Hend. rewrite Hend. apply substr_mid. slia.
Qed.

(** ** Properties *)

(** The first byte gives back FIN and the opcode. *)
Lemma first_byte op :
  let b0 := u8 (chr (Z.lor 0x80 (Z.land op 0x0F))) in
  negb (Z.land b0 0x80 =? 0) = true ∧ Z.land b0 0x0F = Z.land op 0x0F.
Proof.
  assert (H : Z.lor 0x80 (Z.land op 0x0F) = 128 + op mod 16).
  { change 0x0F with (Z.ones 4). rewrite (Z.land_ones op 4) by lia.
    pose proof (Z.mod_pos_bound op 16 ltac:(lia)).
    apply (lor_shiftl_add 1 (op mod 16) 7); simpl; lia. }
  pose proof (Z.mod_pos_bound op 16 ltac:(lia)).
  cbv zeta. rewrite H, land_80, u8_chr_small by lia.
  change 0x0F with (Z.ones 4). rewrite !(Z.land_ones _ 4) by lia. split.
  - apply negb_true_iff, Z.eqb_neq. zdiv.
  - change (2 ^ 4) with 16. zdiv.
Qed.

(** C22: a frame built by the server parses back to its opcode and payload, for every
    payload a [size_t] can measure: FIN set, no mask, exact length. *)
Theorem ws_build_parse (payload : str) (op : Z) :
  slen payload < 2 ^ 64 →
  ParseWebSocketFrame (BuildWebSocketFrame payload op) =
  Ok (Frame true (Z.land op 0x0F) false (slen payload) None payload).
Proof.
  intros H. rewrite Build_encode, parse_encode by done.
  destruct (first_byte op) as [-> ->]. done.
Qed.

Theorem ws_build_parse_witness :
  ParseWebSocketFrame (BuildWebSocketFrame "hi" 1) = Ok (Frame true 1 false 2 None "hi").
Proof. apply (ws_build_parse "hi" 1). reflexivity. Defined.

(** C31: a masked client frame is unmasked to exactly the client's payload, whatever
    the masking key and the size class of the length field. *)
Theorem ws_parse_masked (op : Z) (key : list ascii) (payload : str) :
  length key = 4%nat → slen payload < 2 ^ 64 →
  ParseWebSocketFrame (client_frame op key payload) =
  Ok (Frame true (Z.land op 0x0F) true (slen payload) (Some key) payload).
Proof.
  intros Hk H. unfold client_frame. rewrite parse_encode by done.
  destruct (first_byte op) as [-> ->]. done.
Qed.

Theorem ws_parse_masked_witness :
  ParseWebSocketFrame (client_frame 1 [chr 7; chr 200; chr 0; chr 33] "hello") =
  Ok (Frame true 1 true 5 (Some [chr 7; chr 200; chr 0; chr 33]) "hello").
Proof. apply (ws_parse_masked 1 [chr 7; chr 200; chr 0; chr 33] "hello"); reflexivity. Defined.

(** A frame as a conforming client sends it. *)
Definition client_sent (f : str) : Prop :=
  ∃ op key payload, length key = 4%nat ∧ f = client_frame op key payload ∧ slen f < 2 ^ 64.

(** C40: the receive loop reads only inside its buffer, and whether it ends is decided by the
    sizes that the frames declare (RFC 6455, 5.2).  If a frame that it comes to declares
    2^64 bytes, which the [size_t] shows as zero, it never ends.  Otherwise it ends, within
    one iteration per buffered byte; what it queued and what it keeps are the buffer, cut. *)
Theorem ws_loop_terminates (buf : str) (tasks : list str) :
  (∃ b, frame_start buf b ∧ declared_size b = Some (2 ^ 64)) ∧
    (∀ fuel, frame_loop fuel buf tasks = Ok None) ∨
  (∀ b, frame_start buf b → declared_size b ≠ Some (2 ^ 64)) ∧
    ∃ fs rest, frame_loop (S (length buf)) buf tasks = Ok (Some (tasks ++ fs, rest)) ∧
      buf = concat fs ++ rest.
Proof. apply frame_loop_ends. lia. Qed.

Theorem ws_loop_terminates_witness :
  ∃ fs rest, frame_loop 9 (chr <$> [129; 130; 1; 2; 3; 4; 5; 6]) [] = Ok (Some ([] ++ fs, rest)).
Proof.
  destruct (ws_loop_terminates (chr <$> [129; 130; 1; 2; 3; 4; 5; 6]) []) as [[_ H]|[_ (fs & rest & H & _)]].
  - specialize (H 9%nat). vm_compute in H. discriminate H.
  - exists fs, rest. exact H.
Defined.

(** The sum of header and payload length wraps: a 14-byte client frame that
    declares 2^64 - 14 payload bytes has total length zero, and the loop then never
    ends, queueing one more empty task per iteration. *)
Theorem ws_zero_total_diverges (rest : str) (tasks : list str) (fuel : nat) :
  scan_frame (zero_total_frame ++ rest) = Ok (Complete 0) ∧
  frame_loop fuel (zero_total_frame ++ rest) tasks = Ok None.
Proof. split; [apply zero_total_scan|apply frame_loop_diverges]. Qed.

(** The cookie's session id is the text after the first [sid=] up to the next
    blank, ampersand or semicolon, or to the end. *)
Theorem ExtractSid_correct (pre sid tl : str) :
  slen (pre ++ "sid=" ++ sid ++ tl) < npos →
  no_occurrence "sid=" pre ("sid=" ++ sid ++ tl) →
  Forall (λ c, sid_stop c = false) sid →
  match tl with [] => True | c :: _ => sid_stop c = true end →
  ExtractSid (pre ++ "sid=" ++ sid ++ tl) = Ok sid.
Proof. apply ExtractSid_spec. Qed.

Theorem ExtractSid_correct_witness : ExtractSid "a=1; sid=7f; b" = Ok ("7f" : str).
Proof.
  apply (ExtractSid_correct "a=1; " "7f" "; b").
  - reflexivity.
  - intros k Hk. do 5 (destruct k as [|k]; [reflexivity|]). simpl in Hk. lia.
  - apply Forall_cons; split; [reflexivity|]. apply Forall_cons; split; [reflexivity|].
    apply Forall_nil. exact I.
  - reflexivity.
Defined.
