(* ===== verification/ApiTypes.v ===== *)
(** [api/api_types.h] of the comet and of the logic service: the structures both use. *)

From S2P Require Import Prelude.

(** [struct Room] *)
Record Room : Type := MkRoom {
  room_id : str;
  room_name : str;
  creator_id : str;
  create_time : str;
  update_time : str;
  history_last_message_id : str
}.

#[export] Instance Room_eq_dec : EqDecision Room.
Proof. solve_decision. Defined.

(** [struct Message] of the logic service. *)
Record Message : Type := MkMessage {
  msg_id : str;
  msg_username : str;
  msg_content : str;
  msg_timestamp : Z;
  msg_user_id : str
}.

(** [struct MessageBatch] *)
Record MessageBatch : Type := MkBatch { messages : list Message; has_more : bool }.
Definition MessageBatch_new : MessageBatch := MkBatch [] false.
