(* ===== verification/PubSub.v ===== *)
(** [service/pub_sub_service.{h,cc}] and [api/api_types.h]: the room topics and their
    subscribers, the list of rooms, and the subscription interface that the push
    services rely on.

    A [std::unordered_set] is a [gset]: its iteration order is unspecified, so no
    statement depends on it.  Each operation runs under [room_topic_map_mutex] and is
    one atomic step. *)

From S2P Require Import Prelude.
From S2P Require Import ApiTypes.

(** ** Data *)

(** [class RoomTopic] *)
Record RoomTopic : Type := MkTopic {
  topic_room_id : str;
  topic_name : str;
  topic_creator_id : str;
  user_ids : gset str
}.

Definition RoomTopic_new (room_id room_topic creator_id : str) : RoomTopic :=
  MkTopic room_id room_topic creator_id ∅.
Definition RoomTopic_AddSubscriber (t : RoomTopic) (user_id : str) : RoomTopic :=
  MkTopic (topic_room_id t) (topic_name t) (topic_creator_id t) ({[user_id]} ∪ user_ids t).
Definition RoomTopic_DeleteSubscriber (t : RoomTopic) (user_id : str) : RoomTopic :=
  MkTopic (topic_room_id t) (topic_name t) (topic_creator_id t) (user_ids t ∖ {[user_id]}).
Definition RoomTopic_GetSubscribers (t : RoomTopic) : gset str := user_ids t.

(** ** [class PubSubService] *)

(** [room_topic_map] *)
Abbreviation PubSubService := (gmap str RoomTopic).

Definition AddRoomTopic (room_id room_topic creator_id : str) (st : PubSubService)
    : bool * PubSubService :=
  match st !! room_id with
  | Some _ => (false, st)
  | None => (true, <[room_id := RoomTopic_new room_id room_topic creator_id]> st)
  end.

(** Returns early when the topic is found; [erase] runs when it is not. *)
Definition DeleteRoomTopic (room_id : str) (st : PubSubService) : PubSubService :=
  match st !! room_id with
  | Some _ => st
  | None => delete room_id st
  end.

Definition AddSubscriber (room_id user_id : str) (st : PubSubService)
    : bool * PubSubService :=
  match st !! room_id with
  | None => (false, st)
  | Some t => (true, <[room_id := RoomTopic_AddSubscriber t user_id]> st)
  end.

Definition DeleteSubscriber (room_id user_id : str) (st : PubSubService) : PubSubService :=
  match st !! room_id with
  | None => st
  | Some t => <[room_id := RoomTopic_DeleteSubscriber t user_id]> st
  end.

(** The copy of the subscribers handed to the callback; [None]: no callback. *)
Definition PubSubMessage (room_id : str) (st : PubSubService) : option (gset str) :=
  RoomTopic_GetSubscribers <$> st !! room_id.

(** [PubSubService::AddRoom] on [s_room_list]: 0 and appended, or -1 and unchanged. *)
Definition AddRoom (room : Room) (s_room_list : list Room) : Z * list Room :=
  if existsb (λ r, bool_decide (room_id r = room_id room)) s_room_list
  then ((-1)%Z, s_room_list)
  else (0%Z, s_room_list ++ [room]).

Definition GetRoomList (s_room_list : list Room) : list Room := s_room_list.

(** ** What the push services rely on *)

(** Observation: the subscribers of a room, [None] when it has no topic. *)
Class SubscriptionService (P : Type) : Type := {
  svc_subscribers : P → str → option (gset str);
  svc_add_topic : str → str → str → P → bool * P;
  svc_add_subscriber : str → str → P → bool * P;
  svc_message : str → P → option (gset str);
  svc_message_spec p r : svc_message r p = svc_subscribers p r;
  svc_add_topic_spec p r n c r' :
    svc_subscribers (svc_add_topic r n c p).2 r' =
    if decide (r' = r) then Some (default ∅ (svc_subscribers p r)) else svc_subscribers p r';
  svc_add_subscriber_spec p r u r' :
    svc_subscribers (svc_add_subscriber r u p).2 r' =
    if decide (r' = r) then (λ s, {[u]} ∪ s) <$> svc_subscribers p r else svc_subscribers p r'
}.

#[export] Instance PubSub_service : SubscriptionService PubSubService.
Proof.
  refine {|
    svc_subscribers p r := user_ids <$> p !! r;
    svc_add_topic := AddRoomTopic;
    svc_add_subscriber := AddSubscriber;
    svc_message := PubSubMessage
  |}; intros.
  - done.
  - unfold AddRoomTopic. destruct (p !! r) as [t|] eqn:E; case_decide; subst; simpl;
      by simplify_map_eq.
  - unfold AddSubscriber. destruct (p !! r) as [t|] eqn:E; case_decide; subst; simpl;
      by simplify_map_eq.
Defined.

(** ** Operation sequences *)

Inductive op : Type :=
  | OAddTopic (r n c : str)
  | ODelTopic (r : str)
  | OAddSub (r u : str)
  | ODelSub (r u : str).

Definition step_op (st : PubSubService) (o : op) : PubSubService :=
  match o with
  | OAddTopic r n c => (AddRoomTopic r n c st).2
  | ODelTopic r => DeleteRoomTopic r st
  | OAddSub r u => (AddSubscriber r u st).2
  | ODelSub r u => DeleteSubscriber r u st
  end.

Definition run_ops (ops : list op) : PubSubService := foldl step_op ∅ ops.

(** Reference: a room has a topic from the first [AddRoomTopic] until the topic is deleted;
    a user is subscribed when the topic existed at his last subscription and neither he nor
    the topic has been removed since. *)
Fixpoint topic_since (ops : list op) (r : str) : bool :=     (* latest operation first *)
  match ops with
  | [] => false
  | OAddTopic r' _ _ :: ops' => bool_decide (r' = r) || topic_since ops' r
  | ODelTopic r' :: ops' => negb (bool_decide (r' = r)) && topic_since ops' r
  | _ :: ops' => topic_since ops' r
  end.

Fixpoint subscribed_since (ops : list op) (r u : str) : bool :=
  match ops with
  | [] => false
  | OAddSub r' u' :: ops' =>
      if bool_decide (r' = r ∧ u' = u) && topic_since ops' r then true
      else subscribed_since ops' r u
  | ODelSub r' u' :: ops' =>
      if bool_decide (r' = r ∧ u' = u) then false else subscribed_since ops' r u
  | ODelTopic r' :: ops' => if bool_decide (r' = r) then false else subscribed_since ops' r u
  | _ :: ops' => subscribed_since ops' r u
  end.

(** No topic is deleted while it exists. *)
Fixpoint deletes_absent (ops : list op) : bool :=
  match ops with
  | [] => true
  | ODelTopic r :: ops' => negb (topic_since ops' r) && deletes_absent ops'
  | _ :: ops' => deletes_absent ops'
  end.

(** Every topic is stored under its own id. *)
Definition topics_ok (st : PubSubService) : Prop := map_Forall (λ r t, topic_room_id t = r) st.

Definition subs (st : PubSubService) (r : str) : option (gset str) := user_ids <$> st !! r.

Definition subscribed (st : PubSubService) (r u : str) : Prop :=
  ∃ s, subs st r = Some s ∧ u ∈ s.

(** ** Lemmas *)

Lemma DeleteRoomTopic_id r st : DeleteRoomTopic r st = st.
Proof.
  unfold DeleteRoomTopic. destruct (st !! r) eqn:E; [done|]. by apply delete_id.
Qed.

Lemma step_op_ok st o : topics_ok st → topics_ok (step_op st o).
Proof.
  intros H. destruct o as [r n c|r|r u|r u]; simpl; [|by rewrite DeleteRoomTopic_id| |];
    unfold AddRoomTopic, AddSubscriber, DeleteSubscriber;
    destruct (st !! r) eqn:E; simpl; try done; apply map_Forall_insert_2; try done;
    by apply (H r _ E).
Qed.

Lemma run_ops_snoc ops o : run_ops (ops ++ [o]) = step_op (run_ops ops) o.
Proof. unfold run_ops. by rewrite foldl_app. Qed.

Lemma run_ops_ok ops : topics_ok (run_ops ops).
Proof.
  induction ops as [|o ops IH] using rev_ind; [done|].
  rewrite run_ops_snoc. by apply step_op_ok.
Qed.

(** The observation after one more operation. *)
Lemma step_op_lookup st o r :
  user_ids <$> step_op st o !! r =
  match o with
  | OAddTopic r' _ _ =>
      if decide (r = r') then Some (default ∅ (user_ids <$> st !! r)) else user_ids <$> st !! r
  | ODelTopic _ => user_ids <$> st !! r
  | OAddSub r' u =>
      if decide (r = r') then (λ s, {[u]} ∪ s) <$> (user_ids <$> st !! r)
      else user_ids <$> st !! r
  | ODelSub r' u =>
      if decide (r = r') then (λ s, s ∖ {[u]}) <$> (user_ids <$> st !! r)
      else user_ids <$> st !! r
  end.
Proof.
  destruct o as [r' n c|r'|r' u|r' u]; simpl; [|by rewrite DeleteRoomTopic_id| |];
    unfold AddRoomTopic, AddSubscriber, DeleteSubscriber;
    destruct (st !! r') eqn:E; simpl; case_decide; subst; by simplify_map_eq.
Qed.

Lemma deletes_absent_cons o ops :
  deletes_absent (o :: ops) = true →
  deletes_absent ops = true ∧ match o with ODelTopic r => topic_since ops r = false | _ => True end.
Proof. destruct o; cbn; rewrite ?andb_true_iff, ?negb_true_iff; naive_solver. Qed.

Lemma run_ops_topic ops r :
  deletes_absent (rev ops) = true → is_Some (subs (run_ops ops) r) ↔ topic_since (rev ops) r = true.
Proof.
  induction ops as [|o ops IH] using rev_ind; [by split; [intros [? ?]|]|].
  rewrite rev_app_distr. intros [Hd Ho]%deletes_absent_cons. specialize (IH Hd).
  unfold subs in *. rewrite run_ops_snoc, step_op_lookup.
  destruct o as [r' n c|r'|r' u|r' u]; simpl; rewrite <- ?IH, ?orb_true_iff, ?bool_decide_eq_true.
  - case_decide; subst; [|naive_solver]. rewrite ?fmap_is_Some; naive_solver.
  - case_bool_decide; subst; [|by rewrite IH]. by rewrite IH, Ho.
  - case_decide; subst; [|naive_solver]. rewrite ?fmap_is_Some; naive_solver.
  - case_decide; subst; [|naive_solver]. rewrite ?fmap_is_Some; naive_solver.
Qed.

Lemma subscribed_step st o r u :
  subscribed (step_op st o) r u ↔
  match o with
  | OAddSub r' u' => ((r' = r ∧ u' = u) ∧ is_Some (subs st r)) ∨ subscribed st r u
  | ODelSub r' u' => ¬ (r' = r ∧ u' = u) ∧ subscribed st r u
  | _ => subscribed st r u
  end.
Proof.
  unfold subscribed, subs. rewrite step_op_lookup.
  destruct (user_ids <$> st !! r) as [s|] eqn:E; clear E;
    destruct o as [r' n c|r'|r' v|r' v]; simpl; try case_decide; subst; simpl;
    unfold is_Some; naive_solver set_solver.
Qed.

Lemma run_ops_subscribed ops r u :
  deletes_absent (rev ops) = true →
  subscribed (run_ops ops) r u ↔ subscribed_since (rev ops) r u = true.
Proof.
  induction ops as [|o ops IH] using rev_ind.
  { split; [by intros (? & [=] & ?)|done]. }
  rewrite rev_app_distr. intros [Hd Ho]%deletes_absent_cons. specialize (IH Hd).
  rewrite run_ops_snoc, subscribed_step. simpl.
  destruct o as [r' n c|r'|r' v|r' v]; rewrite ?IH; simpl; try done.
  - case_bool_decide; subst; [|done]. rewrite <- IH. split; [|done]. intros (s & Hs & _).
    assert (topic_since (rev ops) r = true) by (apply run_ops_topic; [done|by exists s]). congruence.
  - rewrite run_ops_topic by done. destruct (topic_since (rev ops) r); case_bool_decide; simpl;
      naive_solver.
  - case_bool_decide; naive_solver.
Qed.

(** ** Properties *)

(** C32: after any sequence of operations on an empty service in which no existing topic is
    deleted (nothing in the program calls [DeleteRoomTopic], which does not do what it says),
    [PubSubMessage] hands the callback exactly the users whose last effective operation on
    the room was a subscription made while the room's topic existed, and it calls nothing
    exactly when the room has no topic; every topic is stored under its own id. *)
Theorem pubsub_sequence_refines ops r :
  deletes_absent (rev ops) = true →
  (∀ u, (∃ s, PubSubMessage r (run_ops ops) = Some s ∧ u ∈ s) ↔
        subscribed_since (rev ops) r u = true) ∧
  (PubSubMessage r (run_ops ops) = None ↔ topic_since (rev ops) r = false) ∧
  topics_ok (run_ops ops).
Proof.
  intros Hd. split_and!; [intros u; by apply run_ops_subscribed| |apply run_ops_ok].
  rewrite <- not_true_iff_false, <- run_ops_topic, <- eq_None_not_Some by done. done.
Qed.

Lemma pubsub_sequence_refines_witness :
  let ops := [OAddTopic "r1" "General" "u1"; OAddSub "r1" "u1"; OAddSub "r1" "u2"; OAddSub "r2" "u1";
              ODelTopic "r2"; ODelSub "r1" "u1"; OAddTopic "r1" "again" "u3"] in
  ∃ s, PubSubMessage "r1" (run_ops ops) = Some s ∧ ("u2" : str) ∈ s ∧ ("u1" : str) ∉ s.
Proof.
  intros ops. destruct (pubsub_sequence_refines ops "r1") as (H & _); [reflexivity|].
  destruct (proj2 (H "u2") eq_refl) as (s & Hs & Hu). exists s. split; [exact Hs|]. split; [exact Hu|].
  intros Hu1. assert (E : subscribed_since (rev ops) "r1" "u1" = true) by (apply H; exists s; exact (conj Hs Hu1)).
  vm_compute in E. discriminate E.
Defined.

(** [DeleteRoomTopic] never changes the service: a topic, once created, is never
    removed by it, whoever subscribed. *)
Theorem DeleteRoomTopic_never_deletes r st : DeleteRoomTopic r st = st.
Proof. apply DeleteRoomTopic_id. Qed.

(** [AddRoom] keeps the room ids pairwise distinct, never drops or reorders a known
    room, and fails exactly when the id is already known, leaving the list unchanged. *)
Theorem AddRoom_correct room l :
  NoDup (room_id <$> l) →
  NoDup (room_id <$> (AddRoom room l).2) ∧
  l `prefix_of` (AddRoom room l).2 ∧
  (room_id room ∈ room_id <$> (AddRoom room l).2) ∧
  ((AddRoom room l).1 = (-1)%Z ↔ room_id room ∈ room_id <$> l) ∧
  ((AddRoom room l).1 = (-1)%Z → (AddRoom room l).2 = l).
Proof.
  intros Hnd. unfold AddRoom.
  assert (Hex : existsb (λ r, bool_decide (room_id r = room_id room)) l = true ↔
                room_id room ∈ room_id <$> l).
  { rewrite existsb_exists, list_elem_of_fmap.
    setoid_rewrite bool_decide_eq_true. setoid_rewrite <- list_elem_of_In. naive_solver. }
  destruct (existsb _ l) eqn:E; simpl.
  - split_and!; naive_solver.
  - assert (Hn : room_id room ∉ room_id <$> l) by (rewrite <- Hex; by destruct (existsb _ l)).
    rewrite fmap_app. split_and!; try done.
    + apply NoDup_app. split_and!; [done| |apply NoDup_singleton]. set_solver.
    + by apply prefix_app_r.
    + set_solver.
Qed.

Lemma AddRoom_correct_witness :
  let r := MkRoom "r1" "General" "u1" "" "" "" in
  NoDup (room_id <$> (AddRoom r [MkRoom "r0" "Lobby" "u0" "" "" ""]).2).
Proof.
  intros r. apply (AddRoom_correct r [MkRoom "r0" "Lobby" "u0" "" "" ""]).
  apply NoDup_singleton.
Defined.
