(* ===== verification/Util.v ===== *)
(** [base/util.cc], the same file in the three services: string splitting, the
    [?]-placeholder substitution of SQL templates, decimal conversion, URL encoding
    and substring search.

    Not modelled: [GetTickCount], [util_sleep], [WritePid] and [GetFileSize], which
    only call the operating system. *)

From S2P Require Import Prelude.

(** ** [class CStrExplode] *)

(** [item_list_] has [item_cnt_] slots; the constructor fills a prefix of them and the
    remaining slots keep an indeterminate pointer. *)
Record CStrExplode : Type := MkExplode {
  item_cnt_ : Z;
  item_list_ : list str
}.

(** First loop: one more than the number of separators, in a [uint32_t]. *)
Definition explode_count (seperator : ascii) (s : str) : Z :=
  u32 (1 + Z.of_nat (length (filter (λ c, c = seperator) s))).

(** [uint32_t len = pos - start; strncpy(item, start, len)] *)
Definition explode_item (cur : str) : str := take (Z.to_nat (u32 (slen cur))) cur.

(** Second loop: [cur] is the text between [start] and [pos]. *)
Fixpoint explode_items (seperator : ascii) (cur s : str) : list str :=
  match s with
  | [] => if bool_decide (u32 (slen cur) ≠ 0)%Z then [explode_item cur] else []
  | c :: s' =>
      if bool_decide (cur ≠ [] ∧ c = seperator)
      then explode_item cur :: explode_items seperator [] s'
      else explode_items seperator (cur ++ [c]) s'
  end.

(** [CStrExplode::CStrExplode(char* str, char seperator)] *)
Definition CStrExplode_new (s : str) (seperator : ascii) : CStrExplode :=
  let s := c_str s in
  MkExplode (explode_count seperator s) (explode_items seperator [] s).

Definition GetItemCnt (e : CStrExplode) : Z := item_cnt_ e.

Definition GetItem (e : CStrExplode) (idx : Z) : result str :=
  if (item_cnt_ e <=? idx)%Z then Undef OutOfBounds
  else match item_list_ e !! Z.to_nat idx with
       | Some item => Ok item
       | None => Undef UninitRead
       end.

(** [~CStrExplode]: [delete[]] on each of the [item_cnt_] slots. *)
Definition CStrExplode_delete (e : CStrExplode) : result unit :=
  if (item_cnt_ e <=? Z.of_nat (length (item_list_ e)))%Z then Ok tt else Undef UninitRead.

(** ** Conversions and replacement *)

(** [ReplaceStr] on a buffer: the bytes before the terminator. *)
Fixpoint replace_chars (src : str) (old_char new_char : ascii) : str :=
  match src with
  | [] => []
  | c :: src' =>
      if bool_decide (c = NUL) then src
      else (if bool_decide (c = old_char) then new_char else c)
           :: replace_chars src' old_char new_char
  end.
Definition ReplaceStr (src : option str) (old_char new_char : ascii) : option str :=
  (λ s, replace_chars s old_char new_char) <$> src.

Definition Int2String (user_id : Z) : str := to_string (u32 user_id).
Definition String2Int (value : str) : Z := u32 (atoi value).

(** [str.replace(pos, 1, v)] *)
Definition str_replace1 (s : str) (pos : Z) (v : str) : str :=
  take (Z.to_nat pos) s ++ v ++ drop (Z.to_nat pos + 1) s.

(** [ReplaceMark(string&, string&, uint32_t&)]: the new [str] and [begin_pos]. *)
Definition ReplaceMark (s new_value : str) (begin_pos : Z) : str * Z :=
  let pos := sfind_char s "?"%char begin_pos in
  if (pos =? npos)%Z then (s, begin_pos)
  else
    let prime_new_value := "'" ++ new_value ++ "'" in
    (str_replace1 s pos prime_new_value, u32 (pos + slen prime_new_value)).

(** [ReplaceMark(string&, uint32_t, uint32_t&)] *)
Definition ReplaceMark_u32 (s : str) (new_value begin_pos : Z) : str * Z :=
  let str_value := to_string (u32 new_value) in
  let pos := sfind_char s "?"%char begin_pos in
  if (pos =? npos)%Z then (s, begin_pos)
  else (str_replace1 s pos str_value, u32 (pos + slen str_value)).

(** ** URL encoding *)

Definition ToHex (x : Z) : Z := if (9 <? x)%Z then wrap 8 (x - 10 + 65) else wrap 8 (x + 48).
Definition FromHex (x : Z) : Z :=
  if is_digit (chr x) then wrap 8 (x - 48) else wrap 8 (x - 65 + 10).

Definition URLEncode (s : str) : str :=
  s ≫= λ c, if is_alnum c then [c]
            else ["%"%char; chr (ToHex (Z.shiftr (u8 c) 4)); chr (ToHex (u8 c `mod` 16))].

(** The loop of [URLDecode] from index [ix]; [fuel] bounds the remaining indices. *)
Fixpoint url_decode_loop (fuel : nat) (s : str) (ix : Z) (out : str) : result str :=
  match fuel with
  | O => Ok out
  | S fuel' =>
      if (slen s <=? ix)%Z then Ok out
      else
        let* c := data_at s ix in
        if (c =? 37)%Z then
          let* h := data_at s (ix + 1) in
          let* l := data_at s (ix + 2) in
          let ch := Z.lor (wrap 8 (Z.shiftl (FromHex h) 4)) (FromHex l) in
          url_decode_loop fuel' s (ix + 3) (out ++ [chr ch])
        else if (c =? 43)%Z then url_decode_loop fuel' s (ix + 1) (out ++ [" "%char])
        else url_decode_loop fuel' s (ix + 1) (out ++ [chr c])
  end.
Definition URLDecode (s : str) : result str := url_decode_loop (length s) s 0 [].

(** ** [MemFind] *)

(** [memcmp(a, b, n) == 0] *)
Definition mem_eq (a b : str) (n : nat) : result bool :=
  if bool_decide (n ≤ length a ∧ n ≤ length b)%nat
  then Ok (bool_decide (take n a = take n b)) else Undef OutOfBounds.

(** [for (int i = from; i < last; i++)] *)
Fixpoint mem_forward (fuel : nat) (src sub : str) (sub_len : nat) (i last : Z)
    : result (option Z) :=
  match fuel with
  | O => Undef OutOfBounds
  | S fuel' =>
      if (i <? last)%Z then
        let* e := mem_eq (drop (Z.to_nat i) src) sub sub_len in
        if e : bool then Ok (Some i) else mem_forward fuel' src sub sub_len (i + 1) last
      else Ok None
  end.

(** [for (int i = n; i >= 0; i--)], [n] being the index of the next comparison plus one. *)
Fixpoint mem_backward (n : nat) (src sub : str) (sub_len : nat) : result (option Z) :=
  match n with
  | O => Ok None
  | S i =>
      let* e := mem_eq (drop i src) sub sub_len in
      if e : bool then Ok (Some (Z.of_nat i)) else mem_backward i src sub sub_len
  end.

(** Result: the offset of the returned pointer in [src_str], [None] for [NULL].
    Past the end of [src] every comparison of at least one byte is undefined, and one of
    no byte succeeds, so [length src + 1] iterations are enough. *)
Definition MemFind (src_str : option str) (src_len : Z) (sub_str : option str)
    (sub_len : Z) (flag : bool) : result (option Z) :=
  match src_str, sub_str with
  | Some src, Some sub =>
      if (src_len <=? 0)%Z then Ok None
      else if (src_len <? sub_len)%Z then Ok None
      else
        let sub_len := if (sub_len =? 0)%Z then slen (c_str sub) else sub_len in
        if (src_len =? sub_len)%Z then
          let* e := mem_eq src sub (Z.to_nat src_len) in
          Ok (if e : bool then Some 0%Z else None)
        else if flag then
          mem_forward (S (length src)) src sub (Z.to_nat sub_len) 0 (u64 (src_len - sub_len))
        else
          mem_backward (Z.to_nat (i32 (src_len - sub_len) + 1)) src sub (Z.to_nat sub_len)
  | _, _ => Ok None
  end.

(** ** Reference definitions *)

(** [x] and the pieces [rest], separated. *)
Definition join_on (sep : ascii) (x : str) (rest : list str) : str :=
  x ++ concat ((λ r, sep :: r) <$> rest).

(** A template [q ? p1 ? p2 ...] with each mark replaced by the quoted value. *)
Fixpoint fill_marks (q : str) (vs ps : list str) : str :=
  match vs, ps with
  | v :: vs', p :: ps' => q ++ ("'" ++ v ++ "'") ++ fill_marks p vs' ps'
  | _, _ => join_on "?"%char q ps
  end.

(** Successive calls of [ReplaceMark] on the same template and position. *)
Definition replace_marks (template : str) (vs : list str) : str * Z :=
  foldl (λ '(s, begin_pos) v, ReplaceMark s v begin_pos) (template, 0%Z) vs.

(** ** [CStrExplode] *)

Definition sep_count (sep : ascii) (s : str) : nat := length (filter (λ c, c = sep) s).
Definition good_item (sep : ascii) (x : str) : Prop := x ≠ [] ∧ sep ∉ x.

Lemma explode_item_id cur : (slen cur < 2 ^ 32)%Z → explode_item cur = cur.
Proof.
  intros H. unfold explode_item. rewrite wrap_small by slia.
  unfold slen. by rewrite Nat2Z.id, firstn_all.
Qed.

Lemma sep_count_cons sep c s :
  sep_count sep (c :: s) = ((if decide (c = sep) then 1 else 0) + sep_count sep s)%nat.
Proof. unfold sep_count. rewrite filter_cons. by case_decide. Qed.

Lemma c_str_no_nul s : Forall (λ c, c ≠ NUL) (c_str s).
Proof.
  induction s as [|c s IH]; [constructor|]. cbn [c_str]. case_bool_decide; by constructor.
Qed.

Lemma explode_items_no_nul sep cur s :
  Forall (λ c, c ≠ NUL) cur → Forall (λ c, c ≠ NUL) s →
  Forall (Forall (λ c, c ≠ NUL)) (explode_items sep cur s).
Proof.
  revert cur. induction s as [|c s IH]; intros cur Hc Hs; cbn [explode_items].
  - case_bool_decide; [|done]. constructor; [|done]. by apply Forall_take.
  - apply Forall_cons in Hs as [Hn Hs]. case_bool_decide.
    + constructor; [by apply Forall_take|]. by apply IH.
    + apply IH; [|done]. apply Forall_app. split; [done|by constructor].
Qed.

(** The items are C strings. *)
Lemma GetItem_c_str s sep i item :
  GetItem (CStrExplode_new s sep) i = Ok item → c_str item = item.
Proof.
  unfold GetItem. destruct (_ <=? _)%Z; [done|]. destruct (_ !! _) as [x|] eqn:E; [|done].
  intros [= <-]. apply c_str_id. eapply Forall_lookup_1; [|exact E].
  apply explode_items_no_nul; [done|apply c_str_no_nul].
Qed.

Lemma explode_items_count sep cur s :
  (length (explode_items sep cur s) ≤ 1 + sep_count sep s)%nat.
Proof.
  revert cur. induction s as [|c s IH]; intros cur; cbn [explode_items].
  - case_bool_decide; simpl; lia.
  - rewrite sep_count_cons. case_bool_decide as H.
    + destruct H as [_ ->]. rewrite decide_True by done. simpl. specialize (IH []). lia.
    + specialize (IH (cur ++ [c])). lia.
Qed.

(** All the slots filled: the text between separators was never empty. *)
Lemma explode_items_full sep cur s :
  (slen cur + slen s < 2 ^ 32)%Z → length (explode_items sep cur s) = (1 + sep_count sep s)%nat →
  ∃ x rest, s = join_on sep x rest ∧ cur ++ x ≠ [] ∧ (sep ∉ x) ∧ Forall (good_item sep) rest ∧
            explode_items sep cur s = (cur ++ x) :: rest.
Proof.
  revert cur. induction s as [|c s IH]; intros cur Hlen Hn; cbn [explode_items] in *.
  - rewrite wrap_small in * by slia. case_bool_decide as Hc; [|done].
    exists [], []. rewrite explode_item_id, app_nil_r by slia. split_and!; try done.
    + by intros ->.
    + by apply not_elem_of_nil.
  - rewrite sep_count_cons in Hn. case_bool_decide as H.
    + destruct H as [Hcur ->]. rewrite decide_True in Hn by done.
      destruct (IH []) as (x & rest & -> & Hx & Hs & Hr & E); [slia|simpl in Hn; lia|].
      exists [], (x :: rest). rewrite explode_item_id, app_nil_r, E by slia.
      split_and!; try done; [by apply not_elem_of_nil|]. by constructor.
    + destruct (decide (c = sep)) as [->|Hc].
      { exfalso. destruct cur; [|by apply H].
        pose proof (explode_items_count sep [sep] s). simpl in Hn. lia. }
      destruct (IH (cur ++ [c])) as (x & rest & -> & Hx & Hs & Hr & E); [slia|simpl in Hn; lia|].
      exists (c :: x), rest. rewrite <- app_assoc in E, Hx. split_and!; try done.
      by apply not_elem_of_cons.
Qed.

Lemma explode_items_join sep cur x rest :
  (slen cur + slen (join_on sep x rest) < 2 ^ 32)%Z →
  cur ++ x ≠ [] → sep ∉ x → Forall (good_item sep) rest →
  explode_items sep cur (join_on sep x rest) = (cur ++ x) :: rest ∧
  sep_count sep (join_on sep x rest) = length rest.
Proof.
  revert cur x. induction rest as [|r rest IHr]; intros cur x;
    (revert cur; induction x as [|c x IHx]; intros cur Hlen Hx Hs Hr).
  - rewrite app_nil_r in *. cbn. rewrite wrap_small by slia.
    rewrite bool_decide_true, explode_item_id by (destruct cur; [done|slia]). done.
  - apply not_elem_of_cons in Hs as [Hc Hs]. change (join_on sep (c :: x) []) with
      (c :: join_on sep x []) in *. cbn [explode_items].
    rewrite bool_decide_false, sep_count_cons, decide_False by naive_solver.
    destruct (IHx (cur ++ [c])) as [-> ->]; [slia|by destruct cur|done|done|].
    by rewrite <- app_assoc.
  - apply Forall_cons in Hr as [[Hr0 Hrs] Hr]. rewrite app_nil_r in *.
    change (join_on sep [] (r :: rest)) with (sep :: join_on sep r rest) in *.
    cbn [explode_items]. rewrite bool_decide_true, sep_count_cons, decide_True by done.
    destruct (IHr [] r) as [-> ->]; [slia|done|done|done|].
    rewrite explode_item_id by slia. done.
  - apply not_elem_of_cons in Hs as [Hc Hs]. change (join_on sep (c :: x) (r :: rest)) with
      (c :: join_on sep x (r :: rest)) in *. cbn [explode_items].
    rewrite bool_decide_false, sep_count_cons, decide_False by naive_solver.
    destruct (IHx (cur ++ [c])) as [-> ->]; [slia|by destruct cur|done|done|].
    by rewrite <- app_assoc.
Qed.

Lemma explode_count_small sep s :
  (slen s < 2 ^ 32 - 1)%Z → explode_count sep s = (1 + Z.of_nat (sep_count sep s))%Z.
Proof.
  intros H. unfold explode_count, sep_count. apply wrap_small.
  pose proof (length_filter (λ c, c = sep) s). unfold slen in H. lia.
Qed.

(** The destructor of [CStrExplode] is defined exactly for the texts that are
    non-empty items separated by single separators; for those, the items are the pieces
    of the text in order.  A leading, trailing or doubled separator, or an empty text,
    leaves a slot uninitialised, and the destructor deletes it. *)
Theorem CStrExplode_defined_iff s sep :
  Forall (λ c, c ≠ NUL) s → (slen s < 2 ^ 32 - 1)%Z →
  CStrExplode_delete (CStrExplode_new s sep) = Ok tt ↔
  ∃ x rest, s = join_on sep x rest ∧ Forall (good_item sep) (x :: rest) ∧
            CStrExplode_new s sep = MkExplode (1 + Z.of_nat (length rest)) (x :: rest).
Proof.
  intros Hs Hlen. unfold CStrExplode_delete, CStrExplode_new. rewrite c_str_id by done.
  simpl. rewrite explode_count_small by done. split.
  - intros H. destruct (Z.leb_spec (1 + Z.of_nat (sep_count sep s))
      (Z.of_nat (length (explode_items sep [] s)))) as [Hle|]; [|done].
    pose proof (explode_items_count sep [] s).
    destruct (explode_items_full sep [] s) as (x & rest & -> & Hx & Hxs & Hr & E); [slia|lia|].
    exists x, rest. simpl in Hx. split_and!; [done|by constructor|]. rewrite E in *.
    simpl in *. f_equal. lia.
  - intros (x & rest & -> & H & [= Hc ->]). rewrite Hc. simpl.
    by rewrite (proj2 (Z.leb_le _ _)) by lia.
Qed.

Lemma CStrExplode_defined_iff_witness :
  CStrExplode_delete (CStrExplode_new "a;bc" ";"%char) = Ok tt ∧
  CStrExplode_delete (CStrExplode_new "a;;bc" ";"%char) = Undef UninitRead.
Proof.
  split; [|reflexivity].
  apply (CStrExplode_defined_iff "a;bc" ";"%char); [repeat constructor; by intros|done|].
  exists "a", ["bc" : str]. split_and!; [reflexivity| |reflexivity].
  repeat constructor; try done; by apply (bool_decide_unpack _).
Defined.

(** ** [ReplaceMark] *)

Lemma sfind_char_first pre q c tl :
  c ∉ q → sfind_char (pre ++ q ++ c :: tl) c (slen pre) = slen (pre ++ q).
Proof.
  intros Hc. unfold sfind_char, sfind_first_of.
  rewrite (proj2 (Z.leb_le _ _)) by slia.
  assert (Z.to_nat (slen pre) = length pre) as -> by slia.
  rewrite drop_app_length, find_char_nat_first.
  - simpl. slia.
  - apply Forall_forall. intros d Hd. apply bool_decide_eq_false. set_solver.
  - apply bool_decide_eq_true. set_solver.
Qed.

Lemma str_replace1_middle pre c tl v : str_replace1 (pre ++ c :: tl) (slen pre) v = pre ++ v ++ tl.
Proof.
  unfold str_replace1. assert (Z.to_nat (slen pre) = length pre) as -> by slia.
  rewrite take_app_length. do 2 f_equal.
  rewrite <- drop_drop, drop_app_length. done.
Qed.

Lemma ReplaceMark_next pre q v tl :
  "?"%char ∉ q → (slen (pre ++ q ++ "?"%char :: tl) < npos)%Z →
  ReplaceMark (pre ++ q ++ "?"%char :: tl) v (slen pre) =
  ((pre ++ q ++ "'" ++ v ++ "'") ++ tl, u32 (slen (pre ++ q ++ "'" ++ v ++ "'"))).
Proof.
  intros Hq Hlen. unfold ReplaceMark. rewrite sfind_char_first by done.
  rewrite (proj2 (Z.eqb_neq _ _)) by slia.
  rewrite !(app_assoc pre q), str_replace1_middle, !slen_app. f_equal.
  by rewrite <- !app_assoc.
Qed.

Lemma replace_marks_from pre q vs ps :
  length ps = length vs → Forall (λ p, "?"%char ∉ p) (q :: ps) →
  (slen (pre ++ fill_marks q vs ps) + slen (join_on "?"%char q ps) < 2 ^ 32)%Z →
  (foldl (λ '(s, begin_pos) v, ReplaceMark s v begin_pos)
     (pre ++ join_on "?"%char q ps, slen pre) vs).1 = pre ++ fill_marks q vs ps.
Proof.
  revert pre q ps. induction vs as [|v vs IH]; intros pre q [|p ps] Hn Hq Hlen; try done.
  apply Forall_cons in Hq as [Hq Hps]. simpl in Hn. cbn [foldl fill_marks] in *.
  change (join_on "?"%char q (p :: ps)) with (q ++ "?"%char :: join_on "?"%char p ps) in *.
  rewrite ReplaceMark_next by (try done; unfold npos; slia).
  rewrite wrap_small by slia. rewrite IH; [by rewrite <- !app_assoc|lia|done|slia].
Qed.

Lemma url_byte c :
  chr (Z.lor (wrap 8 (Z.shiftl (FromHex (u8 (chr (ToHex (Z.shiftr (u8 c) 4))))) 4))
         (FromHex (u8 (chr (ToHex (u8 c `mod` 16)))))) = c.
Proof.
  apply u8_inj. byte_decide c.
Qed.

Lemma alnum_plain c : is_alnum c = true → u8 c ≠ 37%Z ∧ u8 c ≠ 43%Z.
Proof.
  unfold is_alnum, is_digit, is_alpha. rewrite !orb_true_iff, !andb_true_iff, !Z.leb_le. lia.
Qed.

Lemma url_decode_encode fuel pre s out :
  (length (URLEncode s) ≤ fuel)%nat →
  url_decode_loop fuel (pre ++ URLEncode s) (slen pre) out = Ok (out ++ s).
Proof.
  revert fuel pre out. induction s as [|c s IH]; intros fuel pre out Hf.
  - rewrite !app_nil_r. destruct fuel; cbn; [done|]. by rewrite Z.leb_refl.
  - change (URLEncode (c :: s)) with
      ((if is_alnum c then [c]
        else ["%"%char; chr (ToHex (Z.shiftr (u8 c) 4)); chr (ToHex (u8 c `mod` 16))])
       ++ URLEncode s) in *.
    destruct fuel as [|fuel]; [destruct (is_alnum c); simpl in Hf; lia|]. cbn [url_decode_loop].
    rewrite (proj2 (Z.leb_gt _ _)) by (destruct (is_alnum c); slia).
    destruct (is_alnum c) eqn:Hc; simpl in Hf.
    + replace (slen pre) with (slen pre + 0)%Z at 1 by lia.
      rewrite data_at_app_r by lia. data_at_eval.
      destruct (alnum_plain c Hc) as [H1 H2]. rewrite !(proj2 (Z.eqb_neq _ _)) by done.
      specialize (IH fuel (pre ++ [c]) (out ++ [c]) ltac:(lia)).
      rewrite chr_u8, slen_app, <- !app_assoc in *. exact IH.
    + replace (slen pre) with (slen pre + 0)%Z at 1 by lia.
      rewrite !data_at_app_r by lia. data_at_eval.
      change (u8 "%" =? 37)%Z with true. cbn [rbind]. rewrite url_byte.
      set (h := chr (ToHex (Z.shiftr (u8 c) 4))). set (l := chr (ToHex (u8 c `mod` 16))).
      specialize (IH fuel (pre ++ ["%"%char; h; l]) (out ++ [c]) ltac:(lia)).
      rewrite slen_app, <- !app_assoc in IH. exact IH.
Qed.

(** Filling an SQL template with successive calls of [ReplaceMark] on the same
    position replaces the [n]-th mark by the [n]-th value in quotes, also when the values
    contain marks themselves; the text between the marks is kept.  (The position is a
    [uint32_t]: the bound keeps it from wrapping.) *)
Theorem ReplaceMark_fills_template q ps vs :
  length ps = length vs → Forall (λ p, "?"%char ∉ p) (q :: ps) →
  (slen (fill_marks q vs ps) + slen (join_on "?"%char q ps) < 2 ^ 32)%Z →
  (replace_marks (join_on "?"%char q ps) vs).1 = fill_marks q vs ps.
Proof. exact (replace_marks_from [] q vs ps). Qed.

Lemma ReplaceMark_fills_template_witness :
  (replace_marks "a=? and b=?;" ["x?" : str; "y" : str]).1 = cstr "a='x?' and b='y';".
Proof.
  apply (ReplaceMark_fills_template "a=" [" and b=" : str; ";" : str] ["x?" : str; "y" : str]);
    [done| |done].
  repeat constructor; by apply (bool_decide_unpack _).
Defined.

(** [URLDecode] inverts [URLEncode] on every byte string. *)
Theorem URL_roundtrip s : URLDecode (URLEncode s) = Ok s.
Proof. exact (url_decode_encode (length (URLEncode s)) [] s [] (le_n _)). Qed.

(** [String2Int] inverts [Int2String] on every [uint32_t], including the values that
    do not fit the [int] that [atoi] returns. *)
Theorem Int2String_roundtrip n : (0 ≤ n < 2 ^ 32)%Z → String2Int (Int2String n) = n.
Proof.
  intros Hn. unfold String2Int, Int2String. rewrite (wrap_small 32 n) by lia.
  rewrite atoi_to_string by lia. rewrite wrap_swrap. by apply wrap_small.
Qed.

Lemma Int2String_roundtrip_witness : String2Int "4294967295" = 4294967295%Z.
Proof. apply (Int2String_roundtrip 4294967295). lia. Defined.
