(* ===== verification/ConfigReader.v ===== *)
(** [base/config_file_reader.{h,cc}], the same file in the three services: the
    [key=value] configuration file, read by [fgets] into a 256-byte buffer and written
    back by [snprintf] into a 128-byte buffer.

    The file system is an argument: the content of the file ([None] when [fopen] fails)
    and the outcome of [fwrite]. *)

From S2P Require Import Prelude.

(** ** [std::map<string, string>] *)

(** Ordered by [operator<] on the bytes. *)
Fixpoint str_lt (a b : str) : bool :=
  match a, b with
  | [], [] => false
  | [], _ :: _ => true
  | _ :: _, [] => false
  | x :: a', y :: b' => (u8 x <? u8 y)%Z || (bool_decide (x = y) && str_lt a' b')
  end.

Abbreviation config_map := (list (str * str)).

Fixpoint map_find (m : config_map) (k : str) : option str :=
  match m with
  | [] => None
  | (k', v) :: m' => if bool_decide (k' = k) then Some v else map_find m' k
  end.

(** [insert]: an existing key keeps its value. *)
Fixpoint map_insert (m : config_map) (k v : str) : config_map :=
  match m with
  | [] => [(k, v)]
  | (k', v') :: m' =>
      if bool_decide (k' = k) then m
      else if str_lt k k' then (k, v) :: m else (k', v') :: map_insert m' k v
  end.

(** [it->second = value] on the entry of [k]. *)
Definition map_update (m : config_map) (k v : str) : config_map :=
  (λ e, if bool_decide (e.1 = k) then (k, v) else e) <$> m.

(** ** [class CConfigFileReader] *)

Record CConfigFileReader : Type := MkReader {
  load_ok_ : option bool;          (* [None]: never assigned *)
  config_map_ : config_map;
  config_file_ : str
}.

Definition is_blank (c : ascii) : bool := bool_decide (c = " "%char ∨ c = TAB).

Fixpoint trim_left (s : str) : str :=
  match s with
  | c :: s' => if is_blank c then trim_left s' else s
  | [] => []
  end.

(** [_TrimSpace]; [None] is [NULL]. *)
Definition TrimSpace (name : str) : option str :=
  match trim_left name with
  | [] => None
  | s => Some (rev (trim_left (rev s)))
  end.

(** The text before the first [c] and the text after it ([strchr] and a cut). *)
Fixpoint split_char (c : ascii) (s : str) : option (str * str) :=
  match s with
  | [] => None
  | d :: s' => if bool_decide (d = c) then Some ([], s')
               else (λ p, (d :: p.1, p.2)) <$> split_char c s'
  end.

Definition ParseLine (line : str) (m : config_map) : config_map :=
  match split_char "="%char line with
  | None => m
  | Some (before, after) =>
      match TrimSpace before, TrimSpace after with
      | Some key, Some value => map_insert m key value
      | _, _ => m
      end
  end.

(** Successive [fgets(buf, 256, fp)]: at most 255 bytes, up to and including a line feed.
    [room] is what is left of the 255 bytes of the current buffer. *)
Fixpoint fgets_chunks (room : nat) (cur s : str) : list str :=
  match s with
  | [] => match cur with [] => [] | _ => [cur] end
  | c :: s' =>
      if bool_decide (c = LF) then (cur ++ [c]) :: fgets_chunks 255 [] s'
      else match room with
           | S (S room') => fgets_chunks (S room') (cur ++ [c]) s'
           | _ => (cur ++ [c]) :: fgets_chunks 255 [] s'
           end
  end.

(** The body of the reading loop.  [buf[len - 1]] is outside the buffer when the chunk
    starts with a NUL byte. *)
Definition load_chunk (m : config_map) (chunk : str) : result config_map :=
  let buf := c_str chunk in
  match last buf with
  | None => Undef OutOfBounds
  | Some z =>
      let buf := if bool_decide (z = LF) then removelast buf else buf in
      let buf := match split_char "#"%char buf with Some (before, _) => before | None => buf end in
      Ok (match buf with [] => m | _ => ParseLine buf m end)
  end.

Fixpoint load_chunks (m : config_map) (chunks : list str) : result config_map :=
  match chunks with
  | [] => Ok m
  | chunk :: chunks' => let* m' := load_chunk m chunk in load_chunks m' chunks'
  end.

(** [_LoadFile] on a reader whose [load_ok_] and map are given. *)
Definition LoadFile (r : CConfigFileReader) (filename : str) (content : option str)
    : result CConfigFileReader :=
  match content with
  | None => Ok (MkReader (load_ok_ r) (config_map_ r) filename)
  | Some s =>
      let* m := load_chunks (config_map_ r) (fgets_chunks 255 [] s) in
      Ok (MkReader (Some true) m filename)
  end.

(** [CConfigFileReader::CConfigFileReader] *)
Definition CConfigFileReader_new (filename : str) (content : option str)
    : result CConfigFileReader :=
  LoadFile (MkReader None [] []) filename content.

Definition GetConfigName (r : CConfigFileReader) (name : str) : result (option str) :=
  match load_ok_ r with
  | None => Undef UninitRead
  | Some false => Ok None
  | Some true => Ok (c_str <$> map_find (config_map_ r) name)
  end.

(** [if (char* s = config_file.GetConfigName(key)) field = f(s);] in the services' [main]. *)
Definition config_field {A} (r : CConfigFileReader) (key : str) (f : str → A) (d : A) : result A :=
  let* v := GetConfigName r key in Ok (match v with Some s => f s | None => d end).

(** [static_cast<Logger::LogLevel>(z)]: the enumerators of [LogLevel] are 0 to 6, so its values
    are those of three bits. *)
Definition LogLevel_value (z : Z) : bool := (0 <=? z)%Z && (z <=? 7)%Z.
Definition LogLevel_cast (z : Z) : result Z := if LogLevel_value z then Ok z else Undef EnumRange.

(** [if (char* s = ...GetConfigName("log_level")) log_level = static_cast<...>(atoi(s));] *)
Definition config_level (r : CConfigFileReader) (d : Z) : result Z :=
  let* v := GetConfigName r "log_level" in
  match v with Some s => LogLevel_cast (atoi s) | None => Ok d end.

(** One [szPaire]: the formatted line cut to the 128-byte buffer. *)
Definition config_line (e : str * str) : str :=
  snprintf_trunc 128 (c_str e.1 ++ "=" ++ c_str e.2 ++ [LF]).

Section Write.
(** [fopen] for writing succeeds; [fwrite] of a text at a file size succeeds. *)
Variable fopen_ok : bool.
Variable fwrite_ok : str → str → bool.

Fixpoint write_entries (written : str) (m : config_map) : Z * str :=
  match m with
  | [] => (0%Z, written)
  | e :: m' =>
      if fwrite_ok written (config_line e)
      then write_entries (written ++ config_line e) m'
      else ((-1)%Z, written)
  end.

(** [_WriteFIle]: the returned value and the file's new content ([None]: untouched). *)
Definition WriteFIle (r : CConfigFileReader) : Z * option str :=
  if fopen_ok then let (ret, s) := write_entries [] (config_map_ r) in (ret, Some s)
  else ((-1)%Z, None).

(** [SetConfigValue] *)
Definition SetConfigValue (r : CConfigFileReader) (name value : str)
    : result (Z * CConfigFileReader * option str) :=
  match load_ok_ r with
  | None => Undef UninitRead
  | Some false => Ok ((-1)%Z, r, None)
  | Some true =>
      let m := match map_find (config_map_ r) name with
               | Some _ => map_update (config_map_ r) name value
               | None => map_insert (config_map_ r) name value
               end in
      let r' := MkReader (load_ok_ r) m (config_file_ r) in
      let (ret, out) := WriteFIle r' in Ok (ret, r', out)
  end.
End Write.

(** ** Well-formed configurations *)

(** A text that a line of the file can hold as a key or as a value: no byte the reader
    interprets, and no blank at either end. *)
Definition plain_text (s : str) : Prop :=
  Forall (λ c, c ≠ NUL ∧ c ≠ LF ∧ c ≠ "#"%char ∧ c ≠ "="%char) s ∧ TrimSpace s = Some s.

Definition plain_entry (e : str * str) : Prop :=
  plain_text e.1 ∧ plain_text e.2 ∧ (slen e.1 + slen e.2 ≤ 125)%Z.

(** The keys in increasing order, as [std::map] keeps them. *)
Fixpoint map_sorted (m : config_map) : Prop :=
  match m with
  | [] => True
  | e :: m' => Forall (λ e', str_lt e.1 e'.1 = true) m' ∧ map_sorted m'
  end.

(** ** The order on keys *)

Lemma str_lt_irrefl a : str_lt a a = false.
Proof.
  induction a as [|c a IH]; cbn; [done|].
  by rewrite Z.ltb_irrefl, IH, andb_false_r.
Qed.

Lemma str_lt_cons x a y b :
  str_lt (x :: a) (y :: b) = true ↔ (u8 x < u8 y)%Z ∨ (x = y ∧ str_lt a b = true).
Proof. cbn. by rewrite orb_true_iff, Z.ltb_lt, andb_true_iff, bool_decide_eq_true. Qed.

Lemma str_lt_trans a b c : str_lt a b = true → str_lt b c = true → str_lt a c = true.
Proof.
  revert b c. induction a as [|x a IH]; intros [|y b] [|z c]; try done.
  rewrite !str_lt_cons. intros [?|[-> ?]] [?|[-> ?]]; [left; lia..|].
  right. eauto.
Qed.

Lemma str_lt_total a b : a = b ∨ str_lt a b = true ∨ str_lt b a = true.
Proof.
  revert b. induction a as [|x a IH]; intros [|y b]; [by auto..|].
  rewrite !str_lt_cons. destruct (Z.lt_trichotomy (u8 x) (u8 y)) as [?|[E|?]]; [by auto| |by auto].
  apply u8_inj in E as ->. destruct (IH b) as [->|[?|?]]; naive_solver.
Qed.

Lemma str_lt_asym a b : str_lt a b = true → str_lt b a = false.
Proof.
  intros H. destruct (str_lt b a) eqn:E; [|done].
  pose proof (str_lt_trans _ _ _ H E) as Hx. by rewrite str_lt_irrefl in Hx.
Qed.

Lemma str_lt_ne a b : str_lt a b = true → a ≠ b.
Proof. intros H ->. by rewrite str_lt_irrefl in H. Qed.

(** ** The map *)

Lemma map_insert_Forall (P : str * str → Prop) m k v :
  Forall P m → P (k, v) → Forall P (map_insert m k v).
Proof.
  induction m as [|[k' v'] m IH]; intros Hm Hk; cbn; [by constructor|].
  case_bool_decide; [done|]. apply Forall_cons in Hm as [H1 H2].
  destruct (str_lt k k'); constructor; auto.
Qed.

Lemma map_insert_sorted m k v : map_sorted m → map_sorted (map_insert m k v).
Proof.
  induction m as [|[k' v'] m IH]; cbn; [by auto|]. intros [Hlt Hm].
  case_bool_decide; [done|]. destruct (str_lt k k') eqn:E; cbn.
  - split_and!; [|done|done]. constructor; [done|].
    eapply Forall_impl; [exact Hlt|]. intros e He. by eapply str_lt_trans.
  - split; [|by auto]. apply map_insert_Forall; [done|].
    cbn. destruct (str_lt_total k k') as [->|[?|?]]; congruence.
Qed.

Lemma map_insert_find m k v j :
  map_sorted m → map_find m k = None →
  map_find (map_insert m k v) j = if bool_decide (k = j) then Some v else map_find m j.
Proof.
  induction m as [|[k' v'] m IH]; cbn; [done|]. intros [Hlt Hm].
  destruct (bool_decide_reflect (k' = k)) as [|Hk]; [done|]. intros Hf. destruct (str_lt k k') eqn:E; cbn; [done|].
  rewrite IH by done. repeat case_bool_decide; congruence.
Qed.

Lemma map_update_find m k v j :
  is_Some (map_find m k) →
  map_find (map_update m k v) j = if bool_decide (k = j) then Some v else map_find m j.
Proof.
  unfold map_update. induction m as [|[k' v'] m IH]; cbn; [by intros [? ?]|].
  destruct (bool_decide_reflect (k' = k)) as [->|Hk]; cbn.
  - intros _. destruct (bool_decide_reflect (k = j)) as [->|Hj]; [done|].
    clear IH. induction m as [|[k'' v''] m IH]; cbn; [done|].
    destruct (bool_decide_reflect (k'' = k)) as [->|]; cbn; [by rewrite bool_decide_false|].
    by rewrite IH.
  - intros Hf. rewrite IH by done. repeat case_bool_decide; congruence.
Qed.

Lemma map_update_sorted m k v : map_sorted m → map_sorted (map_update m k v).
Proof.
  induction m as [|e m IH]; cbn; [done|]. intros [Hlt Hm]. split; [|by auto].
  apply Forall_fmap. eapply Forall_impl; [exact Hlt|]. intros e' He'. cbn.
  repeat case_bool_decide; cbn; congruence.
Qed.

Lemma map_insert_last m k v :
  Forall (λ e, str_lt e.1 k = true) m → map_insert m k v = m ++ [(k, v)].
Proof.
  induction m as [|[k' v'] m IH]; cbn; [done|]. intros [Hk Hm]%Forall_cons. cbn in Hk.
  rewrite bool_decide_false by (by apply str_lt_ne). rewrite (str_lt_asym _ _ Hk).
  by rewrite IH.
Qed.

(** ** Reading back a written file *)

Lemma split_char_first c a b : c ∉ a → split_char c (a ++ c :: b) = Some (a, b).
Proof.
  induction a as [|d a IH]; intros H; cbn; [by rewrite bool_decide_true|].
  apply not_elem_of_cons in H as [H1 H2]. by rewrite bool_decide_false, IH by congruence.
Qed.

Lemma split_char_None c a : c ∉ a → split_char c a = None.
Proof.
  induction a as [|d a IH]; intros H; cbn; [done|].
  apply not_elem_of_cons in H as [H1 H2]. by rewrite bool_decide_false, IH by congruence.
Qed.

Lemma plain_text_no s c :
  plain_text s → c = NUL ∨ c = LF ∨ c = "#"%char ∨ c = "="%char → c ∉ s.
Proof. intros [H _] Hc Hin. rewrite Forall_forall in H. apply H in Hin. naive_solver. Qed.

Lemma plain_config_line e : plain_entry e → config_line e = e.1 ++ "=" ++ e.2 ++ [LF].
Proof.
  intros (H1 & H2 & Hlen). unfold config_line, snprintf_trunc.
  rewrite !c_str_id by (by eapply Forall_impl; [apply H1 || apply H2|cbn; naive_solver]).
  apply firstn_all2. rewrite !length_app. simpl. unfold slen in Hlen. lia.
Qed.

Lemma load_chunk_line m e :
  plain_entry e → load_chunk m (config_line e) = Ok (map_insert m e.1 e.2).
Proof.
  intros He. rewrite plain_config_line by done. destruct He as (H1 & H2 & Hlen).
  assert (Hno : ∀ c, c = NUL ∨ c = "#"%char → c ∉ e.1 ++ "=" ++ e.2).
  { intros c Hc. rewrite !elem_of_app. pose proof (plain_text_no _ c H1 ltac:(tauto)).
    pose proof (plain_text_no _ c H2 ltac:(tauto)).
    intros [?|[Hx|?]]; [done| |done]. apply list_elem_of_singleton in Hx. naive_solver. }
  replace (e.1 ++ "=" ++ e.2 ++ [LF]) with ((e.1 ++ "=" ++ e.2) ++ [LF])
    by (by rewrite <- !app_assoc).
  unfold load_chunk. rewrite c_str_id.
  2: { apply Forall_app. split; [|by repeat constructor].
       apply Forall_forall. intros c Hc ->. by apply (Hno NUL); auto. }
  rewrite last_snoc, bool_decide_true, removelast_last, split_char_None by auto.
  destruct (e.1 ++ "=" ++ e.2) eqn:E; [by destruct (e.1)|]. rewrite <- E.
  unfold ParseLine. simpl. rewrite split_char_first by (apply plain_text_no; auto).
  destruct H1 as [_ ->], H2 as [_ ->]. done.
Qed.

Lemma fgets_chunk_line room cur s tl :
  LF ∉ s → (length s < room)%nat →
  fgets_chunks room cur (s ++ LF :: tl) = (cur ++ s ++ [LF]) :: fgets_chunks 255 [] tl.
Proof.
  revert room cur. induction s as [|c s IH]; intros room cur Hs Hr; cbn.
  - by rewrite bool_decide_true.
  - apply not_elem_of_cons in Hs as [H1 H2]. rewrite bool_decide_false by congruence.
    destruct room as [|[|room]]; cbn in Hr; [lia..|].
    rewrite IH by (done || lia). by rewrite <- app_assoc.
Qed.

Lemma fgets_chunks_lines m :
  Forall plain_entry m → fgets_chunks 255 [] (m ≫= config_line) = config_line <$> m.
Proof.
  induction m as [|e m IH]; intros Hm; [done|]. apply Forall_cons in Hm as [He Hm].
  rewrite bind_cons, fmap_cons, <- IH by done. rewrite plain_config_line by done.
  replace ((e.1 ++ "=" ++ e.2 ++ [LF]) ++ (m ≫= config_line))
    with ((e.1 ++ "=" ++ e.2) ++ LF :: (m ≫= config_line)) by (by rewrite <- !app_assoc).
  destruct He as (H1 & H2 & Hlen). rewrite fgets_chunk_line.
  - by rewrite <- !app_assoc.
  - rewrite !elem_of_app. pose proof (plain_text_no _ LF H1 ltac:(tauto)).
    pose proof (plain_text_no _ LF H2 ltac:(tauto)). intros [?|[Hx|?]]; [done| |done].
    by apply list_elem_of_singleton in Hx.
  - rewrite !length_app. simpl. unfold slen in Hlen. lia.
Qed.

Lemma load_chunks_lines acc m :
  Forall plain_entry m → map_sorted (acc ++ m) →
  load_chunks acc (config_line <$> m) = Ok (acc ++ m).
Proof.
  revert acc. induction m as [|[k v] m IH]; intros acc Hm Hs; [by rewrite app_nil_r|].
  apply Forall_cons in Hm as [He Hm]. rewrite fmap_cons. cbn [load_chunks].
  rewrite load_chunk_line by done. cbn [rbind fst snd].
  assert (Forall (λ e, str_lt e.1 k = true) acc).
  { clear -Hs. induction acc as [|a acc IHa]; [constructor|]. destruct Hs as [Hlt Hs].
    constructor; [|by apply IHa]. rewrite Forall_forall in Hlt. apply (Hlt (k, v)). set_solver. }
  rewrite map_insert_last by done. replace (acc ++ (k, v) :: m) with ((acc ++ [(k, v)]) ++ m) in *
    by by rewrite <- app_assoc.
  by apply IH.
Qed.

(** A text without NUL bytes is loaded without undefined behaviour: [fgets] yields no empty
    chunk, whatever the lengths of the lines. *)
Lemma fgets_chunks_nonempty room cur s :
  Forall (λ c, c ≠ NUL) cur → Forall (λ c, c ≠ NUL) s →
  Forall (λ chunk, chunk ≠ [] ∧ Forall (λ c, c ≠ NUL) chunk) (fgets_chunks room cur s).
Proof.
  revert room cur. induction s as [|c s IH]; intros room cur Hcur Hs; cbn.
  { destruct cur; [constructor|by apply Forall_singleton]. }
  apply Forall_cons in Hs as [Hc Hs].
  assert (Hcc : Forall (λ c, c ≠ NUL) (cur ++ [c])) by (apply Forall_app; by repeat constructor).
  assert (cur ++ [c] ≠ []) by by destruct cur.
  case_bool_decide; [constructor; [done|by apply IH]|].
  destruct room as [|[|room]]; [constructor; [done|by apply IH]..|by apply IH].
Qed.

Lemma load_chunks_defined m chunks :
  Forall (λ chunk, chunk ≠ [] ∧ Forall (λ c, c ≠ NUL) chunk) chunks →
  ∃ m', load_chunks m chunks = Ok m'.
Proof.
  intros Hl. revert m. induction Hl as [|chunk chunks [Hne Hn] _ IH]; intros m; [by exists m|].
  cbn [load_chunks]. unfold load_chunk. rewrite c_str_id by done.
  destruct (last chunk) eqn:E; [apply IH|]. by apply last_None in E.
Qed.

Lemma CConfigFileReader_new_defined filename s :
  Forall (λ c, c ≠ NUL) s →
  ∃ m, CConfigFileReader_new filename (Some s) = Ok (MkReader (Some true) m filename).
Proof.
  intros Hs. destruct (load_chunks_defined [] (fgets_chunks 255 [] s)) as (m & Hm);
    [by apply fgets_chunks_nonempty|].
  exists m. unfold CConfigFileReader_new, LoadFile. cbn [config_map_]. by rewrite Hm.
Qed.

Lemma config_field_loaded {A} r m file key (f : str → A) d :
  r = MkReader (Some true) m file →
  config_field r key f d =
    Ok (match map_find m key with Some s => f (c_str s) | None => d end).
Proof. intros ->. unfold config_field, GetConfigName. cbn. by destruct (map_find m key). Qed.

Lemma write_entries_all fwrite_ok w m :
  (∀ a b, fwrite_ok a b = true) → write_entries fwrite_ok w m = (0%Z, w ++ (m ≫= config_line)).
Proof.
  intros Hok. revert w. induction m as [|e m IH]; intros w; cbn [write_entries];
    [by rewrite app_nil_r|].
  by rewrite Hok, IH, bind_cons, <- app_assoc.
Qed.

(** ** Properties *)

(** C38: a configuration written by [_WriteFIle] is read back by [_LoadFile] into the same
    map, whatever the number of entries, when no text contains a byte the reader
    interprets and each entry fits the 128-byte line buffer. *)
Theorem config_roundtrip r filename fwrite_ok :
  map_sorted (config_map_ r) → Forall plain_entry (config_map_ r) →
  (∀ a b, fwrite_ok a b = true) →
  ∃ s, WriteFIle true fwrite_ok r = (0%Z, Some s) ∧
       CConfigFileReader_new filename (Some s) =
         Ok (MkReader (Some true) (config_map_ r) filename).
Proof.
  intros Hs Hm Hok. unfold WriteFIle. rewrite write_entries_all by done.
  eexists. split; [done|]. unfold CConfigFileReader_new, LoadFile. cbn [config_map_].
  cbn [app]. by rewrite fgets_chunks_lines, load_chunks_lines.
Qed.

Definition demo_reader : CConfigFileReader :=
  MkReader (Some true) [("http_port" : str, "8081" : str); ("kafka" : str, "a:9092" : str)] "c".

Lemma config_roundtrip_witness :
  ∃ s, WriteFIle true (λ _ _, true) demo_reader = (0%Z, Some s) ∧
       CConfigFileReader_new "c" (Some s) = Ok demo_reader.
Proof.
  apply (config_roundtrip demo_reader "c").
  - repeat constructor.
  - repeat constructor; (done || by intros [=]).
  - done.
Defined.

(** After [SetConfigValue] on a loaded reader, [GetConfigName] returns the new value
    for that name and the old one for every other name, the map stays ordered with
    distinct keys, and the file is rewritten from the new map. *)
Theorem SetConfigValue_get fopen_ok fwrite_ok m file name value :
  map_sorted m → Forall (λ c, c ≠ NUL) value →
  ∃ m', SetConfigValue fopen_ok fwrite_ok (MkReader (Some true) m file) name value =
          Ok ((WriteFIle fopen_ok fwrite_ok (MkReader (Some true) m' file)).1,
              MkReader (Some true) m' file,
              (WriteFIle fopen_ok fwrite_ok (MkReader (Some true) m' file)).2) ∧
        map_sorted m' ∧
        ∀ j, GetConfigName (MkReader (Some true) m' file) j =
             if bool_decide (name = j) then Ok (Some value)
             else GetConfigName (MkReader (Some true) m file) j.
Proof.
  intros Hm Hv. unfold SetConfigValue. cbn [load_ok_ config_map_ config_file_].
  exists (match map_find m name with
          | Some _ => map_update m name value
          | None => map_insert m name value
          end). split_and!.
  - by destruct (WriteFIle _ _ _).
  - destruct (map_find m name); [by apply map_update_sorted|by apply map_insert_sorted].
  - intros j. unfold GetConfigName. cbn [load_ok_ config_map_].
    destruct (map_find m name) eqn:E; [rewrite map_update_find by done|rewrite map_insert_find by done];
      case_bool_decide; cbn; by rewrite ?c_str_id.
Qed.

Lemma SetConfigValue_get_witness :
  ∃ m', map_sorted m' ∧
        GetConfigName (MkReader (Some true) m' "c") "port" = Ok (Some ("1" : str)).
Proof.
  destruct (SetConfigValue_get true (λ _ _, true) [("ip" : str, "x" : str)] "c" "port" "1")
    as (m' & _ & Hs & Hg).
  - repeat constructor.
  - repeat constructor; by intros [=].
  - exists m'. split; [exact Hs|]. exact (Hg "port").
Defined.
