(* ===== verification/Md5.v ===== *)
(** [muduo/base/md5.{h,cc}], the digest that [LogicApi] stores for a password (the file is the
    same in the three services).

    An object is its words, its buffer and its digest; bytes are those of a string.  Every
    copy into the buffer and every block read from the input is inside its array or
    undefined.  [blocks_md5] is the digest as RFC 1321 describes it, on the whole message. *)

From S2P Require Import Prelude.

Module Digest.

(** ** Words *)

Definition F (x y z : Z) : Z := Z.lor (Z.land x y) (Z.land (Z.lxor x 0xffffffff) z).
Definition G (x y z : Z) : Z := Z.lor (Z.land x z) (Z.land y (Z.lxor z 0xffffffff)).
Definition H (x y z : Z) : Z := Z.lxor (Z.lxor x y) z.
Definition I (x y z : Z) : Z := Z.lxor y (Z.lor x (Z.lxor z 0xffffffff)).

Definition ROTATE_LEFT (x n : Z) : Z := Z.lor (u32 (Z.shiftl x n)) (Z.shiftr x (32 - n)).

(** What the four macros assign to their first argument. *)
Definition FF (a b c d x s ac : Z) : Z := u32 (ROTATE_LEFT (u32 (a + (F b c d + x + ac))) s + b).
Definition GG (a b c d x s ac : Z) : Z := u32 (ROTATE_LEFT (u32 (a + (G b c d + x + ac))) s + b).
Definition HH (a b c d x s ac : Z) : Z := u32 (ROTATE_LEFT (u32 (a + (H b c d + x + ac))) s + b).
Definition II (a b c d x s ac : Z) : Z := u32 (ROTATE_LEFT (u32 (a + (I b c d + x + ac))) s + b).

Definition S11 : Z := 7.
Definition S12 : Z := 12.
Definition S13 : Z := 17.
Definition S14 : Z := 22.
Definition S21 : Z := 5.
Definition S22 : Z := 9.
Definition S23 : Z := 14.
Definition S24 : Z := 20.
Definition S31 : Z := 4.
Definition S32 : Z := 11.
Definition S33 : Z := 16.
Definition S34 : Z := 23.
Definition S41 : Z := 6.
Definition S42 : Z := 10.
Definition S43 : Z := 15.
Definition S44 : Z := 21.

(** [encode], whose loop makes four bytes of each word. *)
Definition encode (input : list Z) : str :=
  input ≫= λ w, [chr (Z.land w 0xff); chr (Z.land (Z.shiftr w 8) 0xff);
                 chr (Z.land (Z.shiftr w 16) 0xff); chr (Z.land (Z.shiftr w 24) 0xff)].

(** [decode] of [length] bytes, a multiple of four. *)
Fixpoint decode (input : str) : list Z :=
  match input with
  | b0 :: b1 :: b2 :: b3 :: input' =>
      Z.lor (Z.lor (Z.lor (u8 b0) (Z.shiftl (u8 b1) 8)) (Z.shiftl (u8 b2) 16))
        (Z.shiftl (u8 b3) 24) :: decode input'
  | _ => []
  end.

(** The four words [_state]. *)
Definition words : Type := Z * Z * Z * Z.

Declare Scope md5_scope.
(** An assignment to a local variable. *)
Definition assign {A B} (e : A) (k : A → B) : B := k e.
Notation "x <- e ;; k" := (assign e (λ x, k))
  (at level 100, e at next level, right associativity, only parsing) : md5_scope.
Delimit Scope md5_scope with md5.

(** [transform] *)
Definition transform (st : words) (block : str) : words :=
  let '(a0, b0, c0, d0) := st in
  (a <- a0 ;; b <- b0 ;; c <- c0 ;; d <- d0 ;;
  xs <- decode block ;;
  x <- (λ i, nth i xs 0%Z) ;;
  (* Round 1 *)
  a <- FF a b c d (x 0%nat) S11 0xd76aa478 ;;
  d <- FF d a b c (x 1%nat) S12 0xe8c7b756 ;;
  c <- FF c d a b (x 2%nat) S13 0x242070db ;;
  b <- FF b c d a (x 3%nat) S14 0xc1bdceee ;;
  a <- FF a b c d (x 4%nat) S11 0xf57c0faf ;;
  d <- FF d a b c (x 5%nat) S12 0x4787c62a ;;
  c <- FF c d a b (x 6%nat) S13 0xa8304613 ;;
  b <- FF b c d a (x 7%nat) S14 0xfd469501 ;;
  a <- FF a b c d (x 8%nat) S11 0x698098d8 ;;
  d <- FF d a b c (x 9%nat) S12 0x8b44f7af ;;
  c <- FF c d a b (x 10%nat) S13 0xffff5bb1 ;;
  b <- FF b c d a (x 11%nat) S14 0x895cd7be ;;
  a <- FF a b c d (x 12%nat) S11 0x6b901122 ;;
  d <- FF d a b c (x 13%nat) S12 0xfd987193 ;;
  c <- FF c d a b (x 14%nat) S13 0xa679438e ;;
  b <- FF b c d a (x 15%nat) S14 0x49b40821 ;;
  (* Round 2 *)
  a <- GG a b c d (x 1%nat) S21 0xf61e2562 ;;
  d <- GG d a b c (x 6%nat) S22 0xc040b340 ;;
  c <- GG c d a b (x 11%nat) S23 0x265e5a51 ;;
  b <- GG b c d a (x 0%nat) S24 0xe9b6c7aa ;;
  a <- GG a b c d (x 5%nat) S21 0xd62f105d ;;
  d <- GG d a b c (x 10%nat) S22 0x2441453 ;;
  c <- GG c d a b (x 15%nat) S23 0xd8a1e681 ;;
  b <- GG b c d a (x 4%nat) S24 0xe7d3fbc8 ;;
  a <- GG a b c d (x 9%nat) S21 0x21e1cde6 ;;
  d <- GG d a b c (x 14%nat) S22 0xc33707d6 ;;
  c <- GG c d a b (x 3%nat) S23 0xf4d50d87 ;;
  b <- GG b c d a (x 8%nat) S24 0x455a14ed ;;
  a <- GG a b c d (x 13%nat) S21 0xa9e3e905 ;;
  d <- GG d a b c (x 2%nat) S22 0xfcefa3f8 ;;
  c <- GG c d a b (x 7%nat) S23 0x676f02d9 ;;
  b <- GG b c d a (x 12%nat) S24 0x8d2a4c8a ;;
  (* Round 3 *)
  a <- HH a b c d (x 5%nat) S31 0xfffa3942 ;;
  d <- HH d a b c (x 8%nat) S32 0x8771f681 ;;
  c <- HH c d a b (x 11%nat) S33 0x6d9d6122 ;;
  b <- HH b c d a (x 14%nat) S34 0xfde5380c ;;
  a <- HH a b c d (x 1%nat) S31 0xa4beea44 ;;
  d <- HH d a b c (x 4%nat) S32 0x4bdecfa9 ;;
  c <- HH c d a b (x 7%nat) S33 0xf6bb4b60 ;;
  b <- HH b c d a (x 10%nat) S34 0xbebfbc70 ;;
  a <- HH a b c d (x 13%nat) S31 0x289b7ec6 ;;
  d <- HH d a b c (x 0%nat) S32 0xeaa127fa ;;
  c <- HH c d a b (x 3%nat) S33 0xd4ef3085 ;;
  b <- HH b c d a (x 6%nat) S34 0x4881d05 ;;
  a <- HH a b c d (x 9%nat) S31 0xd9d4d039 ;;
  d <- HH d a b c (x 12%nat) S32 0xe6db99e5 ;;
  c <- HH c d a b (x 15%nat) S33 0x1fa27cf8 ;;
  b <- HH b c d a (x 2%nat) S34 0xc4ac5665 ;;
  (* Round 4 *)
  a <- II a b c d (x 0%nat) S41 0xf4292244 ;;
  d <- II d a b c (x 7%nat) S42 0x432aff97 ;;
  c <- II c d a b (x 14%nat) S43 0xab9423a7 ;;
  b <- II b c d a (x 5%nat) S44 0xfc93a039 ;;
  a <- II a b c d (x 12%nat) S41 0x655b59c3 ;;
  d <- II d a b c (x 3%nat) S42 0x8f0ccc92 ;;
  c <- II c d a b (x 10%nat) S43 0xffeff47d ;;
  b <- II b c d a (x 1%nat) S44 0x85845dd1 ;;
  a <- II a b c d (x 8%nat) S41 0x6fa87e4f ;;
  d <- II d a b c (x 15%nat) S42 0xfe2ce6e0 ;;
  c <- II c d a b (x 6%nat) S43 0xa3014314 ;;
  b <- II b c d a (x 13%nat) S44 0x4e0811a1 ;;
  a <- II a b c d (x 4%nat) S41 0xf7537e82 ;;
  d <- II d a b c (x 11%nat) S42 0xbd3af235 ;;
  c <- II c d a b (x 2%nat) S43 0x2ad7d2bb ;;
  b <- II b c d a (x 9%nat) S44 0xeb86d391 ;;
  (u32 (a0 + a), u32 (b0 + b), u32 (c0 + c), u32 (d0 + d)))%md5.

(** ** [class MD5] *)

Record MD5 : Type := MkMD5 {
  _state : words;
  _count : Z * Z;
  _buffer : str;
  _digest : str;
  _finished : bool
}.

(** The first byte of [PADDING] is given, the others are zero. *)
Definition PADDING : str := chr 0x80 :: replicate 63 NUL.
Definition HEX : str := "0123456789abcdef".

(** [reset]; the arrays keep what they hold. *)
Definition reset (o : MD5) : MD5 :=
  MkMD5 (0x67452301, 0xefcdab89, 0x98badcfe, 0x10325476)%Z (0, 0)%Z (_buffer o) (_digest o) false.

(** [memcpy(&buf[i], s, n)] with [n] the length of [s], and the [n] bytes at [&buf[i]]. *)
Definition write_at (buf : str) (i : nat) (s : str) : result str :=
  if bool_decide (i + length s ≤ length buf)%nat
  then Ok (take i buf ++ s ++ drop (i + length s) buf) else Undef OutOfBounds.
Definition read_at (buf : str) (i n : nat) : result str :=
  if bool_decide (i + n ≤ length buf)%nat then Ok (take n (drop i buf)) else Undef OutOfBounds.

(** [(_count[0] >> 3) & 0x3f] *)
Definition buffer_index (count : Z * Z) : Z := Z.land (Z.shiftr count.1 3) 0x3f.

(** The two words of the number of bits, after [length] more bytes. *)
Definition count_bits (count : Z * Z) (length : Z) : Z * Z :=
  let bits := u32 (Z.shiftl (u32 length) 3) in
  let c0 := u32 (count.1 + bits) in
  let c1 := if (c0 <? bits)%Z then u32 (count.2 + 1) else count.2 in
  (c0, u32 (c1 + Z.shiftr (u32 length) 29)).

(** The loop over whole blocks: [i] is a [uint32_t], the length a [size_t].  [None]: [fuel]
    rounds were not enough. *)
Fixpoint update_blocks (fuel : nat) (input : str) (i : Z) (st : words) : result (option (Z * words)) :=
  match fuel with
  | O => Ok None
  | S fuel =>
      if (u32 (i + 63) <? slen input)%Z then
        let* block := read_at input (Z.to_nat i) 64 in
        update_blocks fuel input (u32 (i + 64)) (transform st block)
      else Ok (Some (i, st))
  end.

(** [update(const uint8_t*, size_t)] *)
Definition update (o : MD5) (input : str) : result (option MD5) :=
  let index := buffer_index (_count o) in
  let count := count_bits (_count o) (slen input) in
  let partLen := u32 (64 - index) in
  let finish index i st buf :=
    let* rest := read_at input (Z.to_nat i) (length input - Z.to_nat i) in
    let* buf := write_at buf (Z.to_nat index) rest in
    Ok (Some (MkMD5 st count buf (_digest o) false)) in
  if (partLen <=? slen input)%Z then
    let* first := read_at input 0 (Z.to_nat partLen) in
    let* buf := write_at (_buffer o) (Z.to_nat index) first in
    let* r := update_blocks (length input + 1) input partLen (transform (_state o) buf) in
    match r with
    | None => Ok None
    | Some (i, st) => finish 0%Z i st buf
    end
  else finish index 0%Z (_state o) (_buffer o).

(** A computation that may not return, followed by another. *)
Definition and_then {A B} (m : result (option A)) (k : A → result (option B)) : result (option B) :=
  let* r := m in match r with None => Ok None | Some a => k a end.

(** [final] *)
Definition final (o : MD5) : result (option MD5) :=
  let bits := encode [(_count o).1; (_count o).2] in
  let index := buffer_index (_count o) in
  let padLen := (if index <? 56 then 56 - index else 120 - index)%Z in
  and_then (update o (take (Z.to_nat padLen) PADDING)) (λ o1,
  and_then (update o1 bits) (λ o2,
  let '(a, b, c, d) := _state o2 in
  Ok (Some (MkMD5 (_state o) (_count o) (_buffer o2) (encode [a; b; c; d]) (_finished o2))))).

(** [digest]: the object after the call, and the 16 bytes. *)
Definition digest (o : MD5) : result (option (MD5 * str)) :=
  if _finished o then Ok (Some (o, _digest o))
  else
    and_then (final (MkMD5 (_state o) (_count o) (_buffer o) (_digest o) true)) (λ o1,
    Ok (Some (o1, _digest o1))).

(** [bytesToHexString] *)
Definition bytesToHexString (input : str) : str :=
  input ≫= λ t, [nth (Z.to_nat (u8 t / 16)) HEX NUL; nth (Z.to_nat (u8 t mod 16)) HEX NUL].

Definition toString (o : MD5) : result (option (MD5 * str)) :=
  and_then (digest o) (λ r, Ok (Some (r.1, bytesToHexString r.2))).

(** The members before a constructor runs: the arrays hold anything. *)
Definition uninitialised (buffer digest : str) : MD5 :=
  MkMD5 (0, 0, 0, 0)%Z (0, 0)%Z buffer digest false.

(** [MD5(const string&)]; the constructor from a buffer does the same. *)
Definition MD5_new (buffer digest : str) (s : str) : result (option MD5) :=
  update (reset (uninitialised buffer digest)) s.

(** [update(ifstream&)]: [in.read] of [BUFFER_SIZE] bytes at a time until the end of the file
    is seen; [None] for a stream that is not good. *)
Definition BUFFER_SIZE : nat := 1024.
Fixpoint update_stream_loop (fuel : nat) (o : MD5) (rest : str) : result (option MD5) :=
  match fuel with
  | O => Ok None
  | S fuel =>
      let buffer := take BUFFER_SIZE rest in
      let eof := bool_decide (length rest < BUFFER_SIZE)%nat in
      and_then (if bool_decide (buffer = []) then Ok (Some o) else update o buffer) (λ o,
      if eof then Ok (Some o) else update_stream_loop fuel o (drop BUFFER_SIZE rest))
  end.
Definition update_stream (o : MD5) (file : option str) : result (option MD5) :=
  match file with
  | None => Ok (Some o)
  | Some content => update_stream_loop (length content + 1) o content
  end.

(** ** The digest of RFC 1321 *)

(** The constant of step [i], the integer part of 2^32 times the absolute value of the sine
    of [i + 1], and how far it rotates. *)
Definition sines : list Z :=
  [0xd76aa478; 0xe8c7b756; 0x242070db; 0xc1bdceee; 0xf57c0faf; 0x4787c62a; 0xa8304613; 0xfd469501;
   0x698098d8; 0x8b44f7af; 0xffff5bb1; 0x895cd7be; 0x6b901122; 0xfd987193; 0xa679438e; 0x49b40821;
   0xf61e2562; 0xc040b340; 0x265e5a51; 0xe9b6c7aa; 0xd62f105d; 0x02441453; 0xd8a1e681; 0xe7d3fbc8;
   0x21e1cde6; 0xc33707d6; 0xf4d50d87; 0x455a14ed; 0xa9e3e905; 0xfcefa3f8; 0x676f02d9; 0x8d2a4c8a;
   0xfffa3942; 0x8771f681; 0x6d9d6122; 0xfde5380c; 0xa4beea44; 0x4bdecfa9; 0xf6bb4b60; 0xbebfbc70;
   0x289b7ec6; 0xeaa127fa; 0xd4ef3085; 0x04881d05; 0xd9d4d039; 0xe6db99e5; 0x1fa27cf8; 0xc4ac5665;
   0xf4292244; 0x432aff97; 0xab9423a7; 0xfc93a039; 0x655b59c3; 0x8f0ccc92; 0xffeff47d; 0x85845dd1;
   0x6fa87e4f; 0xfe2ce6e0; 0xa3014314; 0x4e0811a1; 0xf7537e82; 0xbd3af235; 0x2ad7d2bb; 0xeb86d391]%Z.
Definition rotations (round : nat) : list Z :=
  nth round [[7; 12; 17; 22]; [5; 9; 14; 20]; [4; 11; 16; 23]; [6; 10; 15; 21]]%Z [].

(** Step [i]: the mixing function of its round and the word it takes. *)
Definition rfc_step (xs : list Z) (st : words) (i : nat) : words :=
  let '(a, b, c, d) := st in
  let '(mix, k) :=
    match (i / 16)%nat with
    | 0%nat => (F b c d, i)
    | 1%nat => (G b c d, (5 * i + 1)%nat)
    | 2%nat => (H b c d, (3 * i + 5)%nat)
    | _ => (I b c d, (7 * i)%nat)
    end in
  let t := u32 (a + (mix + nth (k mod 16)%nat xs 0 + nth i sines 0))%Z in
  (d, u32 (ROTATE_LEFT t (nth (i mod 4)%nat (rotations (i / 16)) 0%Z) + b)%Z, b, c).

Definition rfc_block (st : words) (block : str) : words :=
  let '(a0, b0, c0, d0) := st in
  let '(a, b, c, d) := foldl (rfc_step (decode block)) st (seq 0 64) in
  (u32 (a0 + a), u32 (b0 + b), u32 (c0 + c), u32 (d0 + d))%Z.

Definition rfc_init : words := (0x67452301, 0xefcdab89, 0x98badcfe, 0x10325476)%Z.

(** Block [i] of a text, and the words after its first [n] blocks. *)
Definition block_at (s : str) (i : nat) : str := take 64 (drop (64 * i) s).
Definition words_after (s : str) (n : nat) : words :=
  foldl (λ st i, rfc_block st (block_at s i)) rfc_init (seq 0 n).

(** The message, a one bit, zeros, and the length in bits modulo 2^64, low bytes first. *)
Definition zeros_for (n : nat) : nat := if bool_decide (n mod 64 < 56)%nat then 55 - n mod 64 else 119 - n mod 64.
Definition length_words (n : Z) : list Z := [u32 (8 * n); u32 (8 * n / 2 ^ 32)].
Definition padded (s : str) : str :=
  s ++ (chr 0x80 :: replicate (zeros_for (length s)) NUL) ++ encode (length_words (slen s)).

Definition blocks_md5 (s : str) : str :=
  let '(a, b, c, d) := words_after (padded s) (length (padded s) / 64) in encode [a; b; c; d].

(** ** [transform] is the block step *)

(** Runs one step on both sides and forgets how its result was computed. *)
Lemma assign_step {A B} (e : A) (k rest : A → B) : (∀ y, k y = rest y) → assign e k = rest e.
Proof. intros E. apply E. Qed.

Lemma foldl_step {A B C} (f : B → A → B) (i : A) l x y (rest : B → C) :
  f x i = y → rest (foldl f x (i :: l)) = rest (foldl f y l).
Proof. by intros <-. Qed.

Ltac md5_step :=
  lazymatch goal with
  | |- assign ?e _ = ?rest (foldl (rfc_step ?xs) (?a, ?b, ?c, ?d) (?i :: ?l)) =>
      rewrite (foldl_step (rfc_step xs) i l (a, b, c, d) (d, e, b, c) rest) by reflexivity;
      apply (assign_step e _ (λ y, rest (foldl (rfc_step xs) (d, y, b, c) l))); intros ?
  end.

Lemma assign_eq {A B} (e : A) (k : A → B) : assign e k = k e.
Proof. done. Qed.

(** The conversion compares two assignments by their parts. *)
#[local] Strategy 1000 [FF GG HH II rfc_step] 2000 [assign].

Lemma transform_rfc st block : transform st block = rfc_block st block.
Proof.
  destruct st as [[[a b] c] d]. unfold rfc_block.
  set (sum := λ st' : words, let '(a', b', c', d') := st' in
    (u32 (a + a'), u32 (b + b'), u32 (c + c'), u32 (d + d'))%Z).
  transitivity (sum (foldl (rfc_step (decode block)) (a, b, c, d) (seq 0 64))); [|done].
  cbn [seq]. unfold transform. cbv beta iota.
  do 6 rewrite assign_eq.
  generalize (decode block) as xs. intros xs.
  do 64 md5_step. reflexivity.
Qed.

(** ** Whole blocks of a text *)

Lemma words_after_S s n : words_after s (S n) = rfc_block (words_after s n) (block_at s n).
Proof. unfold words_after. by rewrite seq_S, foldl_app. Qed.

Lemma block_at_app s x i : (64 * i + 64 ≤ length s)%nat → block_at (s ++ x) i = block_at s i.
Proof.
  intros Hi. unfold block_at. rewrite skipn_app, take_app_le; [done|]. rewrite length_drop. lia.
Qed.

Lemma words_after_app s x n : (64 * n ≤ length s)%nat → words_after (s ++ x) n = words_after s n.
Proof.
  induction n as [|n IH]; intros Hn; [done|]. rewrite !words_after_S, IH by lia.
  by rewrite block_at_app by lia.
Qed.

(** ** What an object has read *)

Definition whole (s : str) : nat := (length s / 64)%nat.
Definition part (s : str) : nat := (length s mod 64)%nat.

Lemma length_split s : length s = (64 * whole s + part s)%nat ∧ (part s < 64)%nat.
Proof.
  unfold whole, part. split; [apply Nat.div_mod; lia|]. apply Nat.mod_upper_bound. lia.
Qed.

(** The object [o] has read [s]: the words are those after its whole blocks, the buffer starts
    with the rest, and the two counters are its number of bits. *)
Record has_read (s : str) (o : MD5) : Prop := {
  hr_state : _state o = words_after s (whole s);
  hr_count : _count o = (u32 (8 * slen s), u32 (8 * slen s / 2 ^ 32))%Z;
  hr_length : length (_buffer o) = 64%nat;
  hr_buffer : take (part s) (_buffer o) = drop (64 * whole s) s
}.

Lemma count_bits_add s x :
  (slen x < 2 ^ 32)%Z →
  count_bits (u32 (8 * slen s), u32 (8 * slen s / 2 ^ 32))%Z (slen x) =
  (u32 (8 * slen (s ++ x)), u32 (8 * slen (s ++ x) / 2 ^ 32))%Z.
Proof.
  intros Hx. pose proof (slen_nonneg s). pose proof (slen_nonneg x). unfold count_bits. cbn [fst snd].
  rewrite slen_app, (wrap_small 32 (slen x)) by lia.
  rewrite Z.shiftl_mul_pow2, Z.shiftr_div_pow2 by lia.
  unfold wrap. revert H0 H1 Hx. generalize (slen s), (slen x). intros m n Hm Hn Hx.
  change (2 ^ 32)%Z with 4294967296%Z in *. change (2 ^ 3)%Z with 8%Z.
  change (2 ^ 29)%Z with 536870912%Z.
  set (W := 4294967296%Z) in *.
  assert (((8 * m) mod W + (n * 8) mod W) mod W = (8 * (m + n)) mod W)%Z as Elo.
  { rewrite <- Zplus_mod. f_equal. lia. }
  rewrite Elo. f_equal.
  assert ((8 * (m + n)) / W = 8 * m / W + n / 536870912 +
    (if (8 * (m + n)) mod W <? (n * 8) mod W then 1 else 0))%Z as Ehi.
  { subst W. clear Elo. destruct (Z.ltb_spec ((8 * (m + n)) mod 4294967296) ((n * 8) mod 4294967296)).
    - Z.to_euclidean_division_equations. lia.
    - Z.to_euclidean_division_equations. lia. }
  rewrite Ehi. destruct (_ <? _)%Z.
  - rewrite Zplus_mod_idemp_l, <- Z.add_assoc, Zplus_mod_idemp_l. f_equal. lia.
  - rewrite Zplus_mod_idemp_l. f_equal. lia.
Qed.

Lemma buffer_index_part s c1 : buffer_index (u32 (8 * slen s), c1) = Z.of_nat (part s).
Proof.
  unfold buffer_index, part, slen. cbn [fst]. rewrite Z.shiftr_div_pow2 by lia.
  change 0x3f%Z with (Z.ones 6). rewrite Z.land_ones by lia. unfold wrap.
  rewrite Nat2Z.inj_mod. change (Z.of_nat 64) with 64%Z.
  generalize (Z.of_nat (length s)). intros n. change (2 ^ 3)%Z with 8%Z. change (2 ^ 6)%Z with 64%Z.
  change (2 ^ 32)%Z with 4294967296%Z.
  Z.to_euclidean_division_equations. lia.
Qed.

(** A piece that one call of [update] takes: its positions fit a [uint32_t]. *)
Definition piece_ok (x : str) : Prop := (slen x < 2 ^ 32 - 64)%Z.

Lemma update_blocks_read fuel s x q i :
  piece_ok x → (64 * q = length s + i)%nat → (i ≤ length x)%nat → (length x < i + fuel)%nat →
  ∃ q' i', update_blocks fuel x (Z.of_nat i) (words_after (s ++ x) q) =
             Ok (Some (Z.of_nat i', words_after (s ++ x) q')) ∧
    (64 * q' = length s + i')%nat ∧ (i' ≤ length x < i' + 64)%nat.
Proof.
  unfold piece_ok, slen. intros Hx. revert q i. induction fuel as [|fuel IH]; intros q i Hq Hi Hf; [lia|].
  cbn [update_blocks]. unfold slen. rewrite wrap_small by lia.
  destruct (Z.ltb_spec (Z.of_nat i + 63) (Z.of_nat (length x))) as [Hlt|Hge].
  - unfold read_at. rewrite Nat2Z.id, bool_decide_eq_true_2 by lia. cbn [rbind].
    rewrite wrap_small by lia. rewrite transform_rfc.
    assert (take 64 (drop i x) = block_at (s ++ x) q) as ->.
    { unfold block_at. rewrite skipn_app, (drop_ge s) by lia. cbn [app]. do 2 f_equal. lia. }
    rewrite <- words_after_S. change 64%Z with (Z.of_nat 64) at 1. rewrite <- Nat2Z.inj_add.
    apply IH; lia.
  - exists q, i. split; [done|]. lia.
Qed.

Lemma write_at_ok buf i s :
  (i + length s ≤ length buf)%nat →
  write_at buf i s = Ok (take i buf ++ s ++ drop (i + length s) buf).
Proof. intros Hle. unfold write_at. by rewrite bool_decide_eq_true_2. Qed.

Lemma read_at_ok buf i n :
  (i + n ≤ length buf)%nat → read_at buf i n = Ok (take n (drop i buf)).
Proof. intros Hle. unfold read_at. by rewrite bool_decide_eq_true_2. Qed.

Definition bits_of (s : str) : Z * Z := (u32 (8 * slen s), u32 (8 * slen s / 2 ^ 32))%Z.

(** A piece that leaves the block open is appended to the buffer. *)
Lemma has_read_open s o x d f :
  has_read s o → (part s + length x < 64)%nat →
  has_read (s ++ x) (MkMD5 (_state o) (bits_of (s ++ x))
    (take (part s) (_buffer o) ++ x ++ drop (part s + length x) (_buffer o)) d f).
Proof.
  intros [Hs Hc Hl Hb] Hlt. destruct (length_split s) as [Es Hp].
  destruct (length_split (s ++ x)) as [Esx Hpx]. rewrite length_app in Esx.
  assert (whole (s ++ x) = whole s) as Hw by lia.
  assert (part (s ++ x) = part s + length x)%nat as Hpt by lia.
  constructor; cbn [_state _count _buffer].
  - by rewrite Hw, words_after_app by lia.
  - done.
  - rewrite !length_app, length_take, length_drop. lia.
  - rewrite Hw, Hpt, app_assoc, take_app_le by (rewrite length_app, length_take; lia).
    rewrite firstn_all2 by (rewrite length_app, length_take; lia).
    rewrite skipn_app, Hb. by replace (64 * whole s - length s)%nat with 0%nat by lia.
Qed.

(** After whole blocks, what is left of the piece is put at the start of the buffer. *)
Lemma has_read_blocks s x q i buf d f :
  (64 * q = length s + i)%nat → (i ≤ length x < i + 64)%nat → length buf = 64%nat →
  has_read (s ++ x) (MkMD5 (words_after (s ++ x) q) (bits_of (s ++ x))
    (take (length x - i) (drop i x) ++ drop (length x - i) buf) d f).
Proof.
  intros Hq Hi Hl. destruct (length_split (s ++ x)) as [Esx Hpx]. rewrite length_app in Esx.
  assert (whole (s ++ x) = q) as Hw by lia.
  assert (part (s ++ x) = length x - i)%nat as Hpt by lia.
  assert (length (take (length x - i) (drop i x)) = length x - i)%nat as Hrest.
  { rewrite length_take, length_drop. lia. }
  constructor; cbn [_state _count _buffer].
  - by rewrite Hw.
  - done.
  - rewrite length_app, Hrest, length_drop. lia.
  - rewrite Hw, Hpt, take_app_le by lia.
    rewrite !firstn_all2 by (rewrite ?length_take, ?length_drop; lia).
    rewrite skipn_app, (drop_ge s) by lia. cbn [app]. f_equal. lia.
Qed.

(** The buffer completed by the first bytes of the piece is the next block. *)
Lemma completed_block s x buf :
  take (part s) buf = drop (64 * whole s) s → (64 - part s ≤ length x)%nat →
  take (part s) buf ++ take (64 - part s) x = block_at (s ++ x) (whole s) ∧
  length (block_at (s ++ x) (whole s)) = 64%nat.
Proof.
  intros Hb Hle. destruct (length_split s) as [Es Hp]. unfold block_at. split.
  - rewrite Hb, skipn_app, firstn_app. f_equal.
    + rewrite firstn_all2; [done|]. rewrite length_drop. lia.
    + rewrite length_drop. replace (64 * whole s - length s)%nat with 0%nat by lia. rewrite drop_0.
      f_equal. lia.
  - rewrite length_take, length_drop, length_app. lia.
Qed.

(** Reading a piece more. *)
Lemma update_has_read s o x :
  has_read s o → piece_ok x →
  ∃ o', update o x = Ok (Some o') ∧ has_read (s ++ x) o' ∧ _finished o' = false ∧
    _digest o' = _digest o.
Proof.
  intros Hread Hx. destruct (Hread) as [Hs Hc Hl Hb]. unfold update.
  rewrite Hc, buffer_index_part, count_bits_add by (unfold piece_ok in Hx; lia).
  fold (bits_of (s ++ x)). destruct (length_split s) as [Es Hp]. rewrite wrap_small by lia. cbv zeta.
  destruct (Z.leb_spec (64 - Z.of_nat (part s)) (slen x)) as [Hle|Hgt].
  - unfold slen in Hle. replace (64 - Z.of_nat (part s))%Z with (Z.of_nat (64 - part s)) in * by lia.
    rewrite !Nat2Z.id, read_at_ok by lia. cbn [rbind]. rewrite drop_0.
    destruct (completed_block s x (_buffer o) Hb ltac:(lia)) as [Eblock Hblk].
    assert (length (take (64 - part s) x) = 64 - part s)%nat as Ht by (rewrite length_take; lia).
    rewrite write_at_ok by lia. cbn [rbind]. rewrite Ht.
    replace (part s + (64 - part s))%nat with 64%nat by lia.
    rewrite (drop_ge (_buffer o) 64), app_nil_r, Eblock, transform_rfc, Hs by lia.
    rewrite <- (words_after_app s x (whole s)), <- words_after_S by lia.
    destruct (update_blocks_read (length x + 1) s x (S (whole s)) (64 - part s) Hx)
      as (q & i & -> & Hq & Hi); [lia..|]. cbn [rbind]. rewrite Nat2Z.id, read_at_ok by lia.
    cbn [rbind]. change (Z.to_nat 0) with 0%nat.
    assert (length (take (length x - i) (drop i x)) = length x - i)%nat as Hrest.
    { rewrite length_take, length_drop. lia. }
    rewrite write_at_ok by lia. cbn [rbind]. rewrite Hrest.
    eexists. split; [reflexivity|]. split; [|done]. by apply has_read_blocks.
  - unfold slen in Hgt. rewrite read_at_ok by (cbn; lia). cbn [rbind]. change (Z.to_nat 0) with 0%nat.
    rewrite Nat2Z.id, drop_0, Nat.sub_0_r, firstn_all, write_at_ok by lia. cbn [rbind].
    eexists. split; [reflexivity|]. split; [|done]. apply has_read_open; [done|lia].
Qed.

(** ** The end of a message *)

Lemma encode_length ws : length (encode ws) = (4 * length ws)%nat.
Proof. unfold encode. induction ws as [|w ws IH]; [done|]. rewrite bind_cons, length_app, IH. cbn. lia. Qed.

Lemma padding_taken n : (n ≤ 63)%nat → take (S n) PADDING = chr 0x80 :: replicate n NUL.
Proof. intros Hn. unfold PADDING. rewrite firstn_cons, take_replicate. do 2 f_equal. lia. Qed.

Lemma zeros_for_le n : (zeros_for n ≤ 63)%nat.
Proof.
  unfold zeros_for. pose proof (Nat.mod_upper_bound n 64 ltac:(lia)). case_bool_decide; lia.
Qed.

Definition md5 (s : str) : str := bytesToHexString (blocks_md5 s).

Lemma final_has_read s o :
  has_read s o → ∃ o', final o = Ok (Some o') ∧ _digest o' = blocks_md5 s.
Proof.
  intros Hread. unfold final. rewrite (hr_count _ _ Hread), buffer_index_part. cbn [fst snd].
  fold (length_words (slen s)). destruct (length_split s) as [_ Hp].
  assert (Z.to_nat (if (Z.of_nat (part s) <? 56)%Z then 56 - Z.of_nat (part s)
    else 120 - Z.of_nat (part s))%Z = S (zeros_for (length s))) as ->.
  { unfold zeros_for. fold (part s). destruct (Z.ltb_spec (Z.of_nat (part s)) 56);
      [rewrite bool_decide_eq_true_2 by lia|rewrite bool_decide_eq_false_2 by lia]; lia. }
  pose proof (zeros_for_le (length s)) as Hz. rewrite padding_taken by done.
  destruct (update_has_read s o (chr 0x80 :: replicate (zeros_for (length s)) NUL) Hread)
    as (o1 & E1 & H1 & _).
  { unfold piece_ok. rewrite slen_cons. unfold slen. rewrite length_replicate. lia. }
  rewrite E1. cbn [and_then rbind].
  destruct (update_has_read _ o1 (encode (length_words (slen s))) H1) as (o2 & E2 & H2 & _).
  { unfold piece_ok, slen. rewrite encode_length. cbn. lia. }
  unfold and_then at 1. cbn [rbind]. rewrite E2. unfold and_then. cbn [rbind].
  rewrite <- app_assoc in H2. fold (padded s) in H2. pose proof (hr_state _ _ H2) as E.
  destruct (_state o2) as [[[a b] c] d]. eexists. split; [reflexivity|]. cbn [_digest].
  unfold blocks_md5. fold (whole (padded s)). by rewrite <- E.
Qed.

Lemma toString_has_read s o :
  has_read s o → _finished o = false → ∃ o', toString o = Ok (Some (o', md5 s)).
Proof.
  intros [Hs Hc Hl Hb] Hf. unfold toString, digest. rewrite Hf.
  destruct (final_has_read s (MkMD5 (_state o) (_count o) (_buffer o) (_digest o) true))
    as (o' & -> & Hd); [by constructor|].
  cbn [and_then rbind fst snd]. rewrite Hd. by exists o'.
Qed.

Lemma reset_has_read o : length (_buffer o) = 64%nat → has_read [] (reset o).
Proof. intros Hl. by constructor. Qed.

(** Several calls of [update]. *)
Fixpoint updates (o : MD5) (pieces : list str) : result (option MD5) :=
  match pieces with
  | [] => Ok (Some o)
  | x :: pieces => and_then (update o x) (λ o, updates o pieces)
  end.

Lemma updates_has_read s o pieces :
  has_read s o → _finished o = false → Forall piece_ok pieces →
  ∃ o', updates o pieces = Ok (Some o') ∧ has_read (s ++ mjoin pieces) o' ∧ _finished o' = false.
Proof.
  intros Hread Hf Hx. revert s o Hread Hf. induction Hx as [|x pieces Hx Hxs IH]; intros s o Hread Hf.
  { exists o. cbn. by rewrite app_nil_r. }
  destruct (update_has_read s o x Hread Hx) as (o1 & E & H1 & Hf1 & _).
  destruct (IH _ _ H1 Hf1) as (o2 & E2 & H2). exists o2. cbn. rewrite E. unfold and_then. cbn [rbind].
  by rewrite app_assoc.
Qed.

(** C18: However a message is cut into the pieces given to the object, and whatever its arrays
    held before, the object writes and reads inside its arrays, ends, and gives the
    hexadecimal MD5 of the whole message as RFC 1321 defines it. *)
Theorem md5_any_cut (o : MD5) (pieces : list str) :
  length (_buffer o) = 64%nat → Forall piece_ok pieces →
  ∃ o1 o2, updates (reset o) pieces = Ok (Some o1) ∧
    toString o1 = Ok (Some (o2, bytesToHexString (blocks_md5 (mjoin pieces)))).
Proof.
  intros Hl Hx. destruct (updates_has_read [] (reset o) pieces (reset_has_read o Hl) eq_refl Hx)
    as (o1 & E1 & H1 & Hf1).
  destruct (toString_has_read _ _ H1 Hf1) as [o2 E2]. by exists o1, o2.
Qed.

Lemma md5_any_cut_witness :
  ∃ o1 o2, updates (reset (uninitialised (replicate 64 "x"%char) [])) ["a" : str; "bc" : str] =
      Ok (Some o1) ∧
    toString o1 = Ok (Some (o2, cstr "900150983cd24fb0d6963f7d28e17f72")).
Proof.
  replace (cstr "900150983cd24fb0d6963f7d28e17f72") with
    (bytesToHexString (blocks_md5 (mjoin ["a" : str; "bc" : str]))) by (vm_compute; reflexivity).
  apply md5_any_cut; [reflexivity|]. repeat constructor.
Defined.

(** The object that [LogicApi] makes of a password and its salt gives [md5] of them. *)
Lemma MD5_new_toString buffer digest s :
  length buffer = 64%nat → piece_ok s →
  ∃ o1 o2, MD5_new buffer digest s = Ok (Some o1) ∧ toString o1 = Ok (Some (o2, md5 s)).
Proof.
  intros Hl Hs. unfold MD5_new.
  destruct (update_has_read [] (reset (uninitialised buffer digest)) s) as (o1 & -> & H1 & Hf & _);
    [by apply reset_has_read|done|].
  destruct (toString_has_read _ _ H1 Hf) as [o2 E2]. by exists o1, o2.
Qed.

(** A file is read as the pieces of [BUFFER_SIZE] bytes. *)
Lemma update_stream_has_read s o content :
  has_read s o → _finished o = false →
  ∃ o', update_stream o (Some content) = Ok (Some o') ∧ has_read (s ++ content) o' ∧
    _finished o' = false.
Proof.
  cbn [update_stream]. assert (Hfuel : (length content < length content + 1)%nat) by lia.
  revert Hfuel. generalize (length content + 1)%nat. intros fuel. revert s o content.
  induction fuel as [|fuel IH]; intros s o content Hfuel Hread Hf; [lia|]. cbn [update_stream_loop].
  set (x := take BUFFER_SIZE content).
  assert (Hlen : (length x ≤ BUFFER_SIZE)%nat) by (unfold x; rewrite length_take; lia).
  assert (∃ o1, (if bool_decide (x = []) then Ok (Some o) else update o x) = Ok (Some o1) ∧
    has_read (s ++ x) o1 ∧ _finished o1 = false) as (o1 & -> & H1 & Hf1).
  { case_bool_decide as Hx; [exists o; by rewrite Hx, app_nil_r|].
    destruct (update_has_read s o x Hread) as (o1 & E & H1 & Hf1 & _); [|by exists o1].
    unfold piece_ok, slen. change BUFFER_SIZE with 1024%nat in Hlen. lia. }
  unfold and_then. cbn [rbind]. case_bool_decide as He.
  - exists o1. unfold x in *. by rewrite firstn_all2 in H1 by lia.
  - destruct (IH (s ++ x) o1 (drop BUFFER_SIZE content)) as (o2 & E2 & H2 & Hf2); [|done|done|].
    { rewrite length_drop. change BUFFER_SIZE with 1024%nat in *. lia. }
    exists o2. split; [exact E2|]. split; [|done]. rewrite <- app_assoc in H2. unfold x in H2.
    by rewrite take_drop in H2.
Qed.

(** The digest of 56 to 63 bytes beyond whole blocks overwrites the start of the buffer, and
    the object does not remember that it has finished: asked again, it answers otherwise. *)
Example second_digest_differs :
  ∃ o1 o2 o3 d1 d2,
    MD5_new (replicate 64 NUL) [] (replicate 56 "a"%char) = Ok (Some o1) ∧
    digest o1 = Ok (Some (o2, d1)) ∧ digest o2 = Ok (Some (o3, d2)) ∧ d1 ≠ d2.
Proof.
  do 5 eexists. split; [vm_compute; reflexivity|]. split; [vm_compute; reflexivity|].
  split; [vm_compute; reflexivity|]. vm_compute. discriminate.
Qed.
End Digest.
