(* ===== verification/MuduoBuffer.v ===== *)
(** [muduo/net/Buffer.{h,cc}] and [muduo/net/Endian.h], the buffers of a TCP connection (the
    files are the same in the three services).

    A buffer is its array and its two indices; a pointer into it is an offset.  Sizes that
    are computed are of type [size_t] and wrap ([u64]); a [vector] refuses more than
    [max_size] elements with [std::length_error].  An operation whose assertion fails, or
    that writes outside the array, is undefined.  [content] is the queue of bytes that the
    class promises. *)

From S2P Require Import Prelude.

Module Buf.

Definition kCheapPrepend : nat := 8.
Definition kInitialSize : Z := 1024.

Record Buffer : Type := MkBuffer {
  buffer_ : str;
  readerIndex_ : nat;
  writerIndex_ : nat
}.

Definition assert {A} (b : bool) (k : result A) : result A := if b then k else Undef AssertFailed.

(** [std::vector<char>]: its largest size, [resize] (which appends zeros) and, from nothing,
    its constructor. *)
Definition max_size : Z := 2 ^ 63 - 1.
Definition resize (n : Z) (buf : str) : result str :=
  if (max_size <? n)%Z then Throw LogicErr
  else Ok (take (Z.to_nat n) buf ++ replicate (Z.to_nat n - length buf) NUL).

Definition readableBytes (b : Buffer) : Z := u64 (Z.of_nat (writerIndex_ b) - Z.of_nat (readerIndex_ b)).
Definition writableBytes (b : Buffer) : Z := u64 (slen (buffer_ b) - Z.of_nat (writerIndex_ b)).
Definition prependableBytes (b : Buffer) : Z := Z.of_nat (readerIndex_ b).

Definition Buffer_new (initialSize : Z) : result Buffer :=
  let* buf := resize (u64 (Z.of_nat kCheapPrepend + initialSize)) [] in
  let b := MkBuffer buf kCheapPrepend kCheapPrepend in
  assert (readableBytes b =? 0)%Z
    (assert (writableBytes b =? initialSize)%Z
      (assert (prependableBytes b =? Z.of_nat kCheapPrepend)%Z (Ok b))).

(** [Buffer()] *)
Definition Buffer_default : Buffer :=
  match Buffer_new kInitialSize with Ok b => b | _ => MkBuffer [] 0 0 end.

(** [peek()] and [beginWrite()], as offsets. *)
Definition peek (b : Buffer) : nat := readerIndex_ b.
Definition beginWrite (b : Buffer) : nat := writerIndex_ b.

(** [std::copy] of [s] to the offset [i]. *)
Definition copy_to (i : nat) (s : str) (buf : str) : result str :=
  if bool_decide (i + length s ≤ length buf)%nat
  then Ok (take i buf ++ s ++ drop (i + length s) buf) else Undef OutOfBounds.

(** The bytes between two offsets. *)
Definition range (b : Buffer) (first last : nat) : str := take (last - first) (drop first (buffer_ b)).

(** [std::search] for CR LF, and [memchr] for LF. *)
Fixpoint search_crlf (s : str) : option nat :=
  match s with
  | c :: ((d :: _) as s') =>
      if bool_decide (c = CR) && bool_decide (d = LF) then Some 0%nat else S <$> search_crlf s'
  | _ => None
  end.
Fixpoint search_lf (s : str) : option nat :=
  match s with
  | [] => None
  | c :: s' => if bool_decide (c = LF) then Some 0%nat else S <$> search_lf s'
  end.

Definition findCRLF_from (start : nat) (b : Buffer) : result (option nat) :=
  assert (bool_decide (peek b ≤ start)%nat) (assert (bool_decide (start ≤ beginWrite b)%nat)
    (Ok ((λ i, start + i)%nat <$> search_crlf (range b start (beginWrite b))))).
Definition findCRLF (b : Buffer) : option nat :=
  (λ i, peek b + i)%nat <$> search_crlf (range b (peek b) (beginWrite b)).
Definition findEOL_from (start : nat) (b : Buffer) : result (option nat) :=
  assert (bool_decide (peek b ≤ start)%nat) (assert (bool_decide (start ≤ beginWrite b)%nat)
    (Ok ((λ i, start + i)%nat <$> search_lf (range b start (beginWrite b))))).
Definition findEOL (b : Buffer) : option nat :=
  (λ i, peek b + i)%nat <$> search_lf (range b (peek b) (beginWrite b)).

Definition retrieveAll (b : Buffer) : Buffer := MkBuffer (buffer_ b) kCheapPrepend kCheapPrepend.

Definition retrieve (len : nat) (b : Buffer) : result Buffer :=
  assert (Z.of_nat len <=? readableBytes b)%Z
    (Ok (if (Z.of_nat len <? readableBytes b)%Z
         then MkBuffer (buffer_ b) (readerIndex_ b + len) (writerIndex_ b)
         else retrieveAll b)).

Definition retrieveUntil (end_ : nat) (b : Buffer) : result Buffer :=
  assert (bool_decide (peek b ≤ end_)%nat) (assert (bool_decide (end_ ≤ beginWrite b)%nat)
    (retrieve (end_ - peek b) b)).

Definition retrieveInt64 (b : Buffer) : result Buffer := retrieve 8 b.
Definition retrieveInt32 (b : Buffer) : result Buffer := retrieve 4 b.
Definition retrieveInt16 (b : Buffer) : result Buffer := retrieve 2 b.
Definition retrieveInt8 (b : Buffer) : result Buffer := retrieve 1 b.

Definition retrieveAsString (len : nat) (b : Buffer) : result (Buffer * str) :=
  assert (Z.of_nat len <=? readableBytes b)%Z
    (let* b' := retrieve len b in Ok (b', range b (peek b) (peek b + len))).
Definition retrieveAllAsString (b : Buffer) : result (Buffer * str) :=
  retrieveAsString (Z.to_nat (readableBytes b)) b.

(** [makeSpace]: both sums of its condition, and the size it asks for, wrap. *)
Definition makeSpace (len : Z) (b : Buffer) : result Buffer :=
  if (u64 (writableBytes b + prependableBytes b) <? u64 (len + Z.of_nat kCheapPrepend))%Z then
    let* buf := resize (u64 (Z.of_nat (writerIndex_ b) + len)) (buffer_ b) in
    Ok (MkBuffer buf (readerIndex_ b) (writerIndex_ b))
  else
    assert (bool_decide (kCheapPrepend < readerIndex_ b)%nat)
      (let readable := readableBytes b in
       let* buf := copy_to kCheapPrepend (range b (readerIndex_ b) (writerIndex_ b)) (buffer_ b) in
       let b' := MkBuffer buf kCheapPrepend (Z.to_nat (u64 (Z.of_nat kCheapPrepend + readable))) in
       assert (readable =? readableBytes b')%Z (Ok b')).

Definition ensureWritableBytes (len : Z) (b : Buffer) : result Buffer :=
  let* b := (if (writableBytes b <? len)%Z then makeSpace len b else Ok b) in
  assert (len <=? writableBytes b)%Z (Ok b).

Definition hasWritten (len : Z) (b : Buffer) : result Buffer :=
  assert (len <=? writableBytes b)%Z
    (Ok (MkBuffer (buffer_ b) (readerIndex_ b) (Z.to_nat (u64 (Z.of_nat (writerIndex_ b) + len))))).

Definition unwrite (len : nat) (b : Buffer) : result Buffer :=
  assert (Z.of_nat len <=? readableBytes b)%Z
    (Ok (MkBuffer (buffer_ b) (readerIndex_ b) (writerIndex_ b - len))).

(** [append(const char*, size_t)] *)
Definition append (data : str) (b : Buffer) : result Buffer :=
  let* b := ensureWritableBytes (slen data) b in
  let* buf := copy_to (beginWrite b) data (buffer_ b) in
  hasWritten (slen data) (MkBuffer buf (readerIndex_ b) (writerIndex_ b)).

Definition prepend (data : str) (b : Buffer) : result Buffer :=
  assert (slen data <=? prependableBytes b)%Z
    (let* buf := copy_to (readerIndex_ b - length data) data (buffer_ b) in
     Ok (MkBuffer buf (readerIndex_ b - length data) (writerIndex_ b))).

(** ** Integers in network order *)

(** The [n] bytes of [x], high byte first, and the unsigned number that bytes are. *)
Fixpoint be_bytes (n : nat) (x : Z) : str :=
  match n with
  | O => []
  | S n => chr (Z.shiftr x (8 * Z.of_nat n)) :: be_bytes n x
  end.
Definition be_value (s : str) : Z := foldl (λ a c, a * 256 + u8 c)%Z 0%Z s.

Definition appendInt64 (x : Z) (b : Buffer) : result Buffer := append (be_bytes 8 x) b.
Definition appendInt32 (x : Z) (b : Buffer) : result Buffer := append (be_bytes 4 x) b.
Definition appendInt16 (x : Z) (b : Buffer) : result Buffer := append (be_bytes 2 x) b.
Definition appendInt8 (x : Z) (b : Buffer) : result Buffer := append (be_bytes 1 x) b.

(** [peekInt64] and its like, of [n] bytes. *)
Definition peekInt (n : nat) (b : Buffer) : result Z :=
  assert (Z.of_nat n <=? readableBytes b)%Z
    (Ok (swrap (8 * Z.of_nat n) (be_value (range b (peek b) (peek b + n))))).
Definition peekInt64 : Buffer → result Z := peekInt 8.
Definition peekInt32 : Buffer → result Z := peekInt 4.
Definition peekInt16 : Buffer → result Z := peekInt 2.
Definition peekInt8 : Buffer → result Z := peekInt 1.

Definition readInt64 (b : Buffer) : result (Buffer * Z) :=
  let* x := peekInt64 b in let* b := retrieveInt64 b in Ok (b, x).
Definition readInt32 (b : Buffer) : result (Buffer * Z) :=
  let* x := peekInt32 b in let* b := retrieveInt32 b in Ok (b, x).
Definition readInt16 (b : Buffer) : result (Buffer * Z) :=
  let* x := peekInt16 b in let* b := retrieveInt16 b in Ok (b, x).
Definition readInt8 (b : Buffer) : result (Buffer * Z) :=
  let* x := peekInt8 b in let* b := retrieveInt8 b in Ok (b, x).

Definition prependInt64 (x : Z) (b : Buffer) : result Buffer := prepend (be_bytes 8 x) b.
Definition prependInt32 (x : Z) (b : Buffer) : result Buffer := prepend (be_bytes 4 x) b.
Definition prependInt16 (x : Z) (b : Buffer) : result Buffer := prepend (be_bytes 2 x) b.
Definition prependInt8 (x : Z) (b : Buffer) : result Buffer := prepend (be_bytes 1 x) b.

(** ** Views, shrinking and reading from a socket *)

(** [toStringPiece]: the length of a [StringPiece] is an [int]. *)
Definition toStringPiece (b : Buffer) : nat * Z := (peek b, i32 (readableBytes b)).

(** [append(const StringPiece&)] of a piece of [src], whose length becomes a [size_t]. *)
Definition append_piece (src : Buffer) (piece : nat * Z) (b : Buffer) : result Buffer :=
  let len := u64 piece.2 in
  let* b := ensureWritableBytes len b in
  if (Z.of_nat piece.1 + len <=? slen (buffer_ src))%Z then
    let* buf := copy_to (beginWrite b) (range src piece.1 (piece.1 + Z.to_nat len)) (buffer_ b) in
    hasWritten len (MkBuffer buf (readerIndex_ b) (writerIndex_ b))
  else Undef OutOfBounds.

Definition shrink (reserve : Z) (b : Buffer) : result Buffer :=
  let* other := Buffer_new kInitialSize in
  let* other := ensureWritableBytes (u64 (readableBytes b + reserve)) other in
  append_piece b (toStringPiece b) other.

(** The size of [extrabuf], and how much [readv] may give. *)
Definition extrabuf_size : Z := 64 * 1024.
Definition readFd_limit (b : Buffer) : Z :=
  (if writableBytes b <? extrabuf_size
   then writableBytes b + extrabuf_size else writableBytes b)%Z.

(** [readFd] when [readv] gives the bytes [got]: they fill the buffer, then [extrabuf]. *)
Definition readFd (got : str) (b : Buffer) : result Buffer :=
  let writable := writableBytes b in
  if (slen got <=? writable)%Z then
    let* buf := copy_to (writerIndex_ b) got (buffer_ b) in
    Ok (MkBuffer buf (readerIndex_ b) (writerIndex_ b + length got))
  else
    let* buf := copy_to (writerIndex_ b) (take (Z.to_nat writable) got) (buffer_ b) in
    append (drop (Z.to_nat writable) got) (MkBuffer buf (readerIndex_ b) (length (buffer_ b))).

(** ** The queue of bytes *)

Definition content (b : Buffer) : str := range b (peek b) (beginWrite b).

Record inv (b : Buffer) : Prop := {
  inv_reader : (readerIndex_ b ≤ writerIndex_ b)%nat;
  inv_writer : (writerIndex_ b ≤ length (buffer_ b))%nat;
  inv_size : (kCheapPrepend ≤ length (buffer_ b))%nat;
  inv_max : (slen (buffer_ b) ≤ max_size)%Z
}.

Lemma u64_small z : (0 ≤ z ≤ max_size)%Z → u64 z = z.
Proof. intros. apply wrap_small. unfold max_size in *. lia. Qed.

Lemma readable_inv b : inv b → readableBytes b = Z.of_nat (writerIndex_ b - readerIndex_ b).
Proof.
  intros [I1 I2 _ I4]. unfold readableBytes. rewrite <- Nat2Z.inj_sub by lia.
  apply u64_small. unfold slen in I4. lia.
Qed.

Lemma writable_inv b : inv b → writableBytes b = Z.of_nat (length (buffer_ b) - writerIndex_ b).
Proof.
  intros [I1 I2 _ I4]. unfold writableBytes, slen in *. rewrite <- Nat2Z.inj_sub by lia.
  apply u64_small. lia.
Qed.

Lemma range_length b i j : (i ≤ j)%nat → (j ≤ length (buffer_ b))%nat → length (range b i j) = (j - i)%nat.
Proof. intros. unfold range. rewrite length_take, length_drop. lia. Qed.

Lemma content_length b : inv b → length (content b) = (writerIndex_ b - readerIndex_ b)%nat.
Proof. intros [I1 I2 _ _]. by apply range_length. Qed.

Lemma readable_content b : inv b → readableBytes b = slen (content b).
Proof. intros Hb. unfold slen. by rewrite content_length, readable_inv. Qed.

(** An array in three parts: before the reader, the content, behind the writer. *)
Lemma inv_parts b :
  inv b → ∃ front back, buffer_ b = front ++ content b ++ back ∧ length front = readerIndex_ b ∧
    (readerIndex_ b + length (content b) = writerIndex_ b)%nat ∧
    (length (buffer_ b) = length front + length (content b) + length back)%nat ∧
    (kCheapPrepend ≤ length (buffer_ b))%nat ∧ (slen (buffer_ b) ≤ max_size)%Z.
Proof.
  intros Hb. pose proof Hb as [I1 I2 I3 I4].
  exists (take (readerIndex_ b) (buffer_ b)), (drop (writerIndex_ b) (buffer_ b)).
  pose proof (content_length b Hb) as Hl. split_and!; [|..].
  - unfold content, range, peek, beginWrite.
    rewrite <- (take_drop (readerIndex_ b) (buffer_ b)) at 1. f_equal.
    rewrite <- (take_drop (writerIndex_ b - readerIndex_ b) (drop (readerIndex_ b) (buffer_ b))) at 1.
    f_equal. rewrite drop_drop. f_equal. lia.
  - rewrite length_take. lia.
  - lia.
  - rewrite length_take, length_drop. lia.
  - done.
  - done.
Qed.

(** Building a buffer from its three parts. *)
Lemma make_buffer front s back r w :
  r = length front → w = (length front + length s)%nat →
  (kCheapPrepend ≤ length front + length s + length back)%nat →
  (Z.of_nat (length front + length s + length back) ≤ max_size)%Z →
  inv (MkBuffer (front ++ s ++ back) r w) ∧ content (MkBuffer (front ++ s ++ back) r w) = s.
Proof.
  intros -> -> Hs Hm. split.
  - constructor; unfold slen; cbn [buffer_ readerIndex_ writerIndex_]; rewrite ?length_app; lia.
  - unfold content, range. cbn. rewrite drop_app_length, Nat.add_comm, Nat.add_sub. apply take_app_length.
Qed.

Lemma copy_to_ok pre old post s :
  length s = length old → copy_to (length pre) s (pre ++ old ++ post) = Ok (pre ++ s ++ post).
Proof.
  intros Hl. unfold copy_to. rewrite bool_decide_eq_true_2 by (rewrite !length_app; lia).
  rewrite take_app_length. do 3 f_equal.
  rewrite app_assoc, Hl, <- length_app. apply drop_app_length.
Qed.

Lemma Buffer_new_ok n :
  (0 ≤ n)%Z → (8 + n ≤ max_size)%Z →
  ∃ b, Buffer_new n = Ok b ∧ inv b ∧ content b = [] ∧ slen (buffer_ b) = (8 + n)%Z ∧
    readerIndex_ b = kCheapPrepend ∧ writerIndex_ b = kCheapPrepend.
Proof.
  intros Hn Hm. unfold Buffer_new, resize. change (Z.of_nat kCheapPrepend) with 8%Z.
  rewrite (u64_small (8 + n)) by lia. destruct (Z.ltb_spec max_size (8 + n)); [lia|].
  cbn [rbind length]. rewrite take_nil, Nat.sub_0_r. cbn [app].
  set (b := MkBuffer _ _ _).
  assert (inv b ∧ content b = []) as [Hb Hc].
  { unfold b. replace (Z.to_nat (8 + n)) with (kCheapPrepend + Z.to_nat n)%nat by
      (unfold kCheapPrepend; lia). rewrite replicate_add.
    apply (make_buffer (replicate kCheapPrepend NUL) [] (replicate (Z.to_nat n) NUL));
      rewrite ?length_replicate; cbn [length]; unfold kCheapPrepend; lia. }
  assert (length (buffer_ b) = Z.to_nat (8 + n)) as Hl by (unfold b; cbn; by rewrite length_replicate).
  rewrite (readable_inv b Hb), (writable_inv b Hb), Hl. unfold assert, prependableBytes.
  change (readerIndex_ b) with 8%nat. change (writerIndex_ b) with 8%nat.
  rewrite (proj2 (Z.eqb_eq _ n)) by lia. cbn [Nat.sub Z.of_nat Z.eqb].
  exists b. split_and!; try done. unfold slen. rewrite Hl. lia.
Qed.

Lemma Buffer_default_ok :
  Buffer_new kInitialSize = Ok Buffer_default ∧ inv Buffer_default ∧ content Buffer_default = [] ∧
  slen (buffer_ Buffer_default) = 1032%Z ∧
  readerIndex_ Buffer_default = kCheapPrepend ∧ writerIndex_ Buffer_default = kCheapPrepend.
Proof.
  destruct (Buffer_new_ok kInitialSize) as (b & E & H); [done|done|].
  unfold Buffer_default. rewrite E. by split_and!; try apply H.
Qed.

Lemma retrieveAll_ok b : inv b → inv (retrieveAll b) ∧ content (retrieveAll b) = [].
Proof.
  intros [_ _ I M]. unfold retrieveAll, slen in *. rewrite <- (take_drop kCheapPrepend (buffer_ b)).
  apply (make_buffer (take kCheapPrepend (buffer_ b)) [] (drop kCheapPrepend (buffer_ b)));
    rewrite ?length_take, ?length_drop; cbn [length]; lia.
Qed.

Lemma retrieve_ok len b :
  inv b → (len ≤ length (content b))%nat →
  ∃ b', retrieve len b = Ok b' ∧ inv b' ∧ content b' = drop len (content b) ∧ buffer_ b' = buffer_ b.
Proof.
  intros Hb Hlen. pose proof (readable_content b Hb) as Hl. unfold retrieve, assert, slen in *. rewrite Hl.
  rewrite (proj2 (Z.leb_le _ _)) by lia. eexists. split; [reflexivity|].
  destruct (Z.ltb_spec (Z.of_nat len) (Z.of_nat (length (content b)))) as [Hc|Hc]; apply and_assoc;
    (split; [|done]).
  - apply inv_parts in Hb as (front & back & E & Hf & Hw & Hlen2 & Hs & Hm). unfold slen in Hm.
    rewrite <- (take_drop len (content b)), <- app_assoc, app_assoc in E. rewrite E.
    apply make_buffer; rewrite ?length_app, ?length_take, ?length_drop; lia.
  - replace (drop len (content b)) with (@nil ascii) by (rewrite drop_ge; [done|lia]).
    by apply retrieveAll_ok.
Qed.

Lemma makeSpace_ok len b :
  inv b → (writableBytes b < len ≤ max_size)%Z →
  makeSpace len b = Throw LogicErr ∧ (max_size < slen (buffer_ b) + len)%Z ∨
  ∃ b', makeSpace len b = Ok b' ∧ inv b' ∧ content b' = content b ∧ (len ≤ writableBytes b')%Z ∧
    (slen (buffer_ b') ≤ slen (buffer_ b) + len)%Z.
Proof.
  intros Hb [Hlen Hroom]. pose proof (content_length b Hb) as Hl. pose proof Hb as [I1 I2 I3 I4].
  unfold makeSpace. rewrite (writable_inv b Hb) in *. unfold prependableBytes, slen in *.
  assert (∀ z, (0 ≤ z ≤ max_size + max_size)%Z → u64 z = z) as Hu.
  { intros. apply wrap_small. unfold max_size in *. lia. }
  change (Z.of_nat kCheapPrepend) with 8%Z. unfold kCheapPrepend in I3.
  rewrite (Hu (_ + Z.of_nat (readerIndex_ b))%Z), (Hu (len + 8)%Z), (Hu (_ + len)%Z)
    by (unfold max_size in *; lia).
  apply inv_parts in Hb as (front & back & E & Hf & Hw & Hlen2 & Hs & _).
  destruct (Z.ltb_spec (Z.of_nat (length (buffer_ b) - writerIndex_ b) + Z.of_nat (readerIndex_ b))
    (len + 8)) as [Hc|Hc].
  - unfold resize. destruct (Z.ltb_spec max_size (Z.of_nat (writerIndex_ b) + len)); [left; split; [done|lia]|].
    right. set (zeros := replicate _ NUL). cbn [rbind].
    assert (take (Z.to_nat (Z.of_nat (writerIndex_ b) + len)) (buffer_ b) ++ zeros =
      front ++ content b ++ (back ++ zeros)) as ->.
    { rewrite firstn_all2 by lia. rewrite E. by rewrite <- !app_assoc. }
    assert (length zeros = Z.to_nat (Z.of_nat (writerIndex_ b) + len) - length (buffer_ b))%nat as Hz
      by apply length_replicate.
    eexists. split; [reflexivity|].
    destruct (make_buffer front (content b) (back ++ zeros) (readerIndex_ b) (writerIndex_ b))
      as [Hi Hcn]; [lia|lia|rewrite length_app; unfold kCheapPrepend; lia|rewrite length_app; lia|].
    split_and!; [done|done| |]; [rewrite (writable_inv _ Hi)|];
      cbn [buffer_ writerIndex_]; rewrite !length_app; lia.
  - right. unfold assert. rewrite bool_decide_eq_true_2 by (unfold kCheapPrepend; lia).
    change (range b (readerIndex_ b) (writerIndex_ b)) with (content b).
    rewrite (readable_inv b) by (by split).
    rewrite <- Hl, (u64_small (8 + _)) by lia.
    set (r := take kCheapPrepend front).
    assert (Ht : length r = kCheapPrepend) by (unfold r; rewrite length_take; unfold kCheapPrepend; lia).
    set (w' := Z.to_nat (8 + Z.of_nat (length (content b)))).
    assert (w' = kCheapPrepend + length (content b))%nat as Hw' by (unfold w', kCheapPrepend; lia).
    assert (copy_to kCheapPrepend (content b) (buffer_ b) =
      Ok (r ++ content b ++ drop (kCheapPrepend + length (content b)) (buffer_ b))) as ->.
    { rewrite <- (take_drop kCheapPrepend (buffer_ b)) at 1.
      replace (take kCheapPrepend (buffer_ b)) with r.
      2: { unfold r. rewrite E, take_app_le by (unfold kCheapPrepend; lia). done. }
      rewrite <- (take_drop (length (content b)) (drop kCheapPrepend (buffer_ b))), drop_drop.
      rewrite <- Ht at 1. apply copy_to_ok. rewrite length_take, length_drop. unfold kCheapPrepend. lia. }
    cbn [rbind].
    destruct (make_buffer r (content b) (drop (kCheapPrepend + length (content b)) (buffer_ b))
      kCheapPrepend w') as [Hi Hcn]; [lia|lia| | |].
    { rewrite length_drop. unfold kCheapPrepend in *. lia. }
    { rewrite length_drop. unfold kCheapPrepend in *. lia. }
    rewrite (readable_inv _ Hi). cbn [readerIndex_ writerIndex_].
    rewrite (proj2 (Z.eqb_eq _ _)) by lia. eexists. split; [reflexivity|].
    split_and!; [done|done| |]; [rewrite (writable_inv _ Hi)|];
      cbn [buffer_ writerIndex_]; rewrite !length_app, length_drop; unfold kCheapPrepend in *; lia.
Qed.

Lemma ensureWritableBytes_outcome len b :
  inv b → (0 ≤ len ≤ max_size)%Z →
  ensureWritableBytes len b = Throw LogicErr ∧ (max_size < slen (buffer_ b) + len)%Z ∨
  ∃ b', ensureWritableBytes len b = Ok b' ∧ inv b' ∧ content b' = content b ∧
    (len ≤ writableBytes b')%Z ∧ (slen (buffer_ b') ≤ slen (buffer_ b) + len)%Z.
Proof.
  intros Hb H0. unfold ensureWritableBytes. destruct (Z.ltb_spec (writableBytes b) len) as [Hc|Hc].
  - destruct (makeSpace_ok len b Hb) as [[-> ?]|(b' & -> & Hb' & Hcn & Hw & Hs)]; [lia|by left|].
    right. exists b'. cbn [rbind]. unfold assert. by rewrite (proj2 (Z.leb_le _ _)).
  - right. exists b. cbn [rbind]. unfold assert. rewrite (proj2 (Z.leb_le _ _)) by lia.
    split_and!; [done..|lia].
Qed.

Lemma ensureWritableBytes_ok len b :
  inv b → (0 ≤ len)%Z → (slen (buffer_ b) + len ≤ max_size)%Z →
  ∃ b', ensureWritableBytes len b = Ok b' ∧ inv b' ∧ content b' = content b ∧
    (len ≤ writableBytes b')%Z ∧ (slen (buffer_ b') ≤ slen (buffer_ b) + len)%Z.
Proof.
  intros Hb H0 Hroom. destruct (ensureWritableBytes_outcome len b Hb) as [[_ ?]|?]; [|lia|done].
  unfold slen in *. lia.
Qed.

(** The array stays below the largest size, whatever the length asked for. *)
Lemma ensureWritableBytes_max len b b' :
  (slen (buffer_ b) ≤ max_size)%Z → ensureWritableBytes len b = Ok b' → (slen (buffer_ b') ≤ max_size)%Z.
Proof.
  intros Hm. assert (∀ n buf, resize n (buffer_ b) = Ok buf → (slen buf ≤ max_size)%Z) as Hr.
  { intros n buf. unfold resize. destruct (Z.ltb_spec max_size n); [done|]. intros [= <-]. unfold slen.
    rewrite length_app, length_take, length_replicate. unfold max_size in *. lia. }
  assert (∀ i s buf, copy_to i s (buffer_ b) = Ok buf → (slen buf ≤ max_size)%Z) as Hcp.
  { intros i s buf. unfold copy_to. case_bool_decide; [|done]. intros [= <-]. unfold slen in *.
    rewrite !length_app, length_take, length_drop. lia. }
  unfold ensureWritableBytes, makeSpace, assert.
  destruct (_ <? len)%Z; cbn [rbind]; [|case_match; [by intros [= <-]|done]].
  destruct (_ <? _)%Z.
  - destruct (resize _ _) as [buf| |] eqn:E; [|done..]. cbn [rbind]. case_match; [|done].
    intros [= <-]. by eapply Hr.
  - case_match; [|done]. destruct (copy_to _ _ _) as [buf| |] eqn:E; [|done..]. cbn [rbind].
    case_match; [|done]. cbn [rbind]. case_match; [|done]. intros [= <-]. by eapply Hcp.
Qed.

(** Bytes written behind the content. *)
Lemma write_behind s b :
  inv b → (slen s ≤ writableBytes b)%Z →
  ∃ buf, copy_to (writerIndex_ b) s (buffer_ b) = Ok buf ∧ length buf = length (buffer_ b) ∧
    let b' := MkBuffer buf (readerIndex_ b) (writerIndex_ b + length s) in
    inv b' ∧ content b' = content b ++ s.
Proof.
  intros Hb Hs. pose proof Hb as [_ I2 _ _]. rewrite (writable_inv b Hb) in Hs. unfold slen in Hs.
  apply inv_parts in Hb as (front & back & E & Hf & Hw & Hlen2 & Hsz & Hm). unfold slen in Hm.
  exists ((front ++ content b) ++ s ++ drop (length s) back).
  split_and!.
  - rewrite E. replace (writerIndex_ b) with (length (front ++ content b)) by (rewrite length_app; lia).
    rewrite <- (take_drop (length s) back) at 1. rewrite app_assoc. apply copy_to_ok.
    rewrite length_take. lia.
  - rewrite !length_app, length_drop. lia.
  - cbv zeta. rewrite <- app_assoc, (app_assoc (content b)).
    apply make_buffer; rewrite ?length_app, ?length_drop; lia.
Qed.

(** [copy] and [hasWritten], where there is room. *)
Lemma written_ok s b :
  inv b → (slen s ≤ writableBytes b)%Z →
  ∃ b', (let* buf := copy_to (beginWrite b) s (buffer_ b) in
         hasWritten (slen s) (MkBuffer buf (readerIndex_ b) (writerIndex_ b))) = Ok b' ∧
    inv b' ∧ content b' = content b ++ s ∧ length (buffer_ b') = length (buffer_ b).
Proof.
  intros Hb Hw. destruct (write_behind s b Hb Hw) as (buf & E & Hl & Hi & Hcn). unfold beginWrite.
  rewrite E. cbn [rbind]. unfold hasWritten, assert.
  assert (writableBytes (MkBuffer buf (readerIndex_ b) (writerIndex_ b)) = writableBytes b) as Ew.
  { unfold writableBytes, slen. cbn [buffer_ writerIndex_]. by rewrite Hl. }
  rewrite Ew, (proj2 (Z.leb_le _ _)) by done. cbn [buffer_ readerIndex_ writerIndex_].
  replace (Z.to_nat _) with (writerIndex_ b + length s)%nat; [by eexists|].
  pose proof (inv_writer _ Hi) as H1. pose proof (inv_max _ Hi) as H2. unfold slen in *. cbn in H1, H2.
  rewrite u64_small by lia. lia.
Qed.

(** [append] of any string: it is refused only when the array would be too long. *)
Definition appended (s : str) (b : Buffer) (r : result Buffer) : Prop :=
  match r with
  | Ok b' => inv b' ∧ content b' = content b ++ s ∧ (slen (buffer_ b') ≤ slen (buffer_ b) + slen s)%Z
  | _ => (max_size < slen (buffer_ b) + slen s)%Z
  end.

Lemma append_outcome s b : inv b → appended s b (append s b).
Proof.
  intros Hb. unfold append. pose proof (inv_max b Hb) as Hm.
  destruct (decide (slen s ≤ max_size)%Z) as [Hs|Hs].
  - destruct (ensureWritableBytes_outcome (slen s) b Hb) as [[-> ?]|(b1 & -> & Hb1 & Hc & Hw & Hl)];
      [unfold slen in *; lia|done|].
    cbn [rbind]. destruct (written_ok s b1 Hb1 Hw) as (b2 & -> & Hb2 & Hc2 & Hl2).
    split_and!; [done|by rewrite Hc2, Hc|]. unfold slen in *. by rewrite Hl2.
  - assert (max_size < slen (buffer_ b) + slen s)%Z as Hbig by (unfold slen in *; lia).
    destruct (ensureWritableBytes (slen s) b) as [b1| |] eqn:E; [|done..]. cbn [rbind].
    pose proof (ensureWritableBytes_max _ _ _ Hm E) as Hm1. unfold copy_to.
    rewrite bool_decide_eq_false_2; [done|]. unfold slen in *. lia.
Qed.

Lemma append_ok s b :
  inv b → (slen (buffer_ b) + slen s ≤ max_size)%Z →
  ∃ b', append s b = Ok b' ∧ inv b' ∧ content b' = content b ++ s ∧
    (slen (buffer_ b') ≤ slen (buffer_ b) + slen s)%Z.
Proof.
  intros Hb Hroom. pose proof (append_outcome s b Hb) as H. unfold appended in H.
  destruct (append s b) as [b'| |]; [by exists b'|lia..].
Qed.

Lemma readFd_outcome got b :
  inv b → (slen got ≤ readFd_limit b)%Z → appended got b (readFd got b).
Proof.
  intros Hb Hg. unfold readFd. pose proof (writable_inv b Hb) as Ew.
  destruct (Z.leb_spec (slen got) (writableBytes b)) as [Hc|Hc].
  - destruct (write_behind got b Hb Hc) as (buf & -> & Hl & Hi & Hcn). cbn [rbind].
    split_and!; [done|done|]. unfold slen. cbn [buffer_]. lia.
  - set (n := Z.to_nat (writableBytes b)).
    assert (length (take n got) = n) as Ht by (rewrite length_take; unfold slen in Hc; lia).
    destruct (write_behind (take n got) b Hb) as (buf & -> & Hl & Hi & Hcn); [unfold slen; lia|].
    cbn [rbind]. pose proof (inv_writer b Hb). rewrite Ht in Hi, Hcn.
    replace (writerIndex_ b + n)%nat with (length (buffer_ b)) in Hi, Hcn by lia.
    pose proof (append_outcome (drop n got) _ Hi) as H1. unfold appended in *.
    revert H1. unfold slen. cbn [buffer_]. rewrite length_drop, Hl.
    destruct (append _ _) as [b'| |]; [|lia..].
    intros (Hi' & Hcn' & Hs'). split_and!; [done|by rewrite Hcn', Hcn, <- app_assoc, take_drop|lia].
Qed.

Lemma readFd_ok got b :
  inv b → (slen got ≤ readFd_limit b)%Z → (slen (buffer_ b) + slen got ≤ max_size)%Z →
  ∃ b', readFd got b = Ok b' ∧ inv b' ∧ content b' = content b ++ got ∧
    (slen (buffer_ b') ≤ slen (buffer_ b) + slen got)%Z.
Proof.
  intros Hb Hg Hroom. pose proof (readFd_outcome got b Hb Hg) as H. unfold appended in H.
  destruct (readFd got b) as [b'| |]; [by exists b'|lia..].
Qed.

Lemma retrieveAsString_ok len b :
  inv b → (len ≤ length (content b))%nat →
  ∃ b', retrieveAsString len b = Ok (b', take len (content b)) ∧ inv b' ∧
    content b' = drop len (content b) ∧ buffer_ b' = buffer_ b.
Proof.
  intros Hb Hlen. unfold retrieveAsString, assert. pose proof (readable_content b Hb) as Hl.
  rewrite Hl, (proj2 (Z.leb_le _ _)) by (unfold slen; lia).
  destruct (retrieve_ok len b Hb Hlen) as (b' & -> & Hi & Hc & Hbuf).
  exists b'. split_and!; [|done..]. cbn [rbind]. do 2 f_equal. unfold content, range, peek, beginWrite.
  rewrite take_take. f_equal. rewrite content_length in Hlen by done. lia.
Qed.

Lemma unwrite_ok len b :
  inv b → (len ≤ length (content b))%nat →
  ∃ b', unwrite len b = Ok b' ∧ inv b' ∧
    content b' = take (length (content b) - len) (content b) ∧ buffer_ b' = buffer_ b.
Proof.
  intros Hb Hlen. pose proof (readable_content b Hb) as Hl. unfold unwrite, assert.
  rewrite Hl, (proj2 (Z.leb_le _ _)) by (unfold slen; lia). eexists. split; [reflexivity|].
  apply and_assoc. split; [|done].
  apply inv_parts in Hb as (front & back & E & Hf & Hw & Hlen2 & Hs & Hm). unfold slen in Hm.
  set (n := (length (content b) - len)%nat).
  rewrite <- (take_drop n (content b)), <- app_assoc in E.
  rewrite E. apply make_buffer; rewrite ?length_app, ?length_take, ?length_drop; lia.
Qed.

Lemma prepend_ok s b :
  inv b → (slen s ≤ prependableBytes b)%Z →
  ∃ b', prepend s b = Ok b' ∧ inv b' ∧ content b' = s ++ content b.
Proof.
  intros Hb Hs. unfold prepend, assert, prependableBytes, slen in *. rewrite (proj2 (Z.leb_le _ _)) by lia.
  apply inv_parts in Hb as (front & back & E & Hf & Hw & Hlen2 & Hsz & Hm). unfold slen in Hm.
  set (n := (readerIndex_ b - length s)%nat).
  assert (copy_to n s (buffer_ b) = Ok (take n front ++ s ++ content b ++ back)) as ->.
  { rewrite E, <- (take_drop n front) at 1. rewrite <- app_assoc.
    replace n with (length (take n front)) at 1 by (rewrite length_take; lia).
    apply copy_to_ok. rewrite length_drop. lia. }
  cbn [rbind]. eexists. split; [reflexivity|]. rewrite (app_assoc s).
  apply make_buffer; rewrite ?length_app, ?length_take; lia.
Qed.

(** ** Integers *)

Lemma be_value_from a s : be_value (a ++ s) = (be_value a * 256 ^ Z.of_nat (length s) + be_value s)%Z.
Proof.
  assert (H : ∀ x, foldl (λ a c, a * 256 + u8 c)%Z x s = (x * 256 ^ Z.of_nat (length s) + be_value s)%Z).
  { unfold be_value. induction s as [|c s IH]; intros x; cbn [foldl length]; [lia|].
    rewrite IH, (IH (0 * 256 + u8 c)%Z), Nat2Z.inj_succ, Z.pow_succ_r by lia. lia. }
  unfold be_value at 1. rewrite foldl_app. apply H.
Qed.

Lemma be_bytes_length n x : length (be_bytes n x) = n.
Proof. induction n; cbn; auto. Qed.

Lemma be_value_bytes n x : be_value (be_bytes n x) = wrap (8 * Z.of_nat n) x.
Proof.
  induction n as [|n IH]; [unfold wrap; cbn -[Z.modulo]; by rewrite Z.mod_1_r|]. cbn [be_bytes].
  change (?c :: ?s) with ([c] ++ s). rewrite be_value_from, IH, be_bytes_length.
  change (be_value [?c]) with (u8 c). rewrite u8_chr, Z.shiftr_div_pow2 by lia. unfold wrap.
  replace (8 * Z.of_nat (S n))%Z with (8 + 8 * Z.of_nat n)%Z by lia.
  rewrite (Z.pow_add_r 2 8) by lia. change (2 ^ 8)%Z with 256%Z.
  replace (256 ^ Z.of_nat n)%Z with (2 ^ (8 * Z.of_nat n))%Z by (rewrite Z.pow_mul_r by lia; done).
  pose proof (Z.pow_pos_nonneg 2 (8 * Z.of_nat n) ltac:(lia) ltac:(lia)).
  rewrite (Z.mul_comm 256), Z.rem_mul_r by lia. lia.
Qed.

(** An integer of [n] bytes comes back from the network order as it went. *)
Lemma be_roundtrip n x : swrap (8 * Z.of_nat n) (be_value (be_bytes n x)) = swrap (8 * Z.of_nat n) x.
Proof.
  rewrite be_value_bytes. unfold swrap, wrap. by rewrite Zplus_mod_idemp_l.
Qed.

(** ** The class is a queue *)

Inductive op : Type :=
  | OAppend (s : str)
  | OReadFd (got : str)
  | OEnsure (n : Z)
  | ORetrieve (n : nat)
  | ORetrieveAll
  | OAsString (n : nat)
  | OAllAsString
  | OUnwrite (n : nat)
  | OAppendInt (n : nat) (x : Z)
  | OReadInt (n : nat)
  | OFindCRLF
  | OFindEOL
  | OShrink (reserve : Z).

Inductive out : Type :=
  | Nothing
  | Bytes (s : str)
  | Int (x : Z)
  | Found (i : option nat).

(** An operation on the buffer; positions are given from the start of the content. *)
Definition run_op (o : op) (b : Buffer) : result (Buffer * out) :=
  match o with
  | OAppend s => let* b := append s b in Ok (b, Nothing)
  | OReadFd got => let* b := readFd got b in Ok (b, Nothing)
  | OEnsure n => let* b := ensureWritableBytes n b in Ok (b, Nothing)
  | ORetrieve n => let* b := retrieve n b in Ok (b, Nothing)
  | ORetrieveAll => Ok (retrieveAll b, Nothing)
  | OAsString n => let* r := retrieveAsString n b in Ok (r.1, Bytes r.2)
  | OAllAsString => let* r := retrieveAllAsString b in Ok (r.1, Bytes r.2)
  | OUnwrite n => let* b := unwrite n b in Ok (b, Nothing)
  | OAppendInt n x => let* b := append (be_bytes n x) b in Ok (b, Nothing)
  | OReadInt n => let* x := peekInt n b in let* b := retrieve n b in Ok (b, Int x)
  | OFindCRLF => Ok (b, Found ((λ i, i - peek b)%nat <$> findCRLF b))
  | OFindEOL => Ok (b, Found ((λ i, i - peek b)%nat <$> findEOL b))
  | OShrink reserve => let* b := shrink reserve b in Ok (b, Nothing)
  end.

(** The same on a queue of bytes. *)
Definition queue_op (o : op) (q : str) : result (str * out) :=
  let taking n k : result (str * out) := assert (bool_decide (n ≤ length q)%nat) (Ok k) in
  match o with
  | OAppend s | OReadFd s => Ok (q ++ s, Nothing)
  | OEnsure _ => Ok (q, Nothing)
  | ORetrieve n => taking n (drop n q, Nothing)
  | ORetrieveAll => Ok ([], Nothing)
  | OAsString n => taking n (drop n q, Bytes (take n q))
  | OAllAsString => Ok ([], Bytes q)
  | OUnwrite n => taking n (take (length q - n) q, Nothing)
  | OAppendInt n x => Ok (q ++ be_bytes n x, Nothing)
  | OReadInt n => taking n (drop n q, Int (swrap (8 * Z.of_nat n) (be_value (take n q))))
  | OFindCRLF => Ok (q, Found (search_crlf q))
  | OFindEOL => Ok (q, Found (search_lf q))
  | OShrink _ =>
      let n := i32 (slen q) in
      if (n <? -8)%Z then Throw LogicErr
      else assert (0 <=? n)%Z (Ok (take (Z.to_nat n) q, Nothing))
  end.

(** What [readv] gives at most into a buffer in any state; sizes are not negative. *)
Definition op_ok (o : op) : Prop :=
  match o with
  | OReadFd got => (slen got ≤ extrabuf_size)%Z
  | OEnsure n | OShrink n => (0 ≤ n)%Z
  | _ => True
  end.

(** What an operation may add to the size of the array. *)
Definition demand (o : op) : Z :=
  match o with
  | OAppend s | OReadFd s => slen s
  | OEnsure n => n
  | OAppendInt n _ => Z.of_nat n
  | OShrink reserve => 1032 + reserve
  | _ => 0
  end.
Definition demands (os : list op) : Z := foldr (λ o n, demand o + n)%Z 0%Z os.

(** Two outcomes that agree: the results are the same and the buffer holds the queue. *)
Definition agrees (x : result (Buffer * out)) (y : result (str * out)) : Prop :=
  match x, y with
  | Ok (b, r), Ok (q, r') => inv b ∧ content b = q ∧ r = r'
  | Throw e, Throw e' => e = e'
  | Undef u, Undef u' => u = u'
  | _, _ => False
  end.

Lemma found_from (b : Buffer) (x : option nat) :
  ((λ i, i - peek b)%nat <$> ((λ i, peek b + i)%nat <$> x)) = x.
Proof. destruct x; cbn; [f_equal; lia|done]. Qed.

(** The array of an outcome is not larger than [n]. *)
Definition array_le (n : Z) (x : result (Buffer * out)) : Prop :=
  match x with Ok (b, _) => (slen (buffer_ b) ≤ n)%Z | _ => True end.

Lemma i32_le z : (0 ≤ z)%Z → (- 2 ^ 31 ≤ i32 z ≤ z)%Z.
Proof.
  intros Hz. unfold swrap. change (2 ^ (32 - 1))%Z with 2147483648%Z.
  change (2 ^ 32)%Z with 4294967296%Z. Z.to_euclidean_division_equations. lia.
Qed.

(** A fresh buffer that was given room in which nothing was written yet. *)
Lemma ensure_fresh len b :
  ensureWritableBytes len Buffer_default = Ok b →
  readerIndex_ b = kCheapPrepend ∧ writerIndex_ b = kCheapPrepend.
Proof.
  destruct Buffer_default_ok as (_ & _ & _ & _ & Hr & Hw). unfold ensureWritableBytes, makeSpace, resize.
  unfold assert at 2. rewrite Hr, (bool_decide_eq_false_2 (kCheapPrepend < kCheapPrepend)%nat) by lia.
  repeat (case_match; cbn [rbind]); try done; unfold assert; case_match; try done;
    intros [= <-]; cbn; by rewrite ?Hr, ?Hw.
Qed.

(** The copy of [shrink]: a length beyond the range of [int] becomes a huge [size_t]. *)
Lemma append_piece_agrees b b1 :
  inv b → inv b1 → readerIndex_ b1 = kCheapPrepend → writerIndex_ b1 = kCheapPrepend →
  (slen (content b) ≤ writableBytes b1)%Z →
  let x := let* b2 := append_piece b (toStringPiece b) b1 in Ok (b2, Nothing) in
  agrees x (queue_op (OShrink 0) (content b)) ∧ array_le (slen (buffer_ b1)) x.
Proof.
  intros Hb H1 Hr Hw Hroom. pose proof (content_length b Hb) as Hl.
  pose proof (inv_writer b Hb) as I2. pose proof (inv_reader b Hb) as I1.
  pose proof (inv_max b1 H1) as M1. pose proof (inv_writer b1 H1) as W1.
  assert (content b1 = []) as C1.
  { apply nil_length_inv. rewrite content_length, Hr, Hw by done. lia. }
  cbn [queue_op]. unfold append_piece, toStringPiece. cbn [fst snd]. rewrite readable_content by done.
  destruct (i32_le (slen (content b))) as [Hlo Hhi]; [unfold slen; lia|].
  pose proof (Zle_0_nat (length (content b))) as Hpos. fold (slen (content b)) in Hpos.
  set (n := i32 (slen (content b))) in *.
  destruct (Z.ltb_spec n 0) as [Hn|Hn].
  - assert (u64 n = 2 ^ 64 + n)%Z as Hu.
    { unfold wrap. rewrite <- (Z_mod_plus_full n 1 (2 ^ 64)), Z.mod_small by lia. lia. }
    enough (ensureWritableBytes (2 ^ 64 + n) b1 =
      if (n <? -8)%Z then Throw LogicErr else Undef AssertFailed) as E.
    { rewrite Hu, E. destruct (Z.ltb_spec n (-8)); [done|].
      cbn [rbind]. unfold assert. by rewrite (proj2 (Z.leb_gt 0 n)) by lia. }
    unfold ensureWritableBytes, makeSpace, prependableBytes, slen in *.
    rewrite (writable_inv b1 H1), Hr, Hw in *. unfold max_size in M1. unfold kCheapPrepend in *.
    change (Z.of_nat 8) with 8%Z. rewrite (proj2 (Z.ltb_lt _ _)) by lia.
    rewrite (u64_small (_ + 8)) by (unfold max_size; lia).
    destruct (Z.ltb_spec n (-8)) as [H8|H8].
    + rewrite !wrap_small by lia. rewrite (proj2 (Z.ltb_lt _ _)) by lia.
      unfold resize. by rewrite (proj2 (Z.ltb_lt _ _)) by (unfold max_size; lia).
    + replace (u64 (2 ^ 64 + n + 8)) with (n + 8)%Z.
      2: { unfold wrap. replace (2 ^ 64 + n + 8)%Z with (n + 8 + 1 * 2 ^ 64)%Z by lia.
           rewrite Z_mod_plus_full, Z.mod_small; lia. }
      rewrite (proj2 (Z.ltb_ge _ _)) by lia.
      unfold assert. by rewrite bool_decide_eq_false_2 by lia.
  - pose proof (inv_max b Hb) as Mb. unfold slen in *.
    rewrite (u64_small n) by lia. rewrite (proj2 (Z.ltb_ge _ _)) by lia.
    assert (ensureWritableBytes n b1 = Ok b1) as ->.
    { unfold ensureWritableBytes, assert. rewrite (proj2 (Z.ltb_ge _ _)) by lia. cbn [rbind].
      by rewrite (proj2 (Z.leb_le _ _)) by lia. }
    unfold assert at 1. rewrite (proj2 (Z.leb_le _ n)) by lia. cbn [rbind].
    unfold peek. rewrite (proj2 (Z.leb_le _ _)) by lia.
    set (s := range b (readerIndex_ b) (readerIndex_ b + Z.to_nat n)).
    assert (slen s = n) as Hs by (unfold slen, s; rewrite range_length by lia; lia).
    destruct (written_ok s b1 H1) as (b2 & E & H2 & C2 & L2); [rewrite Hs; lia|].
    rewrite Hs in E. rewrite E. cbn. unfold slen. rewrite L2. split_and!; [done| |done|lia].
    rewrite C2, C1. cbn [app]. unfold s, content, range, beginWrite, peek. rewrite take_take. f_equal. lia.
Qed.

Lemma shrink_agrees reserve b :
  inv b → op_ok (OShrink reserve) → (slen (buffer_ b) + demand (OShrink reserve) ≤ max_size)%Z →
  agrees (run_op (OShrink reserve) b) (queue_op (OShrink reserve) (content b)) ∧
  array_le (slen (buffer_ b) + demand (OShrink reserve)) (run_op (OShrink reserve) b).
Proof.
  cbn [op_ok demand run_op]. intros Hb Hres Hroom. unfold shrink. pose proof (content_length b Hb) as Hl.
  pose proof (inv_writer b Hb) as I2.
  destruct Buffer_default_ok as (E & H0 & _ & L0 & _). rewrite E. cbn [rbind].
  rewrite readable_content by done. unfold slen in *.
  rewrite u64_small by lia.
  destruct (ensureWritableBytes_ok (Z.of_nat (length (content b)) + reserve) _ H0) as (b1 & E1 & H1 & _ & W1 & S1);
    [lia|unfold slen; lia|].
  destruct (ensure_fresh _ _ E1) as [Hr Hw]. rewrite E1. cbn [rbind].
  destruct (append_piece_agrees b b1 Hb H1 Hr Hw) as [Ha Hle]; [unfold slen; lia|].
  split; [exact Ha|]. revert Hle. unfold array_le, slen in *. case_match; [|done..]. case_match. lia.
Qed.

Lemma op_agrees o b :
  inv b → op_ok o → (slen (buffer_ b) + demand o ≤ max_size)%Z →
  agrees (run_op o b) (queue_op o (content b)) ∧ array_le (slen (buffer_ b) + demand o) (run_op o b).
Proof.
  intros Hb Ho Hroom. pose proof (content_length b Hb) as Hl.
  pose proof (readable_content b Hb) as Hr.
  assert (∀ n, (Z.of_nat n <=? readableBytes b)%Z = bool_decide (n ≤ length (content b))%nat) as Hle.
  { intros n. rewrite Hr. unfold slen. case_bool_decide; [apply Z.leb_le|apply Z.leb_gt]; lia. }
  destruct o as [s|got|n|n| |n| |n|n x|n| | |reserve]; [..|by apply shrink_agrees];
    cbn [run_op queue_op demand op_ok] in *.
  - destruct (append_ok s b Hb Hroom) as (b' & -> & ? & ? & ?). done.
  - assert (slen got ≤ readFd_limit b)%Z as Hg.
    { unfold readFd_limit. rewrite (writable_inv b Hb).
      destruct (Z.ltb_spec (Z.of_nat (length (buffer_ b) - writerIndex_ b)) extrabuf_size); lia. }
    destruct (readFd_ok got b Hb Hg Hroom) as (b' & -> & ? & ? & ?). done.
  - destruct (ensureWritableBytes_ok n b Hb Ho Hroom) as (b' & -> & ? & ? & _ & ?). done.
  - unfold assert at 1. case_bool_decide as Hn.
    + destruct (retrieve_ok n b Hb Hn) as (b' & -> & ? & ? & E). cbn. rewrite E. split; [done|lia].
    + unfold retrieve, assert. rewrite Hle, bool_decide_eq_false_2 by lia. done.
  - destruct (retrieveAll_ok b Hb). cbn. split; [done|lia].
  - unfold assert at 1. case_bool_decide as Hn.
    + destruct (retrieveAsString_ok n b Hb Hn) as (b' & -> & ? & ? & E). cbn. rewrite E. split; [done|lia].
    + unfold retrieveAsString, assert. rewrite Hle, bool_decide_eq_false_2 by lia. done.
  - unfold retrieveAllAsString. rewrite Hr. replace (Z.to_nat (slen (content b))) with
      (length (content b)) by (unfold slen; lia).
    destruct (retrieveAsString_ok (length (content b)) b Hb) as (b' & -> & ? & E & Eb); [done|].
    rewrite drop_all in E. cbn. rewrite firstn_all, Eb. split; [done|lia].
  - unfold assert at 1. case_bool_decide as Hn.
    + destruct (unwrite_ok n b Hb Hn) as (b' & -> & ? & ? & E). cbn. rewrite E. split; [done|lia].
    + unfold unwrite, assert. rewrite Hle, bool_decide_eq_false_2 by lia. done.
  - assert (slen (be_bytes n x) = Z.of_nat n) as Hn by (unfold slen; by rewrite be_bytes_length).
    destruct (append_ok (be_bytes n x) b Hb) as (b' & -> & ? & ? & ?); rewrite Hn in *; done.
  - unfold peekInt, assert. rewrite Hle. case_bool_decide as Hn; [|done]. cbn [rbind].
    destruct (retrieve_ok n b Hb) as (b' & -> & ? & ? & E); [lia|]. cbn. rewrite E.
    split_and!; [done|done| |lia].
    do 3 f_equal. unfold content, range, peek, beginWrite. rewrite take_take. f_equal. lia.
  - unfold findCRLF. rewrite found_from. cbn. split; [done|lia].
  - unfold findEOL. rewrite found_from. cbn. split; [done|lia].
Qed.

Fixpoint run_ops (os : list op) (b : Buffer) : result (Buffer * list out) :=
  match os with
  | [] => Ok (b, [])
  | o :: os => let* x := run_op o b in let* y := run_ops os x.1 in Ok (y.1, x.2 :: y.2)
  end.
Fixpoint queue_ops (os : list op) (q : str) : result (str * list out) :=
  match os with
  | [] => Ok (q, [])
  | o :: os => let* x := queue_op o q in let* y := queue_ops os x.1 in Ok (y.1, x.2 :: y.2)
  end.

Lemma demands_nonneg os : Forall op_ok os → (0 ≤ demands os)%Z.
Proof.
  induction 1 as [|o os Ho _ IH]; [done|]. change (0 ≤ demand o + demands os)%Z.
  enough (0 ≤ demand o)%Z by lia. destruct o; cbn in *; unfold slen; lia.
Qed.

(** C21: A buffer is a queue of bytes: whichever of its operations ([op]) are called in whatever
    order, from a buffer of any initial size, their results are those of the same operations
    on a list, a failed assertion included, and its array and indices stay consistent, as
    long as the sizes asked for in all do not exceed the largest size of a vector (beyond
    which the sums of [makeSpace] wrap: [ensure_all], [ensure_half], [ensure_corrupts]).  The
    list of [OShrink] shows what its [int] makes of 2 GiB and more. *)
Theorem buffer_refines_queue initialSize os :
  (0 ≤ initialSize)%Z → Forall op_ok os → (8 + initialSize + demands os ≤ max_size)%Z →
  ∃ b0, Buffer_new initialSize = Ok b0 ∧
  match queue_ops os [] with
  | Ok (q, outs) => ∃ b, run_ops os b0 = Ok (b, outs) ∧ inv b ∧ content b = q
  | Throw e => run_ops os b0 = Throw e
  | Undef u => run_ops os b0 = Undef u
  end.
Proof.
  intros Hi Hos Hroom.
  pose proof demands_nonneg as Hpos.
  destruct (Buffer_new_ok initialSize) as (b0 & E0 & Hb & Hc & Hs & _); [done|specialize (Hpos os Hos); lia|].
  exists b0. split; [done|]. rewrite <- Hc. rewrite <- Hs in Hroom. revert Hb Hroom. clear - Hpos Hos.
  revert b0. induction Hos as [|o os Ho Hos IH]; intros b Hb Hroom; cbn; [by exists b|].
  change (demands (o :: os)) with (demand o + demands os)%Z in Hroom. pose proof (Hpos os Hos) as Hp.
  destruct (op_agrees o b Hb Ho) as [Ha Hle]; [lia|].
  destruct (run_op o b) as [[b1 r1]|e1|u1], (queue_op o (content b)) as [[q2 r2]|e2|u2];
    cbn in *; try done; [|by subst..].
  destruct Ha as (H1 & <- & <-). specialize (IH b1 H1 ltac:(lia)).
  destruct (queue_ops os (content b1)) as [[q outs]|e|u]; cbn; [|by rewrite IH..].
  destruct IH as (b' & -> & ? & ?). by exists b'.
Qed.

Lemma buffer_refines_queue_witness :
  let os := [OAppend "GET / HTTP"; OAsString 4; OAppendInt 4 (-2); OFindCRLF; OUnwrite 4; OShrink 5;
             OAllAsString] in
  ∃ b0, Buffer_new 2 = Ok b0 ∧
  match queue_ops os [] with
  | Ok (q, outs) => ∃ b, run_ops os b0 = Ok (b, outs) ∧ inv b ∧ content b = q
  | Throw e => run_ops os b0 = Throw e
  | Undef u => run_ops os b0 = Undef u
  end.
Proof. apply buffer_refines_queue; [done|repeat constructor; done|done]. Defined.

(** Beyond the bound: room for [SIZE_MAX] bytes, whose sum with [kCheapPrepend] is 7; room that
    the vector refuses; and room whose sum with the writer's index wraps, after which the array
    ends before that index. *)
Example ensure_all : ensureWritableBytes (2 ^ 64 - 1) Buffer_default = Undef AssertFailed.
Proof. vm_compute. reflexivity. Qed.
Example ensure_half : ensureWritableBytes (2 ^ 63) Buffer_default = Throw LogicErr.
Proof. vm_compute. reflexivity. Qed.
Example ensure_corrupts :
  match run_ops [OAppend "GET / HTTP"; OEnsure (2 ^ 64 - 9)] Buffer_default with
  | Ok (b, _) => writerIndex_ b = 18%nat ∧ length (buffer_ b) = 9%nat
  | _ => False
  end.
Proof. vm_compute. split; reflexivity. Qed.

End Buf.
