(* ===== verification/TcpConnection.v ===== *)
(** [muduo/net/TcpConnection.{h,cc}] with its [Channel] ([Channel.{h,cc}]), and what
    [EventLoop] and [TcpServer] do with a connection (the files are the same in the three
    services).

    One connection, the functors that wait in its loop and in the server's loop, the calls
    of other threads that are under way, and its socket.  The outcomes of [read] and
    [write] are arguments; so is what the user's callbacks do, a list of calls ([action]) in
    the loop's thread, between which other threads go on ([other]).

    [send], [shutdown] and [forceClose] by another thread are not atomic in the source
    ("FIXME: use compare and swap"): they test [state_], then store the new state, then queue
    a functor.  Those are three steps here ([begin_call], and twice [resume_call]); reads and
    writes of [state_] are taken to be sequentially consistent.  A handler reads [state_]
    once between two callbacks, so that what other threads do meanwhile is what they do
    before or after it, or inside the list of a callback; [connectDestroyed], which tests and
    then stores, takes what they do in between as an argument.

    [late] notes that the race was lost: that another thread stored [kDisconnecting] into a
    connection that had gone down since its test, or that reading was switched on or off
    on one that was down.  The life of the objects, which the shared pointers keep (not all
    functors hold one), is left out, but for the server: a call into a destroyed server is
    undefined. *)

From S2P Require Import Prelude MuduoBuffer.
Import Buf.

Module Conn.

(** ** [class Channel] *)

Definition POLLIN : Z := 1.
Definition POLLPRI : Z := 2.
Definition POLLOUT : Z := 4.
Definition POLLERR : Z := 8.
Definition POLLHUP : Z := 16.
Definition POLLNVAL : Z := 32.
Definition POLLRDHUP : Z := 0x2000.

Definition kNoneEvent : Z := 0.
Definition kReadEvent : Z := Z.lor POLLIN POLLPRI.
Definition kWriteEvent : Z := POLLOUT.

Record Channel : Type := MkChannel {
  events_ : Z;
  tied_ : bool;
  addedToLoop_ : bool
}.

Definition Channel_new : Channel := MkChannel 0 false false.

(** [update] tells the poller and notes that it knows the channel. *)
Definition update (events : Z) (c : Channel) : Channel := MkChannel events (tied_ c) true.

Definition has_bits (x mask : Z) : bool := negb (Z.land x mask =? 0)%Z.

Definition isNoneEvent (c : Channel) : bool := (events_ c =? kNoneEvent)%Z.
Definition isWriting (c : Channel) : bool := has_bits (events_ c) kWriteEvent.
Definition isReading (c : Channel) : bool := has_bits (events_ c) kReadEvent.
Definition enableReading (c : Channel) : Channel := update (Z.lor (events_ c) kReadEvent) c.
Definition disableReading (c : Channel) : Channel := update (Z.ldiff (events_ c) kReadEvent) c.
Definition enableWriting (c : Channel) : Channel := update (Z.lor (events_ c) kWriteEvent) c.
Definition disableWriting (c : Channel) : Channel := update (Z.ldiff (events_ c) kWriteEvent) c.
Definition disableAll (c : Channel) : Channel := update kNoneEvent c.
Definition tie (c : Channel) : Channel := MkChannel (events_ c) true (addedToLoop_ c).

(** [remove] *)
Definition remove (c : Channel) : result Channel :=
  assert (isNoneEvent c) (Ok (MkChannel (events_ c) (tied_ c) false)).

(** ** The connection and what is around it *)

Inductive StateE : Type := kDisconnected | kConnecting | kConnected | kDisconnecting.
#[export] Instance StateE_eq_dec : EqDecision StateE.
Proof. solve_decision. Defined.

Definition stateToString (s : StateE) : str :=
  match s with
  | kDisconnected => "kDisconnected"
  | kConnecting => "kConnecting"
  | kConnected => "kConnected"
  | kDisconnecting => "kDisconnecting"
  end.

Record TcpConnection : Type := MkConn {
  state_ : StateE;
  reading_ : bool;
  channel_ : Channel;
  inputBuffer_ : Buffer;
  outputBuffer_ : Buffer;
  writeCompleteCallback_ : bool;        (* whether it is set *)
  highWaterMarkCallback_ : bool;
  highWaterMark_ : Z
}.

(** What [queueInLoop] and [runInLoop] put in the queue of the connection's loop. *)
Inductive functor : Type :=
  | FconnectEstablished
  | FconnectDestroyed
  | FsendInLoop (message : str)
  | FshutdownInLoop
  | FforceCloseInLoop
  | FstartReadInLoop
  | FstopReadInLoop
  | FwriteComplete
  | FhighWaterMark (size : Z).

(** The callbacks that the user gets. *)
Inductive event : Type :=
  | EvUp                      (* connectionCallback_, connected *)
  | EvMessage                 (* messageCallback_ *)
  | EvDown                    (* connectionCallback_, not connected *)
  | EvWriteComplete
  | EvHighWaterMark (size : Z).

(** The calls of other threads, from their test of [state_] to the functor they queue; a
    [send(Buffer* )] of a buffer of theirs is that of its content. *)
Inductive call : Type :=
  | CallSend (message : str)
  | CallShutdown
  | CallForceClose.

Record world : Type := MkWorld {
  conn : TcpConnection;
  pendingFunctors_ : list functor;      (* of the connection's loop *)
  asked : Z;                            (* the events of the last poll, until they are handled *)
  calls : list (call * bool);           (* under way; whether the state is stored *)
  removals : nat;                       (* [removeConnectionInLoop] in the server's loop *)
  connections_ : bool;                  (* whether the server's map has the connection *)
  server_ : bool;                       (* whether the server is alive *)
  sent : str;                           (* what [write] has taken *)
  shut : bool;                          (* whether [shutdownWrite] was called *)
  events : list event;
  accepted : str;                       (* the messages given to the socket or the buffer *)
  late : bool
}.

Definition set_conn (c : TcpConnection) (w : world) : world :=
  MkWorld c (pendingFunctors_ w) (asked w) (calls w) (removals w) (connections_ w) (server_ w)
    (sent w) (shut w) (events w) (accepted w) (late w).
Definition set_state (s : StateE) (w : world) : world :=
  let c := conn w in
  set_conn (MkConn s (reading_ c) (channel_ c) (inputBuffer_ c) (outputBuffer_ c)
    (writeCompleteCallback_ c) (highWaterMarkCallback_ c) (highWaterMark_ c)) w.
Definition set_channel (f : Channel → Channel) (w : world) : world :=
  let c := conn w in
  set_conn (MkConn (state_ c) (reading_ c) (f (channel_ c)) (inputBuffer_ c) (outputBuffer_ c)
    (writeCompleteCallback_ c) (highWaterMarkCallback_ c) (highWaterMark_ c)) w.
Definition set_reading (b : bool) (w : world) : world :=
  let c := conn w in
  set_conn (MkConn (state_ c) b (channel_ c) (inputBuffer_ c) (outputBuffer_ c)
    (writeCompleteCallback_ c) (highWaterMarkCallback_ c) (highWaterMark_ c)) w.
Definition set_input (b : Buffer) (w : world) : world :=
  let c := conn w in
  set_conn (MkConn (state_ c) (reading_ c) (channel_ c) b (outputBuffer_ c)
    (writeCompleteCallback_ c) (highWaterMarkCallback_ c) (highWaterMark_ c)) w.
Definition set_output (b : Buffer) (w : world) : world :=
  let c := conn w in
  set_conn (MkConn (state_ c) (reading_ c) (channel_ c) (inputBuffer_ c) b
    (writeCompleteCallback_ c) (highWaterMarkCallback_ c) (highWaterMark_ c)) w.

Definition set_pending (fs : list functor) (w : world) : world :=
  MkWorld (conn w) fs (asked w) (calls w) (removals w) (connections_ w) (server_ w)
    (sent w) (shut w) (events w) (accepted w) (late w).
Definition queueInLoop (f : functor) (w : world) : world := set_pending (pendingFunctors_ w ++ [f]) w.
Definition set_asked (n : Z) (w : world) : world :=
  MkWorld (conn w) (pendingFunctors_ w) n (calls w) (removals w) (connections_ w) (server_ w)
    (sent w) (shut w) (events w) (accepted w) (late w).
Definition set_calls (cs : list (call * bool)) (w : world) : world :=
  MkWorld (conn w) (pendingFunctors_ w) (asked w) cs (removals w) (connections_ w) (server_ w)
    (sent w) (shut w) (events w) (accepted w) (late w).
Definition set_server (n : nat) (map alive : bool) (w : world) : world :=
  MkWorld (conn w) (pendingFunctors_ w) (asked w) (calls w) n map alive
    (sent w) (shut w) (events w) (accepted w) (late w).
Definition wrote (s : str) (w : world) : world :=
  MkWorld (conn w) (pendingFunctors_ w) (asked w) (calls w) (removals w) (connections_ w) (server_ w)
    (sent w ++ s) (shut w) (events w) (accepted w) (late w).
(** [socket_->shutdownWrite()] *)
Definition shutdownWrite (w : world) : world :=
  MkWorld (conn w) (pendingFunctors_ w) (asked w) (calls w) (removals w) (connections_ w) (server_ w)
    (sent w) true (events w) (accepted w) (late w).
Definition called (e : event) (w : world) : world :=
  MkWorld (conn w) (pendingFunctors_ w) (asked w) (calls w) (removals w) (connections_ w) (server_ w)
    (sent w) (shut w) (events w ++ [e]) (accepted w) (late w).
Definition take_message (s : str) (w : world) : world :=
  MkWorld (conn w) (pendingFunctors_ w) (asked w) (calls w) (removals w) (connections_ w) (server_ w)
    (sent w) (shut w) (events w) (accepted w ++ s) (late w).

(** A store into [state_] or a change of the interest in reading: too late when the
    connection is down. *)
Definition note_late (w : world) : world :=
  MkWorld (conn w) (pendingFunctors_ w) (asked w) (calls w) (removals w) (connections_ w) (server_ w)
    (sent w) (shut w) (events w) (accepted w) (late w || bool_decide (state_ (conn w) = kDisconnected)).

(** The outcome of [write]: a number of bytes taken, or an [errno]. *)
Inductive errno : Type := EWOULDBLOCK | EPIPE | ECONNRESET | EOTHER.
Inductive write_result : Type := Wrote (n : nat) | WriteError (e : errno).
(** The outcome of [readv]: bytes (none at the end of the stream), or an error. *)
Inductive read_result : Type := Got (s : str) | ReadError.

(** What the kernel makes of an offer: [write] takes no more than it is given and fails with
    EPIPE once the writing side is shut, and [readv] gives no more than there is room for. *)
Definition sock_write (data : str) (o : write_result) (w : world) : write_result :=
  if shut w then WriteError EPIPE
  else match o with Wrote n => Wrote (n `min` length data)%nat | WriteError e => WriteError e end.
Definition sock_read (r : read_result) (b : Buffer) : read_result :=
  match r with Got s => Got (take (Z.to_nat (readFd_limit b)) s) | ReadError => ReadError end.

Section Server.
(** Whether the connection's loop is the server's own ([setThreadNum(0)]). *)
Variable same_loop : bool.

(** ** [class TcpConnection] *)

(** The constructor, and the callbacks that [TcpServer::newConnection] and
    [setHighWaterMarkCallback] set; without the latter [mark] is 64 MiB. *)
Definition TcpConnection_new (write_complete high_water : bool) (mark : Z) : TcpConnection :=
  MkConn kConnecting true Channel_new Buffer_default Buffer_default
    write_complete high_water mark.

(** The end of [sendInLoop]: the bytes of [data] that [write] did not take go to the output
    buffer. *)
Definition append_rest (data : str) (nwrote : nat) (w : world) : result world :=
  let remaining := (length data - nwrote)%nat in
  if bool_decide (0 < remaining)%nat then
    let oldLen := readableBytes (outputBuffer_ (conn w)) in
    let w :=
      if (highWaterMark_ (conn w) <=? oldLen + Z.of_nat remaining)%Z &&
         (oldLen <? highWaterMark_ (conn w))%Z && highWaterMarkCallback_ (conn w)
      then queueInLoop (FhighWaterMark (oldLen + Z.of_nat remaining)) w else w in
    let* out := append (drop nwrote data) (outputBuffer_ (conn w)) in
    let w := set_output out w in
    Ok (if isWriting (channel_ (conn w)) then w else set_channel enableWriting w)
  else Ok w.

(** [sendInLoop] *)
Definition sendInLoop (data : str) (o : write_result) (w : world) : result world :=
  if bool_decide (state_ (conn w) = kDisconnected) then Ok w
  else
    let direct := negb (isWriting (channel_ (conn w))) &&
      (readableBytes (outputBuffer_ (conn w)) =? 0)%Z in
    let* r :=
      (if direct then
         match sock_write data o w with
         | Wrote n =>
             let w := wrote (take n data) w in
             let w := if bool_decide (length data - n = 0)%nat && writeCompleteCallback_ (conn w)
                      then queueInLoop FwriteComplete w else w in
             assert (bool_decide (n ≤ length data)%nat) (Ok (n, false, w))
         | WriteError e => Ok (0%nat, match e with EPIPE | ECONNRESET => true | _ => false end, w)
         end
       else Ok (0%nat, false, w)) in
    let '(nwrote, faultError, w) := r in
    if faultError : bool then Ok w else append_rest data nwrote (take_message data w).

Definition shutdownInLoop (w : world) : world :=
  if isWriting (channel_ (conn w)) then w else shutdownWrite w.

(** [send], [send(Buffer* )], [shutdown], [forceClose], [startRead] and [stopRead] in the
    loop's thread, where [runInLoop] runs the functor at once. *)
Definition send (message : str) (o : write_result) (w : world) : result world :=
  if bool_decide (state_ (conn w) = kConnected) then sendInLoop message o w else Ok w.

Definition send_buffer (buf : Buffer) (o : write_result) (w : world) : result (Buffer * world) :=
  if bool_decide (state_ (conn w) = kConnected) then
    let* w := sendInLoop (content buf) o w in Ok (retrieveAll buf, w)
  else Ok (buf, w).

Definition shutdown (w : world) : world :=
  if bool_decide (state_ (conn w) = kConnected) then shutdownInLoop (set_state kDisconnecting w)
  else w.

Definition open_state (s : StateE) : bool :=
  match s with kConnected | kDisconnecting => true | _ => false end.

Definition forceClose (w : world) : world :=
  if open_state (state_ (conn w)) then queueInLoop FforceCloseInLoop (set_state kDisconnecting w)
  else w.

Definition startReadInLoop (w : world) : world :=
  if negb (reading_ (conn w)) || negb (isReading (channel_ (conn w)))
  then set_reading true (set_channel enableReading (note_late w)) else w.
Definition stopReadInLoop (w : world) : world :=
  if reading_ (conn w) || isReading (channel_ (conn w))
  then set_reading false (set_channel disableReading (note_late w)) else w.

(** The same in another thread: the test of [state_] ... *)
Definition begin_call (c : call) (w : world) : world :=
  let passes := match c with
                | CallSend _ | CallShutdown => bool_decide (state_ (conn w) = kConnected)
                | CallForceClose => open_state (state_ (conn w))
                end in
  if passes then set_calls (calls w ++ [(c, false)]) w else w.

(** ... and the next statement of the call at the place [i]: the store, then the functor. *)
Definition resume_call (i : nat) (w : world) : world :=
  match calls w !! i with
  | Some (CallSend message, _) => queueInLoop (FsendInLoop message) (set_calls (delete i (calls w)) w)
  | Some (c, false) => set_calls (<[i := (c, true)]> (calls w)) (set_state kDisconnecting (note_late w))
  | Some (CallShutdown, true) => queueInLoop FshutdownInLoop (set_calls (delete i (calls w)) w)
  | Some (CallForceClose, true) => queueInLoop FforceCloseInLoop (set_calls (delete i (calls w)) w)
  | None => w
  end.

(** A step of another thread. *)
Inductive other : Type :=
  | Obegin (c : call)
  | Oresume (i : nat)
  | OstartRead
  | OstopRead.

Definition other_step (o : other) (w : world) : world :=
  match o with
  | Obegin c => begin_call c w
  | Oresume i => resume_call i w
  | OstartRead => queueInLoop FstartReadInLoop w
  | OstopRead => queueInLoop FstopReadInLoop w
  end.
Definition others (os : list other) (w : world) : world := foldl (λ w o, other_step o w) w os.

(** What a callback of the user may call in the loop's thread, or what another thread does
    while it runs. *)
Inductive action : Type :=
  | Asend (message : str) (o : write_result)
  | AsendInput (o : write_result)                (* [send(Buffer* )] of the input buffer *)
  | Ashutdown
  | AforceClose
  | AstartRead
  | AstopRead
  | Aretrieve (n : nat)                          (* of what there is to read *)
  | AretrieveAll
  | Aother (o : other).

Definition act (a : action) (w : world) : result world :=
  match a with
  | Asend message o => send message o w
  | AsendInput o =>
      let* r := send_buffer (inputBuffer_ (conn w)) o w in
      Ok (set_input r.1 r.2)
  | Ashutdown => Ok (shutdown w)
  | AforceClose => Ok (forceClose w)
  | AstartRead => Ok (startReadInLoop w)
  | AstopRead => Ok (stopReadInLoop w)
  | Aretrieve n =>
      let* b := retrieve (n `min` Z.to_nat (readableBytes (inputBuffer_ (conn w))))%nat
                  (inputBuffer_ (conn w)) in
      Ok (set_input b w)
  | AretrieveAll => Ok (set_input (retrieveAll (inputBuffer_ (conn w))) w)
  | Aother o => Ok (other_step o w)
  end.

Fixpoint acts (l : list action) (w : world) : result world :=
  match l with
  | [] => Ok w
  | a :: l => let* w := act a w in acts l w
  end.

(** [connectionCallback_] and [messageCallback_]; [l] is what the user's code calls. *)
Definition callback (e : event) (l : list action) (w : world) : result world :=
  acts l (called e w).

(** [TcpServer::removeConnectionInLoop], whose functor holds the server's address. *)
Definition removeConnectionInLoop (w : world) : result world :=
  if server_ w then
    assert (connections_ w)
      (Ok (queueInLoop FconnectDestroyed (set_server (removals w) false (server_ w) w)))
  else Undef Dangling.
(** [closeCallback_], which is [TcpServer::removeConnection]. *)
Definition removeConnection (w : world) : result world :=
  if server_ w then
    if same_loop then removeConnectionInLoop w
    else Ok (set_server (S (removals w)) (connections_ w) (server_ w) w)
  else Undef Dangling.

Definition connectEstablished (l : list action) (w : world) : result world :=
  assert (bool_decide (state_ (conn w) = kConnecting))
    (callback EvUp l (set_channel (λ c, enableReading (tie c)) (set_state kConnected w))).

(** [mid]: what other threads do between the test and the store. *)
Definition connectDestroyed (mid : list other) (l : list action) (w : world) : result world :=
  let* w := (if bool_decide (state_ (conn w) = kConnected)
             then callback EvDown l (set_channel disableAll (set_state kDisconnected (others mid w)))
             else Ok w) in
  let* c := remove (channel_ (conn w)) in
  Ok (set_channel (λ _, c) w).

(** What [~TcpServer] does to the connection, between two iterations of its loop. *)
Definition destroyServer (mid : list other) (l : list action) (w : world) : result world :=
  let w' := set_server (removals w) false false w in
  if connections_ w then
    if same_loop then connectDestroyed mid l (set_asked 0 w') else Ok (queueInLoop FconnectDestroyed w')
  else Ok w'.

Definition handleClose (l : list action) (w : world) : result world :=
  assert (open_state (state_ (conn w)))
    (let* w := callback EvDown l (set_channel disableAll (set_state kDisconnected w)) in
     removeConnection w).

Definition forceCloseInLoop (l : list action) (w : world) : result world :=
  if open_state (state_ (conn w)) then handleClose l w else Ok w.

Definition handleRead (r : read_result) (l : list action) (w : world) : result world :=
  match sock_read r (inputBuffer_ (conn w)) with
  | ReadError => Ok w
  | Got [] => handleClose l w
  | Got s => let* b := readFd s (inputBuffer_ (conn w)) in callback EvMessage l (set_input b w)
  end.

Definition handleWrite (o : write_result) (w : world) : result world :=
  if isWriting (channel_ (conn w)) then
    match sock_write (content (outputBuffer_ (conn w))) o w with
    | Wrote (S n) =>
        let w := wrote (take (S n) (content (outputBuffer_ (conn w)))) w in
        let* out := retrieve (S n) (outputBuffer_ (conn w)) in
        let w := set_output out w in
        Ok (if (readableBytes out =? 0)%Z then
              let w := set_channel disableWriting w in
              let w := if writeCompleteCallback_ (conn w) then queueInLoop FwriteComplete w else w in
              if bool_decide (state_ (conn w) = kDisconnecting) then shutdownInLoop w else w
            else w)
    | _ => Ok w
    end
  else Ok w.

(** [Channel::handleEvent] of a tied channel; [handleError] only logs. *)
Definition handleEvent (revents : Z) (r : read_result) (o : write_result) (l : list action)
    (w : world) : result world :=
  let* w := (if has_bits revents POLLHUP && negb (has_bits revents POLLIN)
             then handleClose l w else Ok w) in
  let* w := (if has_bits revents (Z.lor POLLIN (Z.lor POLLPRI POLLRDHUP))
             then handleRead r l w else Ok w) in
  if has_bits revents POLLOUT then handleWrite o w else Ok w.

(** A functor of [doPendingFunctors]. *)
Definition run_functor (f : functor) (o : write_result) (mid : list other) (l : list action)
    (w : world) : result world :=
  match f with
  | FconnectEstablished => connectEstablished l w
  | FconnectDestroyed => connectDestroyed mid l w
  | FsendInLoop message => sendInLoop message o w
  | FshutdownInLoop => Ok (shutdownInLoop w)
  | FforceCloseInLoop => forceCloseInLoop l w
  | FstartReadInLoop => Ok (startReadInLoop w)
  | FstopReadInLoop => Ok (stopReadInLoop w)
  | FwriteComplete => callback EvWriteComplete l w
  | FhighWaterMark n => callback (EvHighWaterMark n) l w
  end.
End Server.

(** ** What may happen to a connection *)

(** The poller gives the events that the channel asked for when it was polled, and errors and
    hang-ups; Linux reports a hang-up of a TCP socket with [POLLIN] when it is asked for. *)
Definition legal_revents (asked revents : Z) : bool :=
  negb (asked =? kNoneEvent)%Z &&
  (Z.ldiff revents (Z.lor asked (Z.lor POLLERR (Z.lor POLLHUP POLLNVAL))) =? 0)%Z &&
  negb (has_bits revents POLLHUP && negb (has_bits revents POLLIN) && has_bits revents POLLPRI).

Section Steps.
Variable same_loop : bool.

(** An iteration of the loop polls, handles the events of each channel once and then runs
    functors.  The user, in whichever thread, knows the connection from its first callback
    on.  The server is removed from and destroyed in its own loop. *)
Inductive step : world → world → Prop :=
  | step_poll w : step w (set_asked (events_ (channel_ (conn w))) w)
  | step_event revents r o l w w' :
      legal_revents (asked w) revents = true →
      handleEvent same_loop revents r o l (set_asked 0 w) = Ok w' → step w w'
  | step_functor f fs o mid l w w' :
      pendingFunctors_ w = f :: fs →
      run_functor same_loop f o mid l (set_asked 0 (set_pending fs w)) = Ok w' → step w w'
  | step_action a w w' : EvUp ∈ events w → act a w = Ok w' → step w w'
  | step_other o w : EvUp ∈ events w → step w (other_step o w)
  | step_removal n w w' :
      removals w = S n →
      removeConnectionInLoop (set_server n (connections_ w) (server_ w) w) = Ok w' → step w w'
  | step_destroy mid l w w' :
      server_ w = true → destroyServer same_loop mid l w = Ok w' → step w w'.

(** [TcpServer::newConnection] puts the connection in the map and its set-up in its loop. *)
Definition newConnection (write_complete high_water : bool) (mark : Z) : world :=
  MkWorld (TcpConnection_new write_complete high_water mark) [FconnectEstablished] 0 [] 0 true true
    [] false [] [] false.

Inductive reachable : world → Prop :=
  | reachable_new wc hw mark : reachable (newConnection wc hw mark)
  | reachable_step w w' : reachable w → step w w' → reachable w'.
End Steps.

(** ** The stream and the buffers, in every state *)

Abbreviation in_of w := (inputBuffer_ (conn w)).
Abbreviation out_of w := (outputBuffer_ (conn w)).
Abbreviation st_of w := (state_ (conn w)).
Abbreviation events_of w := (events_ (channel_ (conn w))).

(** The callbacks that tell the user of the connection and its messages. *)
Definition log (w : world) : list event :=
  events w ≫= λ e, match e with EvUp | EvMessage | EvDown => [e] | _ => [] end.

(** The bytes accepted are those sent and those in the output buffer. *)
Record stream (w : world) : Prop := {
  s_input : inv (in_of w);
  s_output : inv (out_of w);
  s_stream : sent w ++ content (out_of w) = accepted w
}.

(** What the buffers take up: the input's array, and the output's with the content that may
    be sent from the input. *)
Definition space (w : world) : Z :=
  Z.max (slen (buffer_ (in_of w))) (slen (buffer_ (out_of w)) + slen (content (in_of w))).

(** What the user's calls leave alone. *)
Record aside (w w' : world) : Prop := {
  a_removals : removals w' = removals w;
  a_connections : connections_ w' = connections_ w;
  a_server : server_ w' = server_ w;
  a_events : events w' = events w;
  a_asked : asked w' = asked w;
  a_late : late w = true → late w' = true
}.

(** [r] is reached from [w] with [d] bytes given, and fails only for want of space. *)
Definition does (d : Z) (w : world) (r : result world) : Prop :=
  match r with
  | Ok w' => stream w' ∧ (space w' ≤ space w + d)%Z ∧ aside w w'
  | _ => (max_size < space w + d)%Z
  end.

Lemma aside_refl w : aside w w.
Proof. by split. Qed.

Lemma aside_trans w1 w2 w3 : aside w1 w2 → aside w2 w3 → aside w1 w3.
Proof. intros [] []. split; try congruence. auto. Qed.

Lemma does_bind d1 d2 w r k :
  (0 ≤ d2)%Z → does d1 w r → (∀ w', r = Ok w' → stream w' → aside w w' → does d2 w' (k w')) →
  does (d1 + d2) w (rbind r k).
Proof.
  intros Hd Hr Hk. destruct r as [w1|e|u]; cbn in *; [|lia..]. destruct Hr as (S1 & L1 & A1).
  specialize (Hk w1 eq_refl S1 A1). destruct (k w1) as [w2|e|u]; cbn in *; [|lia..].
  destruct Hk as (S2 & L2 & A2). split_and!; [done|lia|by eapply aside_trans].
Qed.

(** Worlds with the same buffers and bytes. *)
Definition same_bytes (w w' : world) : Prop :=
  in_of w' = in_of w ∧ out_of w' = out_of w ∧ sent w' = sent w ∧ accepted w' = accepted w.

Lemma same_bytes_stream w w' : same_bytes w w' → stream w → stream w'.
Proof. intros (E1 & E2 & E3 & E4) [S1 S2 S3]. split; [by rewrite E1|by rewrite E2|by rewrite E2, E3, E4]. Qed.

Lemma same_bytes_space w w' : same_bytes w w' → space w' = space w.
Proof. intros (E1 & E2 & _). unfold space. by rewrite E1, E2. Qed.

Lemma does_ok w w' : stream w → same_bytes w w' → aside w w' → does 0 w (Ok w').
Proof.
  intros Hs Hb Ha. split_and!; [by eapply same_bytes_stream|by rewrite (same_bytes_space _ _ Hb), Z.add_0_r|done].
Qed.

Lemma does_refl w : stream w → does 0 w (Ok w).
Proof. intros. by apply does_ok, aside_refl. Qed.

Lemma readable_zero b : inv b → (readableBytes b =? 0)%Z = bool_decide (content b = []).
Proof.
  intros Hb. rewrite (readable_content b Hb). unfold slen.
  case_bool_decide as Hc; [by rewrite Hc|]. apply Z.eqb_neq. by destruct (content b).
Qed.

(** The same of the output buffer alone: [d] bytes sent. *)
Definition sends (d : Z) (w : world) (r : result world) : Prop :=
  match r with
  | Ok w' => stream w' ∧ in_of w' = in_of w ∧ aside w w' ∧
      (slen (buffer_ (out_of w')) ≤ slen (buffer_ (out_of w)) + d)%Z
  | _ => (max_size < slen (buffer_ (out_of w)) + d)%Z
  end.

Lemma sends_does d w r : (0 ≤ d)%Z → sends d w r → does d w r.
Proof.
  intros Hd. pose proof (slen_nonneg (content (in_of w))). unfold sends, does, space.
  destruct r as [w'|e|u]; [|lia..]. intros (S & E & A & L). rewrite E. split_and!; [done|lia|done].
Qed.

(** The rest of a message goes behind what waits; [take n data] is what the kernel took. *)
Lemma append_rest_sends data n w v :
  stream w → (n ≤ length data)%nat → (n = 0%nat ∨ content (out_of w) = []) →
  aside w v → conn v = conn w → sent v = sent w ++ take n data → accepted v = accepted w →
  sends (slen data) w (append_rest data n (take_message data v)).
Proof.
  intros [S1 S2 S3] Hn Hor A Ev Es Ea. unfold append_rest.
  change (conn (take_message data v)) with (conn v). rewrite Ev. cbv zeta.
  assert (aside w (take_message data v)) as A0 by (by destruct A).
  pose proof (slen_nonneg data) as Hd.
  destruct (decide (0 < length data - n)%nat) as [Hrem|Hrem];
    [rewrite (bool_decide_eq_true_2 _ Hrem)|rewrite (bool_decide_eq_false_2 _ Hrem)].
  - set (v1 := if _ && _ && _ then _ else take_message data v).
    assert (conn v1 = conn w ∧ sent v1 = sent w ++ take n data ∧
      accepted v1 = accepted w ++ data ∧ aside w v1) as (E1 & E3 & E4 & A1).
    { unfold v1. destruct (_ && _); split_and!; cbn; rewrite ?Ea; try done; by destruct A0. }
    clearbody v1. rewrite E1. pose proof (append_outcome (drop n data) (out_of w) S2) as Happ.
    unfold appended in Happ.
    assert (slen (drop n data) ≤ slen data)%Z as Hdrop by (unfold slen; rewrite length_drop; lia).
    destruct (append _ _) as [b| |]; cbn [rbind sends]; [|lia..].
    destruct Happ as (Hb & Hc & Hl).
    assert (sent w ++ take n data ++ content b = accepted w ++ data) as Estream.
    { rewrite Hc, <- S3. destruct Hor as [->|Hc0].
      - by rewrite take_0, drop_0, app_nil_l, app_assoc.
      - by rewrite Hc0, app_nil_l, take_drop, app_nil_r. }
    assert (∀ f, sends (slen data) w (Ok (set_channel f (set_output b v1)))) as Hch.
    { intros f. split_and!; cbn; rewrite ?E1; [|done|by destruct A1|lia].
      split; cbn; rewrite ?E1, ?E3, ?E4, <- ?app_assoc; done. }
    change (channel_ (conn (set_output b v1))) with (channel_ (conn v1)).
    destruct (isWriting _); [|apply Hch]. exact (Hch (λ c, c)).
  - assert (n = length data) as -> by lia. rewrite firstn_all in Es.
    split_and!; cbn; rewrite ?Ev; [|done|done|lia].
    split; cbn; rewrite ?Ev, ?Es, ?Ea; try done. rewrite <- S3. destruct Hor as [Hz|Hc0].
    + destruct data; [by rewrite !app_nil_r|done].
    + by rewrite Hc0, !app_nil_r.
Qed.

Lemma sendInLoop_sends data o w : stream w → sends (slen data) w (sendInLoop data o w).
Proof.
  intros S. pose proof (slen_nonneg data) as Hd. unfold sendInLoop.
  assert (sends (slen data) w (Ok w)) as Hid by (split_and!; [done|done|apply aside_refl|lia]).
  case_bool_decide as Hst; [done|]. rewrite (readable_zero _ (s_output w S)).
  assert (sends (slen data) w (append_rest data 0 (take_message data w))) as H0.
  { apply append_rest_sends; try done; [lia|by left|by rewrite app_nil_r]. }
  destruct (negb (isWriting (channel_ (conn w)))); [|done]. cbn [andb].
  case_bool_decide as Hc; [|done]. unfold sock_write. destruct (shut w); [done|].
  destruct o as [n|[]]; try done. set (v := if _ && _ then _ else wrote _ w).
  unfold assert. rewrite bool_decide_eq_true_2 by lia. cbn [rbind].
  apply (append_rest_sends data (n `min` length data) w v); try done; [lia|by right|..];
    unfold v; by destruct (_ && _).
Qed.

Definition cost1 (a : action) : Z := match a with Asend message _ => slen message | _ => 0 end.
(** The bytes that the user's calls give. *)
Definition cost (l : list action) : Z := foldr (λ a n, cost1 a + n)%Z 0%Z l.

Lemma cost_nonneg l : (0 ≤ cost l)%Z.
Proof. induction l as [|a l IH]; [done|]. change (0 ≤ cost1 a + cost l)%Z. unfold cost1, slen. destruct a; lia. Qed.

Lemma shutdownInLoop_bytes w : same_bytes w (shutdownInLoop w) ∧ aside w (shutdownInLoop w).
Proof. unfold shutdownInLoop. by destruct (isWriting _). Qed.

Lemma startReadInLoop_bytes w : same_bytes w (startReadInLoop w) ∧ aside w (startReadInLoop w).
Proof. unfold startReadInLoop. destruct (_ || _); [|done]. split; [done|]. split; try done. cbn. by intros ->. Qed.

Lemma stopReadInLoop_bytes w : same_bytes w (stopReadInLoop w) ∧ aside w (stopReadInLoop w).
Proof. unfold stopReadInLoop. destruct (_ || _); [|done]. split; [done|]. split; try done. cbn. by intros ->. Qed.

Lemma other_bytes o w : same_bytes w (other_step o w) ∧ aside w (other_step o w).
Proof.
  destruct o as [c|i| |]; cbn; [| |done..].
  - unfold begin_call. by destruct c; case_match.
  - unfold resume_call. destruct (calls w !! i) as [[[] []]|]; try done.
    all: split; [done|]; split; try done; cbn; by intros ->.
Qed.

Lemma others_bytes os w : same_bytes w (others os w) ∧ aside w (others os w).
Proof.
  revert w. induction os as [|o os IH]; intros w; [done|].
  change (others (o :: os) w) with (others os (other_step o w)).
  destruct (other_bytes o w) as [(B1 & B2 & B3 & B4) A1]. destruct (IH (other_step o w)) as [(C1 & C2 & C3 & C4) A2].
  split; [split_and!; congruence|by eapply aside_trans].
Qed.

(** A change of the input buffer that does not add to it. *)
Lemma input_does w b :
  stream w → inv b → buffer_ b = buffer_ (in_of w) → (slen (content b) ≤ slen (content (in_of w)))%Z →
  does 0 w (Ok (set_input b w)).
Proof.
  intros [S1 S2 S3] Hb E H. split_and!; [by split| |done]. unfold space. cbn. rewrite E. lia.
Qed.

Lemma set_input_id w : set_input (in_of w) w = w.
Proof. by destruct w as [[]]. Qed.

(** Sending from the input buffer takes from it what the output buffer gets. *)
Lemma send_input_does o w :
  stream w → does 0 w (let* r := send_buffer (in_of w) o w in Ok (set_input r.1 r.2)).
Proof.
  intros S. unfold send_buffer. case_bool_decide as Hst; cbn [rbind fst snd].
  2: { rewrite set_input_id. by apply does_refl. }
  pose proof (sendInLoop_sends (content (in_of w)) o w S) as H. unfold sends, does, space in *.
  destruct (retrieveAll_ok (in_of w) (s_input w S)) as [Hb Hc].
  assert (buffer_ (retrieveAll (in_of w)) = buffer_ (in_of w)) as Eb by done.
  generalize dependent (retrieveAll (in_of w)). intros b Hb Hc Eb.
  destruct (sendInLoop _ o w) as [w'|e|u]; cbn; [|lia..]. destruct H as ([S1 S2 S3] & E & A & L).
  split_and!; [by split| |by destruct A]. rewrite Hc, Eb. change (slen []) with 0%Z. lia.
Qed.

(** Whatever the user's code calls, in whatever state. *)
Lemma act_does a w : stream w → does (cost1 a) w (act a w).
Proof.
  intros S. destruct a as [message o|o| | | | |n| |o]; cbn [act cost1].
  - unfold send. case_bool_decide as Hst; [apply sends_does; [apply slen_nonneg|by apply sendInLoop_sends]|].
    pose proof (slen_nonneg message). split_and!; [done|lia|apply aside_refl].
  - by apply send_input_does.
  - unfold shutdown. case_bool_decide; [|by apply does_refl].
    destruct (shutdownInLoop_bytes (set_state kDisconnecting w)) as [B A].
    apply does_ok; [done|exact B|by eapply aside_trans; [|exact A]].
  - unfold forceClose. case_match; [|by apply does_refl]. by apply does_ok.
  - destruct (startReadInLoop_bytes w). by apply does_ok.
  - destruct (stopReadInLoop_bytes w). by apply does_ok.
  - pose proof (readable_content (in_of w) (s_input w S)) as Er.
    destruct (retrieve_ok (n `min` Z.to_nat (readableBytes (in_of w))) (in_of w))
      as (b & -> & Hb & Hc & E); [apply S|rewrite Er; unfold slen; lia|].
    apply input_does; [done..|]. rewrite Hc. unfold slen. rewrite length_drop. lia.
  - destruct (retrieveAll_ok (in_of w) (s_input w S)) as [Hb Hc].
    apply input_does; [done..|]. rewrite Hc. unfold slen. cbn [length]. lia.
  - destruct (other_bytes o w). by apply does_ok.
Qed.

Lemma acts_does l w : stream w → does (cost l) w (acts l w).
Proof.
  revert w. induction l as [|a l IH]; intros w S; [by apply does_refl|].
  change (does (cost1 a + cost l) w (let* w := act a w in acts l w)).
  apply does_bind; [apply cost_nonneg|by apply act_does|]. auto.
Qed.

(** What a callback gives: the event is noted, the rest is as for the calls. *)
Lemma callback_does e l w : stream w → does (cost l) (called e w) (callback e l w).
Proof. intros [S1 S2 S3]. apply acts_does. by split. Qed.
(** *** Every step *)

(** A result keeps the stream, and does not undo [late]. *)
Definition safe (w : world) (r : result world) : Prop :=
  ∀ w', r = Ok w' → stream w' ∧ (late w = true → late w' = true).

Lemma safe_ok w w' : stream w → same_bytes w w' → (late w = true → late w' = true) → safe w (Ok w').
Proof. intros S B L ? [= <-]. split; [by eapply same_bytes_stream|done]. Qed.

Lemma safe_assert b w r : safe w r → safe w (assert b r).
Proof. intros H. unfold assert. by destruct b. Qed.

Lemma safe_bind w r k : safe w r → (∀ w1, stream w1 → safe w1 (k w1)) → safe w (rbind r k).
Proof.
  intros Hr Hk w' E. destruct r as [w1|e|u]; try done. destruct (Hr w1 eq_refl) as [S1 L1].
  destruct (Hk w1 S1 w' E) as [S2 L2]. auto.
Qed.

Lemma safe_callback e l w v :
  stream w → same_bytes w v → (late w = true → late v = true) → safe w (callback e l v).
Proof.
  intros S B L w' E. pose proof (callback_does e l v (same_bytes_stream w v B S)) as H. rewrite E in H.
  destruct H as (S' & _ & A). split; [done|]. intros Hl. by apply (a_late _ _ A), L.
Qed.

Lemma handleWrite_safe o w : stream w → safe w (handleWrite o w).
Proof.
  intros Hw. pose proof Hw as [S1 S2 S3]. assert (safe w (Ok w)) as Hid by by apply safe_ok.
  unfold handleWrite. destruct (isWriting _); [|done]. unfold sock_write.
  destruct (shut w); [done|]. destruct o as [n|e]; [|done].
  set (k := (n `min` length (content (out_of w)))%nat). assert (k ≤ length (content (out_of w)))%nat as Hk by lia.
  destruct k as [|k']; [done|]. set (k := S k') in *. clearbody k.
  destruct (retrieve_ok k (out_of w) S2 Hk) as (b & Er & Hb & Hc & _). cbn [conn wrote].
  rewrite Er. cbn [rbind].
  set (v := set_output b (wrote (take k (content (out_of w))) w)).
  assert (stream v) as Sv.
  { split; cbn; [done|done|]. by rewrite Hc, <- app_assoc, take_drop. }
  assert (∀ x, same_bytes v x → late x = late w → safe w (Ok x)) as Hx.
  { intros x B E ? [= <-]. split; [by eapply same_bytes_stream|by rewrite E]. }
  apply Hx.
  - destruct (readableBytes b =? 0)%Z; [|done]. unfold shutdownInLoop. by repeat case_match.
  - destruct (readableBytes b =? 0)%Z; [|done]. unfold shutdownInLoop. by repeat case_match.
Qed.

(** What [readv] gives fits. *)
Lemma taken_le s b c s' :
  inv b → take (Z.to_nat (readFd_limit b)) s = c :: s' → (slen (c :: s') ≤ readFd_limit b)%Z.
Proof.
  intros Hb <-. unfold slen. rewrite length_take. enough (0 ≤ readFd_limit b)%Z by lia.
  unfold readFd_limit. rewrite (writable_inv b Hb). case_match; unfold extrabuf_size; lia.
Qed.

Section Safe.
Variable same_loop : bool.

Lemma removeConnectionInLoop_safe w : stream w → safe w (removeConnectionInLoop w).
Proof. intros S. unfold removeConnectionInLoop. case_match; [|done]. by apply safe_assert, safe_ok. Qed.

Lemma handleClose_safe l w : stream w → safe w (handleClose same_loop l w).
Proof.
  intros S. apply safe_assert, safe_bind; [by apply safe_callback|]. intros w1 S1.
  unfold removeConnection. case_match; [|done]. case_match; [by apply removeConnectionInLoop_safe|by apply safe_ok].
Qed.

Lemma connectEstablished_safe l w : stream w → safe w (connectEstablished l w).
Proof. intros S. by apply safe_assert, safe_callback. Qed.

Lemma connectDestroyed_safe mid l w : stream w → safe w (connectDestroyed mid l w).
Proof.
  intros S. apply safe_bind.
  - case_match; [|by apply safe_ok]. destruct (others_bytes mid w) as [B A].
    apply safe_callback; [done|exact B|]. exact (a_late _ _ A).
  - intros w1 S1. unfold remove, assert. case_match; [|done]. by apply safe_ok.
Qed.

Lemma handleRead_safe r l w : stream w → safe w (handleRead same_loop r l w).
Proof.
  intros S. pose proof S as [S1 S2 S3]. unfold handleRead. destruct r as [s|]; cbn [sock_read]; [|by apply safe_ok].
  destruct (take _ s) as [|c s'] eqn:Et; [by apply handleClose_safe|].
  pose proof (readFd_outcome (c :: s') (in_of w) S1) as Hr. unfold appended in Hr.
  specialize (Hr (taken_le _ _ _ _ S1 Et)).
  destruct (readFd _ _) as [b| |]; [|done..]. destruct Hr as (Hb & Hc & _).
  cbn [rbind]. intros w' E. assert (stream (set_input b w)) as Sv by by split.
  pose proof (callback_does EvMessage l _ Sv) as H. rewrite E in H. destruct H as (S' & _ & A).
  split; [done|]. exact (a_late _ _ A).
Qed.

Lemma handleEvent_safe revents r o l w : stream w → safe w (handleEvent same_loop revents r o l w).
Proof.
  intros S. unfold handleEvent. apply safe_bind.
  { case_match; [by apply handleClose_safe|by apply safe_ok]. }
  intros w1 S1. apply safe_bind; [case_match; [by apply handleRead_safe|by apply safe_ok]|].
  intros w2 S2. case_match; [by apply handleWrite_safe|by apply safe_ok].
Qed.

Lemma run_functor_safe f o mid l w : stream w → safe w (run_functor same_loop f o mid l w).
Proof.
  intros S. destruct f; cbn.
  - by apply connectEstablished_safe.
  - by apply connectDestroyed_safe.
  - intros w' E. pose proof (sendInLoop_sends message o w S) as H. rewrite E in H.
    destruct H as (S' & _ & A & _). split; [done|apply A].
  - destruct (shutdownInLoop_bytes w) as [B A]. apply safe_ok; [done..|apply A].
  - unfold forceCloseInLoop. case_match; [by apply handleClose_safe|by apply safe_ok].
  - destruct (startReadInLoop_bytes w) as [B A]. apply safe_ok; [done..|apply A].
  - destruct (stopReadInLoop_bytes w) as [B A]. apply safe_ok; [done..|apply A].
  - by apply safe_callback.
  - by apply safe_callback.
Qed.

Lemma step_safe w w' : stream w → step same_loop w w' → stream w' ∧ (late w = true → late w' = true).
Proof.
  intros S St. assert (∀ v r, same_bytes w v → late v = late w → (stream v → safe v r) → r = Ok w' →
    stream w' ∧ (late w = true → late w' = true)) as Hs.
  { intros v r B L Hr E. rewrite <- L. apply (Hr (same_bytes_stream w v B S) w' E). }
  destruct St as [w|revents r o l w w' Hl E|f fs o mid l w w' Ep E|a w w' Hu E|o w Hu|n w w' Er E|mid l w w' Es E].
  - split; [by apply (same_bytes_stream w)|done].
  - eapply Hs, E; [..|by apply handleEvent_safe]; done.
  - eapply Hs, E; [..|by apply run_functor_safe]; done.
  - pose proof (act_does a w S) as H. rewrite E in H. destruct H as (S' & _ & A). split; [done|apply A].
  - destruct (other_bytes o w) as [B A]. split; [by apply (same_bytes_stream w)|apply A].
  - eapply Hs, E; [..|by apply removeConnectionInLoop_safe]; done.
  - unfold destroyServer in E. destruct (connections_ w); [destruct same_loop|].
    + eapply Hs, E; [..|by apply connectDestroyed_safe]; done.
    + injection E as <-. split; [by apply (same_bytes_stream w)|done].
    + injection E as <-. split; [by apply (same_bytes_stream w)|done].
Qed.
End Safe.

(** ** The channel and the writing side, while nobody was late *)

Definition bits (reading writing : bool) : Z :=
  Z.lor (if reading then kReadEvent else kNoneEvent) (if writing then kWriteEvent else kNoneEvent).

Definition user_functor (f : functor) : bool :=
  match f with FconnectEstablished | FconnectDestroyed => false | _ => true end.
Definition user_functors (fs : list functor) : Prop := Forall (λ f, user_functor f = true) fs.

(** An open connection waits for room exactly when bytes are left, and for input unless its
    user stopped it; its writing side is shut only when no bytes are left.  A closed one
    waits for nothing and is not polled. *)
Record core (w : world) : Prop := {
  c_channel : events_of w =
    (if open_state (st_of w)
     then bits (reading_ (conn w)) (negb (bool_decide (content (out_of w) = []))) else kNoneEvent);
  c_shut : shut w = true → open_state (st_of w) = true → content (out_of w) = [];
  c_new : st_of w = kConnecting → content (out_of w) = [] ∧ shut w = false ∧ reading_ (conn w) = true ∧
    (EvUp ∉ events w) ∧ Forall (λ f, user_functor f = false) (pendingFunctors_ w);
  c_polled : Z.ldiff (asked w) (bits true true) = 0%Z;
  c_asked : asked w ≠ 0%Z → open_state (st_of w) = true
}.

(** What a call of the user's code leaves alone. *)
Record frame (w w' : world) : Prop := {
  f_aside : aside w w';
  f_state : st_of w' = st_of w ∨ (st_of w = kConnected ∧ st_of w' = kDisconnecting);
  f_pending : ∃ fs, pendingFunctors_ w' = pendingFunctors_ w ++ fs ∧ user_functors fs;
  f_added : st_of w = kDisconnected → addedToLoop_ (channel_ (conn w')) = addedToLoop_ (channel_ (conn w))
}.

Lemma no_functors w w' : pendingFunctors_ w' = pendingFunctors_ w →
  ∃ fs, pendingFunctors_ w' = pendingFunctors_ w ++ fs ∧ user_functors fs.
Proof. intros ->. exists []. rewrite app_nil_r. by split; [|constructor]. Qed.

Lemma frame_refl w : frame w w.
Proof. split; [apply aside_refl|by left|by apply no_functors|done]. Qed.

Lemma frame_trans w1 w2 w3 : frame w1 w2 → frame w2 w3 → frame w1 w3.
Proof.
  intros [A0 A4 (fs & A5 & A6) A7] [B0 B4 (fs' & B5 & B6) B7].
  split; [by eapply aside_trans| | |].
  - destruct A4 as [A4|[A4 A4']], B4 as [B4|[B4 B4']]; [left; congruence|right; split; congruence..].
  - exists (fs ++ fs'). split; [by rewrite B5, A5, app_assoc|by apply Forall_app].
  - intros Hd. destruct A4 as [A4|[A4 _]]; [|congruence]. rewrite B7, A7; congruence.
Qed.

Definition keeps (w : world) (r : result world) : Prop :=
  ∀ w', r = Ok w' → late w' = false → core w' ∧ frame w w'.

Lemma keeps_ok w w' : core w' → frame w w' → keeps w (Ok w').
Proof. intros C F ? [= <-] _. done. Qed.

Lemma keeps_id w : core w → keeps w (Ok w).
Proof. intros C. apply keeps_ok; [done|apply frame_refl]. Qed.

Lemma keeps_from w v r : frame w v → keeps v r → keeps w r.
Proof. intros F K w' E L. destruct (K w' E L) as [C F']. split; [done|by eapply frame_trans]. Qed.

Lemma open_ne s : open_state s = true → s ≠ kDisconnected ∧ s ≠ kConnecting.
Proof. by destruct s. Qed.

Lemma isWriting_bits c r b : events_ c = bits r b → isWriting c = b.
Proof. unfold isWriting. intros ->. by destruct r, b. Qed.

Lemma writing_iff w :
  core w → isWriting (channel_ (conn w)) =
    open_state (st_of w) && negb (bool_decide (content (out_of w) = [])).
Proof.
  intros C. pose proof (c_channel w C) as E. destruct (open_state _); [by eapply isWriting_bits|].
  by apply (isWriting_bits _ false).
Qed.

Lemma queue_frame f w : user_functor f = true → frame w (queueInLoop f w).
Proof. intros Hf. split; [by split|by left| |done]. exists [f]. split; [done|by repeat constructor]. Qed.

Lemma queue_core f w : st_of w ≠ kConnecting → core w → core (queueInLoop f w).
Proof. intros Hst []. by split. Qed.

Lemma queue_keeps f w : user_functor f = true → st_of w ≠ kConnecting → core w → keeps w (Ok (queueInLoop f w)).
Proof. intros. by apply keeps_ok; [apply queue_core|apply queue_frame]. Qed.

(** A change of the output buffer and the channel alone. *)
Lemma frame_output b f w : st_of w ≠ kDisconnected → frame w (set_channel f (set_output b w)).
Proof. intros Hst. split; [by split|by left|by apply no_functors|done]. Qed.

Lemma append_rest_keeps data n w v :
  core w → open_state (st_of w) = true → shut w = false →
  (isWriting (channel_ (conn w)) = false → content (out_of w) = []) → inv (out_of w) →
  frame w v → conn v = conn w → shut v = shut w →
  keeps w (append_rest data n (take_message data v)).
Proof.
  intros C Ho Hs Hor Hb F Ev Eshut. destruct (open_ne _ Ho) as [Hnd Hnc]. unfold append_rest.
  pose proof C as [C1 C2 C3 C4 C5]. rewrite Ho in C1. cbv zeta.
  change (conn (take_message data v)) with (conn v). rewrite Ev.
  assert (frame w (take_message data v)) as F0 by (destruct F as [[] ? ? ?]; by split; [split|..]).
  assert (∀ x, frame w x → conn x = conn w → shut x = shut w → core x) as Hsame.
  { intros x Fx Ex Es. pose proof (a_asked _ _ (f_aside _ _ Fx)) as Ea.
    split; rewrite ?Ex, ?Ea, ?Es, ?Ho; try done; congruence. }
  destruct (decide (0 < length data - n)%nat) as [Hrem|Hrem];
    [rewrite (bool_decide_eq_true_2 _ Hrem)|rewrite (bool_decide_eq_false_2 _ Hrem);
     by apply keeps_ok; [apply Hsame|]].
  set (v1 := if _ && _ && _ then _ else take_message data v).
  assert (conn v1 = conn w ∧ shut v1 = false ∧ frame w v1) as (E1 & E2 & F1).
  { unfold v1. destruct (_ && _); split_and!; cbn; try done; try congruence.
    eapply frame_trans; [exact F0|by apply queue_frame]. }
  clearbody v1. rewrite E1. pose proof (append_outcome (drop n data) (out_of w) Hb) as Happ.
  destruct (append _ _) as [b| |]; [|done..]. destruct Happ as (Hb' & Hc & _). cbn [rbind].
  change (channel_ (conn (set_output b v1))) with (channel_ (conn v1)). rewrite E1.
  assert (content b ≠ []) as Hne.
  { rewrite Hc. intros E%(f_equal length). rewrite length_app, length_drop in E. cbn [length] in E. lia. }
  assert (∀ f, events_ (f (channel_ (conn w))) = bits (reading_ (conn w)) true →
    keeps w (Ok (set_channel f (set_output b v1)))) as Hk.
  { intros f Hf. pose proof (a_asked _ _ (f_aside _ _ F1)) as Ea. apply keeps_ok.
    - split; cbn; rewrite ?E1, ?E2, ?Ea; try done. by rewrite Ho, bool_decide_eq_false_2.
    - eapply frame_trans; [exact F1|]. apply frame_output. by rewrite E1. }
  destruct (isWriting (channel_ (conn w))) eqn:Ew.
  - apply (Hk (λ c, c)). rewrite (isWriting_bits _ _ _ C1) in Ew. by rewrite C1, Ew.
  - apply Hk. unfold enableWriting, update. cbn [events_].
    rewrite C1, (Hor eq_refl), bool_decide_eq_true_2 by done. by destruct (reading_ _).
Qed.

Lemma sendInLoop_keeps data o w :
  stream w → core w → st_of w ≠ kConnecting → keeps w (sendInLoop data o w).
Proof.
  intros Hw C Hst. unfold sendInLoop. case_bool_decide as Hd; [by apply keeps_id|].
  assert (open_state (st_of w) = true) as Ho by (by destruct (st_of w)).
  pose proof (s_output w Hw) as Hb.
  assert (isWriting (channel_ (conn w)) = false → content (out_of w) = []) as Hor.
  { rewrite (writing_iff w C), Ho. cbn. intros E%negb_false_iff. by apply bool_decide_eq_true in E. }
  rewrite (readable_zero _ Hb). pose proof (frame_refl w) as Fw.
  destruct (isWriting (channel_ (conn w))) eqn:Ew; cbn [negb andb rbind].
  - apply (append_rest_keeps data 0 w w); try done; [|by rewrite Ew].
    destruct (shut w) eqn:Hs; [|done]. rewrite (writing_iff w C), (c_shut w C Hs Ho) in Ew.
    by rewrite andb_false_r in Ew.
  - rewrite bool_decide_eq_true_2 by auto. unfold sock_write.
    destruct (shut w) eqn:Hs; [by apply keeps_id|].
    destruct o as [n|e]; cbn [rbind].
    + set (v := if _ && _ then _ else wrote _ w).
      assert (conn v = conn w ∧ shut v = shut w ∧ frame w v) as (E1 & E2 & F).
      { assert (frame w (wrote (take (n `min` length data) data) w)) as F0.
        { split; [by split|by left|by apply no_functors|done]. }
        unfold v. destruct (_ && _); split_and!; try done.
        eapply frame_trans; [exact F0|by apply queue_frame]. }
      clearbody v. unfold assert. rewrite bool_decide_eq_true_2 by lia. cbn [rbind].
      by apply append_rest_keeps; rewrite ?Ew.
    + destruct e; cbn [rbind]; try (by apply keeps_id); by apply append_rest_keeps; rewrite ?Ew.
Qed.

Lemma disconnecting_core w :
  core w → open_state (st_of w) = true → core (set_state kDisconnecting w).
Proof.
  intros [C1 C2 C3 C4 C5] Ho. split; cbn; try done; [by rewrite C1, Ho|auto].
Qed.

Lemma disconnecting_frame w :
  open_state (st_of w) = true → frame w (set_state kDisconnecting w).
Proof.
  intros Ho. split; [by split| |by apply no_functors|done].
  cbn. destruct (st_of w); try done; [by right|by left].
Qed.

Lemma shutdownInLoop_keeps w :
  core w → st_of w ≠ kConnecting → keeps w (Ok (shutdownInLoop w)).
Proof.
  intros C Hst. unfold shutdownInLoop. destruct (isWriting _) eqn:Ew; [by apply keeps_id|].
  rewrite (writing_iff w C) in Ew. destruct C as [C1 C2 C3 C4 C5]. apply keeps_ok.
  - split; cbn; try done. intros _ Ho. rewrite Ho in Ew.
    by apply negb_false_iff, bool_decide_eq_true in Ew.
  - split; [by split|by left|by apply no_functors|done].
Qed.

Lemma note_late_false w : late (note_late w) = false → st_of w ≠ kDisconnected.
Proof. cbn. intros [_ H]%orb_false_iff. by apply bool_decide_eq_false in H. Qed.

Lemma open_of s : s ≠ kConnecting → s ≠ kDisconnected → open_state s = true.
Proof. by destruct s. Qed.

(** A change of the interest in reading, of an open connection. *)
Lemma reading_keeps b f w :
  core w → open_state (st_of w) = true →
  (∀ r o, events_of w = bits r o → events_ (f (channel_ (conn w))) = bits b o) →
  core (set_reading b (set_channel f (note_late w))) ∧ frame w (set_reading b (set_channel f (note_late w))).
Proof.
  intros [C1 C2 C3 C4 C5] Ho Hf. destruct (open_ne _ Ho) as [Hnd Hnc]. rewrite Ho in C1. split.
  - split; cbn; try done. rewrite Ho. by eapply Hf.
  - split; [split; try done; cbn; by intros ->|by left|by apply no_functors|done].
Qed.

Lemma startReadInLoop_keeps w : core w → st_of w ≠ kConnecting → keeps w (Ok (startReadInLoop w)).
Proof.
  intros C Hst. unfold startReadInLoop. destruct (_ || _); [|by apply keeps_id].
  intros ? [= <-] L%note_late_false. apply reading_keeps; [done|by apply open_of|].
  intros r o E. cbn. rewrite E. by destruct r, o.
Qed.

Lemma stopReadInLoop_keeps w : core w → st_of w ≠ kConnecting → keeps w (Ok (stopReadInLoop w)).
Proof.
  intros C Hst. unfold stopReadInLoop. destruct (_ || _); [|by apply keeps_id].
  intros ? [= <-] L%note_late_false. apply reading_keeps; [done|by apply open_of|].
  intros r o E. cbn. rewrite E. by destruct r, o.
Qed.

(** Fields that the invariant does not mention. *)
Lemma calls_keeps cs w : core w → core (set_calls cs w) ∧ frame w (set_calls cs w).
Proof. intros []. split; [by split|]. split; [by split|by left|by apply no_functors|done]. Qed.

Lemma other_keeps o w : core w → st_of w ≠ kConnecting → keeps w (Ok (other_step o w)).
Proof.
  intros C Hst. destruct o as [c|i| |]; cbn; [| |by apply queue_keeps..].
  - unfold begin_call. assert (keeps w (Ok (set_calls (calls w ++ [(c, false)]) w))) as H.
    { by apply keeps_ok; apply calls_keeps. }
    pose proof (keeps_id w C). by destruct c; case_match.
  - unfold resume_call. destruct (calls w !! i) as [[c stored]|]; [|by apply keeps_id].
    assert (∀ f, user_functor f = true →
      keeps w (Ok (queueInLoop f (set_calls (delete i (calls w)) w)))) as Hq.
    { intros f Hf. destruct (calls_keeps (delete i (calls w)) w C) as [C' F'].
      eapply keeps_from; [exact F'|by apply queue_keeps]. }
    assert (∀ cs, keeps w (Ok (set_calls cs (set_state kDisconnecting (note_late w))))) as Hs.
    { intros cs ? [= <-] L%note_late_false. pose proof (open_of _ Hst L) as Ho.
      assert (core (set_state kDisconnecting w)) as C1 by by apply disconnecting_core.
      pose proof (disconnecting_frame w Ho) as [F1 F2 F3 F4].
      split; [by destruct C1|]. split; [|done..]. split; try done. cbn. by intros ->. }
    destruct c, stored; auto.
Qed.

Lemma frame_not_new w w' : frame w w' → st_of w ≠ kConnecting → st_of w' ≠ kConnecting.
Proof. intros F. destruct (f_state _ _ F) as [->|[_ ->]]; done. Qed.

Lemma others_keeps os w : core w → st_of w ≠ kConnecting → keeps w (Ok (others os w)).
Proof.
  revert w. induction os as [|o os IH]; intros w C Hst; [by apply keeps_id|].
  change (others (o :: os) w) with (others os (other_step o w)). intros ? [= <-] L.
  destruct (others_bytes os (other_step o w)) as [_ A].
  destruct (late (other_step o w)) eqn:L1; [by rewrite (a_late _ _ A L1) in L|].
  destruct (other_keeps o w C Hst _ eq_refl L1) as [C1 F1].
  eapply keeps_from; [exact F1| |reflexivity|exact L]. apply IH; [done|by eapply frame_not_new].
Qed.

Lemma input_keeps w v b : core v → frame w v → keeps w (Ok (set_input b v)).
Proof.
  intros [C1 C2 C3 C4 C5] [F1 F2 F3 F4]. apply keeps_ok; [by split|]. split; [by destruct F1|done..].
Qed.

(** Whatever the user's code calls keeps the invariant. *)
Lemma act_keeps a w : stream w → core w → st_of w ≠ kConnecting → keeps w (act a w).
Proof.
  intros Hw C Hst. destruct a as [message o|o| | | | |n| |o]; cbn [act].
  - unfold send. case_bool_decide; [by apply sendInLoop_keeps|by apply keeps_id].
  - unfold send_buffer. case_bool_decide as Hc; cbn [rbind fst snd].
    + intros w' E L. pose proof (sendInLoop_keeps (content (in_of w)) o w Hw C Hst) as K.
      destruct (sendInLoop _ o w) as [w1| |]; [|done..]. injection E as <-.
      destruct (K w1 eq_refl L) as [C1 F1]. by eapply input_keeps.
    + rewrite set_input_id. by apply keeps_id.
  - unfold shutdown. case_bool_decide as Hc; [|by apply keeps_id].
    assert (open_state (st_of w) = true) as Ho by by rewrite Hc.
    eapply keeps_from; [by apply disconnecting_frame|].
    apply shutdownInLoop_keeps; [by apply disconnecting_core|done].
  - unfold forceClose. destruct (open_state _) eqn:Ho; [|by apply keeps_id].
    eapply keeps_from; [by apply disconnecting_frame|].
    apply queue_keeps; [done|done|by apply disconnecting_core].
  - by apply startReadInLoop_keeps.
  - by apply stopReadInLoop_keeps.
  - destruct (retrieve _ _) as [b| |]; [|done..]. by apply input_keeps, frame_refl.
  - by apply input_keeps, frame_refl.
  - by apply other_keeps.
Qed.

Lemma acts_keeps l w : stream w → core w → st_of w ≠ kConnecting → keeps w (acts l w).
Proof.
  revert w. induction l as [|a l IH]; intros w Hw C Hst; [by apply keeps_id|]. cbn. intros w' E L.
  pose proof (act_does a w Hw) as D. pose proof (act_keeps a w Hw C Hst) as K.
  destruct (act a w) as [w1| |]; [|done..]. destruct D as (S1 & _ & A1). cbn in E.
  pose proof (acts_does l w1 S1) as D2. rewrite E in D2. destruct D2 as (_ & _ & A2).
  destruct (late w1) eqn:L1; [by rewrite (a_late _ _ A2 L1) in L|].
  destruct (K w1 eq_refl L1) as [C1 F1]. eapply keeps_from; [exact F1| |exact E|exact L].
  apply IH; [done..|by eapply frame_not_new].
Qed.

Lemma callback_keeps e l w :
  stream w → core w → st_of w ≠ kConnecting → keeps (called e w) (callback e l w).
Proof. intros [S1 S2 S3] [C1 C2 C3 C4 C5] Hst. by apply acts_keeps; [split|split|]. Qed.

(** ** The life of a connection, while the server is alive *)

(** What a connection that was up tells the user. *)
Definition up_log (n : nat) : list event := EvUp :: replicate n EvMessage.

Inductive phase (w : world) : Prop :=
  | ph_new fs :
      st_of w = kConnecting → removals w = 0%nat → connections_ w = true → log w = [] →
      pendingFunctors_ w = FconnectEstablished :: fs → user_functors fs → phase w
  | ph_open n :
      open_state (st_of w) = true → removals w = 0%nat → connections_ w = true →
      log w = up_log n → user_functors (pendingFunctors_ w) → phase w
  | ph_removing n :           (* the server is to be told *)
      st_of w = kDisconnected → removals w = 1%nat → connections_ w = true →
      log w = up_log n ++ [EvDown] → user_functors (pendingFunctors_ w) → phase w
  | ph_removed n fs1 fs2 :    (* the server has forgotten it *)
      st_of w = kDisconnected → removals w = 0%nat → connections_ w = false →
      log w = up_log n ++ [EvDown] → pendingFunctors_ w = fs1 ++ FconnectDestroyed :: fs2 →
      user_functors fs1 → user_functors fs2 → phase w
  | ph_destroyed n :          (* the poller has forgotten it *)
      st_of w = kDisconnected → removals w = 0%nat → connections_ w = false →
      log w = up_log n ++ [EvDown] → user_functors (pendingFunctors_ w) →
      addedToLoop_ (channel_ (conn w)) = false → phase w.

(** Inside [handleClose], between the two callbacks. *)
Definition closing (n : nat) (w : world) : Prop :=
  st_of w = kDisconnected ∧ removals w = 0%nat ∧ connections_ w = true ∧
  log w = up_log n ++ [EvDown] ∧ user_functors (pendingFunctors_ w).

Lemma frame_log w w' : frame w w' → log w' = log w.
Proof. intros F. unfold log. by rewrite (a_events _ _ (f_aside _ _ F)). Qed.

Lemma frame_phase w w' : frame w w' → phase w → phase w'.
Proof.
  intros F H. pose proof (frame_log _ _ F) as F3. destruct F as [[F1 F2 _ _ _ _] F4 (fs & F5 & F6) F7].
  assert (∀ s, s ≠ kConnected → st_of w = s → st_of w' = s) as Hst.
  { intros s Hs E. destruct F4 as [F4|[F4 _]]; congruence. }
  destruct H as [fs1 A1 A2 A3 A4 A5 A6|n A1 A2 A3 A4 A5|n A1 A2 A3 A4 A5|n fs1 fs2 A1 A2 A3 A4 A5 A6 A7|n A1 A2 A3 A4 A5 A6].
  - apply (ph_new _ (fs1 ++ fs)); try congruence; [by apply Hst|by rewrite F5, A5|by apply Forall_app].
  - apply (ph_open _ n); try congruence; [by destruct F4 as [->|[_ ->]]|rewrite F5; by apply Forall_app].
  - apply (ph_removing _ n); try congruence; [by apply Hst|rewrite F5; by apply Forall_app].
  - apply (ph_removed _ n fs1 (fs2 ++ fs)); try congruence; [by apply Hst|by rewrite F5, A5, <- app_assoc|].
    by apply Forall_app.
  - apply (ph_destroyed _ n); try congruence; [by apply Hst|rewrite F5; by apply Forall_app|].
    by rewrite F7.
Qed.

Lemma frame_closing n w w' : frame w w' → closing n w → closing n w'.
Proof.
  intros F (A1 & A2 & A3 & A4 & A5). pose proof (frame_log _ _ F) as F3.
  destruct F as [[F1 F2 _ _ _ _] F4 (fs & F5 & F6) _].
  split_and!; try congruence; [destruct F4 as [->|[F4 _]]; congruence|].
  rewrite F5. by apply Forall_app.
Qed.

Definition good (w : world) : Prop := core w ∧ (server_ w = true → phase w).

(** Where a result is reached without anybody being late, the invariant holds. *)
Definition fine (r : result world) : Prop := ∀ w', r = Ok w' → late w' = false → good w'.

Lemma fine_ok w : good w → fine (Ok w).
Proof. by intros G ? [= <-] _. Qed.

Lemma keeps_fine w r : (server_ w = true → phase w) → keeps w r → fine r.
Proof.
  intros P K w' E L. destruct (K w' E L) as [C F]. split; [done|].
  rewrite (a_server _ _ (f_aside _ _ F)). intros Hs. eapply frame_phase; [exact F|auto].
Qed.

Lemma log_called e w :
  log (called e w) = log w ++ match e with EvUp | EvMessage | EvDown => [e] | _ => [] end.
Proof. unfold log. cbn. rewrite bind_app. cbn. by rewrite app_nil_r. Qed.

(** The connection goes down. *)
Definition down (w : world) : world := set_channel disableAll (set_state kDisconnected w).

Lemma down_core w : Z.ldiff (asked w) (bits true true) = 0%Z → asked w = 0%Z → core (down w).
Proof. intros. by split. Qed.

Lemma open_phase w :
  phase w → open_state (st_of w) = true →
  ∃ n, removals w = 0%nat ∧ connections_ w = true ∧ log w = up_log n ∧ user_functors (pendingFunctors_ w).
Proof.
  intros H Ho. destruct H as [fs E|n _|n E|n fs1 fs2 E|n E]; try (by rewrite E in Ho). by exists n.
Qed.

Lemma silent_callback e l w :
  (e = EvWriteComplete ∨ ∃ n, e = EvHighWaterMark n) → stream w → good w → st_of w ≠ kConnecting →
  fine (callback e l w).
Proof.
  intros He Hw [C P] Hst. apply (keeps_fine (called e w)); [|by apply callback_keeps].
  intros Hs. specialize (P Hs). assert (log (called e w) = log w) as El.
  { rewrite log_called. destruct He as [->|[n ->]]; by rewrite app_nil_r. }
  destruct P; [eapply ph_new|eapply ph_open|eapply ph_removing|eapply ph_removed|eapply ph_destroyed];
    try done; by rewrite El.
Qed.

Section Life.
Variable same_loop : bool.

Lemma removeConnection_late w w' : removeConnection same_loop w = Ok w' → late w' = late w ∧ server_ w = true.
Proof.
  unfold removeConnection, removeConnectionInLoop, assert. destruct (server_ w); [|done].
  destruct same_loop; [|by intros [= <-]]. destruct (connections_ w); [|done]. by intros [= <-].
Qed.

Lemma removeConnection_fine n w : core w → closing n w → fine (removeConnection same_loop w).
Proof.
  intros [C1 C2 C3 C4 C5] (A1 & A2 & A3 & A4 & A5). unfold removeConnection, removeConnectionInLoop.
  destruct (server_ w) eqn:Es; [|intros ? [=]].
  destruct same_loop.
  - unfold assert. rewrite A3. apply fine_ok. split; [apply queue_core; [by cbn; rewrite A1|by split]|].
    intros _. apply (ph_removed _ n (pendingFunctors_ w) []); try done. constructor.
  - apply fine_ok. split; [by split|]. intros _. apply (ph_removing _ n); try done. cbn. by rewrite A2.
Qed.

Lemma handleClose_fine l w :
  stream w → good w → asked w = 0%Z → fine (handleClose same_loop l w).
Proof.
  intros Hw [C P] Ha w' E L. unfold handleClose, assert in E. destruct (open_state _) eqn:Ho; [|done].
  change (set_channel disableAll (set_state kDisconnected w)) with (down w) in E.
  assert (core (down w)) as Cv by (apply down_core; [apply C|done]).
  assert (stream (down w)) as Sv by (by destruct Hw).
  pose proof (callback_keeps EvDown l (down w) Sv Cv ltac:(done)) as K.
  destruct (callback EvDown l (down w)) as [w1| |]; [|done..]. cbn [rbind] in E.
  destruct (removeConnection_late _ _ E) as [L1 Hs]. rewrite L1 in L.
  destruct (K w1 eq_refl L) as [C1 F]. pose proof (a_server _ _ (f_aside _ _ F)) as Es. cbn in Es.
  destruct (open_phase w (P ltac:(congruence)) Ho) as (n & A2 & A3 & A4 & A5).
  apply (removeConnection_fine n w1 C1); [|exact E|by rewrite L1]. apply (frame_closing n _ _ F).
  split_and!; try done. rewrite log_called. change (log (down w)) with (log w). by rewrite A4.
Qed.

Lemma connectEstablished_fine l w fs :
  stream w → good w → pendingFunctors_ w = FconnectEstablished :: fs →
  fine (connectEstablished l (set_asked 0 (set_pending fs w))).
Proof.
  intros Hw [C P] E. unfold connectEstablished, assert. cbn [conn set_pending set_asked].
  case_bool_decide as A1; [|intros ? [=]]. destruct C as [C1 C2 C3 C4 C5].
  set (v := set_channel _ _).
  destruct (C3 A1) as (Hc & Hs & Hr & _ & _). rewrite A1 in C1. cbn in C1.
  assert (core v) as Cv.
  { split; cbn; try done. rewrite bool_decide_eq_true_2 by done. by rewrite C1, Hr. }
  apply (keeps_fine (called EvUp v)); [|apply callback_keeps; [by destruct Hw|done..]].
  intros Hsv. specialize (P Hsv).
  destruct P as [fs' _ A2 A3 A4 A5 A6|n A _ _ _ _|n A _ _ _ _|n fs1 fs2 A _ _ _ _ _ _|n A _ _ _ _ _];
    try (by rewrite A1 in A).
  rewrite E in A5. injection A5 as <-. apply (ph_open _ 0); try done. rewrite log_called.
  change (log v) with (log w). by rewrite A4.
Qed.


Lemma remove_core c w : core w → remove (channel_ (conn w)) = Ok c → core (set_channel (λ _, c) w).
Proof.
  intros [C1 C2 C3 C4 C5]. unfold remove, assert. destruct (isNoneEvent _); [|done]. intros [= <-]. by split.
Qed.

Lemma connectDestroyed_core mid l w w' :
  stream w → core w → asked w = 0%Z → connectDestroyed mid l w = Ok w' → late w' = false →
  core w' ∧ server_ w' = server_ w.
Proof.
  intros Hw C Ha E L. unfold connectDestroyed in E. case_bool_decide as Hst.
  - destruct (others_bytes mid w) as [B A]. pose proof (a_asked _ _ A) as Ea.
    change (set_channel disableAll (set_state kDisconnected (others mid w))) with (down (others mid w)) in E.
    assert (stream (down (others mid w))) as Sv by (apply (same_bytes_stream w); [exact B|done]).
    assert (core (down (others mid w))) as Cv by (apply down_core; rewrite Ea; [apply C|done]).
    pose proof (callback_keeps EvDown l _ Sv Cv ltac:(done)) as K.
    destruct (callback EvDown l _) as [w1| |]; [|done..]. cbn [rbind] in E.
    destruct (remove _) as [c| |] eqn:Er; [|done..]. injection E as <-.
    destruct (K w1 eq_refl L) as [C1 F]. split; [by apply remove_core|].
    transitivity (server_ (others mid w)); [exact (a_server _ _ (f_aside _ _ F))|exact (a_server _ _ A)].
  - cbn [rbind] in E. destruct (remove _) as [c| |] eqn:Er; [|done..]. injection E as <-.
    split; [by apply remove_core|done].
Qed.

(** A functor leaves the queue. *)
Lemma pop_core f fs w : core w → pendingFunctors_ w = f :: fs → core (set_asked 0 (set_pending fs w)).
Proof.
  intros [C1 C2 C3 C4 C5] E. split; cbn; try done. intros A. destruct (C3 A) as (? & ? & ? & ? & H).
  rewrite E in H. by apply Forall_cons in H as [_ H].
Qed.

Lemma connectDestroyed_fine mid l w fs :
  stream w → good w → pendingFunctors_ w = FconnectDestroyed :: fs →
  fine (connectDestroyed mid l (set_asked 0 (set_pending fs w))).
Proof.
  intros Hw [C P] E w' Ew L. pose proof (pop_core _ _ _ C E) as C0.
  assert (stream (set_asked 0 (set_pending fs w))) as Hw0 by (by destruct Hw).
  destruct (connectDestroyed_core _ _ _ _ Hw0 C0 eq_refl Ew L) as [C' Es]. split; [done|].
  cbn in Es. rewrite Es. intros Hs. specialize (P Hs).
  destruct P as [fs' _ _ _ _ A5 _|n _ _ _ _ A5|n _ _ _ _ A5|n fs1 fs2 A1 A2 A3 A4 A5 A6 A7|n _ _ _ _ A5 _];
    rewrite E in A5; try (by apply Forall_cons in A5 as [? _]); [done|].
  destruct fs1 as [|f fs1]; [|injection A5 as <- _; by apply Forall_cons in A6 as [? _]].
  injection A5 as ->. unfold connectDestroyed, remove, assert in Ew. cbn [conn set_pending set_asked] in Ew.
  rewrite A1 in Ew. cbn [rbind] in Ew. rewrite bool_decide_eq_false_2 in Ew by done. cbn [rbind] in Ew.
  cbn [conn set_pending set_asked] in Ew. destruct (isNoneEvent _); [|done]. injection Ew as <-.
  by apply (ph_destroyed _ n).
Qed.

Lemma pop_user f fs w :
  good w → pendingFunctors_ w = f :: fs → user_functor f = true →
  good (set_asked 0 (set_pending fs w)) ∧ st_of w ≠ kConnecting.
Proof.
  intros [C P] E Hf. split.
  2: { intros A. destruct (c_new w C A) as (_ & _ & _ & _ & H). rewrite E in H.
       apply Forall_cons in H as [H _]. by rewrite Hf in H. }
  split; [by eapply pop_core|]. intros Hs. specialize (P Hs).
  destruct P as [fs' _ _ _ _ A5 _|n A1 A2 A3 A4 A5|n A1 A2 A3 A4 A5|n fs1 fs2 A1 A2 A3 A4 A5 A6 A7|n A1 A2 A3 A4 A5 A6];
    rewrite E in A5.
  1: by injection A5 as ->.
  1, 2, 4: apply Forall_cons in A5 as [_ A5].
  4: destruct fs1 as [|f' fs1]; [by injection A5 as ->|injection A5 as -> A5; apply Forall_cons in A6 as [_ A6]].
  - by apply (ph_open _ n).
  - by apply (ph_removing _ n).
  - by apply (ph_destroyed _ n).
  - by apply (ph_removed _ n fs1 fs2).
Qed.

Lemma functor_fine f fs o mid l w :
  stream w → good w → pendingFunctors_ w = f :: fs →
  fine (run_functor same_loop f o mid l (set_asked 0 (set_pending fs w))).
Proof.
  intros Hw G E. pose proof (pop_user f fs w G E) as Hpop.
  assert (stream (set_asked 0 (set_pending fs w))) as Hw0 by (by destruct Hw).
  destruct f; cbn; [by apply connectEstablished_fine|by apply connectDestroyed_fine|..];
    destruct (Hpop eq_refl) as [[C P] Hst].
  - apply (keeps_fine _ _ P). by apply sendInLoop_keeps.
  - apply (keeps_fine _ _ P). by apply shutdownInLoop_keeps.
  - unfold forceCloseInLoop. destruct (open_state _) eqn:Ho; [|by apply fine_ok].
    by apply handleClose_fine.
  - apply (keeps_fine _ _ P). by apply startReadInLoop_keeps.
  - apply (keeps_fine _ _ P). by apply stopReadInLoop_keeps.
  - apply silent_callback; [by left|done..].
  - apply silent_callback; [right; by eexists|done..].
Qed.

Lemma handleRead_fine r l w :
  stream w → good w → asked w = 0%Z → open_state (st_of w) = true → fine (handleRead same_loop r l w).
Proof.
  intros Hw [C P] Ha Ho. unfold handleRead. destruct r as [s|]; cbn [sock_read]; [|by apply fine_ok].
  destruct (take _ s) as [|c s'] eqn:Et; [by apply handleClose_fine|].
  destruct (open_ne _ Ho) as [_ Hst].
  pose proof (handleRead_safe same_loop (Got s) l w Hw) as HS. unfold handleRead in HS. cbn [sock_read] in HS.
  rewrite Et in HS.
  destruct (readFd _ _) as [b| |] eqn:Er; [|intros ? [=]..]. cbn [rbind] in *.
  apply (keeps_fine (called EvMessage (set_input b w))).
  - intros Hs. destruct (open_phase w (P Hs) Ho) as (n & A2 & A3 & A4 & A5).
    apply (ph_open _ (S n)); try done. rewrite log_called. change (log (set_input b w)) with (log w).
    rewrite A4. unfold up_log. by rewrite <- app_comm_cons, <- replicate_cons_app.
  - apply callback_keeps; [|by destruct C|done].
    pose proof (readFd_outcome (c :: s') (in_of w) (s_input w Hw) (taken_le _ _ _ _ (s_input w Hw) Et)) as Hr.
    rewrite Er in Hr. destruct Hr as (Hb & _). destruct Hw. by split.
Qed.
End Life.

(** *** Writing *)

Lemma queue_if (b : bool) f w :
  user_functor f = true → st_of w ≠ kConnecting → core w →
  core (if b then queueInLoop f w else w) ∧ frame w (if b then queueInLoop f w else w).
Proof.
  intros Hf Hst C. destruct b; [split; [by apply queue_core|by apply queue_frame]|].
  split; [done|apply frame_refl].
Qed.

(** What [handleWrite] does to an open connection that waits for room. *)
Lemma handleWrite_writes n w :
  stream w → core w → isWriting (channel_ (conn w)) = true → shut w = false →
  let k := (S n `min` length (content (out_of w)))%nat in
  ∃ w', handleWrite (Wrote (S n)) w = Ok w' ∧ core w' ∧ frame w w' ∧
    sent w' = sent w ++ take k (content (out_of w)) ∧
    content (out_of w') = drop k (content (out_of w)) ∧ accepted w' = accepted w ∧
    st_of w' = st_of w ∧ late w' = late w ∧
    (content (out_of w') = [] → st_of w = kDisconnecting → shut w' = true).
Proof.
  intros Hst C Hw Hs k. unfold handleWrite. rewrite Hw. unfold sock_write. rewrite Hs. fold k.
  pose proof Hw as Hw'. rewrite (writing_iff w C) in Hw'. apply andb_true_iff in Hw' as [Ho Hne].
  apply negb_true_iff, bool_decide_eq_false in Hne. destruct (open_ne _ Ho) as [Hnd Hnc].
  assert (∃ k', k = S k') as [k' Ek].
  { unfold k. destruct (content (out_of w)); [done|]. cbn. by eexists. }
  rewrite Ek. rewrite <- Ek.
  destruct (retrieve_ok k (out_of w) (s_output w Hst)) as (b & Er & Hb & Hc & _); [unfold k; lia|].
  cbn [conn wrote]. rewrite Er. cbn [rbind]. rewrite (readable_zero b Hb).
  set (v := set_output b (wrote _ w)).
  pose proof (c_channel w C) as Hev. rewrite Ho, bool_decide_eq_false_2 in Hev by done.
  assert (Hcore : ∀ f, events_ (f (channel_ (conn w))) =
    bits (reading_ (conn w)) (negb (bool_decide (content b = []))) →
    core (set_channel f v) ∧ frame w (set_channel f v)).
  { intros f Hf. destruct C as [C1 C2 C3 C4 C5]. split.
    - split; cbn; try done; [by rewrite Ho|intros Hs'; congruence].
    - split; [by split|by left|by apply no_functors|done]. }
  case_bool_decide as Hcb.
  - destruct (Hcore disableWriting) as [C' F']; [cbn; rewrite Hev; by destruct (reading_ _)|].
    set (v1 := set_channel disableWriting v) in *.
    destruct (queue_if (writeCompleteCallback_ (conn v1)) FwriteComplete v1 eq_refl Hnc C') as [C2 F2].
    set (v2 := if writeCompleteCallback_ (conn v1) then _ else v1) in *.
    assert (E2 : conn v2 = conn v1 ∧ sent v2 = sent v1 ∧ accepted v2 = accepted v1 ∧ late v2 = late v1).
    { unfold v2. by destruct (writeCompleteCallback_ _). }
    destruct E2 as (E2 & E3 & E4 & E5). clearbody v2.
    assert (frame w v2) as F by (by eapply frame_trans).
    eexists. split; [reflexivity|]. rewrite E2. case_bool_decide as Hd.
    + assert (shutdownInLoop v2 = shutdownWrite v2) as ->.
      { unfold shutdownInLoop. rewrite E2. unfold isWriting. cbn. rewrite Hev. by destruct (reading_ _). }
      split_and!; cbn; rewrite ?E2, ?E3, ?E4, ?E5; try done.
      * destruct C2 as [D1 D2 D3 D4 D5]. split; cbn; try done; [|by rewrite E2].
        intros _ _. by rewrite E2.
      * eapply frame_trans; [exact F|]. split; [by split|by left|by apply no_functors|done].
    + by split_and!; rewrite ?E2, ?E3, ?E4, ?E5.
  - eexists. split; [reflexivity|]. destruct (Hcore (λ c, c)) as [C' F']; [done|].
    assert (set_channel (λ c, c) v = v) as Ev by (unfold v, set_channel, set_output, set_conn; done).
    rewrite Ev in C', F'. by split_and!.
Qed.

(** [handleWrite] always returns. *)
Lemma handleWrite_keeps o w :
  stream w → core w → ∃ w', handleWrite o w = Ok w' ∧ core w' ∧ frame w w'.
Proof.
  intros Hw C. assert (∃ w', Ok w = Ok w' ∧ core w' ∧ frame w w') as Hid.
  { exists w. split_and!; [done..|apply frame_refl]. }
  destruct (isWriting (channel_ (conn w))) eqn:Ew; [|by unfold handleWrite; rewrite Ew].
  destruct (shut w) eqn:Hs; [by unfold handleWrite, sock_write; rewrite Ew, Hs|].
  destruct o as [[|n]|e]; [by unfold handleWrite, sock_write; rewrite Ew, Hs| |
    by unfold handleWrite, sock_write; rewrite Ew, Hs].
  destruct (handleWrite_writes n w Hw C Ew Hs) as (w' & E & C' & F & _). by exists w'.
Qed.


(** *** Events of the poller *)

Lemma has_bits_lor x m1 m2 : has_bits x (Z.lor m1 m2) = has_bits x m1 || has_bits x m2.
Proof.
  unfold has_bits. rewrite Z.land_lor_distr_r, <- negb_andb. f_equal.
  apply eq_true_iff_eq. rewrite andb_true_iff, !Z.eqb_eq. apply Z.lor_eq_0_iff.
Qed.

Lemma no_bit x m k :
  (0 ≤ k)%Z → Z.ldiff x m = 0%Z → Z.testbit m k = false → has_bits x (2 ^ k) = false.
Proof.
  intros Hk H Hm. assert (Hb : Z.testbit x k = false).
  { pose proof (f_equal (λ z, Z.testbit z k) H) as E. cbv beta in E.
    rewrite Z.ldiff_spec, Hm, Z.bits_0, andb_true_r in E. done. }
  unfold has_bits. apply negb_false_iff, Z.eqb_eq, Z.bits_inj'. intros j Hj.
  rewrite Z.land_spec, Z.bits_0, Z.pow2_bits_eqb by lia.
  destruct (Z.eqb_spec k j) as [<-|]; [by rewrite Hb|by rewrite andb_false_r].
Qed.

(** An event comes to an open connection, and asks for at most one of the closing and the
    reading handler. *)
Lemma legal_open revents w :
  core w → legal_revents (asked w) revents = true →
  open_state (st_of w) = true ∧ has_bits revents POLLRDHUP = false ∧
  (has_bits revents POLLHUP && negb (has_bits revents POLLIN) = true →
   has_bits revents (Z.lor POLLIN (Z.lor POLLPRI POLLRDHUP)) = false).
Proof.
  intros C Hl. unfold legal_revents in Hl. apply andb_true_iff in Hl as [Hl Hpri].
  apply andb_true_iff in Hl as [Hn Hl]. apply Z.eqb_eq in Hl. apply negb_true_iff, Z.eqb_neq in Hn.
  assert (has_bits revents POLLRDHUP = false) as Hrd.
  { apply (no_bit revents _ 13 ltac:(lia) Hl). rewrite Z.lor_spec.
    pose proof (f_equal (λ z, Z.testbit z 13) (c_polled w C)) as E. cbv beta in E.
    rewrite Z.ldiff_spec, Z.bits_0, andb_true_r in E. by rewrite E. }
  split_and!; [by apply (c_asked w C)|done|]. intros Hh. rewrite Hh in Hpri. cbn in Hpri.
  apply negb_true_iff in Hpri. apply andb_true_iff in Hh as [_ Hin]. apply negb_true_iff in Hin.
  by rewrite !has_bits_lor, Hin, Hpri, Hrd.
Qed.

Section Steps.
Variable same_loop : bool.

Lemma handleWrite_fine o w : stream w → good w → fine (handleWrite o w).
Proof.
  intros Hw [C P]. apply (keeps_fine w); [done|]. intros w' E _.
  destruct (handleWrite_keeps o w Hw C) as (w1 & E1 & C1 & F1). rewrite E in E1. by injection E1 as <-.
Qed.

Lemma handleEvent_fine revents r o l w :
  stream w → good w → legal_revents (asked w) revents = true →
  fine (handleEvent same_loop revents r o l (set_asked 0 w)).
Proof.
  intros Hw [C P] Hl w' E L. destruct (legal_open revents w C Hl) as (Ho & Hrd & Hno).
  assert (stream (set_asked 0 w)) as Hw0 by by destruct Hw.
  assert (good (set_asked 0 w)) as G0.
  { split; [by destruct C; split|]. intros Hs. destruct (P Hs);
      [eapply ph_new|eapply ph_open|eapply ph_removing|eapply ph_removed|eapply ph_destroyed]; done. }
  unfold handleEvent in E.
  assert (∀ r1, safe (set_asked 0 w) r1 → fine r1 →
    (let* w := r1 in if has_bits revents POLLOUT then handleWrite o w else Ok w) = Ok w' → good w') as Hwr.
  { intros r1 S1 F1 E1. destruct r1 as [w1| |]; [|done..]. cbn [rbind] in E1.
    destruct (S1 w1 eq_refl) as [Sw1 _]. destruct (has_bits revents POLLOUT).
    - destruct (handleWrite_safe o w1 Sw1 w' E1) as [_ L1]. destruct (late w1) eqn:El; [by rewrite L1 in L|].
      exact (handleWrite_fine o w1 Sw1 (F1 w1 eq_refl El) w' E1 L).
    - injection E1 as <-. by apply F1. }
  destruct (has_bits revents POLLHUP && negb (has_bits revents POLLIN)) eqn:Eh.
  - rewrite (Hno eq_refl) in E. cbn [rbind] in E.
    apply (Hwr (handleClose same_loop l (set_asked 0 w))); [by apply handleClose_safe|by apply handleClose_fine|].
    destruct (handleClose _ _ _); [|done..]. exact E.
  - cbn [rbind] in E. eapply Hwr; [| |exact E].
    + destruct (has_bits revents (Z.lor POLLIN _)); [by apply handleRead_safe|by apply safe_ok].
    + destruct (has_bits revents (Z.lor POLLIN _)); [by apply handleRead_fine|by apply fine_ok].
Qed.

Lemma removal_fine n w :
  good w → removals w = S n → fine (removeConnectionInLoop (set_server n (connections_ w) (server_ w) w)).
Proof.
  intros [C P] E. unfold removeConnectionInLoop. cbn [server_ set_server].
  destruct (server_ w) eqn:Es; [|intros ? [=]]. specialize (P eq_refl).
  destruct P as [fs _ A2|m _ A2|m A1 A2 A3 A4 A5|m fs1 fs2 _ A2|m _ A2]; try congruence.
  rewrite E in A2. injection A2 as ->. unfold assert. cbn. rewrite A3.
  apply fine_ok. split; [apply queue_core; [by cbn; rewrite A1|by destruct C; split]|]. intros _.
  apply (ph_removed _ m (pendingFunctors_ w) []); try done. constructor.
Qed.

Lemma destroy_fine mid l w :
  stream w → good w → fine (destroyServer same_loop mid l w).
Proof.
  intros Hw [C _] w' E L. unfold destroyServer in E.
  assert (core (set_server (removals w) false false w)) as C1 by (by destruct C; split).
  destruct (connections_ w); [|by injection E as <-]. destruct same_loop.
  - set (v := set_asked 0 _) in E. assert (core v) as Cv by (by destruct C; split).
    destruct (connectDestroyed_core mid l v w') as [C' Es]; [by destruct Hw|done..|]. split; [done|].
    rewrite Es. done.
  - injection E as <-. split; [|done]. destruct C as [D1 D2 D3 D4 D5]. split; try done. cbn. intros A.
    destruct (D3 A) as (? & ? & ? & ? & ?). split_and!; try done. apply Forall_app. by repeat constructor.
Qed.

Definition sound (w : world) : Prop := stream w ∧ (late w = false → good w).

Lemma new_sound wc hw mark : sound (newConnection wc hw mark).
Proof.
  destruct Buffer_default_ok as (_ & Hb & Hc & _). split.
  - split; cbn [newConnection conn outputBuffer_ inputBuffer_ TcpConnection_new sent accepted]; done.
  - intros _. split; [|intros _; apply (ph_new _ []); try done; constructor].
    split; try done. intros _. split_and!; try done; [apply not_elem_of_nil|by repeat constructor].
Qed.

Lemma user_not_new w : core w → EvUp ∈ events w → st_of w ≠ kConnecting.
Proof. intros C Hu E. by destruct (c_new w C E) as (_ & _ & _ & H & _). Qed.

Lemma step_sound w w' : sound w → step same_loop w w' → sound w'.
Proof.
  intros [Hw G] St. destruct (step_safe same_loop w w' Hw St) as [Hw' Hlate]. split; [done|].
  intros L. destruct (late w) eqn:L0; [by rewrite Hlate in L|]. specialize (G eq_refl). pose proof G as [C P].
  destruct St as [w|revents r o l w w' Hl E|f fs o mid l w w' Ep E|a w w' Hu E|o w Hu|n w w' Er E|mid l w w' Es E].
  - split.
    + destruct C as [C1 C2 C3 C4 C5]. split; cbn; try done; [|rewrite C1; by destruct (open_state _)].
      rewrite C1. destruct (open_state _); [|done]. by destruct (reading_ _), (negb _).
    + intros Hs. destruct (P Hs); [eapply ph_new|eapply ph_open|eapply ph_removing|eapply ph_removed|eapply ph_destroyed]; done.
  - exact (handleEvent_fine _ _ _ _ w Hw G Hl w' E L).
  - exact (functor_fine same_loop f fs o mid l w Hw G Ep w' E L).
  - eapply (keeps_fine w); [done| |exact E|done]. apply act_keeps; [done..|by apply user_not_new].
  - eapply (keeps_fine w); [done| |reflexivity|done]. apply other_keeps; [done|by apply user_not_new].
  - exact (removal_fine n w G Er w' E L).
  - exact (destroy_fine mid l w Hw G w' E L).
Qed.

Lemma reachable_sound w : reachable same_loop w → sound w.
Proof. induction 1; [apply new_sound|by eapply step_sound]. Qed.
End Steps.

(** *** Every handler returns *)


Section Total.
Variable same_loop : bool.





End Total.

(** C6: Whatever the peer, the kernel, the user's callbacks and other threads do, in any order,
    the race of [shutdown] and [forceClose] and the destruction of the server included: the
    bytes accepted for sending are those given to the socket followed by those in the output
    buffer, none lost, repeated or reordered.  And unless a call came too late (another thread
    stored [kDisconnecting], or reading was switched, after the connection had gone down), an
    open connection waits for room to write exactly when some are left, for input unless its
    user stopped it, and its writing side is shut only when none are left. *)
Theorem sends_are_a_stream same_loop w :
  reachable same_loop w →
  sent w ++ content (outputBuffer_ (conn w)) = accepted w ∧
  (late w = false → open_state (state_ (conn w)) = true →
   isWriting (channel_ (conn w)) = negb (bool_decide (content (outputBuffer_ (conn w)) = [])) ∧
   isReading (channel_ (conn w)) = reading_ (conn w) ∧
   (shut w = true → sent w = accepted w)).
Proof.
  intros [Hw G]%reachable_sound. split; [apply Hw|]. intros L Ho. destruct (G L) as [C _]. split_and!.
  - by rewrite (writing_iff w C), Ho.
  - unfold isReading. rewrite (c_channel w C), Ho. by destruct (reading_ _), (bool_decide _).
  - intros Hs. by rewrite <- (s_stream w Hw), (c_shut w C Hs Ho), app_nil_r.
Qed.


(** ** Draining *)

(** Events of room to write, in each of which the kernel takes at least one byte. *)
Fixpoint write_events (same_loop : bool) (ns : list nat) (w : world) : result world :=
  match ns with
  | [] => Ok w
  | n :: ns => let* w := handleEvent same_loop POLLOUT ReadError (Wrote (S n)) [] w in
      write_events same_loop ns w
  end.

Lemma write_event same_loop o w : handleEvent same_loop POLLOUT ReadError o [] w = handleWrite o w.
Proof. done. Qed.

Lemma drained_idle same_loop ns w :
  isWriting (channel_ (conn w)) = false → write_events same_loop ns w = Ok w.
Proof.
  intros Hw. induction ns as [|n ns IH]; [done|]. cbn [write_events]. rewrite write_event.
  unfold handleWrite. by rewrite Hw.
Qed.

Lemma drain same_loop ns w :
  stream w → core w → isWriting (channel_ (conn w)) = true → (length (content (out_of w)) ≤ length ns)%nat →
  ∃ w', write_events same_loop ns w = Ok w' ∧ sent w' = accepted w ∧
    (st_of w = kDisconnecting → shut w' = true).
Proof.
  revert w. induction ns as [|n ns IH]; intros w Hs C Hw Hlen;
    (pose proof Hw as E; rewrite (writing_iff w C) in E; apply andb_true_iff in E as [Ho E];
     apply negb_true_iff, bool_decide_eq_false in E).
  { destruct (content (out_of w)); [done|cbn in Hlen; lia]. }
  assert (Hsh : shut w = false).
  { destruct (shut w) eqn:Hsh; [|done]. by destruct (E (c_shut w C Hsh Ho)). }
  destruct (handleWrite_writes n w Hs C Hw Hsh) as (w1 & E1 & C1 & F1 & Es & Ec & Ea & Est & _ & Hshut).
  destruct (handleWrite_safe _ w Hs w1 E1) as [S1 _].
  cbn [write_events]. rewrite write_event, E1. cbn [rbind].
  pose proof (s_stream w1 S1) as Estream. rewrite Ea in Estream.
  destruct (isWriting (channel_ (conn w1))) eqn:Hw1.
  - destruct (IH w1 S1 C1 Hw1) as (w' & E' & Es' & Hsh').
    { rewrite Ec, length_drop. cbn in Hlen. lia. }
    exists w'. split_and!; [done|by rewrite Es', Ea|]. intros Hd. apply Hsh'. by rewrite Est.
  - rewrite drained_idle by done. exists w1.
    assert (content (out_of w1) = []) as Hc.
    { pose proof (writing_iff w1 C1) as E2. rewrite Hw1, Est, Ho in E2.
      symmetry in E2. by apply negb_false_iff, bool_decide_eq_true in E2. }
    rewrite Hc, app_nil_r in Estream. split_and!; [done..|]. auto.
Qed.

(** What waits in the output buffer gets out: after as many events of room to write as
    there are bytes left, however few the kernel takes at each, everything accepted has been
    sent, and a connection that was shut down while bytes waited has then closed its
    writing side. *)
Theorem output_drains same_loop ns w :
  reachable same_loop w → late w = false → isWriting (channel_ (conn w)) = true →
  (length (content (outputBuffer_ (conn w))) ≤ length ns)%nat →
  ∃ w', write_events same_loop ns w = Ok w' ∧ sent w' = accepted w ∧
    (state_ (conn w) = kDisconnecting → shut w' = true).
Proof.
  intros [Hs G]%reachable_sound L Hw Hlen. by apply drain; [|apply (G L)|..].
Qed.

(** ** Runs *)

(** The steps, with their outcomes, as a program. *)
Inductive move : Type :=
  | Poll
  | Event (revents : Z) (r : read_result) (o : write_result) (l : list action)
  | Functor (o : write_result) (mid : list other) (l : list action)
  | Action (a : action)
  | Other (o : other)
  | Removal
  | Destroy (mid : list other) (l : list action).

Definition up (w : world) : bool := existsb (λ e, match e with EvUp => true | _ => false end) (events w).

Definition make (same_loop : bool) (m : move) (w : world) : result world :=
  match m with
  | Poll => Ok (set_asked (events_of w) w)
  | Event revents r o l =>
      if legal_revents (asked w) revents then handleEvent same_loop revents r o l (set_asked 0 w) else Ok w
  | Functor o mid l =>
      match pendingFunctors_ w with
      | f :: fs => run_functor same_loop f o mid l (set_asked 0 (set_pending fs w))
      | [] => Ok w
      end
  | Action a => if up w then act a w else Ok w
  | Other o => Ok (if up w then other_step o w else w)
  | Removal =>
      match removals w with
      | S n => removeConnectionInLoop (set_server n (connections_ w) (server_ w) w)
      | O => Ok w
      end
  | Destroy mid l => if server_ w then destroyServer same_loop mid l w else Ok w
  end.
Fixpoint run (same_loop : bool) (ms : list move) (w : world) : result world :=
  match ms with
  | [] => Ok w
  | m :: ms => let* w := make same_loop m w in run same_loop ms w
  end.

Lemma make_reachable same_loop m w w' :
  reachable same_loop w → make same_loop m w = Ok w' → reachable same_loop w'.
Proof.
  intros R E. assert (up w = true → EvUp ∈ events w) as Hup.
  { unfold up. rewrite existsb_exists. intros (e & He & Hb). destruct e; try done. by apply list_elem_of_In. }
  destruct m; cbn in E.
  - injection E as <-. eapply reachable_step; [exact R|apply step_poll].
  - destruct (legal_revents _ _) eqn:El; [|by injection E as <-].
    eapply reachable_step; [exact R|by eapply step_event].
  - destruct (pendingFunctors_ w) eqn:Ep; [by injection E as <-|].
    eapply reachable_step; [exact R|by eapply step_functor].
  - destruct (up w); [|by injection E as <-]. eapply reachable_step; [exact R|eapply step_action; [by apply Hup|exact E]].
  - injection E as <-. destruct (up w); [|done]. eapply reachable_step; [exact R|apply step_other; by apply Hup].
  - destruct (removals w) eqn:Er; [by injection E as <-|].
    eapply reachable_step; [exact R|by eapply step_removal].
  - destruct (server_ w) eqn:Es; [|by injection E as <-].
    eapply reachable_step; [exact R|by eapply step_destroy].
Qed.

Lemma run_reachable same_loop ms w w' :
  reachable same_loop w → run same_loop ms w = Ok w' → reachable same_loop w'.
Proof.
  revert w. induction ms as [|m ms IH]; intros w R E; [by injection E as <-|]. cbn in E.
  destruct (make same_loop m w) as [w1| |] eqn:E1; [|done..]. eapply IH; [|exact E]. by eapply make_reachable.
Qed.

Definition get (same_loop : bool) (ms : list move) : world :=
  match run same_loop ms (newConnection true true 2) with
  | Ok w => w
  | _ => newConnection true true 2
  end.

Lemma get_reachable same_loop ms : reachable same_loop (get same_loop ms).
Proof.
  unfold get. destruct (run _ _ _) eqn:E; [eapply run_reachable; [|exact E]|..]; apply reachable_new.
Qed.

(** A connection that came up, sent [hello] of which the kernel took two bytes, and was shut
    down by another thread, in its three steps. *)
Definition demo_moves : list move :=
  [Functor (Wrote 0) [] []; Action (Asend "hello" (Wrote 2)); Other (Obegin CallShutdown);
   Other (Oresume 0); Other (Oresume 0)].
Definition demo_closing : world := get true demo_moves.

Lemma sends_are_a_stream_witness :
  sent demo_closing ++ content (outputBuffer_ (conn demo_closing)) = accepted demo_closing ∧
  (late demo_closing = false → open_state (state_ (conn demo_closing)) = true →
   isWriting (channel_ (conn demo_closing)) =
     negb (bool_decide (content (outputBuffer_ (conn demo_closing)) = [])) ∧
   isReading (channel_ (conn demo_closing)) = reading_ (conn demo_closing) ∧
   (shut demo_closing = true → sent demo_closing = accepted demo_closing)) ∧
  content (outputBuffer_ (conn demo_closing)) = cstr "llo" ∧
  state_ (conn demo_closing) = kDisconnecting ∧ late demo_closing = false.
Proof.
  destruct (sends_are_a_stream true demo_closing (get_reachable true demo_moves)) as [H1 H2].
  split; [exact H1|]. split; [exact H2|]. vm_compute. split; [reflexivity|split; reflexivity].
Defined.


Lemma output_drains_witness :
  ∃ w', write_events true [0; 1; 0]%nat demo_closing = Ok w' ∧ sent w' = accepted demo_closing ∧
    (state_ (conn demo_closing) = kDisconnecting → shut w' = true).
Proof.
  apply output_drains; [apply get_reachable|vm_compute; reflexivity..|vm_compute; lia].
Defined.

(** The race: another thread tests the state, the peer closes, the thread stores.  The functor of
    its [forceClose] then closes the connection again, which the server no longer has. *)
Definition race : list move :=
  [Functor (Wrote 0) [] []; Other (Obegin CallForceClose);
   Poll; Event POLLIN (Got []) (Wrote 0) []; Other (Oresume 0); Other (Oresume 0); Functor (Wrote 0) [] []].
Example late_close_twice :
  late (get true race) = true ∧ pendingFunctors_ (get true race) = [FforceCloseInLoop] ∧
  run true (race ++ [Functor (Wrote 0) [] []]) (newConnection true true 2) = Undef AssertFailed.
Proof. vm_compute. split_and!; reflexivity. Qed.

(** A raced [shutdown] leaves [kDisconnecting] behind, in which the destructor's assertion
    fails, with bytes in the output buffer that nothing writes. *)
Definition race_shutdown : list move :=
  [Functor (Wrote 0) [] []; Action (Asend "hello" (Wrote 2)); Other (Obegin CallShutdown);
   Poll; Event POLLIN (Got []) (Wrote 0) []; Other (Oresume 0); Other (Oresume 0); Functor (Wrote 0) [] []].
Example late_shutdown_stays :
  let w := get true race_shutdown in
  late w = true ∧ connections_ w = false ∧ state_ (conn w) = kDisconnecting ∧
  content (outputBuffer_ (conn w)) = cstr "llo" ∧ isWriting (channel_ (conn w)) = false.
Proof. vm_compute. split_and!; reflexivity. Qed.

(** Reading that is switched on by the callback that tells of the end. *)
Example late_start_read :
  run true [Functor (Wrote 0) [] []; Poll; Event POLLIN (Got []) (Wrote 0) [AstartRead];
            Functor (Wrote 0) [] []] (newConnection true true 2) = Undef AssertFailed.
Proof. vm_compute. reflexivity. Qed.

(** A server that is destroyed while a connection is [kDisconnecting]. *)
Example server_destroyed :
  run true [Functor (Wrote 0) [] []; Action Ashutdown; Destroy [] []] (newConnection true true 2) =
    Undef AssertFailed.
Proof. vm_compute. reflexivity. Qed.

End Conn.
