(* ===== verification/EventLoop.v ===== *)
(** [muduo/net/EventLoop.{h,cc}] and [muduo/net/poller/EPollPoller.{h,cc}], the loop in which
    every handler and functor of a thread runs, and the channels its poller watches (the
    files are the same in the three services).

    [Loop]: the loop's thread goes through [loop()] one step at a time, and may queue functors
    and ask to quit while it is outside; other threads queue functors and ask it to quit at
    any moment, and wake it by its eventfd in a later step.
    What callbacks call is an argument of the step that runs them.  [Poll]: the table of
    channels and the set of interest that the kernel keeps. *)

From S2P Require Import Prelude MuduoBuffer.

Module Loop.
Import Buf.

(** ** The loop and its thread *)

(** A channel that the poller reports: that of the eventfd, or another. *)
Inductive chan : Type := Wakeup | Other.

(** Where the loop's thread is. *)
Inductive pc : Type :=
  | NotLooping
  | Testing                          (* [while (!quit_)] *)
  | Polling                          (* in [poll] *)
  | Handling (active : list chan)    (* what is left of [activeChannels_] *)
  | Swapping                         (* before the swap in [doPendingFunctors] *)
  | Running (functors : list nat).   (* what is left of [functors] *)

(** A functor is a number. *)
Record EventLoop : Type := MkLoop {
  looping_ : bool;
  quit_ : bool;
  eventHandling_ : bool;
  callingPendingFunctors_ : bool;
  iteration_ : Z;
  pendingFunctors_ : list nat;
  wakeupFd_ : Z;                     (* the counter of the eventfd *)
  at_ : pc;
  waking : nat;                      (* other threads that still have to call [wakeup] *)
  queued : list nat;                 (* every functor ever queued *)
  ran : list nat;                    (* every functor that was run *)
  outside : list nat                 (* queued by the loop's own thread outside [loop()], and not
                                        yet taken *)
}.

Definition EventLoop_new : EventLoop := MkLoop false false false false 0 [] 0 NotLooping 0 [] [] [].

Definition set_at (p : pc) (s : EventLoop) : EventLoop :=
  MkLoop (looping_ s) (quit_ s) (eventHandling_ s) (callingPendingFunctors_ s) (iteration_ s)
    (pendingFunctors_ s) (wakeupFd_ s) p (waking s) (queued s) (ran s) (outside s).
Definition set_flags (looping quit handling calling : bool) (s : EventLoop) : EventLoop :=
  MkLoop looping quit handling calling (iteration_ s) (pendingFunctors_ s) (wakeupFd_ s) (at_ s)
    (waking s) (queued s) (ran s) (outside s).
Definition set_wakeup (fd : Z) (n : nat) (s : EventLoop) : EventLoop :=
  MkLoop (looping_ s) (quit_ s) (eventHandling_ s) (callingPendingFunctors_ s) (iteration_ s)
    (pendingFunctors_ s) fd (at_ s) n (queued s) (ran s) (outside s).

(** The eventfd is not blocking: a [write] that would go beyond its greatest value fails and
    is logged. *)
Definition eventfd_max : Z := 2 ^ 64 - 2.

Definition wakeup (s : EventLoop) : EventLoop :=
  set_wakeup (if (wakeupFd_ s <? eventfd_max)%Z then wakeupFd_ s + 1 else wakeupFd_ s)%Z (waking s) s.

(** [handleRead] of the eventfd *)
Definition handleRead (s : EventLoop) : EventLoop := set_wakeup 0 (waking s) s.

(** The wake-up of another thread is left to its next step. *)
Definition wakeup_later (s : EventLoop) : EventLoop := set_wakeup (wakeupFd_ s) (S (waking s)) s.

Definition quit (in_loop : bool) (s : EventLoop) : EventLoop :=
  let s := set_flags (looping_ s) true (eventHandling_ s) (callingPendingFunctors_ s) s in
  if in_loop then s else wakeup_later s.

(** The loop's thread is not in [loop()]. *)
Definition is_outside (s : EventLoop) : bool := match at_ s with NotLooping => true | _ => false end.

Definition queueInLoop (in_loop : bool) (f : nat) (s : EventLoop) : EventLoop :=
  let s := MkLoop (looping_ s) (quit_ s) (eventHandling_ s) (callingPendingFunctors_ s)
    (iteration_ s) (pendingFunctors_ s ++ [f]) (wakeupFd_ s) (at_ s) (waking s) (queued s ++ [f])
    (ran s) (if in_loop && is_outside s then outside s ++ [f] else outside s) in
  if negb in_loop || callingPendingFunctors_ s then
    if in_loop then wakeup s else wakeup_later s
  else s.

(** [runInLoop]; [cb] is what the functor [f] does. *)
Definition runInLoop (in_loop : bool) (f : nat) (cb : EventLoop → EventLoop) (s : EventLoop)
    : EventLoop :=
  if in_loop then cb s else queueInLoop false f s.

(** What a callback in the loop's thread does to the loop. *)
Inductive act : Type := AQueue (f : nat) | AQuit.
Definition do_act (a : act) (s : EventLoop) : EventLoop :=
  match a with AQueue f => queueInLoop true f s | AQuit => quit true s end.
Definition do_acts (l : list act) (s : EventLoop) : EventLoop := foldl (λ s a, do_act a s) s l.

(** One step of the loop's thread: [active] is what [poll] reports, [acts] what the callback
    of the step calls. *)
Definition loop_step (active : list chan) (acts : list act) (s : EventLoop) : result EventLoop :=
  match at_ s with
  | NotLooping =>
      assert (negb (looping_ s))
        (Ok (set_at Testing (set_flags true false (eventHandling_ s) (callingPendingFunctors_ s) s)))
  | Testing =>
      Ok (if quit_ s
          then set_at NotLooping
                 (set_flags false (quit_ s) (eventHandling_ s) (callingPendingFunctors_ s) s)
          else set_at Polling s)
  | Polling =>
      Ok (MkLoop (looping_ s) (quit_ s) true (callingPendingFunctors_ s) (iteration_ s + 1)
            (pendingFunctors_ s) (wakeupFd_ s) (Handling active) (waking s) (queued s) (ran s) (outside s))
  | Handling (Wakeup :: l) => Ok (handleRead (set_at (Handling l) s))
  | Handling (Other :: l) => Ok (do_acts acts (set_at (Handling l) s))
  | Handling [] => Ok (set_at Swapping (set_flags (looping_ s) (quit_ s) false true s))
  | Swapping =>
      Ok (MkLoop (looping_ s) (quit_ s) (eventHandling_ s) (callingPendingFunctors_ s) (iteration_ s)
            [] (wakeupFd_ s) (Running (pendingFunctors_ s)) (waking s) (queued s) (ran s) [])
  | Running (f :: fs) =>
      Ok (do_acts acts
            (MkLoop (looping_ s) (quit_ s) (eventHandling_ s) (callingPendingFunctors_ s)
               (iteration_ s) (pendingFunctors_ s) (wakeupFd_ s) (Running fs) (waking s) (queued s)
               (ran s ++ [f]) (outside s)))
  | Running [] =>
      Ok (set_at Testing (set_flags (looping_ s) (quit_ s) (eventHandling_ s) false s))
  end.

(** [poll] reports the eventfd only when its counter is not zero; it reports nothing when its
    time is over, and does not end before that when nothing is ready. *)
Definition legal_poll (active : list chan) (s : EventLoop) : Prop :=
  at_ s = Polling → Wakeup ∈ active → (0 < wakeupFd_ s)%Z.

Inductive step : EventLoop → EventLoop → Prop :=
  | step_loop active acts s s' :
      legal_poll active s → loop_step active acts s = Ok s' → step s s'
  | step_outside acts s : at_ s = NotLooping → step s (do_acts acts s)
  | step_queue f s : step s (queueInLoop false f s)
  | step_quit s : step s (quit false s)
  | step_wake n s : waking s = S n → step s (wakeup (set_wakeup (wakeupFd_ s) n s)).

Inductive reachable : EventLoop → Prop :=
  | reachable_new : reachable EventLoop_new
  | reachable_step s s' : reachable s → step s s' → reachable s'.

(** The loop's thread alone for [k] steps: [active] is what [poll] reports, and [e] what the
    callback of a step calls, which may depend on all that happened before. *)
Fixpoint run_loop (active : list chan) (e : EventLoop → list act) (k : nat) (s : EventLoop)
    : result EventLoop :=
  match k with
  | O => Ok s
  | S k => let* s := loop_step active (e s) s in run_loop active e k s
  end.

(** ** The invariant *)

Definition running (s : EventLoop) : list nat := match at_ s with Running fs => fs | _ => [] end.

(** The eventfd is readable, or is about to be. *)
Definition awake (s : EventLoop) : Prop := (0 < wakeupFd_ s)%Z ∨ waking s ≠ 0%nat.

Record inv (s : EventLoop) : Prop := {
  i_order : queued s = ran s ++ running s ++ pendingFunctors_ s;
  i_fd : (0 ≤ wakeupFd_ s ≤ eventfd_max)%Z;
  i_calling : callingPendingFunctors_ s = match at_ s with Swapping | Running _ => true | _ => false end;
  i_looping : looping_ s = match at_ s with NotLooping => false | _ => true end;
  i_owed : match at_ s with
           | Handling _ | Swapping => True
           | _ => pendingFunctors_ s = outside s ∨ awake s
           end;
  i_quit : at_ s = Polling → quit_ s = true → awake s
}.

Lemma wakeup_range s :
  (0 ≤ wakeupFd_ s ≤ eventfd_max)%Z → (0 < wakeupFd_ (wakeup s) ≤ eventfd_max)%Z.
Proof.
  intros H. assert (0 < eventfd_max)%Z by done. unfold wakeup. cbn [wakeupFd_ set_wakeup].
  destruct (Z.ltb_spec (wakeupFd_ s) eventfd_max); lia.
Qed.

(** Queueing from the loop's thread outside [loop()], and while it handles events or runs
    functors, and from another thread at any time. *)
Lemma queueInLoop_inv in_loop f s :
  inv s → (in_loop = true → match at_ s with NotLooping | Handling _ | Running _ => True | _ => False end) →
  inv (queueInLoop in_loop f s).
Proof.
  intros H Hl. pose proof (wakeup_range s (i_fd s H)) as Hw. destruct H as [H1 H2 H3 H4 H5 H6].
  assert (queued s ++ [f] = ran s ++ running s ++ pendingFunctors_ s ++ [f]) as Ho.
  { by rewrite H1, <- !app_assoc. }
  unfold queueInLoop. cbn [callingPendingFunctors_]. destruct in_loop; cbn [negb orb].
  - rewrite H3. destruct (at_ s) as [| | |l| |fs] eqn:Hat; try by destruct (Hl eq_refl).
    + assert (is_outside s = true) as Hout by (unfold is_outside; by rewrite Hat).
      split; cbn; rewrite ?Hat, ?Hout; try done.
      * unfold running in *. cbn. by rewrite Hat in *.
      * destruct H5 as [->|H5]; [by left|by right].
    + split; cbn; rewrite ?Hat; try done. unfold running in *. cbn. by rewrite Hat in *.
    + split; cbn; rewrite ?Hat; try done; [unfold running in *; cbn; by rewrite Hat in *|cbn in Hw; lia|].
      right. left. apply Hw.
  - split; cbn; try done.
    + destruct (at_ s); try done; right; by right.
    + intros _ _. by right.
Qed.

Lemma quit_inv in_loop s :
  inv s → (in_loop = true → match at_ s with NotLooping | Handling _ | Running _ => True | _ => False end) →
  inv (quit in_loop s).
Proof.
  intros [H1 H2 H3 H4 H5 H6] Hl. destruct in_loop.
  - split; try done. cbn. intros E. rewrite E in Hl. by destruct (Hl eq_refl).
  - split; try done; cbn; [|intros _ _; by right].
    destruct (at_ s); try done; right; by right.
Qed.

(** What the loop's thread keeps while a callback runs. *)
Definition same_place (s s' : EventLoop) : Prop :=
  at_ s' = at_ s ∧ ran s' = ran s ∧ (∃ l, pendingFunctors_ s' = pendingFunctors_ s ++ l) ∧
  (quit_ s = true → quit_ s' = true).

Lemma do_acts_inv l s :
  inv s → match at_ s with NotLooping | Handling _ | Running _ => True | _ => False end →
  inv (do_acts l s) ∧ same_place s (do_acts l s).
Proof.
  revert s. induction l as [|a l IH]; intros s H Hat.
  { split; [done|]. repeat split; [|done]. exists []. by rewrite app_nil_r. }
  assert (inv (do_act a s) ∧ same_place s (do_act a s)) as [Ha (A1 & A2 & [l1 A3] & A4)].
  { destruct a as [f|]; cbn [do_act].
    - split; [by apply queueInLoop_inv|]. unfold queueInLoop. cbn.
      destruct (callingPendingFunctors_ s); repeat split; try done; by exists [f].
    - split; [by apply quit_inv|]. repeat split; try done. exists []. by rewrite app_nil_r. }
  destruct (IH (do_act a s) Ha) as [Hl (B1 & B2 & [l2 B3] & B4)]; [by rewrite A1|].
  split; [done|]. split_and!; [by rewrite <- A1|by rewrite <- A2| |by auto].
  exists (l1 ++ l2). change (do_acts (a :: l) s) with (do_acts l (do_act a s)).
  by rewrite B3, A3, app_assoc.
Qed.

(** Every step of the loop's thread succeeds and keeps the invariant. *)
Lemma loop_step_inv active acts s :
  inv s → legal_poll active s → ∃ s', loop_step active acts s = Ok s' ∧ inv s'.
Proof.
  intros H Hp. pose proof H as [H1 H2 H3 H4 H5 H6]. unfold loop_step, running in *.
  destruct (at_ s) as [| | |[|[] l]| |[|f fs]] eqn:Hat.
  - rewrite H4. eexists. split; [reflexivity|]. by split.
  - eexists. split; [reflexivity|]. destruct (quit_ s) eqn:Hq; split; cbn; try done; by rewrite Hq.
  - eexists. split; [reflexivity|]. by split.
  - eexists. split; [reflexivity|]. by split.
  - eexists. split; [reflexivity|]. by split.
  - eexists. split; [reflexivity|]. apply do_acts_inv; [|done]. by split.
  - eexists. split; [reflexivity|]. split; cbn; try done; [|by left].
    unfold running. cbn. by rewrite app_nil_r.
  - eexists. split; [reflexivity|]. by split.
  - eexists. split; [reflexivity|]. apply do_acts_inv; [|done]. split; cbn; try done.
    unfold running. cbn. by rewrite H1, <- !app_assoc.
Qed.

Lemma functors_step_inv s s' : inv s → step s s' → inv s'.
Proof.
  intros H Hs. destruct Hs as [active acts s s' Hp E|acts s Hat|f s|s|n s Hn].
  - destruct (loop_step_inv active acts s H Hp) as (s1 & E1 & H1). congruence.
  - apply do_acts_inv; [done|by rewrite Hat].
  - by apply queueInLoop_inv.
  - by apply quit_inv.
  - pose proof (wakeup_range s (i_fd s H)) as Hw. destruct H as [H1 H2 H3 H4 H5 H6].
    assert (0 < wakeupFd_ (wakeup (set_wakeup (wakeupFd_ s) n s)) ≤ eventfd_max)%Z as Hw2 by apply Hw.
    split; try done; [lia| |intros _ _; by left; apply Hw].
    cbn. destruct (at_ s); try done; right; left; apply Hw.
Qed.

Lemma new_inv : inv EventLoop_new.
Proof. split; try done. by left. Qed.

Lemma functors_reachable_inv s : reachable s → inv s.
Proof. induction 1; [apply new_inv|by eapply functors_step_inv]. Qed.

(** ** One round of the loop *)

Section Round.
Context (active : list chan) (e : EventLoop → list act).

(** A step that is not in [poll]. *)
Lemma own_step s :
  inv s → at_ s ≠ Polling → ∃ s', loop_step active (e s) s = Ok s' ∧ inv s'.
Proof. intros H Hat. apply loop_step_inv; [done|]. by intros ?. Qed.

Lemma run_step k s s1 : loop_step active (e s) s = Ok s1 → run_loop active e (S k) s = run_loop active e k s1.
Proof. intros E. cbn [run_loop]. by rewrite E. Qed.

(** Where a run of the loop's thread ends when it has run [fs] and then comes back to the
    test of [quit_]. *)
Definition ends_round (fs : list nat) (s : EventLoop) : Prop :=
  ∃ k s', run_loop active e k s = Ok s' ∧ at_ s' = Testing ∧
    (∃ more, ran s' = ran s ++ fs ++ more) ∧ (quit_ s = true → quit_ s' = true).

Lemma ends_round_step fs s s1 :
  loop_step active (e s) s = Ok s1 → ran s1 = ran s → (quit_ s = true → quit_ s1 = true) →
  ends_round fs s1 → ends_round fs s.
Proof.
  intros E Hr Hq (k & s' & E' & Hat & [more Hran] & Hq'). exists (S k), s'.
  split_and!; [by rewrite (run_step k s s1)|done| |by auto]. exists more. by rewrite Hran, Hr.
Qed.

Lemma functors_end_round fs s : inv s → at_ s = Running fs → ends_round fs s.
Proof.
  revert s. induction fs as [|f fs IH]; intros s H Hat;
    (destruct (own_step s H) as (s1 & E & H1); [by rewrite Hat|]); pose proof E as E1;
    unfold loop_step in E; rewrite Hat in E.
  - injection E as <-. eexists 1%nat, _. split; [by rewrite (run_step 0 _ _ E1)|].
    split_and!; [done| |done]. exists []. cbn. by rewrite app_nil_r.
  - injection E as E. match type of E with do_acts _ ?s0 = _ => set (s0' := s0) in E end.
    assert (inv s0') as H0.
    { pose proof (i_calling s H) as Hc. destruct H as [G1 G2 G3 G4 G5 G6]. rewrite Hat in *.
      split; cbn; try done. unfold running in *. cbn. rewrite Hat in G1. by rewrite G1, <- !app_assoc. }
    destruct (do_acts_inv (e s) s0' H0 I) as [_ (A1 & A2 & _ & A4)]. rewrite E in A1, A2, A4.
    destruct (IH s1 H1 A1) as (k & s' & E' & B1 & [more B2] & B3). exists (S k), s'.
    split_and!; [by rewrite (run_step k s s1)|done| |by auto]. exists more. rewrite B2, A2. cbn.
    by rewrite <- !app_assoc.
Qed.

Lemma handlers_end_round l s : inv s → at_ s = Handling l → ends_round (pendingFunctors_ s) s.
Proof.
  revert s. induction l as [|c l IH]; intros s H Hat;
    (destruct (own_step s H) as (s1 & E & H1); [by rewrite Hat|]); pose proof E as E1;
    unfold loop_step in E; rewrite Hat in E.
  - injection E as <-. eapply ends_round_step; [exact E1|done|done|].
    destruct (own_step _ H1) as (s2 & E2 & H2); [done|]. pose proof E2 as E3. cbn in E2. injection E2 as <-.
    eapply ends_round_step; [exact E3|done|done|]. by apply functors_end_round.
  - destruct c.
    + injection E as <-. eapply ends_round_step; [exact E1|done|done|]. by apply (IH _ H1).
    + injection E as E. destruct (do_acts_inv (e s) (set_at (Handling l) s)) as [_ P]; [|done|].
      { destruct H as [G1 G2 G3 G4 G5 G6]. rewrite Hat in *. split; cbn; try done.
        unfold running in *. cbn. by rewrite Hat in G1. }
      rewrite E in P. destruct P as (A1 & A2 & [l1 A3] & A4).
      eapply ends_round_step; [exact E1|exact A2|exact A4|].
      destruct (IH s1 H1 A1) as (k & s' & E' & B1 & [more B2] & B3). exists k, s'.
      split_and!; [done|done| |done]. exists (l1 ++ more). rewrite B2, A3. cbn. by rewrite <- app_assoc.
Qed.
End Round.

(** C9: Functors queued by any threads at any moments, the loop's own thread outside [loop()]
    included, are run once each, in the order in which they were queued.  The loop never
    sleeps in [poll] on a request to quit or on a queued functor, since the
    eventfd is readable or about to be, with one exception: when all that waits was queued by
    the loop's own thread outside [loop()], the first [poll] may last its whole time.  When
    [poll] returns, whatever it reports and the callbacks do, the round runs all that waited
    and comes back to the test of [quit_].  (A request to quit that comes before [loop()]
    is forgotten: [quit_before_loop].) *)
Theorem functors_run_in_order s :
  reachable s →
  queued s = ran s ++ running s ++ pendingFunctors_ s ∧
  (at_ s = Polling → pendingFunctors_ s ≠ outside s ∨ quit_ s = true →
    (0 < wakeupFd_ s)%Z ∨ waking s ≠ 0%nat) ∧
  (∀ active e, at_ s = Polling → legal_poll active s →
    ∃ k s', run_loop active e k s = Ok s' ∧ at_ s' = Testing ∧
      (∃ more, ran s' = ran s ++ pendingFunctors_ s ++ more) ∧
      (quit_ s = true → quit_ s' = true)).
Proof.
  intros H%functors_reachable_inv. split_and!; [apply H| |].
  - intros Hat [Hp|Hq]; [|by apply (i_quit s H)]. pose proof (i_owed s H) as Ho. rewrite Hat in Ho.
    by destruct Ho.
  - intros active e Hat Hp. destruct (loop_step_inv active (e s) s H Hp) as (s1 & E & H1).
    pose proof E as E1. unfold loop_step in E. rewrite Hat in E. injection E as <-.
    eapply ends_round_step; [exact E1|done|done|]. by apply (handlers_end_round active e active _ H1).
Qed.

(** A functor queued by another thread while the loop polls, the thread's wake-up, and what
    the loop then does. *)
Definition demo_polling : result EventLoop := run_loop [] (λ _, []) 2 EventLoop_new.
Definition demo_queued : EventLoop :=
  match demo_polling with
  | Ok s => let s := queueInLoop false 7 s in wakeup (set_wakeup (wakeupFd_ s) 0 s)
  | _ => EventLoop_new
  end.

Lemma demo_loop_reachable : reachable demo_queued.
Proof.
  eapply reachable_step; [eapply reachable_step; [eapply reachable_step; [eapply reachable_step;
    [apply reachable_new|]|]|]|].
  - by apply (step_loop [] []).
  - by apply (step_loop [] []).
  - apply (step_queue 7).
  - by apply (step_wake 0).
Qed.

Lemma functors_run_in_order_witness :
  (0 < wakeupFd_ demo_queued)%Z ∧
  ∃ k s', run_loop [Wakeup; Other] (λ _, [AQueue 8]) k demo_queued = Ok s' ∧ at_ s' = Testing ∧
    (∃ more, ran s' = ran demo_queued ++ [7%nat] ++ more) ∧
    (quit_ demo_queued = true → quit_ s' = true).
Proof.
  destruct (functors_run_in_order demo_queued demo_loop_reachable) as (_ & _ & H). split; [reflexivity|].
  apply (H [Wakeup; Other] (λ _, [AQueue 8])); [reflexivity|]. intros _ _. reflexivity.
Defined.

(** A functor that the loop's own thread queues before [loop()] wakes nobody: the first
    [poll] waits for its whole time. *)
Example queued_before_loop :
  ∃ s, reachable s ∧ at_ s = Polling ∧ pendingFunctors_ s = [7%nat] ∧ outside s = [7%nat] ∧
    wakeupFd_ s = 0%Z ∧ waking s = 0%nat.
Proof.
  eexists. split.
  { eapply reachable_step; [eapply reachable_step; [eapply reachable_step; [apply reachable_new|]|]|].
    - by apply (step_outside [AQueue 7]).
    - by apply (step_loop [] []).
    - by apply (step_loop [] []). }
  by split_and!.
Qed.

(** A request to quit that comes before [loop()] is forgotten. *)
Example quit_before_loop :
  ∃ s, run_loop [] (λ _, []) 2 (quit false EventLoop_new) = Ok s ∧ at_ s = Polling ∧ quit_ s = false.
Proof. eexists. split; [reflexivity|]. by split. Qed.

End Loop.

Module Poll.
Import Buf.

(** ** The poller and its channels *)

Definition kNew : Z := -1.
Definition kAdded : Z := 1.
Definition kDeleted : Z := 2.

(** What the poller uses of a channel. *)
Record Channel : Type := MkChannel {
  fd_ : Z;
  events_ : Z;
  revents_ : Z;
  index_ : Z;
  addedToLoop_ : bool
}.

Record EPollPoller : Type := MkPoller {
  heap : gmap nat Channel;            (* the channels that exist, by their addresses *)
  channels_ : gmap Z nat;
  interest : gmap Z (Z * nat);        (* what the kernel watches: events and [data.ptr] *)
  events_size : nat                   (* [events_.size()] *)
}.

Definition kInitEventListSize : nat := 16.
Definition EPollPoller_new : EPollPoller := MkPoller ∅ ∅ ∅ kInitEventListSize.

Definition set_channel (c : nat) (ch : Channel) (p : EPollPoller) : EPollPoller :=
  MkPoller (<[c := ch]> (heap p)) (channels_ p) (interest p) (events_size p).
Definition set_interest (i : gmap Z (Z * nat)) (p : EPollPoller) : EPollPoller :=
  MkPoller (heap p) (channels_ p) i (events_size p).
Definition set_channels (m : gmap Z nat) (p : EPollPoller) : EPollPoller :=
  MkPoller (heap p) m (interest p) (events_size p).

(** [*channel] *)
Definition deref {A} (c : nat) (p : EPollPoller) (k : Channel → result A) : result A :=
  match heap p !! c with Some ch => k ch | None => Undef OutOfBounds end.

Definition set_index (c : nat) (i : Z) (p : EPollPoller) : result EPollPoller :=
  deref c p (λ ch, Ok (set_channel c (MkChannel (fd_ ch) (events_ ch) (revents_ ch) i (addedToLoop_ ch)) p)).
Definition set_revents (c : nat) (r : Z) (p : EPollPoller) : result EPollPoller :=
  deref c p (λ ch, Ok (set_channel c (MkChannel (fd_ ch) (events_ ch) r (index_ ch) (addedToLoop_ ch)) p)).

Definition isNoneEvent (ch : Channel) : bool := (events_ ch =? 0)%Z.

(** [update], [epoll_ctl] with its answers: the kernel refuses to add what it has and to modify
    what it has not, which is fatal, and to delete what it has not, which is logged. *)
Inductive operation : Type := EPOLL_CTL_ADD | EPOLL_CTL_MOD | EPOLL_CTL_DEL.
Definition update (op : operation) (c : nat) (p : EPollPoller) : result EPollPoller :=
  deref c p (λ ch,
    match op, interest p !! fd_ ch with
    | EPOLL_CTL_ADD, Some _ | EPOLL_CTL_MOD, None => Undef AssertFailed
    | EPOLL_CTL_ADD, None | EPOLL_CTL_MOD, Some _ =>
        Ok (set_interest (<[fd_ ch := (events_ ch, c)]> (interest p)) p)
    | EPOLL_CTL_DEL, _ => Ok (set_interest (delete (fd_ ch) (interest p)) p)
    end).

Definition updateChannel (c : nat) (p : EPollPoller) : result EPollPoller :=
  deref c p (λ ch,
    if ((index_ ch =? kNew) || (index_ ch =? kDeleted))%Z then
      let* p :=
        (if (index_ ch =? kNew)%Z then
           assert (bool_decide (channels_ p !! fd_ ch = None))
             (Ok (set_channels (<[fd_ ch := c]> (channels_ p)) p))
         else assert (bool_decide (channels_ p !! fd_ ch = Some c)) (Ok p)) in
      let* p := set_index c kAdded p in
      update EPOLL_CTL_ADD c p
    else
      assert (bool_decide (channels_ p !! fd_ ch = Some c))
        (assert (index_ ch =? kAdded)%Z
           (if isNoneEvent ch then
              let* p := update EPOLL_CTL_DEL c p in set_index c kDeleted p
            else update EPOLL_CTL_MOD c p))).

Definition removeChannel (c : nat) (p : EPollPoller) : result EPollPoller :=
  deref c p (λ ch,
    assert (bool_decide (channels_ p !! fd_ ch = Some c))
      (assert (isNoneEvent ch)
         (assert ((index_ ch =? kAdded) || (index_ ch =? kDeleted))%Z
            (let p := set_channels (delete (fd_ ch) (channels_ p)) p in
             let* p := (if (index_ ch =? kAdded)%Z then update EPOLL_CTL_DEL c p else Ok p) in
             set_index c kNew p)))).

Definition hasChannel (c : nat) (p : EPollPoller) : result bool :=
  deref c p (λ ch, Ok (bool_decide (channels_ p !! fd_ ch = Some c))).

(** [fillActiveChannels] of what [epoll_wait] has put into [events_]: events and pointers. *)
Fixpoint fill (reported : list (Z * nat)) (p : EPollPoller) : result (EPollPoller * list nat) :=
  match reported with
  | [] => Ok (p, [])
  | (r, c) :: reported =>
      deref c p (λ ch,
        assert (bool_decide (channels_ p !! fd_ ch = Some c))
          (let* p := set_revents c r p in
           let* x := fill reported p in
           Ok (x.1, c :: x.2)))
  end.

(** [poll]: the active channels. *)
Definition poll (reported : list (Z * nat)) (p : EPollPoller) : result (EPollPoller * list nat) :=
  assert (bool_decide (length reported ≤ events_size p)%nat)
    (let* x := fill reported p in
     let size := events_size x.1 in
     let size := if bool_decide (length reported = size) && negb (bool_decide (reported = []))
                 then (size * 2)%nat else size in
     Ok (MkPoller (heap x.1) (channels_ x.1) (interest x.1) size, x.2)).

(** ** [Channel] and what [EventLoop] adds *)

Definition Channel_new (c : nat) (fd : Z) (p : EPollPoller) : EPollPoller :=
  set_channel c (MkChannel fd 0 0 kNew false) p.

(** [enableReading] and its like: the new events, and [Channel::update]. *)
Definition set_events (c : nat) (events : Z) (p : EPollPoller) : result EPollPoller :=
  deref c p (λ ch,
    updateChannel c (set_channel c (MkChannel (fd_ ch) events (revents_ ch) (index_ ch) true) p)).

(** [EventLoop::removeChannel]; [handling] is the current channel and [activeChannels_] while
    events are handled. *)
Definition loop_removeChannel (handling : option (nat * list nat)) (c : nat) (p : EPollPoller)
    : result EPollPoller :=
  match handling with
  | Some (current, active) =>
      assert (bool_decide (current = c) || negb (bool_decide (c ∈ active))) (removeChannel c p)
  | None => removeChannel c p
  end.

Definition remove (handling : option (nat * list nat)) (c : nat) (p : EPollPoller) : result EPollPoller :=
  deref c p (λ ch,
    assert (isNoneEvent ch)
      (loop_removeChannel handling c
         (set_channel c (MkChannel (fd_ ch) (events_ ch) (revents_ ch) (index_ ch) false) p))).

(** [~Channel] in the loop's thread. *)
Definition Channel_delete (c : nat) (p : EPollPoller) : result EPollPoller :=
  deref c p (λ ch,
    assert (negb (addedToLoop_ ch))
      (let* has := hasChannel c p in
       assert (negb has)
         (Ok (MkPoller (delete c (heap p)) (channels_ p) (interest p) (events_size p))))).

(** What happens to a poller. *)
Inductive call : Type :=
  | CNew (c : nat) (fd : Z)
  | CEvents (c : nat) (events : Z)
  | CRemove (handling : option (nat * list nat)) (c : nat)
  | CDelete (c : nat)
  | CPoll (reported : list (Z * nat)).

Definition perform (a : call) (p : EPollPoller) : result (EPollPoller * list nat) :=
  let quietly r : result (EPollPoller * list nat) := let* p := r in Ok (p, []) in
  match a with
  | CNew c fd => Ok (Channel_new c fd p, [])
  | CEvents c events => quietly (set_events c events p)
  | CRemove handling c => quietly (remove handling c p)
  | CDelete c => quietly (Channel_delete c p)
  | CPoll reported => poll reported p
  end.

(** What those who call owe: a descriptor has one channel, a channel that is removed was added
    and has no events left (and does not wait to be handled), one that is deleted was
    removed.  The kernel reports what it watches, as much as there is room for. *)
Definition legal (p : EPollPoller) (a : call) : Prop :=
  match a with
  | CNew c fd => heap p !! c = None ∧ ∀ c' ch, heap p !! c' = Some ch → fd_ ch ≠ fd
  | CEvents c _ => is_Some (heap p !! c)
  | CRemove handling c =>
      (∃ ch, heap p !! c = Some ch ∧ addedToLoop_ ch = true ∧ events_ ch = 0%Z) ∧
      match handling with Some (current, active) => current = c ∨ c ∉ active | None => True end
  | CDelete c => ∃ ch, heap p !! c = Some ch ∧ addedToLoop_ ch = false
  | CPoll reported =>
      (length reported ≤ events_size p)%nat ∧
      ∀ r c, (r, c) ∈ reported → ∃ fd e, interest p !! fd = Some (e, c)
  end.

Inductive reachable : EPollPoller → Prop :=
  | reachable_new : reachable EPollPoller_new
  | reachable_call p a p' active :
      reachable p → legal p a → perform a p = Ok (p', active) → reachable p'.

(** ** The invariant *)

(** The three states of a channel: unknown to the poller, watched, and known but not watched. *)
Definition chan_state (p : EPollPoller) (c : nat) (ch : Channel) : Prop :=
  (index_ ch = kNew ∧ addedToLoop_ ch = false ∧ events_ ch = 0%Z ∧
   channels_ p !! fd_ ch = None ∧ interest p !! fd_ ch = None) ∨
  (index_ ch = kAdded ∧ addedToLoop_ ch = true ∧
   channels_ p !! fd_ ch = Some c ∧ interest p !! fd_ ch = Some (events_ ch, c)) ∨
  (index_ ch = kDeleted ∧ addedToLoop_ ch = true ∧ events_ ch = 0%Z ∧
   channels_ p !! fd_ ch = Some c ∧ interest p !! fd_ ch = None).

Record inv (p : EPollPoller) : Prop := {
  p_state c ch : heap p !! c = Some ch → chan_state p c ch;
  p_fds c c' ch ch' : heap p !! c = Some ch → heap p !! c' = Some ch' → fd_ ch = fd_ ch' → c = c';
  p_known fd c : channels_ p !! fd = Some c → ∃ ch, heap p !! c = Some ch ∧ fd_ ch = fd;
  p_watched fd e c : interest p !! fd = Some (e, c) → ∃ ch, heap p !! c = Some ch ∧ fd_ ch = fd;
  p_size : (0 < events_size p)%nat
}.

(** A change of one channel, and of the tables at its descriptor. *)
Lemma put_inv p p' c ch ch' :
  inv p → heap p !! c = Some ch → heap p' = <[c := ch']> (heap p) → fd_ ch' = fd_ ch →
  events_size p' = events_size p →
  (∀ fd, fd ≠ fd_ ch → channels_ p' !! fd = channels_ p !! fd ∧ interest p' !! fd = interest p !! fd) →
  chan_state p' c ch' → inv p'.
Proof.
  intros [H1 H2 H3 H4 H5] Hc Hh Hfd Hsz Hf Hst. split.
  - intros c0 ch0. rewrite Hh, lookup_insert_Some. intros [[<- <-]|[Hne H0]]; [done|].
    assert (fd_ ch0 ≠ fd_ ch) as Hn by (intros E; by apply Hne, (H2 c c0 ch ch0)).
    destruct (Hf _ Hn) as [E1 E2]. unfold chan_state. rewrite E1, E2. by apply H1.
  - intros c0 c1 ch0 ch1. rewrite Hh, !lookup_insert_Some.
    intros [[<- <-]|[? H0]] [[<- <-]|[? G0]]; [done|rewrite Hfd|rewrite Hfd|]; intros E;
      [by apply (H2 _ _ ch ch1)|by apply (H2 _ _ ch0 ch)|by apply (H2 _ _ ch0 ch1)].
  - intros fd c0 E. destruct (decide (fd = fd_ ch)) as [->|Hn].
    + destruct Hst as [(_ & _ & _ & E1 & _)|[(_ & _ & E1 & _)|(_ & _ & _ & E1 & _)]];
        rewrite Hfd, E in E1; [done|injection E1 as ->; exists ch'; by rewrite Hh, lookup_insert_eq..].
    + rewrite (proj1 (Hf fd Hn)) in E. destruct (H3 fd c0 E) as (ch0 & G & <-).
      destruct (decide (c = c0)) as [<-|]; [congruence|]. exists ch0. by rewrite Hh, lookup_insert_ne.
  - intros fd e c0 E. destruct (decide (fd = fd_ ch)) as [->|Hn].
    + destruct Hst as [(_ & _ & _ & _ & E1)|[(_ & _ & _ & E1)|(_ & _ & _ & _ & E1)]];
        rewrite Hfd, E in E1; [done| |done]. injection E1 as _ ->. exists ch'. by rewrite Hh, lookup_insert_eq.
    + rewrite (proj2 (Hf fd Hn)) in E. destruct (H4 fd e c0 E) as (ch0 & G & <-).
      destruct (decide (c = c0)) as [<-|]; [congruence|]. exists ch0. by rewrite Hh, lookup_insert_ne.
  - by rewrite Hsz.
Qed.

Lemma deref_Some {A} c p ch (k : Channel → result A) : heap p !! c = Some ch → deref c p k = k ch.
Proof. unfold deref. by intros ->. Qed.

Ltac deref_now := erewrite deref_Some by (cbn; by rewrite lookup_insert_eq).

(** A step ends with a channel and its entries changed as [put_inv] asks; its new state is left. *)
Ltac put :=
  eexists; split; [reflexivity|];
  eapply put_inv; [eassumption|eassumption|cbn; by rewrite ?insert_insert_eq|done|done| |];
  [intros ? ?; cbn; by rewrite ?lookup_insert_ne, ?lookup_delete_ne by done
  |unfold chan_state; cbn; rewrite ?lookup_insert_eq, ?lookup_delete_eq].

Lemma assert_true {A} (b : bool) (k : result A) : b = true → assert b k = k.
Proof. by intros ->. Qed.

Lemma set_events_ok c events p :
  inv p → is_Some (heap p !! c) → ∃ p', set_events c events p = Ok p' ∧ inv p'.
Proof.
  intros H [ch Hc]. unfold set_events. rewrite (deref_Some _ _ _ _ Hc).
  unfold updateChannel. deref_now. cbn [index_ fd_].
  destruct (p_state p H c ch Hc) as [(Ei & Ea & Ee & Em & Ek)|[(Ei & Ea & Em & Ek)|(Ei & Ea & Ee & Em & Ek)]];
    rewrite Ei; cbn [Z.eqb Pos.eqb orb kNew kAdded kDeleted].
  - rewrite assert_true by (by apply bool_decide_eq_true). cbn [rbind].
    unfold set_index. deref_now. cbn [rbind]. unfold update. deref_now. cbn. rewrite Ek.
    put. by right; left.
  - rewrite assert_true by (by apply bool_decide_eq_true). cbn [assert].
    unfold isNoneEvent. cbn [events_]. destruct (Z.eqb_spec events 0) as [->|Hev].
    + unfold update. deref_now. cbn [rbind fd_]. unfold set_index. deref_now. cbn.
      put. by right; right.
    + unfold update. deref_now. cbn. rewrite Ek.
      put. by right; left.
  - rewrite assert_true by (by apply bool_decide_eq_true). cbn [rbind].
    unfold set_index. deref_now. cbn [rbind]. unfold update. deref_now. cbn. rewrite Ek.
    put. by right; left.
Qed.

Lemma removeChannel_ok c ch p :
  inv p → heap p !! c = Some ch → addedToLoop_ ch = true → events_ ch = 0%Z →
  ∃ p', removeChannel c (set_channel c (MkChannel (fd_ ch) (events_ ch) (revents_ ch) (index_ ch) false) p)
    = Ok p' ∧ inv p'.
Proof.
  intros H Hc Ha He. unfold removeChannel. deref_now. unfold isNoneEvent. cbn [fd_ events_ index_].
  rewrite He. destruct (p_state p H c ch Hc) as [(Ei & Ea & Ee & Em & Ek)|[(Ei & Ea & Em & Ek)|(Ei & Ea & Ee & Em & Ek)]];
    [congruence|..]; rewrite Ei, assert_true by (by apply bool_decide_eq_true);
    cbn [assert Z.eqb Pos.eqb orb kAdded kDeleted].
  - unfold update. deref_now. cbn [rbind fd_]. unfold set_index. deref_now. cbn.
    put. by left.
  - cbn [rbind]. unfold set_index. deref_now. cbn.
    put. by left.
Qed.

Lemma new_ok c fd p :
  inv p → legal p (CNew c fd) → inv (Channel_new c fd p).
Proof.
  intros [H1 H2 H3 H4 H5] [Hc Hfd].
  assert (∀ c0 ch0, heap p !! c0 = Some ch0 → c ≠ c0) as Hne by congruence.
  split; cbn; [| | | |done].
  - intros c0 ch0. rewrite lookup_insert_Some. intros [[<- <-]|[_ H0]]; [|by apply H1].
    left. cbn. split_and!; try done.
    + apply eq_None_not_Some. intros [c1 E]. destruct (H3 fd c1 E) as (ch1 & G & E1). by apply (Hfd c1 ch1).
    + apply eq_None_not_Some. intros [[e c1] E]. destruct (H4 fd e c1 E) as (ch1 & G & E1). by apply (Hfd c1 ch1).
  - intros c0 c1 ch0 ch1. rewrite !lookup_insert_Some.
    intros [[<- <-]|[_ H0]] [[<- <-]|[_ G0]]; cbn; [done| | |by apply H2]; intros E;
      [by destruct (Hfd _ _ G0)|by destruct (Hfd _ _ H0)].
  - intros fd0 c0 E. destruct (H3 _ _ E) as (ch0 & G & E0). exists ch0.
    by rewrite lookup_insert_ne by (by eapply Hne).
  - intros fd0 e c0 E. destruct (H4 _ _ _ E) as (ch0 & G & E0). exists ch0.
    by rewrite lookup_insert_ne by (by eapply Hne).
Qed.

Lemma delete_ok c p :
  inv p → legal p (CDelete c) → ∃ p', Channel_delete c p = Ok p' ∧ inv p'.
Proof.
  intros H (ch & Hc & Ha). unfold Channel_delete. rewrite (deref_Some _ _ _ _ Hc), Ha. cbn [assert negb].
  unfold hasChannel. rewrite (deref_Some _ _ _ _ Hc). cbn [rbind].
  destruct (p_state p H c ch Hc) as [(_ & _ & _ & Em & Ek)|[(_ & Ea & _)|(_ & Ea & _)]]; [|congruence..].
  rewrite Em. cbn. eexists. split; [reflexivity|]. destruct H as [H1 H2 H3 H4 H5].
  assert (∀ c0 ch0, heap p !! c0 = Some ch0 → (channels_ p !! fd_ ch0 = Some c0 ∨ ∃ e, interest p !! fd_ ch0 = Some (e, c0)) → c ≠ c0) as Hne.
  { intros c0 ch0 H0 E <-. assert (ch0 = ch) as -> by congruence. destruct E as [E|[e E]]; congruence. }
  split; cbn; [| | | |done].
  - intros c0 ch0 [_ H0]%lookup_delete_Some. by apply H1.
  - intros c0 c1 ch0 ch1 [_ H0]%lookup_delete_Some [_ G0]%lookup_delete_Some. by apply H2.
  - intros fd c0 E. destruct (H3 _ _ E) as (ch0 & G & E0). exists ch0. subst fd.
    by rewrite lookup_delete_ne by (eapply Hne; [done|by left]).
  - intros fd e c0 E. destruct (H4 _ _ _ E) as (ch0 & G & E0). exists ch0. subst fd.
    by rewrite lookup_delete_ne by (eapply Hne; [done|right; by exists e]).
Qed.

(** What [fillActiveChannels] changes is of no account to the tables. *)
Lemma fill_ok reported p :
  inv p → (∀ r c, (r, c) ∈ reported → ∃ fd e, interest p !! fd = Some (e, c)) →
  ∃ p', fill reported p = Ok (p', reported.*2) ∧ inv p' ∧ events_size p' = events_size p.
Proof.
  revert p. induction reported as [|[r c] reported IH]; intros p H Hl; [by exists p|].
  destruct (Hl r c) as (fd & e & E); [by left|]. destruct (p_watched p H fd e c E) as (ch & Hc & <-).
  cbn [fill]. rewrite (deref_Some _ _ _ _ Hc).
  destruct (p_state p H c ch Hc) as [(_ & _ & _ & Em & Ek)|[(Ei & Ea & Em & Ek)|(_ & _ & _ & _ & Ek)]]; [congruence| |congruence].
  rewrite assert_true by (by apply bool_decide_eq_true). unfold set_revents. rewrite (deref_Some _ _ _ _ Hc).
  cbn [rbind]. match goal with |- context [fill reported ?q] => destruct (IH q) as (p' & E' & H' & Hsz) end.
  - eapply put_inv; [exact H|exact Hc|reflexivity|done|done|done|]. right. left. done.
  - intros r0 c0 H0. apply (Hl r0 c0). by right.
  - rewrite E'. cbn. by exists p'.
Qed.

Lemma perform_ok a p :
  inv p → legal p a → ∃ p' active, perform a p = Ok (p', active) ∧ inv p'.
Proof.
  intros H Hl. destruct a as [c fd|c events|handling c|c|reported]; cbn [perform].
  - eexists _, _. split; [reflexivity|]. by apply new_ok.
  - destruct (set_events_ok c events p H Hl) as (p' & -> & H'). by eexists _, _.
  - destruct Hl as [(ch & Hc & Ha & He) Hh].
    destruct (removeChannel_ok c ch p H Hc Ha He) as (p' & E & H').
    exists p', []. split; [|done]. unfold remove. rewrite (deref_Some _ _ _ _ Hc).
    unfold isNoneEvent. rewrite He. cbn [assert Z.eqb]. rewrite He in E.
    unfold loop_removeChannel. destruct handling as [[current active]|]; [|by rewrite E].
    rewrite assert_true, E; [done|]. destruct Hh as [->|Hh]; [by rewrite bool_decide_eq_true_2|].
    rewrite (bool_decide_eq_false_2 (c ∈ active)) by done. apply orb_true_r.
  - destruct (delete_ok c p H Hl) as (p' & -> & H'). by eexists _, _.
  - destruct Hl as [Hn Hr]. unfold poll. rewrite assert_true by (by apply bool_decide_eq_true).
    destruct (fill_ok reported p H Hr) as (p' & -> & H' & Hsz). cbn [rbind].
    eexists _, _. split; [reflexivity|]. destruct H' as [H1 H2 H3 H4 H5]. split; try done. cbn.
    destruct (_ && _); lia.
Qed.

Lemma new_poller_inv : inv EPollPoller_new.
Proof. split; cbn; try (intros *; rewrite lookup_empty; done). unfold kInitEventListSize. lia. Qed.

Lemma poller_reachable_inv p : reachable p → inv p.
Proof.
  induction 1 as [|p a p' active _ IH Hl E]; [apply new_poller_inv|].
  destruct (perform_ok a p IH Hl) as (p1 & active1 & E1 & H1). congruence.
Qed.

(** As long as its callers keep their part, no assertion of the poller or of a channel
    fails and the kernel refuses nothing; the kernel watches exactly the channels that the
    poller has added, for the events they ask for, and every channel that asks for events is
    among them. *)
Theorem poller_watches_channels p :
  reachable p →
  (∀ a, legal p a → ∃ p' active, perform a p = Ok (p', active)) ∧
  (∀ fd e c, interest p !! fd = Some (e, c) ↔
    ∃ ch, heap p !! c = Some ch ∧ fd_ ch = fd ∧ events_ ch = e ∧ index_ ch = kAdded) ∧
  (∀ c ch, heap p !! c = Some ch → events_ ch ≠ 0%Z → interest p !! fd_ ch = Some (events_ ch, c)).
Proof.
  intros H%poller_reachable_inv. split_and!.
  - intros a Hl. destruct (perform_ok a p H Hl) as (p' & active & E & _). eauto.
  - intros fd e c. split.
    + intros E. destruct (p_watched p H fd e c E) as (ch & Hc & <-). exists ch.
      destruct (p_state p H c ch Hc) as [(_ & _ & _ & _ & Ek)|[(Ei & _ & _ & Ek)|(_ & _ & _ & _ & Ek)]];
        [congruence| |congruence]. split_and!; [done|done|congruence|done].
    + intros (ch & Hc & <- & <- & Hi).
      destruct (p_state p H c ch Hc) as [(Ei & _)|[(Ei & _ & _ & Ek)|(Ei & _)]]; [|done|]; by rewrite Hi in Ei.
  - intros c ch Hc He.
    destruct (p_state p H c ch Hc) as [(_ & _ & E & _)|[(_ & _ & _ & Ek)|(_ & _ & E & _)]]; done.
Qed.

(** Two channels of a poller, of which the first is disabled; the second has an event. *)
Definition demo_calls : list call :=
  [CNew 0 5; CEvents 0 3; CNew 1 6; CEvents 1 4; CEvents 0 0]%Z.
Definition perform_all (l : list call) (p : EPollPoller) : result EPollPoller :=
  foldl (λ r a, let* p := r in let* x := perform a p in Ok x.1) (Ok p) l.
Definition demo_poller : EPollPoller :=
  match perform_all demo_calls EPollPoller_new with Ok p => p | _ => EPollPoller_new end.

Lemma demo_reachable_poller : reachable demo_poller.
Proof.
  eapply (reachable_call _ (CEvents 0 0) _ []);
    [eapply (reachable_call _ (CEvents 1 4) _ []); [eapply (reachable_call _ (CNew 1 6) _ []);
      [eapply (reachable_call _ (CEvents 0 3) _ []); [eapply (reachable_call _ (CNew 0 5) _ []);
        [apply reachable_new|..]|..]|..]|..]|..]; try (vm_compute; reflexivity).
  all: try by eexists.
  all: split; [reflexivity|]; intros c' ch E%elem_of_map_to_list; vm_compute in E.
  - apply list_elem_of_singleton in E. by injection E as -> ->.
Qed.

Lemma poller_watches_channels_witness :
  interest demo_poller !! 6%Z = Some (4%Z, 1%nat) ∧
  (∃ p' active, perform (CRemove None 0) demo_poller = Ok (p', active)).
Proof.
  destruct (poller_watches_channels demo_poller demo_reachable_poller) as (H1 & _ & H3). split.
  - apply (H3 1%nat (MkChannel 6 4 0 kAdded true)); [vm_compute; reflexivity|discriminate].
  - apply (H1 (CRemove None 0)). split; [|exact I].
    exists (MkChannel 5 0 0 kDeleted true). vm_compute. auto.
Defined.

(** A channel that is disabled a second time is watched again, for no events; the kernel then
    reports errors and hang-ups of a channel that asks for none. *)
Example disabled_twice :
  ∃ p, perform_all [CNew 0 5; CEvents 0 3; CEvents 0 0; CEvents 0 0]%Z EPollPoller_new = Ok p ∧
    interest p !! 5%Z = Some (0%Z, 0%nat).
Proof. eexists. split; vm_compute; reflexivity. Qed.

End Poll.
