(* ===== verification/ThreadPool.v ===== *)
(** [muduo/base/ThreadPool.{h,cc}], the pool in whose threads the comet service handles
    WebSocket frames (the file is the same in the three services).

    The pool is a monitor with two conditions.  A thread is where it stands in
    [runInThread] or in a call of [run] or [stop]; one step of it takes the mutex, goes on to
    its wait or its return, and releases the mutex.  [notify] wakes one waiting thread, any,
    if there is one, and a wait may end without cause. *)

From S2P Require Import Prelude MuduoBuffer.

Module Pool.
Import Buf.

(** A task is a number. *)
Inductive worker : Type :=
  | WTest                        (* [while (running_)] *)
  | WEnter                       (* before the mutex in [take] *)
  | WWaiting                     (* in [notEmpty_.wait()] *)
  | WWoken
  | WGot (task : option nat)     (* [take] has returned *)
  | WDone.
Inductive caller : Type :=
  | CEnter (task : nat)          (* before the mutex in [run] *)
  | CWaiting (task : nat)        (* in [notFull_.wait()] *)
  | CWoken (task : nat)
  | CReturned (task : nat) (queued : bool)
  | SEnter                       (* before the mutex in [stop] *)
  | SJoining
  | SReturned.

#[export] Instance worker_eq_dec : EqDecision worker.
Proof. solve_decision. Defined.
#[export] Instance caller_eq_dec : EqDecision caller.
Proof. solve_decision. Defined.

Record ThreadPool : Type := MkPool {
  maxQueueSize_ : nat;
  running_ : bool;
  queue_ : list nat;
  threads_ : list worker;
  callers : list caller;
  accepted : list nat;           (* the tasks queued, in their order *)
  taken : list nat;              (* those [take] has returned, in their order *)
  ran : list nat;                (* those that a thread has run to the end *)
  aborted : bool                 (* a task has thrown, and the process has ended *)
}.

Definition with_threads (l : list worker) (p : ThreadPool) : ThreadPool :=
  MkPool (maxQueueSize_ p) (running_ p) (queue_ p) l (callers p) (accepted p) (taken p) (ran p) (aborted p).
Definition with_callers (l : list caller) (p : ThreadPool) : ThreadPool :=
  MkPool (maxQueueSize_ p) (running_ p) (queue_ p) (threads_ p) l (accepted p) (taken p) (ran p) (aborted p).
Definition set_worker (i : nat) (x : worker) (p : ThreadPool) : ThreadPool :=
  with_threads (<[i := x]> (threads_ p)) p.
Definition set_caller (j : nat) (x : caller) (p : ThreadPool) : ThreadPool :=
  with_callers (<[j := x]> (callers p)) p.

(** [start] of a new pool with the given bound. *)
Definition start (max numThreads : nat) : ThreadPool :=
  MkPool max true [] (replicate numThreads WTest) [] [] [] [] false.

Definition isFull (p : ThreadPool) : bool :=
  bool_decide (0 < maxQueueSize_ p)%nat && bool_decide (maxQueueSize_ p ≤ length (queue_ p))%nat.

Definition wake_worker (x : worker) : worker := match x with WWaiting => WWoken | _ => x end.
Definition wake_caller (x : caller) : caller := match x with CWaiting t => CWoken t | _ => x end.

(** [notify] of each condition, where [w] is the thread that is woken. *)
Definition notify_notEmpty (w : option nat) (p : ThreadPool) : ThreadPool :=
  match w with Some i => with_threads (alter wake_worker i (threads_ p)) p | None => p end.
Definition notify_notFull (w : option nat) (p : ThreadPool) : ThreadPool :=
  match w with Some j => with_callers (alter wake_caller j (callers p)) p | None => p end.

(** [take], from the mutex to the wait or the return. *)
Definition take (i : nat) (w : option nat) (p : ThreadPool) : ThreadPool :=
  match queue_ p with
  | [] => set_worker i (if running_ p then WWaiting else WGot None) p
  | task :: queue =>
      let p := set_worker i (WGot (Some task))
        (MkPool (maxQueueSize_ p) (running_ p) queue (threads_ p) (callers p) (accepted p)
           (taken p ++ [task]) (ran p) (aborted p)) in
      if bool_decide (0 < maxQueueSize_ p)%nat then notify_notFull w p else p
  end.

(** [runInThread]: one step of the [i]-th thread; [throws]: the task it runs throws. *)
Definition runInThread (i : nat) (w : option nat) (throws : bool) (p : ThreadPool) : ThreadPool :=
  match threads_ p !! i with
  | Some WTest => set_worker i (if running_ p then WEnter else WDone) p
  | Some WEnter | Some WWoken => take i w p
  | Some (WGot None) => set_worker i WTest p
  | Some (WGot (Some task)) =>
      if throws then
        MkPool (maxQueueSize_ p) (running_ p) (queue_ p) (threads_ p) (callers p) (accepted p)
          (taken p) (ran p) true
      else
        set_worker i WTest
          (MkPool (maxQueueSize_ p) (running_ p) (queue_ p) (threads_ p) (callers p) (accepted p)
             (taken p) (ran p ++ [task]) (aborted p))
  | _ => p
  end.

(** [run], from the mutex to the wait or the return; a pool without threads runs the task in
    the caller's. *)
Definition run (j : nat) (task : nat) (w : option nat) (p : ThreadPool) : result ThreadPool :=
  if bool_decide (threads_ p = []) then
    Ok (set_caller j (CReturned task false)
          (MkPool (maxQueueSize_ p) (running_ p) (queue_ p) (threads_ p) (callers p) (accepted p)
             (taken p) (ran p ++ [task]) (aborted p)))
  else if isFull p && running_ p then Ok (set_caller j (CWaiting task) p)
  else if negb (running_ p) then Ok (set_caller j (CReturned task false) p)
  else
    assert (negb (isFull p))
      (Ok (notify_notEmpty w
             (set_caller j (CReturned task true)
                (MkPool (maxQueueSize_ p) (running_ p) (queue_ p ++ [task]) (threads_ p) (callers p)
                   (accepted p ++ [task]) (taken p) (ran p) (aborted p))))).

(** [stop] up to the end of its block, which wakes every waiting thread. *)
Definition stop (j : nat) (p : ThreadPool) : ThreadPool :=
  set_caller j SJoining
    (MkPool (maxQueueSize_ p) false (queue_ p) (wake_worker <$> threads_ p) (wake_caller <$> callers p)
       (accepted p) (taken p) (ran p) (aborted p)).

(** One step of a caller; [stop] joins the threads one after the other. *)
Definition caller_step (j : nat) (w : option nat) (p : ThreadPool) : result ThreadPool :=
  match callers p !! j with
  | Some (CEnter task) | Some (CWoken task) => run j task w p
  | Some SEnter => Ok (stop j p)
  | Some SJoining =>
      Ok (if bool_decide (Forall (λ x, x = WDone) (threads_ p)) then set_caller j SReturned p else p)
  | _ => Ok p
  end.

(** [notify] finds a waiting thread if there is one. *)
Definition worker_waits (p : ThreadPool) (i : nat) : Prop := threads_ p !! i = Some WWaiting.
Definition caller_waits (p : ThreadPool) (j : nat) : Prop := ∃ task, callers p !! j = Some (CWaiting task).
Definition picks (waits : nat → Prop) (w : option nat) : Prop :=
  match w with Some i => waits i | None => ∀ i, ¬ waits i end.

Inductive step (p : ThreadPool) : ThreadPool → Prop :=
  | step_worker i w throws :
      aborted p = false → picks (caller_waits p) w → step p (runInThread i w throws p)
  | step_caller j w p' :
      aborted p = false → picks (worker_waits p) w → caller_step j w p = Ok p' → step p p'
  | step_spurious_worker i : worker_waits p i → step p (set_worker i WWoken p)
  | step_spurious_caller j task :
      callers p !! j = Some (CWaiting task) → step p (set_caller j (CWoken task) p)
  | step_run task : step p (with_callers (callers p ++ [CEnter task]) p)
  | step_stop : step p (with_callers (callers p ++ [SEnter]) p).

Inductive reachable (max numThreads : nat) : ThreadPool → Prop :=
  | reachable_start : reachable max numThreads (start max numThreads)
  | reachable_step p p' : reachable max numThreads p → step p p' → reachable max numThreads p'.

(** ** The invariant *)

(** The tasks that the threads hold, and how many callers are on their way from a wait. *)
Definition in_hand (x : worker) : list nat := match x with WGot (Some task) => [task] | _ => [] end.
Definition hands (l : list worker) : list nat := l ≫= in_hand.
Definition is_woken (x : caller) : nat := match x with CWoken _ => 1%nat | _ => 0%nat end.
Definition woken (l : list caller) : nat := sum_list_with is_woken l.

Record inv (p : ThreadPool) : Prop := {
  v_fifo : accepted p = taken p ++ queue_ p;
  v_tasks : threads_ p ≠ [] → taken p ≡ₚ ran p ++ hands (threads_ p);
  v_size : (0 < maxQueueSize_ p)%nat → (length (queue_ p) ≤ maxQueueSize_ p)%nat;
  v_awake : running_ p = true → threads_ p ≠ [] → queue_ p ≠ [] → ∃ i x,
    threads_ p !! i = Some x ∧ x ≠ WWaiting;
  v_going : running_ p = true → ∀ i, threads_ p !! i ≠ Some WDone;
  v_room j : running_ p = true → caller_waits p j →
    (maxQueueSize_ p ≤ length (queue_ p) + woken (callers p))%nat;
  v_bounded j : caller_waits p j → (0 < maxQueueSize_ p)%nat ∧ threads_ p ≠ [];
  v_stopped : running_ p = false → (∀ i, ¬ worker_waits p i) ∧ (∀ j, ¬ caller_waits p j)
}.

Lemma hands_insert l i x y :
  l !! i = Some x → in_hand x ++ hands (<[i := y]> l) ≡ₚ in_hand y ++ hands l.
Proof.
  revert i. induction l as [|z l IH]; intros [|i]; intros E; try done; cbn in *.
  - injection E as ->. apply Permutation_app_swap_app.
  - rewrite (Permutation_app_swap_app (in_hand x)). unfold hands in IH. rewrite (IH i E).
    apply Permutation_app_swap_app.
Qed.

Lemma woken_insert l j x y :
  l !! j = Some x → (is_woken x + woken (<[j := y]> l) = is_woken y + woken l)%nat.
Proof.
  unfold woken. revert j. induction l as [|z l IH]; intros [|j] E; [done..| |].
  - injection E as ->. simpl. lia.
  - specialize (IH j E). simpl in *. lia.
Qed.

Lemma alter_insert {A} (f : A → A) (l : list A) i x :
  l !! i = Some x → alter f i l = <[i := f x]> l.
Proof.
  intros E. apply list_eq. intros k. destruct (decide (k = i)) as [->|Hn].
  - rewrite list_lookup_alter_eq, E, list_lookup_insert_eq; [done|by eapply lookup_lt_Some].
  - by rewrite list_lookup_alter_ne, list_lookup_insert_ne.
Qed.

(** Who waits after one thread or caller has moved on. *)
Lemma waits_set_worker i y p k :
  worker_waits (set_worker i y p) k → (k = i ∧ y = WWaiting) ∨ worker_waits p k.
Proof.
  unfold worker_waits. cbn. destruct (decide (k = i)) as [->|Hn].
  - intros E. pose proof (lookup_lt_Some _ _ _ E) as Hl. rewrite length_insert in Hl.
    rewrite list_lookup_insert_eq in E by done. left. by injection E.
  - rewrite list_lookup_insert_ne by done. by right.
Qed.

Lemma waits_set_caller j y p k :
  caller_waits (set_caller j y p) k → (k = j ∧ ∃ t, y = CWaiting t) ∨ caller_waits p k.
Proof.
  unfold caller_waits. cbn. intros [t E]. destruct (decide (k = j)) as [->|Hn].
  - pose proof (lookup_lt_Some _ _ _ E) as Hl. rewrite length_insert in Hl.
    rewrite list_lookup_insert_eq in E by done. injection E as ->. left. eauto.
  - rewrite list_lookup_insert_ne in E by done. right. eauto.
Qed.

(** A thread moves on with the same tasks. *)
Lemma set_worker_inv i x y p :
  inv p → threads_ p !! i = Some x → in_hand y = in_hand x →
  (y = WWaiting → running_ p = true ∧ queue_ p = []) → (y = WDone → running_ p = false) →
  inv (set_worker i y p).
Proof.
  intros [H1 H2 H3 H4 H5 H6 H7 H8] Hx Hh Hw Hd. pose proof (lookup_lt_Some _ _ _ Hx) as Hl.
  assert (∀ l : list worker, <[i := y]> l = [] ↔ l = []) as Hnil.
  { intros l. split; [|by intros ->]. by destruct l, i. }
  split; cbn; try done.
  - intros Hn. rewrite Hnil in Hn. rewrite (H2 Hn). f_equiv. pose proof (hands_insert _ _ _ y Hx) as Hp.
    rewrite Hh in Hp. by apply Permutation_app_inv_l in Hp.
  - intros Hr _ Hq. exists i, y. rewrite list_lookup_insert_eq by done. split; [done|].
    intros ->. by destruct (Hw eq_refl).
  - intros Hr k. destruct (decide (k = i)) as [->|Hn].
    + rewrite list_lookup_insert_eq by done. intros [= ->]. by rewrite Hd in Hr.
    + rewrite list_lookup_insert_ne by done. by apply H5.
  - intros j Hj. rewrite Hnil. by apply (H7 j).
  - intros Hr. destruct (H8 Hr) as [A B]. split; [|done]. intros k [[-> ->]|Hk]%waits_set_worker.
    + destruct (Hw eq_refl). congruence.
    + by apply (A k).
Qed.

(** A caller moves on; unless the queue is full, none of those on their way is lost. *)
Lemma set_caller_inv j x y p :
  inv p → callers p !! j = Some x →
  (∀ t, y = CWaiting t → running_ p = true ∧ isFull p = true ∧ threads_ p ≠ []) →
  (running_ p = true → threads_ p ≠ [] →
    (maxQueueSize_ p ≤ length (queue_ p))%nat ∨ (is_woken x ≤ is_woken y)%nat) →
  inv (set_caller j y p).
Proof.
  intros [H1 H2 H3 H4 H5 H6 H7 H8] Hx Hw Hwk. split; cbn -[woken]; try done.
  - intros k Hr Hk. pose proof (woken_insert _ _ _ y Hx) as Hc.
    apply waits_set_caller in Hk as [[-> [t ->]]|Hk].
    + destruct (Hw t eq_refl) as (_ & Hf & _). unfold isFull in Hf. apply andb_true_iff in Hf as [_ Hf].
      apply bool_decide_eq_true in Hf. lia.
    + specialize (H6 k Hr Hk). destruct (H7 k Hk) as [_ Hn]. destruct (Hwk Hr Hn); lia.
  - intros k [[-> [t ->]]|Hk]%waits_set_caller; [|by apply (H7 k)].
    destruct (Hw t eq_refl) as (_ & Hf & Hn). split; [|done]. unfold isFull in Hf.
    apply andb_true_iff in Hf as [Hf _]. by apply bool_decide_eq_true in Hf.
  - intros Hr. destruct (H8 Hr) as [A B]. split; [done|]. intros k [[-> [t ->]]|Hk]%waits_set_caller.
    + destruct (Hw t eq_refl). congruence.
    + by apply (B k).
Qed.

(** What [notify] does to those that wait and those on their way. *)
Definition notified {A} (f : A → A) (w : option nat) (l : list A) : list A :=
  match w with Some i => alter f i l | None => l end.

Lemma notify_notFull_callers w p :
  notify_notFull w p = with_callers (notified wake_caller w (callers p)) p.
Proof. destruct w; [done|by destruct p]. Qed.
Lemma notify_notEmpty_threads w p :
  notify_notEmpty w p = with_threads (notified wake_worker w (threads_ p)) p.
Proof. destruct w; [done|by destruct p]. Qed.

Lemma notified_callers w p j t :
  picks (caller_waits p) w → notified wake_caller w (callers p) !! j = Some (CWaiting t) →
  caller_waits p j ∧ woken (notified wake_caller w (callers p)) = S (woken (callers p)).
Proof.
  destruct w as [j0|]; cbn [picks notified].
  - intros [t0 Hj0]. rewrite (alter_insert _ _ _ _ Hj0). cbn [wake_caller].
    pose proof (woken_insert _ _ _ (CWoken t0) Hj0) as Hc. cbn [is_woken] in Hc. intros Hj. split; [|lia].
    assert (caller_waits (set_caller j0 (CWoken t0) p) j) as Hj' by by exists t.
    by apply waits_set_caller in Hj' as [[_ [? ?]]|].
  - intros Hw Hj. destruct (Hw j). by exists t.
Qed.

(** A thread takes the first task, and those that waited for room are as [cs] says. *)
Lemma pop_inv i x task q cs p :
  inv p → threads_ p !! i = Some x → in_hand x = [] → queue_ p = task :: q →
  (∀ j t, cs !! j = Some (CWaiting t) → caller_waits p j ∧ (S (woken (callers p)) ≤ woken cs)%nat) →
  inv (MkPool (maxQueueSize_ p) (running_ p) q (<[i := WGot (Some task)]> (threads_ p)) cs (accepted p)
         (taken p ++ [task]) (ran p) (aborted p)).
Proof.
  intros [H1 H2 H3 H4 H5 H6 H7 H8] Hx Hh Hq Hcs. pose proof (lookup_lt_Some _ _ _ Hx) as Hl.
  assert (threads_ p ≠ []) as Hn by (intros E; by rewrite E in Hx).
  rewrite Hq in *. split; cbn [maxQueueSize_ running_ queue_ threads_ callers accepted taken ran].
  - by rewrite H1, <- app_assoc.
  - intros _. rewrite (H2 Hn). pose proof (hands_insert _ _ _ (WGot (Some task)) Hx) as Hp.
    rewrite Hh in Hp. cbn [app in_hand] in Hp. rewrite Hp, <- app_assoc. f_equiv.
    apply (Permutation_app_comm (hands (threads_ p)) [task]).
  - intros Hm. specialize (H3 Hm). cbn [length] in H3. lia.
  - intros _ _ _. exists i, (WGot (Some task)). by rewrite list_lookup_insert_eq.
  - intros Hr k. destruct (decide (k = i)) as [->|]; [by rewrite list_lookup_insert_eq|].
    rewrite list_lookup_insert_ne by done. by apply H5.
  - intros j Hr [t Hj]. destruct (Hcs j t Hj) as [Hj' Hc]. specialize (H6 j Hr Hj'). cbn [length] in H6. lia.
  - intros j [t Hj]. destruct (Hcs j t Hj) as [Hj' _]. split; [by apply (H7 j)|]. by destruct (threads_ p), i.
  - intros Hr. destruct (H8 Hr) as [A B]. split.
    + intros k Hk. apply (waits_set_worker i (WGot (Some task)) p) in Hk as [[_ ?]|Hk]; [done|by apply (A k)].
    + intros j [t Hj]. destruct (Hcs j t Hj) as [Hj' _]. by apply (B j).
Qed.

Lemma take_inv i x w p :
  inv p → threads_ p !! i = Some x → in_hand x = [] → picks (caller_waits p) w → inv (take i w p).
Proof.
  intros H Hx Hh Hw. unfold take. destruct (queue_ p) as [|task q] eqn:Hq.
  { eapply set_worker_inv; [done|done|by destruct (running_ p)|..]; by destruct (running_ p). }
  case_bool_decide as Hm.
  - rewrite notify_notFull_callers.
    apply (pop_inv i x task q (notified wake_caller w (callers p)) p); [done..|]. intros j t Hj.
    destruct (notified_callers w p j t Hw Hj). split; [done|lia].
  - apply (pop_inv i x task q (callers p) p); [done..|]. intros j t Hj.
    destruct (v_bounded p H j) as [? _]; [by exists t|cbn in Hm; lia].
Qed.

(** A caller adds a task, and those that waited for one are as [ts] says. *)
Lemma push_inv j x task ts p :
  inv p → callers p !! j = Some x → (is_woken x ≤ 1)%nat → running_ p = true → isFull p = false →
  threads_ p ≠ [] → length ts = length (threads_ p) → hands ts ≡ₚ hands (threads_ p) →
  (∃ i y, ts !! i = Some y ∧ y ≠ WWaiting) → (∀ i, ts !! i ≠ Some WDone) →
  inv (MkPool (maxQueueSize_ p) (running_ p) (queue_ p ++ [task]) ts
         (<[j := CReturned task true]> (callers p)) (accepted p ++ [task]) (taken p) (ran p) (aborted p)).
Proof.
  intros [H1 H2 H3 H4 H5 H6 H7 H8] Hx Hone Hr Hf Hn Hlen Hh Haw Hgo.
  split; cbn [maxQueueSize_ running_ queue_ threads_ callers accepted taken ran]; try done.
  - by rewrite H1, app_assoc.
  - intros _. by rewrite (H2 Hn), Hh.
  - intros Hm. rewrite length_app. cbn. unfold isFull in Hf. rewrite bool_decide_eq_true_2 in Hf by done.
    apply bool_decide_eq_false in Hf. lia.
  - intros k _ Hk. apply (waits_set_caller j (CReturned task true) p) in Hk as [[_ [? ?]]|Hk]; [done|].
    specialize (H6 k Hr Hk). pose proof (woken_insert _ _ _ (CReturned task true) Hx) as Hc.
    cbn [is_woken] in Hc. rewrite length_app. cbn [length]. lia.
  - intros k Hk. apply (waits_set_caller j (CReturned task true) p) in Hk as [[_ [? ?]]|Hk]; [done|].
    split; [by apply (H7 k)|]. intros ->. by destruct (threads_ p).
  - congruence.
Qed.

Lemma notified_workers w p :
  inv p → picks (worker_waits p) w → running_ p = true → threads_ p ≠ [] →
  let ts := notified wake_worker w (threads_ p) in
  length ts = length (threads_ p) ∧ hands ts ≡ₚ hands (threads_ p) ∧
  (∃ i y, ts !! i = Some y ∧ y ≠ WWaiting) ∧ (∀ i, ts !! i ≠ Some WDone).
Proof.
  intros H Hw Hr Hn. destruct w as [i|]; cbn [picks notified] in *.
  - rewrite (alter_insert _ _ _ _ Hw). cbn [wake_worker]. pose proof (lookup_lt_Some _ _ _ Hw) as Hl.
    split_and!.
    + apply length_insert.
    + apply (hands_insert _ _ _ WWoken Hw).
    + exists i, WWoken. by rewrite list_lookup_insert_eq.
    + intros k. destruct (decide (k = i)) as [->|]; [by rewrite list_lookup_insert_eq|].
      rewrite list_lookup_insert_ne by done. by apply (v_going p H).
  - split_and!; [done|done| |by apply (v_going p H)].
    destruct (threads_ p) as [|y l] eqn:E; [done|]. exists 0%nat, y. split; [done|].
    intros ->. apply (Hw 0%nat). unfold worker_waits. by rewrite E.
Qed.

(** [run] never fails its assertion. *)
Lemma run_inv j task x w p :
  inv p → callers p !! j = Some x → x = CEnter task ∨ x = CWoken task → picks (worker_waits p) w →
  ∃ p', run j task w p = Ok p' ∧ inv p'.
Proof.
  intros H Hx Hxt Hw. unfold run. case_bool_decide as Hn.
  { eexists. split; [reflexivity|].
    assert (inv (set_caller j (CReturned task false) p)) as [H1 H2 H3 H4 H5 H6 H7 H8].
    { eapply set_caller_inv; [done|done|done|]. intros _ ?. done. }
    by split. }
  destruct (isFull p) eqn:Hf, (running_ p) eqn:Hr; cbn [andb negb].
  - eexists. split; [reflexivity|]. eapply set_caller_inv; [done|done| |].
    + intros t [= <-]. done.
    + intros _ _. left. unfold isFull in Hf. apply andb_true_iff in Hf as [_ Hf].
      by apply bool_decide_eq_true in Hf.
  - eexists. split; [reflexivity|]. eapply set_caller_inv; [done|done|done|]. congruence.
  - change (assert true) with (λ k : result ThreadPool, k). cbn beta. eexists. split; [reflexivity|].
    rewrite notify_notEmpty_threads.
    destruct (notified_workers w p H Hw Hr Hn) as (A & B & C & D).
    assert (is_woken x ≤ 1)%nat as Hone by (destruct Hxt as [->| ->]; cbn; lia).
    pose proof (push_inv j x task (notified wake_worker w (threads_ p)) p H Hx Hone Hr Hf Hn A B C D) as P.
    rewrite Hr in P. exact P.
  - eexists. split; [reflexivity|]. eapply set_caller_inv; [done|done|done|]. congruence.
Qed.

Lemma woken_none_waits p :
  (∀ i, ¬ (wake_worker <$> threads_ p) !! i = Some WWaiting) ∧
  (∀ j t, ¬ (wake_caller <$> callers p) !! j = Some (CWaiting t)).
Proof.
  split; intros; rewrite list_lookup_fmap.
  - by destruct (threads_ p !! i) as [[]|].
  - by destruct (callers p !! j) as [[]|].
Qed.

Lemma hands_wake l : hands (wake_worker <$> l) = hands l.
Proof. unfold hands. induction l as [|x l IH]; [done|]. cbn. rewrite IH. by destruct x. Qed.

Lemma stop_inv j p : inv p → callers p !! j = Some SEnter → inv (stop j p).
Proof.
  intros [H1 H2 H3 H4 H5 H6 H7 H8] Hj. destruct (woken_none_waits p) as [A B].
  assert (∀ k, ¬ caller_waits (stop j p) k) as Hno.
  { intros k Hk. unfold stop in Hk. apply waits_set_caller in Hk as [[_ [? ?]]|[t' E]]; [done|].
    by apply (B k t'). }
  split; try done.
  - cbn. intros Hn. rewrite hands_wake. apply H2. intros E. by rewrite E in Hn.
  - intros k Hk. by destruct (Hno k).
Qed.

(** A pool stays in its invariant whatever happens. *)
Lemma worker_inv i w throws p :
  inv p → picks (caller_waits p) w → inv (runInThread i w throws p).
Proof.
  intros H Hw. unfold runInThread. destruct (threads_ p !! i) as [[| | | |[task|]|]|] eqn:Hi; try done.
  - destruct (running_ p) eqn:Hr; eapply set_worker_inv; try done; by rewrite Hr.
  - by eapply take_inv.
  - by eapply take_inv.
  - destruct throws; [by destruct H|]. destruct H as [H1 H2 H3 H4 H5 H6 H7 H8].
    pose proof (lookup_lt_Some _ _ _ Hi) as Hl.
    assert (∀ l : list worker, <[i := WTest]> l = [] ↔ l = []) as Hnil.
    { intros l. split; [|by intros ->]. by destruct l, i. }
    split; cbn -[woken]; try done.
    + intros Hn. rewrite Hnil in Hn. rewrite (H2 Hn). pose proof (hands_insert _ _ _ WTest Hi) as Hp.
      cbn [in_hand app] in Hp. by rewrite <- Hp, <- app_assoc.
    + intros _ _ _. exists i, WTest. by rewrite list_lookup_insert_eq.
    + intros Hr k. destruct (decide (k = i)) as [->|]; [by rewrite list_lookup_insert_eq|].
      rewrite list_lookup_insert_ne by done. by apply H5.
    + intros j Hj. rewrite Hnil. by apply (H7 j).
    + intros Hr. destruct (H8 Hr) as [A B]. split; [|done]. intros k Hk.
      apply (waits_set_worker i WTest p) in Hk as [[_ ?]|Hk]; [done|by apply (A k)].
  - eapply set_worker_inv; by try done.
Qed.

Lemma caller_inv j w p :
  inv p → picks (worker_waits p) w → ∃ p', caller_step j w p = Ok p' ∧ inv p'.
Proof.
  intros H Hw. unfold caller_step. destruct (callers p !! j) as [[task|task|task|task b| | |]|] eqn:Hj;
    try by eexists.
  - eapply run_inv; [done|done|by left|done].
  - eapply run_inv; [done|done|by right|done].
  - eexists. split; [reflexivity|]. by apply stop_inv.
  - eexists. split; [reflexivity|]. case_bool_decide; [|done].
    eapply set_caller_inv; [done|done|done|]. intros _ _. right. cbn. lia.
Qed.

Lemma new_caller_inv x p :
  inv p → (∀ t, x ≠ CWaiting t) → inv (with_callers (callers p ++ [x]) p).
Proof.
  intros [H1 H2 H3 H4 H5 H6 H7 H8] Hx.
  assert (∀ j, caller_waits (with_callers (callers p ++ [x]) p) j → caller_waits p j) as Hc.
  { intros j [t E]. cbn in E. apply lookup_app_Some in E as [E|[_ E]]; [by exists t|].
    apply list_lookup_singleton_Some in E as [_ E]. by destruct (Hx t). }
  split; try done.
  - intros j Hr Hj. specialize (H6 j Hr (Hc j Hj)). cbn -[woken]. unfold woken in *.
    rewrite sum_list_with_app. lia.
  - intros j Hj. apply (H7 j), Hc, Hj.
  - intros Hr. destruct (H8 Hr) as [A B]. split; [done|]. intros j Hj. by apply (B j), Hc.
Qed.

Lemma tasks_step_inv p p' : inv p → step p p' → inv p'.
Proof.
  intros H Hs. destruct Hs as [i w throws _ Hw|j w p' _ Hw E|i Hi|j task Hj|task|].
  - by apply worker_inv.
  - destruct (caller_inv j w p H Hw) as (p1 & E1 & H1). congruence.
  - eapply set_worker_inv; by try done.
  - eapply set_caller_inv; [done|done|done|]. intros _ _. right. cbn. lia.
  - by apply new_caller_inv.
  - by apply new_caller_inv.
Qed.

Lemma tasks_start_inv max n : inv (start max n).
Proof.
  assert (hands (replicate n WTest) = []) as Hh by (induction n; done).
  split; cbn -[hands]; try done.
  - by rewrite Hh.
  - lia.
  - intros _ i [E _]%lookup_replicate. done.
  - intros j _ [t E]. done.
  - intros j [t E]. done.
Qed.

Lemma tasks_reachable_inv max n p : reachable max n p → inv p.
Proof. induction 1; [apply tasks_start_inv|by eapply tasks_step_inv]. Qed.

Lemma length_runInThread i w throws p : length (threads_ (runInThread i w throws p)) = length (threads_ p).
Proof.
  unfold runInThread, take. destruct (threads_ p !! i) as [[| | | |[task|]|]|]; try done.
  - apply length_insert.
  - destruct (queue_ p); [apply length_insert|]. case_bool_decide; [rewrite notify_notFull_callers|];
      apply length_insert.
  - destruct (queue_ p); [apply length_insert|]. case_bool_decide; [rewrite notify_notFull_callers|];
      apply length_insert.
  - destruct throws; [done|apply length_insert].
  - apply length_insert.
Qed.

Lemma length_caller_step j w p p' :
  caller_step j w p = Ok p' → length (threads_ p') = length (threads_ p).
Proof.
  assert (∀ task, run j task w p = Ok p' → length (threads_ p') = length (threads_ p)) as Hrun.
  { intros task. unfold run. case_bool_decide; [by intros [= <-]|].
    destruct (isFull p && running_ p); [by intros [= <-]|].
    destruct (negb (running_ p)); [by intros [= <-]|]. destruct (isFull p); [done|]. intros [= <-].
    rewrite notify_notEmpty_threads. destruct w; cbn; [apply length_alter|done]. }
  unfold caller_step. destruct (callers p !! j) as [[]|]; try (by intros [= <-]); try apply Hrun.
  - intros [= <-]. apply length_fmap.
  - case_bool_decide; by intros [= <-].
Qed.

Lemma reachable_threads max n p : reachable max n p → length (threads_ p) = n.
Proof.
  induction 1 as [|p p' _ IH Hs]; [apply length_replicate|].
  rewrite <- IH. destruct Hs as [i w throws _ _|j w p' _ _ E|i Hi|j task Hj|task|]; try done.
  - apply length_runInThread.
  - by apply (length_caller_step j w).
  - apply length_insert.
Qed.

(** ** Nobody waits for ever *)

Definition waits_for_room (x : caller) : bool := match x with CWaiting _ => true | _ => false end.

Lemma some_caller p : ∃ w, picks (caller_waits p) w.
Proof.
  destruct (list_find (λ x, waits_for_room x = true) (callers p)) as [[j x]|] eqn:E.
  - apply list_find_Some in E as (E & Hx & _). exists (Some j). destruct x; try done. by eexists.
  - apply list_find_None in E. exists None. intros j [t Hj]. rewrite Forall_lookup in E.
    by apply (E j _ Hj).
Qed.

(** A step of one thread whose task does not throw. *)
Definition works (i : nat) (p p' : ThreadPool) : Prop :=
  aborted p = false ∧ ∃ w, picks (caller_waits p) w ∧ p' = runInThread i w false p.

Lemma works_step i p p' : works i p p' → step p p'.
Proof. intros (Ha & w & Hw & ->). by apply step_worker. Qed.

Lemma woken_exists l : (0 < woken l)%nat → ∃ j t, l !! j = Some (CWoken t).
Proof.
  unfold woken. induction l as [|x l IH]; simpl; [lia|]. intros H.
  destruct x as [t|t|t|t b| | |] eqn:Hx; cbn in H;
    try (destruct (IH H) as (j & t' & E); by exists (S j), t'). by exists 0%nat, t.
Qed.

(** A thread that does not wait takes the first task in at most three of its steps. *)
Lemma awake_takes i x task q p :
  aborted p = false → running_ p = true → queue_ p = task :: q → threads_ p !! i = Some x →
  x ≠ WWaiting → x ≠ WDone →
  ∃ p', rtc (works i) p p' ∧ taken p' = taken p ++ [task].
Proof.
  intros Ha Hr Hq Hx Hw Hd.
  assert (∀ p x, aborted p = false → queue_ p = task :: q → threads_ p !! i = Some x →
    x = WEnter ∨ x = WWoken → ∃ p', rtc (works i) p p' ∧ taken p' = taken p ++ [task]) as Htake.
  { clear. intros p x Ha Hq Hx Hxe. destruct (some_caller p) as [w Hw]. eexists. split.
    - apply rtc_once. split; [done|]. by exists w.
    - assert (runInThread i w false p = take i w p) as -> by (unfold runInThread; rewrite Hx; by destruct Hxe as [->| ->]).
      unfold take. rewrite Hq. case_bool_decide; [by rewrite notify_notFull_callers|done]. }
  assert (∀ p, aborted p = false → running_ p = true → queue_ p = task :: q → threads_ p !! i = Some WTest →
    ∃ p', rtc (works i) p p' ∧ taken p' = taken p ++ [task]) as Htest.
  { clear -Htake. intros p Ha Hr Hq Hx. destruct (some_caller p) as [w Hw].
    destruct (Htake (set_worker i WEnter p) WEnter) as (p' & R & E); [done|done| |by left|].
    - apply list_lookup_insert_eq. by eapply lookup_lt_Some.
    - exists p'. split; [|done]. eapply rtc_l; [|exact R]. split; [done|]. exists w. split; [done|].
      unfold runInThread. by rewrite Hx, Hr. }
  pose proof (lookup_lt_Some _ _ _ Hx) as Hl. destruct x as [| | | |t|]; try done.
  - by apply Htest.
  - eapply Htake; eauto.
  - eapply Htake; eauto.
  - destruct (some_caller p) as [w Hw'].
    assert (works i p (runInThread i w false p)) as Hstep by (split; [done|]; by exists w).
    destruct (Htest (runInThread i w false p)) as (p' & R & E).
    1-4: unfold runInThread; rewrite Hx; destruct t; try done; by apply list_lookup_insert_eq.
    exists p'. split; [by eapply rtc_l|]. rewrite E. unfold runInThread. rewrite Hx. by destruct t.
Qed.

(** What a thread's own steps leave as it is. *)
Definition beside (i : nat) (p p' : ThreadPool) : Prop :=
  running_ p' = running_ p ∧ aborted p' = aborted p ∧ length (threads_ p') = length (threads_ p) ∧
  ∀ k, k ≠ i → threads_ p' !! k = threads_ p !! k.

Lemma beside_trans i p1 p2 p3 : beside i p1 p2 → beside i p2 p3 → beside i p1 p3.
Proof.
  intros (A1 & A2 & A3 & A4) (B1 & B2 & B3 & B4). split_and!; [congruence..|].
  intros k Hk. by rewrite B4, A4.
Qed.

Lemma set_worker_beside i x p : beside i p (set_worker i x p).
Proof.
  split_and!; [done|done|apply length_insert|]. intros k Hk. cbn. by apply list_lookup_insert_ne.
Qed.

Lemma take_beside i w p : beside i p (take i w p).
Proof.
  unfold take. destruct (queue_ p) as [|task q]; [apply set_worker_beside|].
  case_bool_decide; [rewrite notify_notFull_callers|]; apply (set_worker_beside i (WGot (Some task)) p).
Qed.

(** Once the pool is stopped, a thread that does not wait ends after at most three steps. *)
Lemma stopped_ends i p :
  aborted p = false → running_ p = false → (i < length (threads_ p))%nat → ¬ worker_waits p i →
  ∃ p', rtc (works i) p p' ∧ beside i p p' ∧ threads_ p' !! i = Some WDone.
Proof.
  intros Ha Hr Hl Hw.
  assert (∀ p, aborted p = false → running_ p = false → threads_ p !! i = Some WTest →
    ∃ p', rtc (works i) p p' ∧ beside i p p' ∧ threads_ p' !! i = Some WDone) as Htest.
  { clear. intros p Ha Hr Hx. destruct (some_caller p) as [w Hw]. exists (set_worker i WDone p).
    split_and!; [|apply set_worker_beside|apply list_lookup_insert_eq; by eapply lookup_lt_Some].
    apply rtc_once. split; [done|]. exists w. split; [done|]. unfold runInThread. by rewrite Hx, Hr. }
  assert (∀ p t, aborted p = false → running_ p = false → threads_ p !! i = Some (WGot t) →
    ∃ p', rtc (works i) p p' ∧ beside i p p' ∧ threads_ p' !! i = Some WDone) as Hgot.
  { clear -Htest. intros p t Ha Hr Hx. destruct (some_caller p) as [w Hw].
    assert (beside i p (runInThread i w false p) ∧ threads_ (runInThread i w false p) !! i = Some WTest) as [Hb Ht].
    { unfold runInThread. rewrite Hx. pose proof (lookup_lt_Some _ _ _ Hx) as Hl.
      destruct t; (split; [apply (set_worker_beside i WTest p)|by apply list_lookup_insert_eq]). }
    pose proof Hb as (B1 & B2 & _). destruct (Htest (runInThread i w false p)) as (p' & R & B & D);
      [congruence..|]. exists p'. split_and!; [|by eapply beside_trans|done].
    eapply rtc_l; [|exact R]. split; [done|]. by exists w. }
  destruct (threads_ p !! i) as [x|] eqn:Hx; [|by apply lookup_ge_None in Hx; lia].
  assert (x = WEnter ∨ x = WWoken → ∃ p', rtc (works i) p p' ∧ beside i p p' ∧ threads_ p' !! i = Some WDone) as Htake.
  { intros Hxe. destruct (some_caller p) as [w Hw0].
    assert (runInThread i w false p = take i w p) as Es by (unfold runInThread; rewrite Hx; by destruct Hxe as [->| ->]).
    pose proof (take_beside i w p) as Hb. pose proof Hb as (B1 & B2 & _).
    assert (∃ t, threads_ (take i w p) !! i = Some (WGot t)) as [t Ht].
    { unfold take. rewrite Hr. destruct (queue_ p) as [|task q]; [|case_bool_decide; [rewrite notify_notFull_callers|]];
        eexists; by apply list_lookup_insert_eq. }
    destruct (Hgot (take i w p) t) as (p' & R & B & D); [congruence..|done|].
    exists p'. split_and!; [|by eapply beside_trans|done].
    eapply rtc_l; [|exact R]. split; [done|]. exists w. by rewrite Es. }
  destruct x as [| | | |t|].
  - by apply Htest.
  - apply Htake. by left.
  - by destruct Hw.
  - apply Htake. by right.
  - by eapply Hgot.
  - exists p. split_and!; [reflexivity| |done]. by split_and!.
Qed.

Lemma stopped_all_end k p :
  inv p → aborted p = false → running_ p = false → (k ≤ length (threads_ p))%nat →
  ∃ p', rtc step p p' ∧ inv p' ∧ aborted p' = false ∧ running_ p' = false ∧
    length (threads_ p') = length (threads_ p) ∧ ∀ i, (i < k)%nat → threads_ p' !! i = Some WDone.
Proof.
  intros H Ha Hr. induction k as [|k IH]; intros Hk.
  { exists p. split_and!; [reflexivity|done..|]. lia. }
  destruct IH as (p1 & R1 & H1 & A1 & Q1 & L1 & D1); [lia|].
  destruct (stopped_ends k p1 A1 Q1) as (p2 & R2 & (B1 & B2 & B3 & B4) & D2); [lia|by apply (v_stopped p1)|].
  assert (rtc step p1 p2) as R2' by (eapply rtc_subrel; [intros ? ?; apply works_step|exact R2]).
  exists p2. split_and!; [by etrans| |congruence..|].
  - clear -H1 R2'. induction R2' as [|a b c Hs _ IH]; [done|]. by eapply IH, tasks_step_inv.
  - intros i Hi. destruct (decide (i = k)) as [->|]; [done|]. rewrite B4 by done. apply D1. lia.
Qed.

(** C19: Tasks are taken in the order in which they were queued, each by one thread; every task
    taken is run or in a thread's hands; a bounded queue keeps its bound, and the assertion
    of [run] does not fail. *)
Theorem tasks_taken_in_order max n p :
  reachable max n p → (0 < n)%nat →
  accepted p = taken p ++ queue_ p ∧ taken p ≡ₚ ran p ++ hands (threads_ p) ∧
  ((0 < maxQueueSize_ p)%nat → (length (queue_ p) ≤ maxQueueSize_ p)%nat) ∧
  (∀ j w, picks (worker_waits p) w → ∃ p', caller_step j w p = Ok p').
Proof.
  intros Hp Hn. pose proof (reachable_threads _ _ _ Hp) as Hl. pose proof (tasks_reachable_inv _ _ _ Hp) as H.
  split_and!; [apply H| |apply H|].
  - apply H. intros E. rewrite E in Hl. cbn in Hl. lia.
  - intros j w Hw. destruct (caller_inv j w p H Hw) as (p' & E & _). eauto.
Qed.

(** C8: Nobody waits for ever.  While the pool runs and has a task, some thread is awake and
    takes the first task in its own next steps; while callers wait for room and there is
    some, one of them is on its way; and once [stop] has begun nobody waits, and every thread
    can come to its end, so that [stop] returns.  (Tasks that end without an exception.) *)
Theorem nobody_waits_for_ever max n p :
  reachable max n p → (0 < n)%nat → aborted p = false →
  (running_ p = true → ∀ task q, queue_ p = task :: q →
    ∃ i p', rtc (works i) p p' ∧ taken p' = taken p ++ [task]) ∧
  (running_ p = true → ∀ j, caller_waits p j → (length (queue_ p) < maxQueueSize_ p)%nat →
    ∃ j' task, callers p !! j' = Some (CWoken task)) ∧
  (running_ p = false →
    (∀ i, ¬ worker_waits p i) ∧ (∀ j, ¬ caller_waits p j) ∧
    ∃ p', rtc step p p' ∧ Forall (λ x, x = WDone) (threads_ p')).
Proof.
  intros Hp Hn Ha. pose proof (reachable_threads _ _ _ Hp) as Hl. pose proof (tasks_reachable_inv _ _ _ Hp) as H.
  assert (threads_ p ≠ []) as Hne by (intros E; rewrite E in Hl; cbn in Hl; lia).
  split_and!.
  - intros Hr task q Hq. destruct (v_awake p H Hr Hne) as (i & x & Hx & Hw); [by rewrite Hq|].
    exists i. eapply awake_takes; [done..|]. intros ->. by apply (v_going p H Hr i).
  - intros Hr j Hj Hlt. apply woken_exists. pose proof (v_room p H j Hr Hj). lia.
  - intros Hr. destruct (v_stopped p H Hr) as [A B]. split_and!; [done..|].
    destruct (stopped_all_end (length (threads_ p)) p H Ha Hr) as (p' & R & _ & _ & _ & L & D); [lia|].
    exists p'. split; [done|]. apply Forall_lookup. intros i x Hx. pose proof (lookup_lt_Some _ _ _ Hx) as Hi.
    rewrite D in Hx by lia. by injection Hx as <-.
Qed.

(** A pool of two threads and a queue of one, in which a task was queued. *)
Definition demo_entered : ThreadPool := with_callers [CEnter 5] (start 1 2).
Definition demo_queued : ThreadPool :=
  match caller_step 0 None demo_entered with Ok p => p | _ => demo_entered end.

Lemma demo_pool_reachable : reachable 1 2 demo_queued.
Proof.
  eapply reachable_step; [eapply reachable_step; [apply reachable_start|apply (step_run _ 5)]|].
  eapply (step_caller _ 0 None); [done| |vm_compute; reflexivity].
  intros i. unfold worker_waits. cbn. destruct i as [|[|i]]; done.
Qed.

Lemma tasks_taken_in_order_witness :
  accepted demo_queued = taken demo_queued ++ queue_ demo_queued ∧ accepted demo_queued = [5%nat].
Proof.
  destruct (tasks_taken_in_order 1 2 demo_queued demo_pool_reachable) as (H & _); [lia|].
  split; [exact H|]. vm_compute. reflexivity.
Defined.

Lemma nobody_waits_for_ever_witness :
  ∃ i p', rtc (works i) demo_queued p' ∧ taken p' = [5%nat].
Proof.
  destruct (nobody_waits_for_ever 1 2 demo_queued demo_pool_reachable) as (H & _); [lia|reflexivity|].
  apply (H eq_refl 5%nat []). vm_compute. reflexivity.
Defined.

(** The tasks that wait when the pool is stopped are never run. *)
Example stop_drops_tasks :
  ∃ p, reachable 1 2 p ∧ Forall (λ x, x = WDone) (threads_ p) ∧ queue_ p = [5%nat].
Proof.
  set (p1 := with_callers (callers demo_queued ++ [SEnter]) demo_queued).
  set (p2 := stop 1 p1). set (p3 := runInThread 0 None false p2).
  exists (runInThread 1 None false p3). split_and!; [|by repeat constructor|done].
  assert (∀ p, (∀ j t, callers p !! j ≠ Some (CWaiting t)) → picks (caller_waits p) None) as Hnone.
  { intros p Hp j [t E]. by apply (Hp j t). }
  assert (∀ p, callers p = callers p2 → picks (caller_waits p) None) as Hno.
  { intros p E. apply Hnone. rewrite E. by intros [|[|j]] t. }
  eapply reachable_step; [eapply reachable_step; [eapply reachable_step; [eapply reachable_step;
    [apply demo_pool_reachable|apply step_stop]|]|]|].
  - apply (step_caller _ 1 None p2); [done| |reflexivity]. intros [|[|i]]; done.
  - apply (step_worker _ 0 None false); [done|]. by apply Hno.
  - apply (step_worker _ 1 None false); [done|]. by apply Hno.
Qed.

End Pool.
