(* ===== verification/LogicClient.v ===== *)
(** [service/logic_client.{h,cc}] and [service/logic_config.{h,cc}] of the comet
    service: the HTTP client of the logic server. *)

From S2P Require Import Prelude Json ConfigReader.

(** ** libcurl *)

(** What [curl_easy_perform] delivers: the body passed to the write callback (also when
    the transfer fails half way), the [CURLcode] and the response code. *)
Record curl_reply : Type := CurlReply {
  curl_body : str;
  curl_res : Z;
  curl_code : Z
}.

(** One POST of [data] to [url] with the options that [sendHttpRequest] sets; [None]:
    [curl_easy_init] returned a null handle and nothing was sent. *)
Class CurlClient (W : Type) : Type := {
  curl_post : str → str → W → option curl_reply * W
}.

Definition CURLE_OK : Z := 0.

(** Whether a reply makes [sendHttpRequest] succeed. *)
Definition reply_accepted (r : curl_reply) : bool :=
  ((curl_res r =? CURLE_OK) && ((curl_code r =? 200) || (curl_code r =? 401)))%Z.

(** ** [class LogicClient] *)

Record LogicAuthResult : Type := MkAuth {
  success : bool;
  auth_user_id : str;
  auth_username : str;
  auth_email : str;
  error_message : str
}.

Definition auth_failed (error_message : str) : LogicAuthResult :=
  MkAuth false [] [] [] error_message.

Section LogicClient.
Context {J W : Type} `{JC : JsonCpp J} `{CC : CurlClient W}.
Variable logic_server_url_ : str.

(** The member [key] when it is present and not null. *)
Definition member_not_null (v : J) (key : str) : result (option J) :=
  let* m := jisMember v key in
  if m : bool then
    let* x := jget v key in
    Ok (if jisNull x then None else Some x)
  else Ok None.

(** [LogicClient::sendHttpRequest]: success, and [response] with the body appended
  ([WriteCallback]). *)
Definition sendHttpRequest (url post_data response : str) : io W (bool * str) := λ w,
  let (reply, w) := curl_post (c_str url) post_data w in
  match reply with
  | None => (Ok (false, response), w)
  | Some r =>
      let ok := ((curl_res r =? CURLE_OK) && ((curl_code r =? 200) || (curl_code r =? 401)))%Z in
      (Ok (ok, response ++ curl_body r), w)
  end.

(** [LogicClient::parseAuthResponse] *)
Definition parseAuthResponse (response_json : str) : result LogicAuthResult :=
  match jparse response_json with
  | None => Ok (auth_failed "Failed to parse response JSON")
  | Some root =>
      let* s := jget root "success" in
      let* b := if jisBool s then jasBool s else Ok false in
      if b : bool then
        let* u := jget root "user_id" in let* user_id := jasString u in
        let* n := jget root "username" in let* username := jasString n in
        let* m := jget root "email" in let* email := jasString m in
        Ok (MkAuth true user_id username email [])
      else
        let* e := jget root "error" in let* error := jasString e in
        Ok (auth_failed error)
  end.

(** [LogicClient::verifyUserAuth] *)
Definition verifyUserAuth (cookie : str) : io W LogicAuthResult :=
  match cookie with
  | [] => iret (auth_failed "Cookie is empty")
  | _ =>
      do* request := ilift (jobj [("cookie" : str, jstring cookie)]) in
      do* r := sendHttpRequest (logic_server_url_ ++ "/logic/verify") (jwrite request) [] in
      let '(ok, response) := r in
      if ok : bool then ilift (parseAuthResponse response)
      else iret (auth_failed "Failed to connect to logic server")
  end.

(** [LogicClient::loginUser] and [LogicClient::registerUser] *)
Definition loginUser (post_data response : str) : io W (Z * str) :=
  do* r := sendHttpRequest (logic_server_url_ ++ "/logic/login") post_data response in
  iret (if r.1 then 0%Z else (-1)%Z, r.2).
Definition registerUser (post_data response : str) : io W (Z * str) :=
  do* r := sendHttpRequest (logic_server_url_ ++ "/logic/register") post_data response in
  iret (if r.1 then 0%Z else (-1)%Z, r.2).

(** The common end of [handleRoomHistory] and [handleCreateRoom]: 0 when the response is
  an object whose [key] is the text [expected]. *)
Definition check_response (key expected response : str) : result Z :=
  match jparse response with
  | None => Ok (-1)%Z
  | Some root =>
      let* m := jisMember root key in
      if m : bool then
        let* x := jget root key in let* s := jasString x in
        Ok (if bool_decide (s = expected) then 0 else -1)%Z
      else Ok (-1)%Z
  end.

(** [sendHttpRequest] then the test of the response. *)
Definition post_and_check (path : str) (request : J) (key expected response : str)
    : io W (Z * str) :=
  do* r := sendHttpRequest (logic_server_url_ ++ path) (jwrite request) response in
  let '(ok, response) := r in
  if ok : bool then
    do* ret := ilift (check_response key expected response) in iret (ret, response)
  else iret ((-1)%Z, response).

(** [LogicClient::handleSend] *)
Definition handleSend (root : J) (user_id username response : str) : io W (Z * str) :=
  do* p := ilift (member_not_null root "payload") in
  match p with
  | None => iret ((-1)%Z, response)
  | Some payload =>
      do* m1 := ilift (jisMember payload "roomId") in
      do* m2 := (if m1 then ilift (jisMember payload "messages") else iret false) in
      if negb m2 then iret ((-1)%Z, response)
      else
        do* r := ilift (jget payload "roomId") in
        do* room_id := ilift (jasString r) in
        do* messages := ilift (jget payload "messages") in
        do* request_data := ilift (jobj
          [("roomId" : str, jstring room_id); ("userId" : str, jstring user_id);
           ("username" : str, jstring username); ("messages" : str, messages)]) in
        post_and_check "/logic/send" request_data "status" "success" response
  end.

(** [LogicClient::handleRoomHistory] *)
Definition handleRoomHistory (root : J) (user_id username response : str)
    : io W (Z * str) :=
  do* p := ilift (member_not_null root "payload") in
  match p with
  | None => iret ((-1)%Z, response)
  | Some payload =>
      do* r := ilift (member_not_null payload "roomId") in
      match r with
      | None => iret ((-1)%Z, response)
      | Some rid =>
          do* room_id := ilift (jasString rid) in
          do* f := ilift (jget_default payload "firstMessageId" (jstring [])) in
          do* first_message_id := ilift (jasString f) in
          do* c := ilift (jget_default payload "count" (jint 10)) in
          do* count := ilift (jasInt c) in
          let count := if (count <=? 0)%Z then 10%Z else count in
          do* request_payload := ilift (jobj
            [("roomId" : str, jstring room_id);
             ("firstMessageId" : str, jstring first_message_id);
             ("count" : str, jint count); ("userId" : str, jstring user_id);
             ("username" : str, jstring username)]) in
          do* request_data := ilift (jobj
            [("type" : str, jstring "requestRoomHistory");
             ("payload" : str, request_payload)]) in
          post_and_check "/logic/room_history" request_data "type" "serverRoomHistory" response
      end
  end.

(** [LogicClient::handleCreateRoom] *)
Definition handleCreateRoom (root : J) (user_id username response : str)
    : io W (Z * str) :=
  do* p := ilift (member_not_null root "payload") in
  match p with
  | None => iret ((-1)%Z, response)
  | Some payload =>
      do* r := ilift (member_not_null payload "roomName") in
      match r with
      | None => iret ((-1)%Z, response)
      | Some rn =>
          do* room_name := ilift (jasString rn) in
          do* request_payload := ilift (jobj
            [("roomName" : str, jstring room_name); ("creatorId" : str, jstring user_id);
             ("creatorUsername" : str, jstring username)]) in
          do* request_data := ilift (jobj
            [("type" : str, jstring "clientCreateRoom");
             ("payload" : str, request_payload)]) in
          post_and_check "/logic/room/create" request_data "type" "serverCreateRoom" response
      end
  end.
End LogicClient.

(** ** [class LogicConfig] *)

Record LogicConfig : Type := MkLogicConfig {
  logic_server_url : str;
  connect_timeout_ : Z;
  request_timeout_ : Z
}.

Definition LogicConfig_default : LogicConfig := MkLogicConfig "http://localhost:8090" 3 5.

(** [LogicConfig::init]; [content] is the configuration file ([None]: cannot be opened). *)
Definition LogicConfig_init (c : LogicConfig) (config_file : str) (content : option str)
    : result (bool * LogicConfig) :=
  let* reader := CConfigFileReader_new config_file content in
  let* host := GetConfigName reader "logic_server_host" in
  let* port := GetConfigName reader "logic_server_port" in
  let url := match host, port with
             | Some h, Some p => "http://" ++ h ++ ":" ++ p
             | _, _ => logic_server_url c
             end in
  let* ct := GetConfigName reader "logic_connect_timeout" in
  let connect := match ct with Some t => atoi t | None => connect_timeout_ c end in
  let* rt := GetConfigName reader "logic_request_timeout" in
  let request := match rt with Some t => atoi t | None => request_timeout_ c end in
  Ok (true, MkLogicConfig url connect request).

(** ** Lemmas *)

Section Replies.
Context {W : Type} `{CC : CurlClient W}.

Lemma sendHttpRequest_reply url post_data response (w w' : W) r :
  curl_post (c_str url) post_data w = (Some r, w') →
  sendHttpRequest url post_data response w = (Ok (reply_accepted r, response ++ curl_body r), w').
Proof. intros H. unfold sendHttpRequest. by rewrite H. Qed.

Lemma loginUser_reply url post_data response (w w' : W) r :
  curl_post (c_str (url ++ "/logic/login")) post_data w = (Some r, w') →
  loginUser url post_data response w =
    (Ok ((if reply_accepted r then 0 else -1)%Z, response ++ curl_body r), w').
Proof.
  intros H. unfold loginUser. erewrite ibind_Ok by by apply sendHttpRequest_reply.
  by destruct (reply_accepted r).
Qed.

Lemma registerUser_reply url post_data response (w w' : W) r :
  curl_post (c_str (url ++ "/logic/register")) post_data w = (Some r, w') →
  registerUser url post_data response w =
    (Ok ((if reply_accepted r then 0 else -1)%Z, response ++ curl_body r), w').
Proof.
  intros H. unfold registerUser. erewrite ibind_Ok by by apply sendHttpRequest_reply.
  by destruct (reply_accepted r).
Qed.
End Replies.

Section Requests.
Context {J W : Type} `{JL : JsonLaws J} `{CC : CurlClient W}.

(** The computation makes no call, or exactly one POST to [url] of a document that
  satisfies [P], whatever its outcome. *)
Definition sends {A} (url : str) (P : J → Prop) (m : io W A) : Prop :=
  ∀ w, (m w).2 = w ∨
       ∃ request, P request ∧ (m w).2 = (curl_post (c_str url) (jwrite request) w).2.

Lemma sends_ret {A} url P (a : A) : sends url P (iret a).
Proof. by left. Qed.

Lemma sends_lift {A B} url P (m : result A) (k : A → io W B) :
  (∀ a, m = Ok a → sends url P (k a)) → sends url P (ibind (ilift m) k).
Proof.
  intros Hk w. unfold ibind, ilift. destruct m as [a|e|u]; [by apply Hk|by left..].
Qed.

Lemma sends_post logic_server_url path (request : J) key expected response (P : J → Prop) :
  P request →
  sends (logic_server_url ++ path) P
    (post_and_check logic_server_url path request key expected response).
Proof.
  intros HP w. right. exists request. split; [done|].
  unfold post_and_check, ibind, sendHttpRequest.
  destruct (curl_post _ _ w) as [[r|] w'] eqn:E; cbn; [|done].
  destruct (_ && _); [|done]. unfold ilift, iret.
  by destruct (check_response _ _ _).
Qed.

(** A document built member by member carries the members listed in [l]. *)
Definition carries (v : J) (l : list (str * J)) : Prop :=
  ∀ k x, (k, x) ∈ l → jget v k = Ok x.

Lemma jobj_carries l v : NoDup l.*1 → jobj l = Ok v → carries v l.
Proof.
  intros Hnd Hv k x Hin. destruct (jobj_fields l) as (v' & Hv' & Hf).
  rewrite Hv in Hv'. injection Hv' as <-. rewrite (jfields_get _ _ k Hf).
  by rewrite (assoc_rev l k x).
Qed.
End Requests.

(** Step through a handler down to its single request. *)
Ltac sends_step :=
  match goal with
  | |- sends _ _ (iret _) => apply sends_ret
  | |- sends _ _ (ibind (ilift _) _) => apply sends_lift; intros
  | |- sends _ _ (ibind (if ?b then _ else _) _) => destruct b
  | |- sends _ _ (if ?b then _ else _) => destruct b
  | |- sends _ _ (match ?o with Some _ => _ | None => _ end) => destruct o
  | |- sends _ _ (ibind (iret ?a) ?k) => change (ibind (iret a) k) with (k a); cbn beta iota delta [negb]
  | |- sends _ _ (post_and_check _ _ _ _ _ _) => apply sends_post
  end.

Ltac carries_member :=
  match goal with Hc : carries ?v _ |- jget ?v _ = _ =>
      apply Hc; repeat first [apply list_elem_of_here | apply list_elem_of_further]
  end.

(** ** Properties *)

(** The identity of the session in the document (or in its [payload]). *)
Definition identity_in {J} `{JsonCpp J} (id_key name_key : str) (user_id username : str)
    (v : J) : Prop :=
  jget v id_key = Ok (jstring user_id) ∧ jget v name_key = Ok (jstring username).

Definition payload_with {J} `{JsonCpp J} (P : J → Prop) (v : J) : Prop :=
  ∃ payload, jget v "payload" = Ok payload ∧ P payload.

(** C30: whatever document a client sends, each of the three forwarding handlers makes at
    most one request, to its own path of the logic server, and the identity in that
    request is the one of the session, never one taken from the client's document. *)
Theorem requests_carry_session_identity {J W} `{JL : JsonLaws J} `{CC : CurlClient W}
    (url : str) (root : J) (user_id username response : str) :
  sends (url ++ "/logic/send") (identity_in "userId" "username" user_id username)
    (handleSend (W := W) url root user_id username response) ∧
  sends (url ++ "/logic/room_history")
    (payload_with (identity_in "userId" "username" user_id username))
    (handleRoomHistory (W := W) url root user_id username response) ∧
  sends (url ++ "/logic/room/create")
    (payload_with (identity_in "creatorId" "creatorUsername" user_id username))
    (handleCreateRoom (W := W) url root user_id username response).
Proof.
  split_and!; unfold handleSend, handleRoomHistory, handleCreateRoom; repeat sends_step;
    repeat match goal with
    | Hj : jobj _ = Ok _ |- _ =>
        apply jobj_carries in Hj; [|by apply (bool_decide_unpack _); vm_compute]
    end.
  - split; carries_member.
  - unfold payload_with. eexists. split; [carries_member|]. split; carries_member.
  - unfold payload_with. eexists. split; [carries_member|]. split; carries_member.
Qed.

(** An HTTP peer for the witnesses: it answers every POST with one fixed reply and keeps
    the requests it received, the latest first. *)
Record Peer : Type := MkPeer {
  peer_log : list (str * str);
  peer_reply : option curl_reply
}.

#[export] Instance Peer_curl : CurlClient Peer := {|
  curl_post url data p := (peer_reply p, MkPeer ((url, data) :: peer_log p) (peer_reply p))
|}.

Lemma requests_carry_session_identity_witness :
  let root := default Mini.JNull (jparse (dq
    "{'payload':{'roomId':'r1','messages':[{'content':'hi'}],'userId':'mallory'}}")) in
  sends ("http://l" ++ "/logic/send") (identity_in "userId" "username" "u1" "ann")
    (handleSend (W := Peer) "http://l" root "u1" "ann" []) ∧
  (handleSend "http://l" root "u1" "ann" []
     (MkPeer [] (Some (CurlReply (dq "{'status':'success'}") 0 200)))).1 =
    Ok (0%Z, dq "{'status':'success'}") ∧
  (handleSend "http://l" root "u1" "ann" []
     (MkPeer [] (Some (CurlReply (dq "{'status':'success'}") 0 200)))).2 =
    MkPeer
      [("http://l/logic/send" : str,
        dq "{'roomId':'r1','userId':'u1','username':'ann','messages':[{'content':'hi'}]}" ++ [LF])]
      (Some (CurlReply (dq "{'status':'success'}") 0 200)).
Proof.
  intros root. split; [|split; vm_compute; reflexivity].
  apply (requests_carry_session_identity (W := Peer) "http://l" root "u1" "ann" []).
Defined.

(** [verifyUserAuth] reports success only for a non-empty cookie and only when the
    logic server was reached, answered with code 200 or 401, and its document has the
    boolean [true] as [success]; the identity it reports is the one in that document. *)
Theorem verifyUserAuth_sound {J W} `{JC : JsonCpp J} `{CC : CurlClient W}
    (url cookie : str) (w w' : W) r :
  verifyUserAuth url cookie w = (Ok r, w') → success r = true →
  cookie ≠ [] ∧
  ∃ request reply root u n m,
    jobj [("cookie" : str, jstring cookie)] = Ok request ∧
    curl_post (c_str (url ++ "/logic/verify")) (jwrite request) w = (Some reply, w') ∧
    curl_res reply = CURLE_OK ∧ (curl_code reply = 200 ∨ curl_code reply = 401)%Z ∧
    jparse (curl_body reply) = Some root ∧
    jget root "user_id" = Ok u ∧ jasString u = Ok (auth_user_id r) ∧
    jget root "username" = Ok n ∧ jasString n = Ok (auth_username r) ∧
    jget root "email" = Ok m ∧ jasString m = Ok (auth_email r) ∧
    ∃ s, jget root "success" = Ok s ∧ jasBool s = Ok true.
Proof.
  unfold verifyUserAuth. intros Hv Hs.
  destruct cookie as [|c cookie]; [by injection Hv as <- _|]. split; [done|].
  apply ibind_inv in Hv as (request & w1 & Hreq & Hv). injection Hreq as Hreq <-.
  apply ibind_inv in Hv as ([ok response] & w2 & Hp & Hv).
  unfold sendHttpRequest in Hp.
  destruct (curl_post _ _ w) as [[reply|] w3] eqn:E; injection Hp as <- <- <-;
    [|by injection Hv as <- _].
  destruct (_ && _)%bool eqn:Hok; [|by injection Hv as <- _].
  injection Hv as Hv <-. apply andb_true_iff in Hok as [H1 H2].
  apply orb_true_iff in H2. rewrite !Z.eqb_eq in *.
  unfold parseAuthResponse in Hv. destruct (jparse _) as [root|] eqn:Ep;
    [|by injection Hv as <-].
  apply rbind_inv in Hv as (s & Hsucc & Hv). apply rbind_inv in Hv as (b & Hb & Hv).
  destruct b.
  - repeat (apply rbind_inv in Hv as (? & ? & Hv)). injection Hv as <-.
    destruct (jisBool s); [|done]. do 6 eexists. split_and!; eauto.
  - apply rbind_inv in Hv as (? & ? & Hv). apply rbind_inv in Hv as (? & ? & Hv).
    by injection Hv as <-.
Qed.

Lemma verifyUserAuth_sound_witness :
  let reply := CurlReply
    (dq "{'success':true,'user_id':'u1','username':'ann','email':'a@b'}") 0 200 in
  verifyUserAuth "http://l" "sid" (MkPeer [] (Some reply)) =
    (Ok (MkAuth true "u1" "ann" "a@b" []),
     MkPeer [("http://l/logic/verify" : str, dq "{'cookie':'sid'}" ++ [LF])] (Some reply)) ∧
  cstr "sid" ≠ [].
Proof.
  intros reply. split; [vm_compute; reflexivity|].
  apply (verifyUserAuth_sound (J := Mini.jv) (W := Peer) "http://l" "sid" (MkPeer [] (Some reply))
    (MkPeer [("http://l/logic/verify" : str, dq "{'cookie':'sid'}" ++ [LF])] (Some reply))
    (MkAuth true "u1" "ann" "a@b" [])); vm_compute; reflexivity.
Defined.

(** with a configuration file that sets both the host and the port, the URL is built
    from them; when either is missing the previous URL is kept.  A timeout is replaced
    exactly when its key is present, by the [atoi] of its text. *)
Theorem LogicConfig_init_spec c config_file r :
  load_ok_ r = Some true → Forall (λ e, Forall (λ ch, ch ≠ NUL) e.2) (config_map_ r) →
  ∀ content, CConfigFileReader_new config_file content = Ok r →
  LogicConfig_init c config_file content =
    Ok (true, MkLogicConfig
      (match map_find (config_map_ r) "logic_server_host",
             map_find (config_map_ r) "logic_server_port" with
       | Some h, Some p => "http://" ++ h ++ ":" ++ p
       | _, _ => logic_server_url c
       end)
      (from_option atoi (connect_timeout_ c) (map_find (config_map_ r) "logic_connect_timeout"))
      (from_option atoi (request_timeout_ c) (map_find (config_map_ r) "logic_request_timeout"))).
Proof.
  intros Hok Hm content Hr. unfold LogicConfig_init. rewrite Hr. cbn [rbind].
  assert (Hget : ∀ k, GetConfigName r k = Ok (map_find (config_map_ r) k)).
  { intros k. unfold GetConfigName. rewrite Hok. f_equal. clear -Hm.
    induction (config_map_ r) as [|[k' v] m IH]; [done|]. apply Forall_cons in Hm as [Hv Hm].
    cbn [map_find]. case_bool_decide; [cbn; by rewrite c_str_id|by apply IH]. }
  rewrite !Hget. cbn [rbind]. by repeat destruct (map_find _ _).
Qed.

Lemma LogicConfig_init_spec_witness :
  LogicConfig_init LogicConfig_default "c.conf"
    (Some ("logic_server_host=logic" ++ [LF] ++ "logic_server_port = 8090 # port" ++ [LF])) =
  Ok (true, MkLogicConfig "http://logic:8090" 3 5).
Proof.
  apply (LogicConfig_init_spec LogicConfig_default "c.conf"
    (MkReader (Some true) [("logic_server_host" : str, "logic" : str);
                           ("logic_server_port" : str, "8090" : str)] "c.conf")).
  - reflexivity.
  - repeat constructor; by intros [=].
  - reflexivity.
Defined.
