(* ===== verification/HttpMachine.v ===== *)
(** [service/http_parser.{h,cc}]: the vendored HTTP parser as compiled into the comet
    service (strict mode, [char] signed), as a machine that eats one byte at a time.

    A pointer into the buffer is an offset ([nat]) from [data].  A callback is recorded in
    [calls] with what it is given and what it can read of the parser; its return value is
    a function of that ([http_parser_settings]).  Each [case] label of
    [http_parser_execute] is a definition from the byte, its offset [p], the length of the
    buffer and the state of the call to the new state and where control goes ([flow]).

    [HttpUrl] has [http_parser_parse_url] and the functions that name methods and errors or
    pause a parser, which nothing of the program calls. *)

From S2P Require Import Prelude.

(** ** Constants and enumerations *)

Definition HTTP_MAX_HEADER_SIZE : Z := 80 * 1024.
Definition ULLONG_MAX : Z := 2 ^ 64 - 1.

Inductive http_parser_type : Type := HTTP_REQUEST | HTTP_RESPONSE | HTTP_BOTH.

(** [HTTP_METHOD_MAP]: the names used by the code. *)
Definition HTTP_DELETE : Z := 0.
Definition HTTP_GET : Z := 1.
Definition HTTP_HEAD : Z := 2.
Definition HTTP_POST : Z := 3.
Definition HTTP_PUT : Z := 4.
Definition HTTP_CONNECT : Z := 5.
Definition HTTP_OPTIONS : Z := 6.
Definition HTTP_TRACE : Z := 7.
Definition HTTP_COPY : Z := 8.
Definition HTTP_LOCK : Z := 9.
Definition HTTP_MKCOL : Z := 10.
Definition HTTP_MOVE : Z := 11.
Definition HTTP_PROPFIND : Z := 12.
Definition HTTP_PROPPATCH : Z := 13.
Definition HTTP_SEARCH : Z := 14.
Definition HTTP_UNLOCK : Z := 15.
Definition HTTP_REPORT : Z := 16.
Definition HTTP_MKACTIVITY : Z := 17.
Definition HTTP_CHECKOUT : Z := 18.
Definition HTTP_MERGE : Z := 19.
Definition HTTP_MSEARCH : Z := 20.
Definition HTTP_NOTIFY : Z := 21.
Definition HTTP_SUBSCRIBE : Z := 22.
Definition HTTP_UNSUBSCRIBE : Z := 23.
Definition HTTP_PATCH : Z := 24.
Definition HTTP_PURGE : Z := 25.

(** [method_strings]: the third argument of the map is [M - SEARCH], and [#string] keeps
    its spaces. *)
Definition method_strings : list str :=
  [ ("DELETE" : str); ("GET" : str); ("HEAD" : str); ("POST" : str); ("PUT" : str);
    ("CONNECT" : str); ("OPTIONS" : str); ("TRACE" : str); ("COPY" : str); ("LOCK" : str);
    ("MKCOL" : str); ("MOVE" : str); ("PROPFIND" : str); ("PROPPATCH" : str);
    ("SEARCH" : str); ("UNLOCK" : str); ("REPORT" : str); ("MKACTIVITY" : str);
    ("CHECKOUT" : str); ("MERGE" : str); ("M - SEARCH" : str); ("NOTIFY" : str);
    ("SUBSCRIBE" : str); ("UNSUBSCRIBE" : str); ("PATCH" : str); ("PURGE" : str) ].

Definition F_CHUNKED : Z := 1.
Definition F_CONNECTION_KEEP_ALIVE : Z := 2.
Definition F_CONNECTION_CLOSE : Z := 4.
Definition F_TRAILING : Z := 8.
Definition F_UPGRADE : Z := 16.
Definition F_SKIPBODY : Z := 32.

(** [HTTP_ERRNO_MAP] *)
Inductive errno : Type :=
  | HPE_OK
  | HPE_CB_message_begin | HPE_CB_status_complete | HPE_CB_url | HPE_CB_header_field
  | HPE_CB_header_value | HPE_CB_headers_complete | HPE_CB_body | HPE_CB_message_complete
  | HPE_INVALID_EOF_STATE | HPE_HEADER_OVERFLOW | HPE_CLOSED_CONNECTION
  | HPE_INVALID_VERSION | HPE_INVALID_STATUS | HPE_INVALID_METHOD | HPE_INVALID_URL
  | HPE_INVALID_HOST | HPE_INVALID_PORT | HPE_INVALID_PATH | HPE_INVALID_QUERY_STRING
  | HPE_INVALID_FRAGMENT
  | HPE_LF_EXPECTED | HPE_INVALID_HEADER_TOKEN | HPE_INVALID_CONTENT_LENGTH
  | HPE_INVALID_CHUNK_SIZE | HPE_INVALID_CONSTANT | HPE_INVALID_INTERNAL_STATE
  | HPE_STRICT | HPE_PAUSED | HPE_UNKNOWN.
#[export] Instance errno_eq_dec : EqDecision errno.
Proof. solve_decision. Defined.

(** [enum state] *)
Inductive pstate : Type :=
  | s_dead
  | s_start_req_or_res | s_res_or_resp_H | s_start_res | s_res_H | s_res_HT | s_res_HTT
  | s_res_HTTP | s_res_first_http_major | s_res_http_major | s_res_first_http_minor
  | s_res_http_minor | s_res_first_status_code | s_res_status_code | s_res_status
  | s_res_line_almost_done
  | s_start_req
  | s_req_method | s_req_spaces_before_url | s_req_schema | s_req_schema_slash
  | s_req_schema_slash_slash | s_req_server_start | s_req_server | s_req_server_with_at
  | s_req_path | s_req_query_string_start | s_req_query_string | s_req_fragment_start
  | s_req_fragment | s_req_http_start | s_req_http_H | s_req_http_HT | s_req_http_HTT
  | s_req_http_HTTP | s_req_first_http_major | s_req_http_major | s_req_first_http_minor
  | s_req_http_minor | s_req_line_almost_done
  | s_header_field_start | s_header_field | s_header_value_start | s_header_value
  | s_header_value_lws
  | s_header_almost_done
  | s_chunk_size_start | s_chunk_size | s_chunk_parameters | s_chunk_size_almost_done
  | s_headers_almost_done | s_headers_done
  | s_chunk_data | s_chunk_data_almost_done | s_chunk_data_done
  | s_body_identity | s_body_identity_eof
  | s_message_done.
#[export] Instance pstate_eq_dec : EqDecision pstate.
Proof. solve_decision. Defined.

(** [PARSING_HEADER(state)]: [s_headers_done] is the last header state. *)
Definition PARSING_HEADER (s : pstate) : bool :=
  match s with
  | s_chunk_data | s_chunk_data_almost_done | s_chunk_data_done
  | s_body_identity | s_body_identity_eof | s_message_done => false
  | _ => true
  end.

Inductive header_states : Type :=
  | h_general | h_C | h_CO | h_CON
  | h_matching_connection | h_matching_proxy_connection | h_matching_content_length
  | h_matching_transfer_encoding | h_matching_upgrade
  | h_connection | h_content_length | h_transfer_encoding | h_upgrade
  | h_matching_transfer_encoding_chunked | h_matching_connection_keep_alive
  | h_matching_connection_close
  | h_transfer_encoding_chunked | h_connection_keep_alive | h_connection_close.
#[export] Instance header_states_eq_dec : EqDecision header_states.
Proof. solve_decision. Defined.

Definition PROXY_CONNECTION : str := "proxy-connection".
Definition CONNECTION : str := "connection".
Definition CONTENT_LENGTH : str := "content-length".
Definition TRANSFER_ENCODING : str := "transfer-encoding".
Definition UPGRADE : str := "upgrade".
Definition CHUNKED : str := "chunked".
Definition KEEP_ALIVE : str := "keep-alive".
Definition CLOSE : str := "close".

(** ** Tables and character classes *)

(** The initialisers of [tokens], [unhex] and [normal_url_char] stop at byte 127; the rest
    of each array is zero. *)
Definition tokens : list ascii :=
  repeat NUL 33 ++ "!" ++ [NUL] ++ "#$%&'" ++ [NUL; NUL] ++ "*+" ++ [NUL] ++ "-." ++ [NUL] ++
  "0123456789" ++ repeat NUL 7 ++ "abcdefghijklmnopqrstuvwxyz" ++ repeat NUL 3 ++ "^_`" ++
  "abcdefghijklmnopqrstuvwxyz" ++ [NUL] ++ "|" ++ [NUL] ++ "~" ++ [NUL] ++ repeat NUL 128.

Definition unhex : list Z :=
  (repeat (-1) 48 ++ [0; 1; 2; 3; 4; 5; 6; 7; 8; 9] ++ repeat (-1) 7 ++
   [10; 11; 12; 13; 14; 15] ++ repeat (-1) 26 ++ [10; 11; 12; 13; 14; 15] ++
   repeat (-1) 25 ++ repeat 0 128)%Z.

Definition normal_url_char : list Z :=
  ([0; 0; 0; 0; 246; 255; 255; 127] ++ repeat 255 7 ++ [127] ++ repeat 0 16)%Z.

Definition TOKEN (ch : ascii) : ascii := nth (Z.to_nat (u8 ch)) tokens NUL.
Definition unhex_val (ch : ascii) : Z := nth (Z.to_nat (u8 ch)) unhex 0%Z.
(** [BIT_AT(normal_url_char, (unsigned char)c)] *)
Definition IS_URL_CHAR (ch : ascii) : bool :=
  Z.testbit (nth (Z.to_nat (Z.shiftr (u8 ch) 3)) normal_url_char 0%Z) (Z.land (u8 ch) 7).

#[global] Arguments TOKEN : simpl never.
#[global] Arguments unhex_val : simpl never.
#[global] Arguments IS_URL_CHAR : simpl never.

(** [ch == lit] *)
Local Notation "c =c d" := (bool_decide (c = d%char)) (at level 70, only parsing).

Definition LOWER (c : ascii) : Z := Z.lor (u8 c) 32.
(** [char c = LOWER(ch)] *)
Definition lower_char (c : ascii) : ascii := chr (LOWER c).
Definition IS_ALPHA (c : ascii) : bool := ((97 <=? LOWER c) && (LOWER c <=? 122))%Z.
(** A byte above 127 is a negative [char], so not a digit either way. *)
Definition IS_NUM (c : ascii) : bool := is_digit c.
Definition IS_ALPHANUM (c : ascii) : bool := IS_ALPHA c || IS_NUM c.
Definition IS_MARK (c : ascii) : bool :=
  bool_decide (c ∈ ("-_.!~*'()" : str)).
Definition IS_USERINFO_CHAR (c : ascii) : bool :=
  IS_ALPHANUM c || IS_MARK c || bool_decide (c ∈ ("%;:&=+$," : str)).

(** ** The state of a parser *)

Record http_parser : Type := MkParser {
  type : http_parser_type;
  flags : Z;
  state : pstate;
  header_state : header_states;
  index : Z;
  nread : Z;
  content_length : Z;
  http_major : Z;
  http_minor : Z;
  status_code : Z;
  method : Z;
  http_errno : errno;
  upgrade : bool
}.

Definition set_type v p := MkParser v (flags p) (state p) (header_state p) (index p) (nread p)
  (content_length p) (http_major p) (http_minor p) (status_code p) (method p) (http_errno p)
  (upgrade p).
Definition set_flags v p := MkParser (type p) v (state p) (header_state p) (index p) (nread p)
  (content_length p) (http_major p) (http_minor p) (status_code p) (method p) (http_errno p)
  (upgrade p).
Definition set_state v p := MkParser (type p) (flags p) v (header_state p) (index p) (nread p)
  (content_length p) (http_major p) (http_minor p) (status_code p) (method p) (http_errno p)
  (upgrade p).
Definition set_header_state v p := MkParser (type p) (flags p) (state p) v (index p) (nread p)
  (content_length p) (http_major p) (http_minor p) (status_code p) (method p) (http_errno p)
  (upgrade p).
Definition set_index v p := MkParser (type p) (flags p) (state p) (header_state p) v (nread p)
  (content_length p) (http_major p) (http_minor p) (status_code p) (method p) (http_errno p)
  (upgrade p).
Definition set_nread v p := MkParser (type p) (flags p) (state p) (header_state p) (index p) v
  (content_length p) (http_major p) (http_minor p) (status_code p) (method p) (http_errno p)
  (upgrade p).
Definition set_content_length v p := MkParser (type p) (flags p) (state p) (header_state p)
  (index p) (nread p) v (http_major p) (http_minor p) (status_code p) (method p) (http_errno p)
  (upgrade p).
Definition set_http_major v p := MkParser (type p) (flags p) (state p) (header_state p) (index p)
  (nread p) (content_length p) v (http_minor p) (status_code p) (method p) (http_errno p)
  (upgrade p).
Definition set_http_minor v p := MkParser (type p) (flags p) (state p) (header_state p) (index p)
  (nread p) (content_length p) (http_major p) v (status_code p) (method p) (http_errno p)
  (upgrade p).
Definition set_status_code v p := MkParser (type p) (flags p) (state p) (header_state p) (index p)
  (nread p) (content_length p) (http_major p) (http_minor p) v (method p) (http_errno p)
  (upgrade p).
Definition set_method v p := MkParser (type p) (flags p) (state p) (header_state p) (index p)
  (nread p) (content_length p) (http_major p) (http_minor p) (status_code p) v (http_errno p)
  (upgrade p).
Definition set_http_errno v p := MkParser (type p) (flags p) (state p) (header_state p) (index p)
  (nread p) (content_length p) (http_major p) (http_minor p) (status_code p) (method p) v
  (upgrade p).
Definition set_upgrade v p := MkParser (type p) (flags p) (state p) (header_state p) (index p)
  (nread p) (content_length p) (http_major p) (http_minor p) (status_code p) (method p)
  (http_errno p) v.

Definition has_flag (f : Z) (p : http_parser) : bool := negb (Z.land (flags p) f =? 0)%Z.
(** [parser->flags |= f] *)
Definition add_flag (f : Z) (p : http_parser) : http_parser := set_flags (Z.lor (flags p) f) p.

Definition http_parser_init (t : http_parser_type) : http_parser :=
  MkParser t 0
    (match t with
     | HTTP_REQUEST => s_start_req
     | HTTP_RESPONSE => s_start_res
     | HTTP_BOTH => s_start_req_or_res
     end) h_general 0 0 0 0 0 0 0 HPE_OK false.

(** [http_message_needs_eof] *)
Definition http_message_needs_eof (p : http_parser) : bool :=
  match type p with
  | HTTP_REQUEST => false
  | _ =>
      if (status_code p / 100 =? 1)%Z || (status_code p =? 204)%Z || (status_code p =? 304)%Z ||
         has_flag F_SKIPBODY p
      then false
      else negb (has_flag F_CHUNKED p || negb (content_length p =? ULLONG_MAX)%Z)
  end.

Definition http_should_keep_alive (p : http_parser) : bool :=
  if (0 <? http_major p)%Z && (0 <? http_minor p)%Z
  then if has_flag F_CONNECTION_CLOSE p then false else negb (http_message_needs_eof p)
  else if negb (has_flag F_CONNECTION_KEEP_ALIVE p) then false
       else negb (http_message_needs_eof p).

(** [start_state] and [NEW_MESSAGE()] *)
Definition start_state (p : http_parser) : pstate :=
  match type p with HTTP_REQUEST => s_start_req | _ => s_start_res end.
Definition NEW_MESSAGE (p : http_parser) : pstate :=
  if http_should_keep_alive p then start_state p else s_dead.

(** ** [parse_url_char] *)

Definition url_server_char (ch : ascii) : pstate :=
  if ch =c "/" then s_req_path
  else if ch =c "?" then s_req_query_string_start
  else if ch =c "@" then s_req_server_with_at
  else if IS_USERINFO_CHAR ch || (ch =c "[") || (ch =c "]") then s_req_server
  else s_dead.

Definition parse_url_char (s : pstate) (ch : ascii) : pstate :=
  if (ch =c " ") || (ch =c CR) || (ch =c LF) then s_dead
  else if (ch =c TAB) || (ch =c chr 12) then s_dead
  else match s with
  | s_req_spaces_before_url =>
      if (ch =c "/") || (ch =c "*") then s_req_path
      else if IS_ALPHA ch then s_req_schema else s_dead
  | s_req_schema =>
      if IS_ALPHA ch then s else if ch =c ":" then s_req_schema_slash else s_dead
  | s_req_schema_slash => if ch =c "/" then s_req_schema_slash_slash else s_dead
  | s_req_schema_slash_slash => if ch =c "/" then s_req_server_start else s_dead
  | s_req_server_with_at => if ch =c "@" then s_dead else url_server_char ch
  | s_req_server_start | s_req_server => url_server_char ch
  | s_req_path =>
      if IS_URL_CHAR ch then s
      else if ch =c "?" then s_req_query_string_start
      else if ch =c "#" then s_req_fragment_start else s_dead
  | s_req_query_string_start | s_req_query_string =>
      if IS_URL_CHAR ch then s_req_query_string
      else if ch =c "?" then s_req_query_string
      else if ch =c "#" then s_req_fragment_start else s_dead
  | s_req_fragment_start =>
      if IS_URL_CHAR ch then s_req_fragment
      else if ch =c "?" then s_req_fragment
      else if ch =c "#" then s else s_dead
  | s_req_fragment =>
      if IS_URL_CHAR ch then s
      else if (ch =c "?") || (ch =c "#") then s else s_dead
  | _ => s_dead
  end.

(** ** Callbacks *)

(** One call of a callback: its data as offset and length, and for [on_headers_complete]
    what the wrapper reads of the parser. *)
Inductive callback : Type :=
  | CBmessage_begin
  | CBurl (off len : nat)
  | CBstatus_complete
  | CBheader_field (off len : nat)
  | CBheader_value (off len : nat)
  | CBheaders_complete (nread content_length : Z)
  | CBbody (off len : nat)
  | CBmessage_complete.

(** [None]: the pointer is null; otherwise what the callback returns. *)
Definition cb : Type := option (callback → Z).

Record http_parser_settings : Type := MkSettings {
  on_message_begin : cb;
  on_url : cb;
  on_status_complete : cb;
  on_header_field : cb;
  on_header_value : cb;
  on_headers_complete : cb;
  on_body : cb;
  on_message_complete : cb
}.

Inductive mark : Type := url_mark | header_field_mark | header_value_mark | body_mark.
#[export] Instance mark_eq_dec : EqDecision mark.
Proof. solve_decision. Defined.

(** The four local pointers [url_mark], [header_field_mark], .. of a call. *)
Definition mark_values (u f v b : option nat) (k : mark) : option nat :=
  match k with
  | url_mark => u
  | header_field_mark => f
  | header_value_mark => v
  | body_mark => b
  end.

(** The local variables of a call of [http_parser_execute], with the parser it works on. *)
Record exec : Type := MkExec {
  parser : http_parser;
  marks : mark → option nat;
  calls : list callback
}.

Inductive flow : Type :=
  | Break (p : nat)          (* to the next iteration of the loop *)
  | Reexecute (p : nat)      (* [goto reexecute_byte] *)
  | GotoError (p : nat)      (* [goto error] *)
  | Return (n : Z).

Abbreviation step := (result (exec * flow)).

Definition upd (f : http_parser → http_parser) (m : exec) : exec :=
  MkExec (f (parser m)) (marks m) (calls m).
Definition set_mark (k : mark) (v : option nat) (m : exec) : exec :=
  let at_ j := if bool_decide (j = k) then v else marks m j in
  MkExec (parser m) (mark_values (at_ url_mark) (at_ header_field_mark) (at_ header_value_mark)
    (at_ body_mark)) (calls m).
Definition called (e : callback) (m : exec) : exec :=
  MkExec (parser m) (marks m) (calls m ++ [e]).

(** [MARK(FOR)] *)
Definition MARK (k : mark) (p : nat) (m : exec) : exec :=
  match marks m k with None => set_mark k (Some p) m | Some _ => m end.

(** [SET_ERRNO(e); goto error] *)
Definition error (e : errno) (p : nat) (m : exec) : step :=
  Ok (upd (set_http_errno e) m, GotoError p).

(** [STRICT_CHECK(cond)] *)
Definition STRICT_CHECK (cond : bool) (p : nat) (m : exec) (k : step) : step :=
  if cond then error HPE_STRICT p m else k.

Definition assert (b : bool) (k : step) : step := if b then k else Undef AssertFailed.

Definition no_error (m : exec) : bool := bool_decide (http_errno (parser m) = HPE_OK).

Section Execute.
Variable settings : http_parser_settings.

Definition data_cb (k : mark) : cb :=
  match k with
  | url_mark => on_url settings
  | header_field_mark => on_header_field settings
  | header_value_mark => on_header_value settings
  | body_mark => on_body settings
  end.

Definition data_event (k : mark) (off len : nat) : callback :=
  match k with
  | url_mark => CBurl off len
  | header_field_mark => CBheader_field off len
  | header_value_mark => CBheader_value off len
  | body_mark => CBbody off len
  end.

Definition data_errno (k : mark) : errno :=
  match k with
  | url_mark => HPE_CB_url
  | header_field_mark => HPE_CB_header_field
  | header_value_mark => HPE_CB_header_value
  | body_mark => HPE_CB_body
  end.

(** [CALLBACK_NOTIFY_(FOR, ER)], with [FOR] given by its pointer, event and error. *)
Definition CALLBACK_NOTIFY_ (f : cb) (ev : callback) (err : errno) (er : Z) (m : exec)
    (k : exec → step) : step :=
  assert (no_error m)
    match f with
    | None => k m
    | Some f =>
        let m := called ev m in
        if negb (f ev =? 0)%Z then Ok (upd (set_http_errno err) m, Return er) else k m
    end.

(** [CALLBACK_NOTIFY(message_begin)] and its like: the current byte is consumed. *)
Definition notify_message_begin (p : nat) (m : exec) (k : exec → step) : step :=
  CALLBACK_NOTIFY_ (on_message_begin settings) CBmessage_begin HPE_CB_message_begin
    (Z.of_nat p + 1) m k.
Definition notify_status_complete (p : nat) (m : exec) (k : exec → step) : step :=
  CALLBACK_NOTIFY_ (on_status_complete settings) CBstatus_complete HPE_CB_status_complete
    (Z.of_nat p + 1) m k.
Definition notify_message_complete (er : Z) (m : exec) (k : exec → step) : step :=
  CALLBACK_NOTIFY_ (on_message_complete settings) CBmessage_complete HPE_CB_message_complete
    er m k.

(** [CALLBACK_DATA_(FOR, LEN, ER)] with [LEN = last - FOR##_mark]. *)
Definition CALLBACK_DATA_ (f : mark) (last : nat) (er : Z) (m : exec) (k : exec → step) : step :=
  assert (no_error m)
    match marks m f with
    | None => k m
    | Some a =>
        match data_cb f with
        | None => k (set_mark f None m)
        | Some g =>
            let ev := data_event f a (last - a) in
            let m := called ev m in
            if negb (g ev =? 0)%Z
            then Ok (upd (set_http_errno (data_errno f)) m, Return er)
            else k (set_mark f None m)
        end
    end.

Definition CALLBACK_DATA (f : mark) (p : nat) (m : exec) (k : exec → step) : step :=
  CALLBACK_DATA_ f p (Z.of_nat p + 1) m k.
Definition CALLBACK_DATA_NOADVANCE (f : mark) (p : nat) (m : exec) (k : exec → step) : step :=
  CALLBACK_DATA_ f p (Z.of_nat p) m k.

(** ** The start line of a response *)

Definition case_dead (ch : ascii) (p : nat) (m : exec) : step :=
  if (ch =c CR) || (ch =c LF) then Ok (m, Break p) else error HPE_CLOSED_CONNECTION p m.

Definition case_start_req_or_res (ch : ascii) (p : nat) (m : exec) : step :=
  if (ch =c CR) || (ch =c LF) then Ok (m, Break p)
  else
    let m := upd (λ q, set_content_length ULLONG_MAX (set_flags 0 q)) m in
    if ch =c "H"
    then notify_message_begin p (upd (set_state s_res_or_resp_H) m) (λ m, Ok (m, Break p))
    else Ok (upd (λ q, set_state s_start_req (set_type HTTP_REQUEST q)) m, Reexecute p).

Definition case_res_or_resp_H (ch : ascii) (p : nat) (m : exec) : step :=
  if ch =c "T" then Ok (upd (λ q, set_state s_res_HT (set_type HTTP_RESPONSE q)) m, Break p)
  else if negb (ch =c "E") then error HPE_INVALID_CONSTANT p m
  else Ok (upd (λ q, set_state s_req_method (set_index 2
             (set_method HTTP_HEAD (set_type HTTP_REQUEST q)))) m, Break p).

Definition case_start_res (ch : ascii) (p : nat) (m : exec) : step :=
  let m := upd (λ q, set_content_length ULLONG_MAX (set_flags 0 q)) m in
  if ch =c "H"
  then notify_message_begin p (upd (set_state s_res_H) m) (λ m, Ok (m, Break p))
  else if (ch =c CR) || (ch =c LF) then notify_message_begin p m (λ m, Ok (m, Break p))
  else error HPE_INVALID_CONSTANT p m.

(** A state that expects one byte in strict mode, [s_res_H] to [s_res_HTTP] and
    [s_req_http_H] to [s_req_http_HTTP]. *)
Definition expect (c : ascii) (next : pstate) (ch : ascii) (p : nat) (m : exec) : step :=
  STRICT_CHECK (negb (ch =c c)) p m (Ok (upd (set_state next) m, Break p)).

(** [ch - '0'] *)
Definition digit_of (ch : ascii) : Z := u8 ch - 48.

(** One more digit of a number that may have three. *)
Definition more_digits (get : http_parser → Z) (put : Z → http_parser → http_parser)
    (err : errno) (ch : ascii) (p : nat) (m : exec) : step :=
  let m := upd (λ q, put (u16 (get q * 10)) q) m in
  let m := upd (λ q, put (u16 (get q + digit_of ch)) q) m in
  if (999 <? get (parser m))%Z then error err p m else Ok (m, Break p).

Definition case_res_first_http_major (ch : ascii) (p : nat) (m : exec) : step :=
  if negb (IS_NUM ch) then error HPE_INVALID_VERSION p m
  else Ok (upd (λ q, set_state s_res_http_major (set_http_major (digit_of ch) q)) m, Break p).

Definition case_http_major (next : pstate) (ch : ascii) (p : nat) (m : exec) : step :=
  if ch =c "." then Ok (upd (set_state next) m, Break p)
  else if negb (IS_NUM ch) then error HPE_INVALID_VERSION p m
  else more_digits http_major set_http_major HPE_INVALID_VERSION ch p m.

Definition case_first_http_minor (next : pstate) (ch : ascii) (p : nat) (m : exec) : step :=
  if negb (IS_NUM ch) then error HPE_INVALID_VERSION p m
  else Ok (upd (λ q, set_state next (set_http_minor (digit_of ch) q)) m, Break p).

Definition case_res_http_minor (ch : ascii) (p : nat) (m : exec) : step :=
  if ch =c " " then Ok (upd (set_state s_res_first_status_code) m, Break p)
  else if negb (IS_NUM ch) then error HPE_INVALID_VERSION p m
  else more_digits http_minor set_http_minor HPE_INVALID_VERSION ch p m.

Definition case_res_first_status_code (ch : ascii) (p : nat) (m : exec) : step :=
  if negb (IS_NUM ch) then
    if ch =c " " then Ok (m, Break p) else error HPE_INVALID_STATUS p m
  else Ok (upd (λ q, set_state s_res_status_code (set_status_code (digit_of ch) q)) m, Break p).

Definition case_res_status_code (ch : ascii) (p : nat) (m : exec) : step :=
  if negb (IS_NUM ch) then
    if ch =c " " then Ok (upd (set_state s_res_status) m, Break p)
    else if ch =c CR then Ok (upd (set_state s_res_line_almost_done) m, Break p)
    else if ch =c LF then Ok (upd (set_state s_header_field_start) m, Break p)
    else error HPE_INVALID_STATUS p m
  else more_digits status_code set_status_code HPE_INVALID_STATUS ch p m.

Definition case_res_status (ch : ascii) (p : nat) (m : exec) : step :=
  if ch =c CR then Ok (upd (set_state s_res_line_almost_done) m, Break p)
  else if ch =c LF then Ok (upd (set_state s_header_field_start) m, Break p)
  else Ok (m, Break p).

Definition case_res_line_almost_done (ch : ascii) (p : nat) (m : exec) : step :=
  STRICT_CHECK (negb (ch =c LF)) p m
    (notify_status_complete p (upd (set_state s_header_field_start) m) (λ m, Ok (m, Break p))).

(** ** The start line of a request *)

(** The method assumed from the first letter. *)
Definition first_method (ch : ascii) : option Z :=
  if ch =c "C" then Some HTTP_CONNECT
  else if ch =c "D" then Some HTTP_DELETE
  else if ch =c "G" then Some HTTP_GET
  else if ch =c "H" then Some HTTP_HEAD
  else if ch =c "L" then Some HTTP_LOCK
  else if ch =c "M" then Some HTTP_MKCOL
  else if ch =c "N" then Some HTTP_NOTIFY
  else if ch =c "O" then Some HTTP_OPTIONS
  else if ch =c "P" then Some HTTP_POST
  else if ch =c "R" then Some HTTP_REPORT
  else if ch =c "S" then Some HTTP_SUBSCRIBE
  else if ch =c "T" then Some HTTP_TRACE
  else if ch =c "U" then Some HTTP_UNLOCK
  else None.

Definition case_start_req (ch : ascii) (p : nat) (m : exec) : step :=
  if (ch =c CR) || (ch =c LF) then Ok (m, Break p)
  else
    let m := upd (λ q, set_content_length ULLONG_MAX (set_flags 0 q)) m in
    if negb (IS_ALPHA ch) then error HPE_INVALID_METHOD p m
    else
      let m := upd (λ q, set_index 1 (set_method 0 q)) m in
      match first_method ch with
      | None => error HPE_INVALID_METHOD p m
      | Some v =>
          notify_message_begin p (upd (λ q, set_state s_req_method (set_method v q)) m)
            (λ m, Ok (m, Break p))
      end.

(** [s[i]] for a C string: the terminator is readable, beyond it is not the object. *)
Definition cstr_at (s : str) (i : Z) : result ascii :=
  match s !! Z.to_nat i with
  | Some c => Ok c
  | None => if (i =? slen s)%Z then Ok NUL else Undef OutOfBounds
  end.

(** The method that the byte [ch] at [index] turns [method] into. *)
Definition other_method (meth idx : Z) (ch : ascii) : option Z :=
  if (meth =? HTTP_CONNECT)%Z then
    if (idx =? 1)%Z && (ch =c "H") then Some HTTP_CHECKOUT
    else if (idx =? 2)%Z && (ch =c "P") then Some HTTP_COPY
    else None
  else if (meth =? HTTP_MKCOL)%Z then
    if (idx =? 1)%Z && (ch =c "O") then Some HTTP_MOVE
    else if (idx =? 1)%Z && (ch =c "E") then Some HTTP_MERGE
    else if (idx =? 1)%Z && (ch =c "-") then Some HTTP_MSEARCH
    else if (idx =? 2)%Z && (ch =c "A") then Some HTTP_MKACTIVITY
    else None
  else if (meth =? HTTP_SUBSCRIBE)%Z then
    if (idx =? 1)%Z && (ch =c "E") then Some HTTP_SEARCH else None
  else if (idx =? 1)%Z && (meth =? HTTP_POST)%Z then
    if ch =c "R" then Some HTTP_PROPFIND
    else if ch =c "U" then Some HTTP_PUT
    else if ch =c "A" then Some HTTP_PATCH
    else None
  else if (idx =? 2)%Z then
    if (meth =? HTTP_PUT)%Z then if ch =c "R" then Some HTTP_PURGE else None
    else if (meth =? HTTP_UNLOCK)%Z then if ch =c "S" then Some HTTP_UNSUBSCRIBE else None
    else None
  else if (idx =? 4)%Z && (meth =? HTTP_PROPFIND)%Z && (ch =c "P") then Some HTTP_PROPPATCH
  else None.

(** [++parser->index], an [unsigned char]. *)
Definition incr_index (q : http_parser) : http_parser := set_index (wrap 8 (index q + 1)) q.

Definition case_req_method (ch : ascii) (p : nat) (m : exec) : step :=
  if ch =c NUL then error HPE_INVALID_METHOD p m
  else
    let q := parser m in
    match method_strings !! Z.to_nat (method q) with
    | None => Undef OutOfBounds
    | Some matcher =>
        let* mc := cstr_at matcher (index q) in
        if (ch =c " ") && (mc =c NUL)
        then Ok (upd (λ q, incr_index (set_state s_req_spaces_before_url q)) m, Break p)
        else if ch =c mc then Ok (upd incr_index m, Break p)
        else match other_method (method q) (index q) ch with
             | Some v => Ok (upd (λ q, incr_index (set_method v q)) m, Break p)
             | None => error HPE_INVALID_METHOD p m
             end
    end.

(** [parser->state = parse_url_char(..); if (parser->state == s_dead) ..] *)
Definition url_char (ch : ascii) (p : nat) (m : exec) : step :=
  let m := upd (λ q, set_state (parse_url_char (state q) ch) q) m in
  if bool_decide (state (parser m) = s_dead) then error HPE_INVALID_URL p m
  else Ok (m, Break p).

Definition case_req_spaces_before_url (ch : ascii) (p : nat) (m : exec) : step :=
  if ch =c " " then Ok (m, Break p)
  else
    let m := MARK url_mark p m in
    let m := if (method (parser m) =? HTTP_CONNECT)%Z
             then upd (set_state s_req_server_start) m else m in
    url_char ch p m.

(** [s_req_schema] to [s_req_server_start] *)
Definition case_req_schema (ch : ascii) (p : nat) (m : exec) : step :=
  if (ch =c " ") || (ch =c CR) || (ch =c LF) then error HPE_INVALID_URL p m
  else url_char ch p m.

(** [s_req_server] to [s_req_fragment] *)
Definition case_req_path (ch : ascii) (p : nat) (m : exec) : step :=
  if ch =c " " then
    CALLBACK_DATA url_mark p (upd (set_state s_req_http_start) m) (λ m, Ok (m, Break p))
  else if (ch =c CR) || (ch =c LF) then
    let m := upd (λ q, set_http_minor 9 (set_http_major 0 q)) m in
    CALLBACK_DATA url_mark p
      (upd (set_state (if ch =c CR then s_req_line_almost_done else s_header_field_start)) m)
      (λ m, Ok (m, Break p))
  else url_char ch p m.

Definition case_req_http_start (ch : ascii) (p : nat) (m : exec) : step :=
  if ch =c "H" then Ok (upd (set_state s_req_http_H) m, Break p)
  else if ch =c " " then Ok (m, Break p)
  else error HPE_INVALID_CONSTANT p m.

Definition case_req_first_http_major (ch : ascii) (p : nat) (m : exec) : step :=
  if negb (IS_NUM ch) || (ch =c "0") then error HPE_INVALID_VERSION p m
  else Ok (upd (λ q, set_state s_req_http_major (set_http_major (digit_of ch) q)) m, Break p).

Definition case_req_http_minor (ch : ascii) (p : nat) (m : exec) : step :=
  if ch =c CR then Ok (upd (set_state s_req_line_almost_done) m, Break p)
  else if ch =c LF then Ok (upd (set_state s_header_field_start) m, Break p)
  else if negb (IS_NUM ch) then error HPE_INVALID_VERSION p m
  else more_digits http_minor set_http_minor HPE_INVALID_VERSION ch p m.

Definition case_req_line_almost_done (ch : ascii) (p : nat) (m : exec) : step :=
  if negb (ch =c LF) then error HPE_LF_EXPECTED p m
  else Ok (upd (set_state s_header_field_start) m, Break p).

(** ** Headers *)

(** [parser->index++] and the comparison with the constant [word]; [found] is the state
    after its last byte. *)
Definition matching (word : str) (found : header_states) (c : ascii) (q : http_parser)
    : result http_parser :=
  let q := incr_index q in
  if (slen word <? index q)%Z then Ok (set_header_state h_general q)
  else
    let* w := cstr_at word (index q) in
    Ok (if negb (bool_decide (c = w)) then set_header_state h_general q
        else if (index q =? slen word - 1)%Z then set_header_state found q
        else q).

Definition case_header_field_start (ch : ascii) (p : nat) (m : exec) : step :=
  if ch =c CR then Ok (upd (set_state s_headers_almost_done) m, Break p)
  else if ch =c LF then Ok (upd (set_state s_headers_almost_done) m, Reexecute p)
  else
    let c := TOKEN ch in
    if c =c NUL then error HPE_INVALID_HEADER_TOKEN p m
    else
      let m := upd (λ q, set_state s_header_field (set_index 0 q)) (MARK header_field_mark p m) in
      Ok (upd (set_header_state
                 (if c =c "c" then h_C
                  else if c =c "p" then h_matching_proxy_connection
                  else if c =c "t" then h_matching_transfer_encoding
                  else if c =c "u" then h_matching_upgrade
                  else h_general)) m, Break p).

(** The switch of [s_header_field] on a token [c] of the byte [ch]. *)
Definition field_char (c ch : ascii) (q : http_parser) : result http_parser :=
  match header_state q with
  | h_general => Ok q
  | h_C => Ok (set_header_state (if c =c "o" then h_CO else h_general) (incr_index q))
  | h_CO => Ok (set_header_state (if c =c "n" then h_CON else h_general) (incr_index q))
  | h_CON =>
      Ok (set_header_state (if c =c "n" then h_matching_connection
                            else if c =c "t" then h_matching_content_length
                            else h_general) (incr_index q))
  | h_matching_connection => matching CONNECTION h_connection c q
  | h_matching_proxy_connection => matching PROXY_CONNECTION h_connection c q
  | h_matching_content_length => matching CONTENT_LENGTH h_content_length c q
  | h_matching_transfer_encoding => matching TRANSFER_ENCODING h_transfer_encoding c q
  | h_matching_upgrade => matching UPGRADE h_upgrade c q
  | h_connection | h_content_length | h_transfer_encoding | h_upgrade =>
      Ok (if ch =c " " then q else set_header_state h_general q)
  | _ => Undef AssertFailed
  end.

Definition case_header_field (ch : ascii) (p : nat) (m : exec) : step :=
  let c := TOKEN ch in
  if negb (c =c NUL) then
    let* q := field_char c ch (parser m) in
    Ok (upd (λ _, q) m, Break p)
  else if ch =c ":" then
    CALLBACK_DATA header_field_mark p (upd (set_state s_header_value_start) m)
      (λ m, Ok (m, Break p))
  else if ch =c CR then
    CALLBACK_DATA header_field_mark p (upd (set_state s_header_almost_done) m)
      (λ m, Ok (m, Break p))
  else if ch =c LF then
    CALLBACK_DATA header_field_mark p (upd (set_state s_header_field_start) m)
      (λ m, Ok (m, Break p))
  else error HPE_INVALID_HEADER_TOKEN p m.

(** The switch of [s_header_value_start]; [None]: not a digit in a Content-Length. *)
Definition value_first_char (ch : ascii) (q : http_parser) : option http_parser :=
  let c := lower_char ch in
  match header_state q with
  | h_upgrade => Some (set_header_state h_general (add_flag F_UPGRADE q))
  | h_transfer_encoding =>
      Some (set_header_state
              (if c =c "c" then h_matching_transfer_encoding_chunked else h_general) q)
  | h_content_length =>
      if negb (IS_NUM ch) then None else Some (set_content_length (digit_of ch) q)
  | h_connection =>
      Some (set_header_state
              (if c =c "k" then h_matching_connection_keep_alive
               else if c =c "c" then h_matching_connection_close
               else h_general) q)
  | _ => Some (set_header_state h_general q)
  end.

Definition case_header_value_start (ch : ascii) (p : nat) (m : exec) : step :=
  if (ch =c " ") || (ch =c TAB) then Ok (m, Break p)
  else
    let m := upd (λ q, set_index 0 (set_state s_header_value q)) (MARK header_value_mark p m) in
    if ch =c CR then
      CALLBACK_DATA header_value_mark p
        (upd (λ q, set_state s_header_almost_done (set_header_state h_general q)) m)
        (λ m, Ok (m, Break p))
    else if ch =c LF then
      CALLBACK_DATA header_value_mark p (upd (set_state s_header_field_start) m)
        (λ m, Ok (m, Break p))
    else
      match value_first_char ch (parser m) with
      | None => error HPE_INVALID_CONTENT_LENGTH p m
      | Some q => Ok (upd (λ _, q) m, Break p)
      end.

(** [t *= base; t += v] in 64 bits, and the test after it; [None]: overflow seen. *)
Definition accumulate (base v cl : Z) : option Z :=
  let t := u64 (u64 (cl * base) + v) in
  if (t <? cl)%Z || (t =? ULLONG_MAX)%Z then None else Some t.

(** The switch of [s_header_value]; [None]: the Content-Length is refused. *)
Definition value_char (ch : ascii) (q : http_parser) : result (option http_parser) :=
  let c := lower_char ch in
  match header_state q with
  | h_general => Ok (Some q)
  | h_connection | h_transfer_encoding => Undef AssertFailed
  | h_content_length =>
      Ok (if ch =c " " then Some q
          else if negb (IS_NUM ch) then None
          else (λ t, set_content_length t q) <$> accumulate 10 (digit_of ch) (content_length q))
  | h_matching_transfer_encoding_chunked =>
      let* q := matching CHUNKED h_transfer_encoding_chunked c q in Ok (Some q)
  | h_matching_connection_keep_alive =>
      let* q := matching KEEP_ALIVE h_connection_keep_alive c q in Ok (Some q)
  | h_matching_connection_close =>
      let* q := matching CLOSE h_connection_close c q in Ok (Some q)
  | h_transfer_encoding_chunked | h_connection_keep_alive | h_connection_close =>
      Ok (Some (if ch =c " " then q else set_header_state h_general q))
  | _ => Ok (Some (set_header_state h_general (set_state s_header_value q)))
  end.

Definition case_header_value (ch : ascii) (p : nat) (m : exec) : step :=
  if ch =c CR then
    CALLBACK_DATA header_value_mark p (upd (set_state s_header_almost_done) m)
      (λ m, Ok (m, Break p))
  else if ch =c LF then
    CALLBACK_DATA_NOADVANCE header_value_mark p (upd (set_state s_header_almost_done) m)
      (λ m, Ok (m, Reexecute p))
  else
    let* r := value_char ch (parser m) in
    match r with
    | None => error HPE_INVALID_CONTENT_LENGTH p m
    | Some q => Ok (upd (λ _, q) m, Break p)
    end.

Definition case_header_almost_done (ch : ascii) (p : nat) (m : exec) : step :=
  STRICT_CHECK (negb (ch =c LF)) p m
    (let m := upd (set_state s_header_value_lws) m in
     Ok (match header_state (parser m) with
         | h_connection_keep_alive => upd (add_flag F_CONNECTION_KEEP_ALIVE) m
         | h_connection_close => upd (add_flag F_CONNECTION_CLOSE) m
         | h_transfer_encoding_chunked => upd (add_flag F_CHUNKED) m
         | _ => m
         end, Break p)).

Definition case_header_value_lws (ch : ascii) (p : nat) (m : exec) : step :=
  if (ch =c " ") || (ch =c TAB) then Ok (upd (set_state s_header_value_start) m, Break p)
  else Ok (upd (set_state s_header_field_start) m, Reexecute p).

(** [parser->state = NEW_MESSAGE(); CALLBACK_NOTIFY(message_complete)] and what follows. *)
Definition finish_message (p : nat) (m : exec) (k : exec → step) : step :=
  notify_message_complete (Z.of_nat p + 1) (upd (λ q, set_state (NEW_MESSAGE q) q) m) k.

Definition case_headers_almost_done (ch : ascii) (p : nat) (m : exec) : step :=
  STRICT_CHECK (negb (ch =c LF)) p m
    (if has_flag F_TRAILING (parser m) then finish_message p m (λ m, Ok (m, Break p))
     else
       let m := upd (set_state s_headers_done) m in
       let m := upd (λ q, set_upgrade (has_flag F_UPGRADE q || (method q =? HTTP_CONNECT)%Z) q) m in
       let go m : step := Ok (m, if no_error m then Reexecute p else Return (Z.of_nat p)) in
       match on_headers_complete settings with
       | None => go m
       | Some f =>
           let ev := CBheaders_complete (nread (parser m)) (content_length (parser m)) in
           let m := called ev m in
           if (f ev =? 0)%Z then go m
           else if (f ev =? 1)%Z then go (upd (add_flag F_SKIPBODY) m)
           else Ok (upd (set_http_errno HPE_CB_headers_complete) m, Return (Z.of_nat p))
       end).

Definition case_headers_done (ch : ascii) (p : nat) (m : exec) : step :=
  STRICT_CHECK (negb (ch =c LF)) p m
    (let m := upd (set_nread 0) m in
     let q := parser m in
     if upgrade q then finish_message p m (λ m, Ok (m, Return (Z.of_nat p + 1)))
     else if has_flag F_SKIPBODY q then finish_message p m (λ m, Ok (m, Break p))
     else if has_flag F_CHUNKED q then Ok (upd (set_state s_chunk_size_start) m, Break p)
     else if (content_length q =? 0)%Z then finish_message p m (λ m, Ok (m, Break p))
     else if negb (content_length q =? ULLONG_MAX)%Z
     then Ok (upd (set_state s_body_identity) m, Break p)
     else if match type q with HTTP_REQUEST => true | _ => negb (http_message_needs_eof q) end
     then finish_message p m (λ m, Ok (m, Break p))
     else Ok (upd (set_state s_body_identity_eof) m, Break p)).

(** ** Bodies *)

(** [MIN(parser->content_length, (data + len) - p)] *)
Definition to_read (len p : nat) (q : http_parser) : Z :=
  Z.min (content_length q) (Z.of_nat (len - p)).

(** [MARK(body); parser->content_length -= to_read; p += to_read - 1], under the
    assertion on the length. *)
Definition take_body (len p : nat) (m : exec) (k : nat → exec → step) : step :=
  let n := to_read len p (parser m) in
  assert (negb (content_length (parser m) =? 0)%Z &&
          negb (content_length (parser m) =? ULLONG_MAX)%Z)
    (k (p + Z.to_nat n - 1)%nat
       (upd (λ q, set_content_length (u64 (content_length q - n)) q) (MARK body_mark p m))).

Definition case_body_identity (len p : nat) (m : exec) : step :=
  take_body len p m (λ p m,
    if (content_length (parser m) =? 0)%Z then
      CALLBACK_DATA_ body_mark (p + 1) (Z.of_nat p) (upd (set_state s_message_done) m)
        (λ m, Ok (m, Reexecute p))
    else Ok (m, Break p)).

Definition case_body_identity_eof (len p : nat) (m : exec) : step :=
  Ok (MARK body_mark p m, Break (len - 1)).

Definition case_message_done (p : nat) (m : exec) : step :=
  finish_message p m (λ m, Ok (m, Break p)).

Definition is_chunked (m : exec) : bool := has_flag F_CHUNKED (parser m).

Definition case_chunk_size_start (ch : ascii) (p : nat) (m : exec) : step :=
  assert (nread (parser m) =? 1)%Z (assert (is_chunked m)
    (if (unhex_val ch =? -1)%Z then error HPE_INVALID_CHUNK_SIZE p m
     else Ok (upd (λ q, set_state s_chunk_size (set_content_length (unhex_val ch) q)) m, Break p))).

Definition case_chunk_size (ch : ascii) (p : nat) (m : exec) : step :=
  assert (is_chunked m)
    (if ch =c CR then Ok (upd (set_state s_chunk_size_almost_done) m, Break p)
     else if (unhex_val ch =? -1)%Z then
       if (ch =c ";") || (ch =c " ") then Ok (upd (set_state s_chunk_parameters) m, Break p)
       else error HPE_INVALID_CHUNK_SIZE p m
     else
       match accumulate 16 (unhex_val ch) (content_length (parser m)) with
       | None => error HPE_INVALID_CONTENT_LENGTH p m
       | Some t => Ok (upd (set_content_length t) m, Break p)
       end).

Definition case_chunk_parameters (ch : ascii) (p : nat) (m : exec) : step :=
  assert (is_chunked m)
    (if ch =c CR then Ok (upd (set_state s_chunk_size_almost_done) m, Break p)
     else Ok (m, Break p)).

Definition case_chunk_size_almost_done (ch : ascii) (p : nat) (m : exec) : step :=
  assert (is_chunked m) (STRICT_CHECK (negb (ch =c LF)) p m
    (let m := upd (set_nread 0) m in
     if (content_length (parser m) =? 0)%Z
     then Ok (upd (λ q, set_state s_header_field_start (add_flag F_TRAILING q)) m, Break p)
     else Ok (upd (set_state s_chunk_data) m, Break p))).

Definition case_chunk_data (len p : nat) (m : exec) : step :=
  assert (is_chunked m)
    (take_body len p m (λ p m,
       if (content_length (parser m) =? 0)%Z
       then Ok (upd (set_state s_chunk_data_almost_done) m, Break p)
       else Ok (m, Break p))).

Definition case_chunk_data_almost_done (ch : ascii) (p : nat) (m : exec) : step :=
  assert (is_chunked m) (assert (content_length (parser m) =? 0)%Z
    (STRICT_CHECK (negb (ch =c CR)) p m
       (CALLBACK_DATA body_mark p (upd (set_state s_chunk_data_done) m)
          (λ m, Ok (m, Break p))))).

Definition case_chunk_data_done (ch : ascii) (p : nat) (m : exec) : step :=
  assert (is_chunked m) (STRICT_CHECK (negb (ch =c LF)) p m
    (Ok (upd (λ q, set_state s_chunk_size_start (set_nread 0 q)) m, Break p))).

(** ** [http_parser_execute] *)

(** The [switch] after [reexecute_byte]. *)
Definition switch_state (ch : ascii) (len p : nat) (m : exec) : step :=
  match state (parser m) with
  | s_dead => case_dead ch p m
  | s_start_req_or_res => case_start_req_or_res ch p m
  | s_res_or_resp_H => case_res_or_resp_H ch p m
  | s_start_res => case_start_res ch p m
  | s_res_H => expect "T" s_res_HT ch p m
  | s_res_HT => expect "T" s_res_HTT ch p m
  | s_res_HTT => expect "P" s_res_HTTP ch p m
  | s_res_HTTP => expect "/" s_res_first_http_major ch p m
  | s_res_first_http_major => case_res_first_http_major ch p m
  | s_res_http_major => case_http_major s_res_first_http_minor ch p m
  | s_res_first_http_minor => case_first_http_minor s_res_http_minor ch p m
  | s_res_http_minor => case_res_http_minor ch p m
  | s_res_first_status_code => case_res_first_status_code ch p m
  | s_res_status_code => case_res_status_code ch p m
  | s_res_status => case_res_status ch p m
  | s_res_line_almost_done => case_res_line_almost_done ch p m
  | s_start_req => case_start_req ch p m
  | s_req_method => case_req_method ch p m
  | s_req_spaces_before_url => case_req_spaces_before_url ch p m
  | s_req_schema | s_req_schema_slash | s_req_schema_slash_slash | s_req_server_start =>
      case_req_schema ch p m
  | s_req_server | s_req_server_with_at | s_req_path | s_req_query_string_start
  | s_req_query_string | s_req_fragment_start | s_req_fragment => case_req_path ch p m
  | s_req_http_start => case_req_http_start ch p m
  | s_req_http_H => expect "T" s_req_http_HT ch p m
  | s_req_http_HT => expect "T" s_req_http_HTT ch p m
  | s_req_http_HTT => expect "P" s_req_http_HTTP ch p m
  | s_req_http_HTTP => expect "/" s_req_first_http_major ch p m
  | s_req_first_http_major => case_req_first_http_major ch p m
  | s_req_http_major => case_http_major s_req_first_http_minor ch p m
  | s_req_first_http_minor => case_first_http_minor s_req_http_minor ch p m
  | s_req_http_minor => case_req_http_minor ch p m
  | s_req_line_almost_done => case_req_line_almost_done ch p m
  | s_header_field_start => case_header_field_start ch p m
  | s_header_field => case_header_field ch p m
  | s_header_value_start => case_header_value_start ch p m
  | s_header_value => case_header_value ch p m
  | s_header_almost_done => case_header_almost_done ch p m
  | s_header_value_lws => case_header_value_lws ch p m
  | s_headers_almost_done => case_headers_almost_done ch p m
  | s_headers_done => case_headers_done ch p m
  | s_body_identity => case_body_identity len p m
  | s_body_identity_eof => case_body_identity_eof len p m
  | s_message_done => case_message_done p m
  | s_chunk_size_start => case_chunk_size_start ch p m
  | s_chunk_size => case_chunk_size ch p m
  | s_chunk_parameters => case_chunk_parameters ch p m
  | s_chunk_size_almost_done => case_chunk_size_almost_done ch p m
  | s_chunk_data => case_chunk_data len p m
  | s_chunk_data_almost_done => case_chunk_data_almost_done ch p m
  | s_chunk_data_done => case_chunk_data_done ch p m
  end.

(** From [reexecute_byte] on, with the number of times the byte may be executed. *)
Fixpoint reexecute_byte (fuel : nat) (ch : ascii) (len p : nat) (m : exec) : step :=
  match fuel with
  | O => Ok (m, Reexecute p)
  | S fuel =>
      let* r := switch_state ch len p m in
      match r.2 with
      | Reexecute p' => reexecute_byte fuel ch len p' r.1
      | _ => Ok r
      end
  end.

(** No byte is executed more than four times: [s_header_value_lws],
    [s_header_field_start], [s_headers_almost_done], [s_headers_done]. *)
Definition REEXECUTIONS : nat := 4.

(** The body of the [for] loop. *)
Definition iteration (ch : ascii) (len p : nat) (m : exec) : step :=
  if PARSING_HEADER (state (parser m)) then
    let m := upd (λ q, set_nread (u32 (nread q + 1)) q) m in
    if (HTTP_MAX_HEADER_SIZE <? nread (parser m))%Z then error HPE_HEADER_OVERFLOW p m
    else reexecute_byte REEXECUTIONS ch len p m
  else reexecute_byte REEXECUTIONS ch len p m.

Definition marked (m : exec) (k : mark) : Z :=
  match marks m k with Some _ => 1 | None => 0 end.

(** After the loop: the callbacks for the marks left over. *)
Definition leftover (len : nat) (m : exec) : step :=
  assert (marked m header_field_mark + marked m header_value_mark + marked m url_mark +
          marked m body_mark <=? 1)%Z
    (CALLBACK_DATA_NOADVANCE header_field_mark len m (λ m,
     CALLBACK_DATA_NOADVANCE header_value_mark len m (λ m,
     CALLBACK_DATA_NOADVANCE url_mark len m (λ m,
     CALLBACK_DATA_NOADVANCE body_mark len m (λ m, Ok (m, Return (Z.of_nat len))))))).

(** The [error] label. *)
Definition at_error (p : nat) (m : exec) : exec * Z :=
  (if no_error m then upd (set_http_errno HPE_UNKNOWN) m else m, Z.of_nat p).

(** The [for] loop and what follows; [None]: [fuel] iterations were not enough. *)
Fixpoint for_loop (fuel : nat) (data : str) (p : nat) (m : exec) : result (option (exec * Z)) :=
  match fuel with
  | O => Ok None
  | S fuel =>
      if bool_decide (p = length data) then
        let* r := leftover (length data) m in
        match r.2 with Return n => Ok (Some (r.1, n)) | _ => Ok None end
      else
        match data !! p with
        | None => Undef OutOfBounds
        | Some ch =>
            let* r := iteration ch (length data) p m in
            match r.2 with
            | Break p' => for_loop fuel data (p' + 1) r.1
            | GotoError p' => Ok (Some (at_error p' r.1))
            | Return n => Ok (Some (r.1, n))
            | Reexecute _ => Ok None
            end
        end
  end.

(** The marks at the start of a call. *)
Definition first_marks (s : pstate) : mark → option nat :=
  mark_values
    (match s with
     | s_req_path | s_req_schema | s_req_schema_slash | s_req_schema_slash_slash
     | s_req_server_start | s_req_server | s_req_server_with_at | s_req_query_string_start
     | s_req_query_string | s_req_fragment_start | s_req_fragment => Some 0%nat
     | _ => None
     end)
    (match s with s_header_field => Some 0%nat | _ => None end)
    (match s with s_header_value => Some 0%nat | _ => None end)
    None.

(** The whole call: the parser and the calls made, and the number returned. *)
Definition http_parser_execute (q : http_parser) (data : str) : result (option (exec * Z)) :=
  let m := MkExec q (first_marks (state q)) [] in
  if negb (no_error m) then Ok (Some (m, 0%Z))
  else if bool_decide (data = []) then
    match state q with
    | s_body_identity_eof =>
        let* r := notify_message_complete 0 m (λ m, Ok (m, Return 0)) in
        Ok (Some (r.1, 0%Z))
    | s_dead | s_start_req_or_res | s_start_res | s_start_req => Ok (Some (m, 0%Z))
    | _ => Ok (Some (upd (set_http_errno HPE_INVALID_EOF_STATE) m, 1%Z))
    end
  else for_loop (length data + 1) data 0 m.
End Execute.

(** What [CHttpParserWrapper::ParseHttpContent] sets: callbacks that return 0, and null
    pointers for the two it has no use for. *)
Definition wrapper_settings : http_parser_settings :=
  let ok : cb := Some (λ _, 0%Z) in
  MkSettings None ok None ok ok ok ok ok.
