(* ===== verification/HttpSafe.v ===== *)
(** What every call of [http_parser_execute] keeps ([HttpMachine]): whatever the bytes, the
    settings and the state an earlier call left, no assertion fails, no read leaves a
    table, a constant or the buffer, the call ends, and what it hands out lies inside the
    buffer. *)

From S2P Require Import Prelude HttpMachine.

(** ** The invariant *)

(** The states of [header_state] while a name, and while a value, is read. *)
Definition field_state (h : header_states) : bool :=
  match h with
  | h_matching_transfer_encoding_chunked | h_matching_connection_keep_alive
  | h_matching_connection_close | h_transfer_encoding_chunked | h_connection_keep_alive
  | h_connection_close => false
  | _ => true
  end.

Definition value_state (h : header_states) : bool :=
  match h with h_connection | h_transfer_encoding => false | _ => true end.

(** What the parser's fields satisfy in each state; [n] is what [nread] is in
    [s_chunk_size_start]: 0 between two bytes, 1 while a byte is executed. *)
Definition state_ok (n : Z) (q : http_parser) : Prop :=
  match state q with
  | s_req_method => ∃ w, method_strings !! Z.to_nat (method q) = Some w ∧ (0 ≤ index q ≤ slen w)%Z
  | s_header_field => field_state (header_state q) = true
  | s_header_value => value_state (header_state q) = true
  | s_chunk_size_start => has_flag F_CHUNKED q = true ∧ nread q = n
  | s_chunk_size | s_chunk_parameters | s_chunk_size_almost_done =>
      has_flag F_CHUNKED q = true ∧ content_length q ≠ ULLONG_MAX
  | s_chunk_data =>
      has_flag F_CHUNKED q = true ∧ content_length q ≠ 0%Z ∧ content_length q ≠ ULLONG_MAX
  | s_chunk_data_almost_done => has_flag F_CHUNKED q = true ∧ content_length q = 0%Z
  | s_chunk_data_done => has_flag F_CHUNKED q = true
  | s_body_identity => content_length q ≠ 0%Z ∧ content_length q ≠ ULLONG_MAX
  | _ => True
  end.

Definition url_state (s : pstate) : bool :=
  match s with
  | s_req_path | s_req_schema | s_req_schema_slash | s_req_schema_slash_slash
  | s_req_server_start | s_req_server | s_req_server_with_at | s_req_query_string_start
  | s_req_query_string | s_req_fragment_start | s_req_fragment => true
  | _ => false
  end.

(** The mark that may be set in a state. *)
Definition mark_ok (s : pstate) (k : mark) : bool :=
  match k with
  | url_mark => url_state s
  | header_field_mark => bool_decide (s = s_header_field)
  | header_value_mark => bool_decide (s = s_header_value)
  | body_mark =>
      match s with
      | s_chunk_data | s_chunk_data_almost_done | s_body_identity | s_body_identity_eof => true
      | _ => false
      end
  end.

(** The data of a callback lies in a buffer of [len] bytes. *)
Definition call_in (len : nat) (e : callback) : Prop :=
  match e with
  | CBurl a n | CBheader_field a n | CBheader_value a n | CBbody a n => (a + n ≤ len)%nat
  | _ => True
  end.

Record wf (n : Z) (q : http_parser) : Prop := {
  wf_errno : http_errno q = HPE_OK;
  wf_nread : (0 ≤ nread q ≤ HTTP_MAX_HEADER_SIZE)%Z;
  wf_length : (0 ≤ content_length q ≤ ULLONG_MAX)%Z;
  wf_state : state_ok n q
}.

(** The states whose case looks at the end of the buffer. *)
Definition len_free (s : pstate) : bool :=
  match s with s_body_identity | s_body_identity_eof | s_chunk_data => false | _ => true end.

(** What follows is about the callbacks made after those in [before]. *)
Section Before.
Variable before : list callback.

Definition calls_ok (len : nat) (cs : list callback) : Prop :=
  Forall (call_in len) cs ∧ before `prefix_of` cs.

Lemma calls_snoc len cs e : calls_ok len cs → call_in len e → calls_ok len (cs ++ [e]).
Proof.
  intros [C P] He. split; [apply Forall_app; auto|]. by apply prefix_app_r.
Qed.

Record inv (n : Z) (len p : nat) (m : exec) : Prop := {
  inv_wf : wf n (parser m);
  inv_marks k a : marks m k = Some a → mark_ok (state (parser m)) k = true ∧ (a ≤ p)%nat;
  inv_calls : calls_ok len (calls m)
}.

(** How often a byte may still be executed again. *)
Definition rank (s : pstate) : nat :=
  match s with
  | s_header_value_lws => 3
  | s_header_field_start => 2
  | s_headers_almost_done | s_header_value | s_start_req_or_res | s_body_identity => 1
  | _ => 0
  end.

(** The outcome of executing the byte at [p] in a state of rank [r]. *)
Definition good (len p r : nat) (s : step) : Prop :=
  ∃ m f, s = Ok (m, f) ∧
  match f with
  | Break p' => (p ≤ p' < len)%nat ∧ inv 0 len (p' + 1) m
  | Reexecute p' => (p ≤ p' < len)%nat ∧ inv 1 len p' m ∧
      (rank (state (parser m)) < r)%nat ∧ len_free (state (parser m)) = true
  | GotoError p' => (p ≤ p' < len)%nat ∧ no_error m = false ∧ calls_ok len (calls m)
  | Return n =>
      (0 ≤ n ≤ Z.of_nat len)%Z ∧ calls_ok len (calls m) ∧
      (no_error m = true → wf 0 (parser m) ∧ (n = Z.of_nat len ∨ upgrade (parser m) = true))
  end.

(** ** Bytes, flags and tables *)

Lemma has_flag_add f g q : has_flag f q = true → has_flag f (add_flag g q) = true.
Proof.
  unfold has_flag, add_flag. cbn. rewrite !negb_true_iff, !Z.eqb_neq, Z.land_lor_distr_l.
  rewrite Z.lor_eq_0_iff. tauto.
Qed.

Lemma unhex_range ch : unhex_val ch ≠ (-1)%Z → (0 ≤ unhex_val ch ≤ 15)%Z.
Proof.
  intros Hne. pose proof (byte_forallb (λ c, (unhex_val c =? -1) ||
    ((0 <=? unhex_val c) && (unhex_val c <=? 15)))%Z ch ltac:(vm_compute; reflexivity)) as H.
  cbv beta in H. lia.
Qed.

Lemma digit_range ch : IS_NUM ch = true → (0 ≤ digit_of ch ≤ 9)%Z.
Proof. unfold IS_NUM, is_digit, digit_of. lia. Qed.

Lemma accumulate_range base v cl t :
  accumulate base v cl = Some t → (0 ≤ t ≤ ULLONG_MAX)%Z ∧ t ≠ ULLONG_MAX.
Proof.
  unfold accumulate. set (u := u64 _).
  assert (0 ≤ u < 2 ^ 64)%Z by (apply wrap_range; lia).
  destruct (_ || _) eqn:E; [done|]. intros [= <-].
  rewrite orb_false_iff, Z.eqb_neq in E. unfold ULLONG_MAX in *. lia.
Qed.

Lemma cstr_at_ok w i : (0 ≤ i ≤ slen w)%Z → ∃ c, cstr_at w i = Ok c.
Proof.
  intros Hi. unfold cstr_at, slen in *. destruct (w !! _) eqn:E; [eauto|].
  apply lookup_ge_None in E. destruct (Z.eqb_spec i (Z.of_nat (length w))); [eauto|lia].
Qed.

Lemma incr_index_range q : (0 ≤ index (incr_index q))%Z.
Proof. cbn. pose proof (wrap_range 8 (index q + 1) ltac:(lia)). lia. Qed.

(** Comparing with a word changes [index] and [header_state] only. *)
Lemma matching_ok word found c q : ∃ h,
  matching word found c q = Ok (set_header_state h (incr_index q)) ∧
  (h = header_state q ∨ h = h_general ∨ h = found).
Proof.
  unfold matching. case_match eqn:E; [eauto|].
  destruct (cstr_at_ok word (index (incr_index q))) as [w ->];
    [pose proof (incr_index_range q); lia|].
  cbn [rbind]. destruct (negb _); [eauto|]. destruct (_ =? _)%Z; [eauto|].
  exists (header_state q). split; [by destruct q|auto].
Qed.

Lemma parse_url_char_state s ch :
  parse_url_char s ch = s_dead ∨ url_state (parse_url_char s ch) = true.
Proof.
  unfold parse_url_char, url_server_char.
  destruct s; repeat case_match; auto.
Qed.

(** The marks [ms] are fit for the state [s], at an offset [p']. *)
Definition marks_fit (s : pstate) (p' : nat) (ms : mark → option nat) : Prop :=
  ∀ k a, ms k = Some a → mark_ok s k = true ∧ (a ≤ p')%nat.

Lemma marks_move s s' p p' ms :
  marks_fit s p ms → (∀ k, mark_ok s k = true → mark_ok s' k = true) → (p ≤ p')%nat →
  marks_fit s' p' ms.
Proof. intros M Hk Hle k a E. destruct (M k a E). split; [auto|lia]. Qed.

Lemma set_mark_lookup k v m j :
  marks (set_mark k v m) j = if bool_decide (j = k) then v else marks m j.
Proof. by destruct j. Qed.

Lemma marks_set s s' p p' k m :
  marks_fit s p (marks m) → (∀ j, mark_ok s j = true → mark_ok s' j = true) →
  mark_ok s' k = true → (p ≤ p')%nat → marks_fit s' p' (marks (set_mark k (Some p) m)).
Proof.
  intros M Hj Hk Hle j a E. rewrite set_mark_lookup in E. case_bool_decide as Hjk.
  - injection E as <-. subst j. by split.
  - by eapply (marks_move s s' p p' (marks m)).
Qed.

(** ** One byte *)

Section Step.
Variable settings : http_parser_settings.
Variables len p : nat.
Hypothesis Hp : (p < len)%nat.

Lemma good_break r m :
  wf 0 (parser m) → marks_fit (state (parser m)) (p + 1) (marks m) → calls_ok len (calls m) →
  good len p r (Ok (m, Break p)).
Proof. intros W M C. exists m, (Break p). split; [done|]. split; [lia|]. by split. Qed.

Lemma good_reexecute r m :
  wf 1 (parser m) → marks_fit (state (parser m)) p (marks m) → calls_ok len (calls m) →
  (rank (state (parser m)) < r)%nat → len_free (state (parser m)) = true →
  good len p r (Ok (m, Reexecute p)).
Proof.
  intros W M C R F. exists m, (Reexecute p). split; [done|]. split_and!; [lia..|by split|done|done].
Qed.

Lemma good_error r e m :
  e ≠ HPE_OK → calls_ok len (calls m) → good len p r (error e p m).
Proof.
  intros He C. eexists _, _. split; [reflexivity|]. split_and!; [lia..| |done].
  unfold no_error. cbn. by apply bool_decide_eq_false.
Qed.

Lemma good_strict r cond m k :
  calls_ok len (calls m) → (cond = false → good len p r k) →
  good len p r (STRICT_CHECK cond p m k).
Proof. intros C Hk. unfold STRICT_CHECK. destruct cond; [by apply good_error|auto]. Qed.

Lemma good_assert r b k : b = true → good len p r k → good len p r (assert b k).
Proof. by intros ->. Qed.

Lemma no_error_wf n m : wf n (parser m) → no_error m = true.
Proof. intros W. by apply bool_decide_eq_true, (wf_errno _ _ W). Qed.

Lemma good_return_error r e n m :
  e ≠ HPE_OK → (0 ≤ n ≤ Z.of_nat len)%Z → calls_ok len (calls m) →
  good len p r (Ok (upd (set_http_errno e) m, Return n)).
Proof.
  intros He Hn C. eexists _, _. split; [reflexivity|]. split_and!; [lia..|done|].
  intros Hno. apply bool_decide_eq_true in Hno. by cbn in Hno.
Qed.

Lemma good_notify r f ev err er m k :
  err ≠ HPE_OK → (0 ≤ er ≤ Z.of_nat len)%Z → no_error m = true → call_in len ev →
  calls_ok len (calls m) →
  (∀ cs, calls_ok len cs → good len p r (k (MkExec (parser m) (marks m) cs))) →
  good len p r (CALLBACK_NOTIFY_ f ev err er m k).
Proof.
  intros He Her Hno Hev C Hk. unfold CALLBACK_NOTIFY_. apply good_assert; [done|].
  destruct f as [f|]; [|destruct m; by apply Hk].
  assert (calls_ok len (calls m ++ [ev])) by (by apply calls_snoc).
  cbv zeta. destruct (negb _); [by apply good_return_error|by apply Hk].
Qed.

(** A data callback and what follows, in a state [s] that may have the mark [f] only. *)
Lemma good_data r f last er s m k :
  (p ≤ last ≤ len)%nat → (0 ≤ er ≤ Z.of_nat len)%Z → no_error m = true →
  marks_fit s p (marks m) → (∀ j, mark_ok s j = true → j = f) → calls_ok len (calls m) →
  (∀ ms cs, calls_ok len cs → (∀ s' p', marks_fit s' p' ms) →
     good len p r (k (MkExec (parser m) ms cs))) →
  good len p r (CALLBACK_DATA_ settings f last er m k).
Proof.
  intros Hl Her Hno M Hs C Hk. unfold CALLBACK_DATA_. apply good_assert; [done|].
  assert (Hclear : ∀ s' p', marks_fit s' p' (marks (set_mark f None m))).
  { intros s' p' j a. rewrite set_mark_lookup. case_bool_decide as Hj; [done|]. intros E.
    destruct (M j a E) as [Hm _]. by apply Hs in Hm. }
  destruct (marks m f) as [a|] eqn:Ea.
  - destruct (M f a Ea) as [_ Ha]. destruct (data_cb settings f) as [g|] eqn:Eg; [|by apply Hk].
    cbv zeta. assert (Hin : call_in len (data_event f a (last - a))).
    { destruct f; cbn; lia. }
    assert (calls_ok len (calls m ++ [data_event f a (last - a)])).
    { by apply calls_snoc. }
    destruct (negb _); [|by apply Hk]. apply good_return_error; [|done..]. by destruct f.
  - destruct m as [q ms cs]. apply Hk; [done|]. intros s' p' j b E. cbn in E, Ea.
    destruct (M j b E) as [Hm _]. apply Hs in Hm. congruence.
Qed.
End Step.

(** ** Every case of the switch *)

(** What is left of a case after control has been followed. *)
Ltac case_side :=
  lazymatch goal with
  | |- wf _ _ => constructor; cbn; unfold state_ok; cbn; auto; try lia
  | |- marks_fit _ _ (marks (MARK _ _ _)) => idtac
  | |- marks_fit _ _ _ =>
      first [ solve [auto]
            | eapply marks_move; [eassumption|by intros []|lia] ]
  | |- calls_ok _ _ => assumption
  | |- no_error _ = true => unfold no_error; cbn; by apply bool_decide_eq_true
  | |- _ ≠ _ => discriminate
  | |- call_in _ _ => exact Logic.I
  | |- len_free _ = true => reflexivity
  | |- (_ < _)%nat => cbn; lia
  | |- (_ ≤ _ ≤ _)%Z => lia
  | |- (_ ≤ _ ≤ _)%nat => lia
  | |- ∀ j, mark_ok _ j = true → j = _ => by intros []
  | _ => idtac
  end.

(** Follows the control of a case to its [Break], [Reexecute], [Return] or error. *)
Ltac case_walk :=
  repeat
    (lazymatch goal with
     | |- good _ _ _ (Ok (_, Break _)) => apply good_break
     | |- good _ _ _ (Ok (_, Reexecute _)) => apply good_reexecute
     | |- good _ _ _ (error _ _ _) => apply good_error
     | |- good _ _ _ (STRICT_CHECK _ _ _ _) => apply good_strict; [| |intros ?]
     | |- good _ _ _ (CALLBACK_NOTIFY_ _ _ _ _ _ _) => apply good_notify; [| | | | | |intros ? ?]
     | |- good _ _ _ (CALLBACK_DATA_ _ _ _ _ _ _) =>
         eapply good_data; [| | | |eassumption| | |intros ? ? ? ?]
     | |- good _ _ _ (if ?b then _ else _) => let E := fresh "E" in destruct b eqn:E
     | |- good _ _ _ (match ?x with _ => _ end) => let E := fresh "E" in destruct x eqn:E
     | |- good _ _ _ (let _ := _ in _) => cbv zeta
     | |- good _ _ _ (more_digits _ _ _ _ _ _) => unfold more_digits; cbv zeta
     | |- good _ _ _ (assert _ _) => apply good_assert
     | |- _ => progress case_side
     end; cbn [state parser upd set_state marks calls] in *; try assumption).

(** Opens the invariant of [m], whose state is the constructor in [Hs]. *)
Ltac open_inv :=
  lazymatch goal with
  | I : inv 1 _ _ ?m, Hs : state (parser ?m) = _ |- _ =>
      let He := fresh "He" in let Hn := fresh "Hn" in let Hl := fresh "Hl" in
      let Hst := fresh "Hst" in let M := fresh "M" in let C := fresh "C" in
      destruct I as [[He Hn Hl Hst] M C]; unfold state_ok in Hst;
      destruct m as [[ty fl st hs ix nr cl ma mi sc me er up] ms cs]; cbn in Hs; subst st; cbn in *;
      match type of M with ∀ k a, _ → mark_ok ?s k = true ∧ (a ≤ ?p)%nat => change (marks_fit s p ms) in M end
  end.

Section Cases.
Variable settings : http_parser_settings.
Variables len p : nat.
Hypothesis Hp : (p < len)%nat.
Variables (ch : ascii) (m : exec).
Hypothesis I : inv 1 len p m.


Lemma expect_good r c s next :
  state (parser m) = s → (∀ k, mark_ok s k = false) → (∀ n q, state q = next → state_ok n q) →
  good len p r (expect c next ch p m).
Proof.
  intros Hs Hm Hnext. destruct I as [[He Hn Hl _] M C]. unfold expect. case_walk.
  - exact (Hnext 0%Z (set_state next (parser m)) eq_refl).
  - cbn. intros k a E. destruct (M k a E) as [Hk _]. rewrite Hs, Hm in Hk. done.
Qed.

Lemma url_char_good r m' :
  wf 1 (parser m') → (∀ k a, marks m' k = Some a → k = url_mark ∧ (a ≤ p)%nat) →
  calls_ok len (calls m') → good len p r (url_char ch p m').
Proof.
  intros [He Hn Hl _] M C. unfold url_char. cbv zeta. cbn.
  case_bool_decide as Hd; [by apply good_error|].
  destruct (parse_url_char_state (state (parser m')) ch) as [|Hu]; [done|].
  apply good_break; [done| | |done]; cbn.
  - constructor; cbn; [done..|]. unfold state_ok. cbn. revert Hu. by destruct (parse_url_char _ _).
  - intros k a E. destruct (M k a E) as [-> Ha]. split; [done|lia].
Qed.

Lemma dead_good r : state (parser m) = s_dead → good len p r (case_dead ch p m).
Proof. intros Hs. open_inv. unfold case_dead. case_walk. Qed.

Lemma res_start_good :
  match state (parser m) with
  | s_start_req_or_res => good len p 1 (case_start_req_or_res settings ch p m)
  | s_res_or_resp_H => good len p 0 (case_res_or_resp_H ch p m)
  | s_start_res => good len p 0 (case_start_res settings ch p m)
  | s_res_first_http_major => good len p 0 (case_res_first_http_major ch p m)
  | s_res_http_major => good len p 0 (case_http_major s_res_first_http_minor ch p m)
  | s_res_first_http_minor => good len p 0 (case_first_http_minor s_res_http_minor ch p m)
  | s_res_http_minor => good len p 0 (case_res_http_minor ch p m)
  | s_res_first_status_code => good len p 0 (case_res_first_status_code ch p m)
  | s_res_status_code => good len p 0 (case_res_status_code ch p m)
  | s_res_status => good len p 0 (case_res_status ch p m)
  | s_res_line_almost_done => good len p 0 (case_res_line_almost_done settings ch p m)
  | _ => True
  end.
Proof.
  destruct (state (parser m)) eqn:Hs; try exact Logic.I.
  all: unfold case_start_req_or_res, case_res_or_resp_H, case_start_res,
    case_res_first_http_major, case_http_major, case_first_http_minor, case_res_http_minor,
    case_res_first_status_code, case_res_status_code, case_res_status,
    case_res_line_almost_done, notify_message_begin, notify_status_complete.
  all: open_inv; case_walk. eexists. split; [reflexivity|]. vm_compute. by split.
Qed.

Lemma first_method_ok v :
  first_method ch = Some v → ∃ w, method_strings !! Z.to_nat v = Some w ∧ (0 ≤ 1 ≤ slen w)%Z.
Proof.
  unfold first_method. intros E. repeat case_match; simplify_eq.
  all: eexists; split; [reflexivity|vm_compute; by split].
Qed.

Lemma start_req_good :
  state (parser m) = s_start_req → good len p 0 (case_start_req settings ch p m).
Proof.
  intros Hs. open_inv. unfold case_start_req, notify_message_begin.
  case_walk. by apply first_method_ok.
Qed.

Lemma other_method_ok v i c w meth :
  other_method meth i c = Some v → method_strings !! Z.to_nat meth = Some w →
  (∃ w', method_strings !! Z.to_nat v = Some w' ∧ (0 ≤ i + 1 ≤ slen w')%Z ∧ (i ≤ 254)%Z).
Proof.
  unfold other_method. intros E _. repeat case_match; simplify_eq.
  all: repeat match goal with
    | H : (_ && _)%bool = true |- _ => apply andb_true_iff in H as [? ?]
    | H : (_ =? _)%Z = true |- _ => apply Z.eqb_eq in H
    end; subst.
  all: eexists; split; [reflexivity|vm_compute; by repeat split].
Qed.

Lemma method_length i w : method_strings !! i = Some w → (slen w ≤ 11)%Z.
Proof.
  intros E. assert (H : forallb (λ w, slen w <=? 11)%Z method_strings = true) by reflexivity.
  rewrite forallb_forall in H. apply Z.leb_le, H, list_elem_of_In.
  by eapply list_elem_of_lookup_2.
Qed.

Lemma req_method_good :
  state (parser m) = s_req_method → good len p 0 (case_req_method ch p m).
Proof.
  intros Hs. open_inv. destruct Hst as (w & Hw & Hi). unfold case_req_method.
  destruct (bool_decide (ch = NUL)) eqn:Enul; [case_walk|].
  cbv zeta. cbn [parser method]. rewrite Hw.
  destruct (cstr_at_ok w ix Hi) as [mc Emc]. cbn [index]. rewrite Emc. cbn [rbind].
  pose proof (method_length _ _ Hw).
  apply bool_decide_eq_false in Enul.
  case_walk.
  - apply bool_decide_eq_true in E0. subst mc. exists w. split; [done|].
    assert (ix ≠ slen w).
    { intros ->. unfold cstr_at in Emc. unfold slen in Emc. rewrite Nat2Z.id in Emc.
      rewrite (proj2 (lookup_ge_None _ _)) in Emc by lia. rewrite Z.eqb_refl in Emc.
      congruence. }
    rewrite wrap_small; lia.
  - destruct (other_method_ok _ _ _ _ _ E1 Hw) as (w' & ? & ? & ?). exists w'.
    split; [done|]. rewrite wrap_small; lia.
Qed.

(** In a state of the URL (or before it) only the mark of the URL may be set. *)
Lemma url_mark_only k a :
  url_state (state (parser m)) = true ∨ state (parser m) = s_req_spaces_before_url →
  marks m k = Some a → k = url_mark ∧ (a ≤ p)%nat.
Proof.
  intros Hu E. destruct (inv_marks _ _ _ _ I k a E) as [Hk ?]. split; [|done].
  destruct Hu as [Hu|Hu]; revert Hu Hk; by destruct (state (parser m)), k.
Qed.

Lemma spaces_before_url_good :
  state (parser m) = s_req_spaces_before_url → good len p 0 (case_req_spaces_before_url ch p m).
Proof.
  intros Hs. unfold case_req_spaces_before_url.
  destruct (bool_decide _); [open_inv; case_walk|].
  assert (Hmark : ∀ k a, marks (MARK url_mark p m) k = Some a → k = url_mark ∧ (a ≤ p)%nat).
  { intros k a. unfold MARK. destruct (marks m url_mark) eqn:E.
    - apply url_mark_only. auto.
    - rewrite set_mark_lookup. case_bool_decide as Hk; [by intros [= <-]|]. apply url_mark_only. auto. }
  assert (parser (MARK url_mark p m) = parser m ∧ calls (MARK url_mark p m) = calls m) as [Eq Ec].
  { unfold MARK. by destruct (marks m url_mark). }
  destruct I as [[He Hn Hl Hst] M C]. unfold state_ok in Hst. rewrite Hs in Hst.
  cbv zeta. rewrite Eq. destruct (_ =? _)%Z; apply url_char_good; cbn; rewrite ?Eq, ?Ec; try done.
  constructor; [done..|]. unfold state_ok. by rewrite Hs.
Qed.

Lemma req_schema_good :
  url_state (state (parser m)) = true → good len p 0 (case_req_schema ch p m).
Proof.
  intros Hu. unfold case_req_schema. destruct (_ || _); [apply good_error; [done..|apply I]|].
  apply url_char_good; [apply I|intros; apply url_mark_only; auto|apply I].
Qed.

Lemma req_path_good :
  url_state (state (parser m)) = true → good len p 0 (case_req_path settings ch p m).
Proof.
  intros Hu. unfold case_req_path.
  assert (Hs : ∀ j, mark_ok (state (parser m)) j = true → j = url_mark).
  { revert Hu. by destruct (state (parser m)); intros ? []. }
  destruct (bool_decide (ch = " "%char)) eqn:E1;
    [|destruct (_ || _) eqn:E2; [destruct (bool_decide (ch = CR)) eqn:E3|]].
  4: { apply url_char_good; [apply I|intros; apply url_mark_only; auto|apply I]. }
  all: destruct I as [[He Hn Hl _] M C]; change (marks_fit (state (parser m)) p (marks m)) in M.
  all: unfold CALLBACK_DATA; cbv zeta; eapply good_data; [done|lia|lia| |exact M|exact Hs|done|].
  all: try (unfold no_error; cbn; by apply bool_decide_eq_true).
  all: intros; cbn; case_walk.
Qed.

Lemma req_version_good :
  match state (parser m) with
  | s_req_http_start => good len p 0 (case_req_http_start ch p m)
  | s_req_first_http_major => good len p 0 (case_req_first_http_major ch p m)
  | s_req_http_major => good len p 0 (case_http_major s_req_first_http_minor ch p m)
  | s_req_first_http_minor => good len p 0 (case_first_http_minor s_req_http_minor ch p m)
  | s_req_http_minor => good len p 0 (case_req_http_minor ch p m)
  | s_req_line_almost_done => good len p 0 (case_req_line_almost_done ch p m)
  | _ => True
  end.
Proof.
  destruct (state (parser m)) eqn:Hs; try exact Logic.I.
  all: unfold case_req_http_start, case_req_first_http_major, case_http_major,
    case_first_http_minor, case_req_http_minor, case_req_line_almost_done.
  all: open_inv; case_walk.
Qed.

Lemma header_field_start_good :
  state (parser m) = s_header_field_start → good len p 2 (case_header_field_start ch p m).
Proof.
  intros Hs. open_inv. unfold case_header_field_start. case_walk.
  all: unfold MARK; cbn [marks]; destruct (ms header_field_mark) eqn:Em; cbn; try done.
  all: try (destruct (M _ _ Em); done).
  all: try (by repeat match goal with |- context [if ?b then _ else _] => destruct b end).
  apply (marks_set s_header_field_start s_header_field p (p + 1) header_field_mark (MkExec
    (MkParser ty fl s_header_field hs ix nr cl ma mi sc me er up) ms cs));
    [exact M|by intros []|done|lia].
Qed.

(** A byte of a name changes [index] and [header_state] only. *)
Lemma field_char_ok c q :
  field_state (header_state q) = true →
  ∃ h i, field_char c ch q = Ok (set_header_state h (set_index i q)) ∧ field_state h = true.
Proof.
  intros Hf. destruct q as [ty fl st hs ix nr cl ma mi sc me er up]. cbn in Hf.
  assert (Hm : ∀ word found q, field_state (header_state q) = true → field_state found = true →
    ∃ h i, matching word found c q = Ok (set_header_state h (set_index i q)) ∧ field_state h = true).
  { intros word found q Hq Hfound. destruct (matching_ok word found c q) as (h & -> & Hh).
    eexists h, _. split; [reflexivity|]. destruct Hh as [->|[-> | ->]]; done. }
  unfold field_char. destruct hs; cbn [header_state]; try discriminate; try (by apply Hm).
  - by exists h_general, ix.
  - by eexists (if bool_decide (c = "o"%char) then h_CO else h_general), _; split;
      [reflexivity|case_bool_decide].
  - by eexists (if bool_decide (c = "n"%char) then h_CON else h_general), _; split;
      [reflexivity|case_bool_decide].
  - by eexists (if bool_decide (c = "n"%char) then h_matching_connection
      else if bool_decide (c = "t"%char) then h_matching_content_length else h_general), _; split;
      [reflexivity|repeat case_bool_decide].
  - case_bool_decide; [by exists h_connection, ix|by exists h_general, ix].
  - case_bool_decide; [by exists h_content_length, ix|by exists h_general, ix].
  - case_bool_decide; [by exists h_transfer_encoding, ix|by exists h_general, ix].
  - case_bool_decide; [by exists h_upgrade, ix|by exists h_general, ix].
Qed.

Lemma header_field_good :
  state (parser m) = s_header_field → good len p 0 (case_header_field settings ch p m).
Proof.
  intros Hs. open_inv. unfold case_header_field, CALLBACK_DATA. cbv zeta.
  destruct (negb _); [|case_walk].
  edestruct field_char_ok as (h & i & -> & Hh); [|cbn [rbind]; case_walk]. done.
Qed.

(** A byte of a value changes [flags], [header_state], [index] and [content_length] only. *)
Definition value_step (q q' : http_parser) : Prop :=
  ∃ f h i t, q' = set_flags f (set_header_state h (set_index i (set_content_length t q))) ∧
    value_state h = true ∧ (0 ≤ t ≤ ULLONG_MAX)%Z.

Lemma value_first_char_ok q q' :
  (0 ≤ content_length q ≤ ULLONG_MAX)%Z → value_first_char ch q = Some q' → value_step q q'.
Proof.
  intros Hl. destruct q as [ty fl st hs ix nr cl ma mi sc me er up]. cbn in Hl.
  assert (Hst : ∀ f h, value_state h = true → value_step (MkParser ty fl st hs ix nr cl ma mi sc
    me er up) (MkParser ty f st h ix nr cl ma mi sc me er up)).
  { intros f h Hh. by exists f, h, ix, cl. }
  unfold value_first_char. destruct hs; cbn [header_state].
  all: try (intros [= <-]; apply Hst; try reflexivity; by repeat case_bool_decide).
  destruct (IS_NUM ch) eqn:E; [|done]. cbn. intros [= <-]. apply digit_range in E.
  exists fl, h_content_length, ix, (digit_of ch). unfold ULLONG_MAX. split_and!; [done..|lia|lia].
Qed.

Lemma value_char_ok q :
  (0 ≤ content_length q ≤ ULLONG_MAX)%Z → state q = s_header_value →
  value_state (header_state q) = true →
  ∃ r, value_char ch q = Ok r ∧ match r with None => True | Some q' => value_step q q' end.
Proof.
  intros Hl Hs Hv. destruct q as [ty fl st hs ix nr cl ma mi sc me er up]. cbn in *. subst st.
  assert (Hm : ∀ word found, value_state hs = true → value_state found = true →
    ∃ q', matching word found (lower_char ch)
            (MkParser ty fl s_header_value hs ix nr cl ma mi sc me er up) = Ok q' ∧
      value_step (MkParser ty fl s_header_value hs ix nr cl ma mi sc me er up) q').
  { intros word found H1 H2.
    destruct (matching_ok word found (lower_char ch) (MkParser ty fl s_header_value hs ix nr cl ma
      mi sc me er up)) as (h & -> & Hh).
    eexists. split; [reflexivity|]. eexists fl, h, _, cl. split_and!; [reflexivity| |lia..].
    destruct Hh as [->|[-> | ->]]; done. }
  assert (Hst : ∀ h, value_state h = true → value_step (MkParser ty fl s_header_value hs ix nr cl
    ma mi sc me er up) (MkParser ty fl s_header_value h ix nr cl ma mi sc me er up)).
  { intros h Hh. by exists fl, h, ix, cl. }
  unfold value_char. cbv zeta. destruct hs; try discriminate; cbn [header_state].
  all: try (eexists; split; [reflexivity|]; cbv beta iota; by apply Hst).
  all: try (eexists; split; [reflexivity|]; case_bool_decide; by apply Hst).
  all: try (lazymatch goal with |- context [matching ?w ?f _ _] =>
    destruct (Hm w f eq_refl eq_refl) as (q' & E & Hq') end; rewrite E; by exists (Some q')).
  eexists. split; [reflexivity|]. case_bool_decide; [by apply Hst|].
  destruct (negb _); [done|]. cbn. destruct (accumulate _ _ _) as [t|] eqn:E; [|done]. cbn.
  apply accumulate_range in E as [Ht _]. by exists fl, h_content_length, ix, t.
Qed.

Lemma header_value_start_good :
  state (parser m) = s_header_value_start → good len p 0 (case_header_value_start settings ch p m).
Proof.
  intros Hs. open_inv. unfold case_header_value_start, CALLBACK_DATA.
  destruct (_ || _); [case_walk|]. cbv zeta.
  assert (Hnone : ms header_value_mark = None).
  { destruct (ms header_value_mark) eqn:E; [|done]. by destruct (M _ _ E). }
  unfold MARK. cbn [marks]. rewrite Hnone. unfold set_mark, upd. cbn [parser marks calls].
  match goal with |- context [MkExec _ (mark_values ?u ?f ?v ?b) _] =>
    set (ms1 := mark_values u f v b) end.
  assert (M1 : marks_fit s_header_value p ms1).
  { eapply (marks_set s_header_value_start s_header_value p p header_value_mark (MkExec
      (MkParser ty fl s_header_value hs ix nr cl ma mi sc me er up) ms cs));
      [exact M|by intros []|done|lia]. }
  destruct (bool_decide (ch = CR)); [case_walk|]. destruct (bool_decide (ch = LF)); [case_walk|].
  destruct (value_first_char ch _) as [q'|] eqn:E; [|case_walk].
  apply value_first_char_ok in E as (f & h & i & t & -> & Hh & Ht); [|done]. case_walk.
Qed.

Lemma header_value_good :
  state (parser m) = s_header_value → good len p 1 (case_header_value settings ch p m).
Proof.
  intros Hs. open_inv. unfold case_header_value, CALLBACK_DATA, CALLBACK_DATA_NOADVANCE.
  destruct (bool_decide (ch = CR)); [case_walk|]. destruct (bool_decide (ch = LF)); [case_walk|].
  cbn [parser].
  destruct (value_char_ok (MkParser ty fl s_header_value hs ix nr cl ma mi sc me er up))
    as (r & -> & Hr); [done..|].
  cbn [rbind]. destruct r as [q'|]; [|case_walk].
  destruct Hr as (f & h & i & t & -> & Hh & Ht). case_walk.
Qed.

Lemma header_end_good :
  match state (parser m) with
  | s_header_almost_done => good len p 0 (case_header_almost_done ch p m)
  | s_header_value_lws => good len p 3 (case_header_value_lws ch p m)
  | _ => True
  end.
Proof.
  destruct (state (parser m)) eqn:Hs; try exact Logic.I.
  all: open_inv; unfold case_header_almost_done, case_header_value_lws; case_walk.
  all: destruct hs; cbn; case_walk; exact Logic.I || done.
Qed.

(** The end of a message: the next state is [s_start_req], [s_start_res] or [s_dead]. *)
Lemma NEW_MESSAGE_ok n q : wf n q → wf 0 (set_state (NEW_MESSAGE q) q).
Proof.
  intros [He Hn Hl _]. constructor; cbn; [done..|]. unfold state_ok. cbn.
  unfold NEW_MESSAGE, start_state. destruct (http_should_keep_alive q), (type q); done.
Qed.

Lemma finish_good r n k m' :
  wf n (parser m') → (∀ j, marks m' j = None) → calls_ok len (calls m') →
  (∀ cs, calls_ok len cs →
     good len p r (k (MkExec (set_state (NEW_MESSAGE (parser m')) (parser m')) (marks m') cs))) →
  good len p r (finish_message settings p m' k).
Proof.
  intros W Hm C Hk. unfold finish_message, notify_message_complete.
  apply good_notify; [done|done|lia| |done|done|done].
  apply (no_error_wf 0). by apply (NEW_MESSAGE_ok n).
Qed.

Lemma no_marks s p' ms : (∀ j, ms j = None) → marks_fit s p' ms.
Proof. intros Hm k a E. by rewrite Hm in E. Qed.

(** A state in which no mark may be set has none. *)
Lemma marks_none : (∀ k, mark_ok (state (parser m)) k = false) → ∀ j, marks m j = None.
Proof.
  intros Hm j. destruct (marks m j) eqn:E; [|done].
  destruct (inv_marks _ _ _ _ I _ _ E) as [Hk _]. by rewrite Hm in Hk.
Qed.

(** [Break] after [finish_message]. *)
Lemma finish_break_good r n m' :
  wf n (parser m') → (∀ j, marks m' j = None) → calls_ok len (calls m') →
  good len p r (finish_message settings p m' (λ m, Ok (m, Break p))).
Proof.
  intros W Hm C. apply (finish_good r n); [done..|]. intros cs Hcs.
  apply good_break; [done| |by apply no_marks|done]. by apply (NEW_MESSAGE_ok n).
Qed.

Lemma headers_almost_done_good :
  state (parser m) = s_headers_almost_done → good len p 1 (case_headers_almost_done settings ch p m).
Proof.
  intros Hs. assert (Hm : ∀ j, marks m j = None) by (apply marks_none; intros []; by rewrite Hs).
  unfold case_headers_almost_done. apply good_strict; [done|apply I|intros _].
  destruct (has_flag _ _); [by apply (finish_break_good _ 1); [apply I| |apply I]|].
  open_inv. unfold no_error. cbn. rewrite !(bool_decide_eq_true_2 _ He).
  destruct (on_headers_complete settings) as [f|]; [|case_walk].
  assert (C' : ∀ e, call_in len e → calls_ok len (cs ++ [e])).
  { intros e He'. by apply calls_snoc. }
  destruct (_ =? 0)%Z; [case_walk; by apply C'|]. destruct (_ =? 1)%Z; [case_walk; by apply C'|].
  apply (good_return_error len p Hp 1 HPE_CB_headers_complete (Z.of_nat p)); [done|lia|].
  by apply C'.
Qed.

Lemma headers_done_good :
  state (parser m) = s_headers_done → good len p 0 (case_headers_done settings ch p m).
Proof.
  intros Hs. assert (Hm : ∀ j, marks m j = None) by (apply marks_none; intros []; by rewrite Hs).
  unfold case_headers_done. apply good_strict; [done|apply I|intros _]. cbv zeta.
  destruct I as [[He Hn Hl Hst] _ C]. unfold state_ok in Hst. rewrite Hs in Hst.
  assert (W : wf 0 (parser (upd (set_nread 0) m))).
  { constructor; cbn; [done|unfold HTTP_MAX_HEADER_SIZE; lia|done|]. unfold state_ok. cbn. by rewrite Hs. }
  destruct (upgrade _) eqn:Eup.
  { apply (finish_good 0 0); [done..|]. intros cs Hcs. eexists _, _. split; [reflexivity|].
    split_and!; [lia..|done|]. intros _. split; [by apply (NEW_MESSAGE_ok 0)|right; done]. }
  destruct (has_flag F_SKIPBODY _); [by apply (finish_break_good _ 0)|].
  destruct (has_flag F_CHUNKED _) eqn:Ech.
  { apply good_break; [done| |by apply no_marks|done]. constructor; cbn; [done..|].
    by unfold state_ok. }
  destruct (_ =? 0)%Z eqn:E0; [by apply (finish_break_good _ 0)|].
  destruct (negb _) eqn:E1.
  { apply good_break; [done| |by apply no_marks|done]. constructor; cbn; [done..|].
    unfold state_ok. cbn in *. apply negb_true_iff in E1. lia. }
  destruct (match _ with HTTP_REQUEST => _ | _ => _ end); [by apply (finish_break_good _ 0)|].
  apply good_break; [done| |by apply no_marks|done]. constructor; cbn; [done..|]. by unfold state_ok.
Qed.

Lemma message_done_good :
  state (parser m) = s_message_done → good len p 0 (case_message_done settings p m).
Proof.
  intros Hs. apply (finish_break_good _ 1); [apply I| |apply I].
  apply marks_none. intros []; by rewrite Hs.
Qed.

(** What [take_body] does to a parser that has [n] bytes of body left. *)
Lemma take_body_good r k :
  (content_length (parser m) ≠ 0 ∧ content_length (parser m) ≠ ULLONG_MAX)%Z →
  (∀ p' t, (p ≤ p' < len)%nat → (0 ≤ t ≤ ULLONG_MAX)%Z → t ≠ ULLONG_MAX →
     let m' := upd (set_content_length t) (MARK body_mark p m) in
     good len p r (k p' m')) →
  good len p r (take_body len p m k).
Proof.
  intros [H0 H1] Hk. unfold take_body. cbv zeta.
  destruct (wf_length _ _ (inv_wf _ _ _ _ I)) as [Hl1 Hl2].
  apply good_assert.
  { apply andb_true_iff. rewrite !negb_true_iff, !Z.eqb_neq. done. }
  assert (parser (MARK body_mark p m) = parser m) as Eq.
  { unfold MARK. by destruct (marks m body_mark). }
  assert (Hn : (1 ≤ to_read len p (parser m) ≤ content_length (parser m))%Z ∧
    (to_read len p (parser m) ≤ Z.of_nat (len - p))%Z) by (unfold to_read; lia).
  cbv zeta in Hk. unfold upd in *. rewrite Eq in *.
  apply (Hk _ (u64 (content_length (parser m) - to_read len p (parser m))));
    unfold ULLONG_MAX in *.
  - lia.
  - rewrite wrap_small; lia.
  - rewrite wrap_small; lia.
Qed.

Lemma body_marks s p' :
  mark_ok (state (parser m)) body_mark = true → mark_ok s body_mark = true → (p ≤ p')%nat →
  marks_fit s p' (marks (MARK body_mark p m)).
Proof.
  intros H1 H2 Hle.
  assert (Honly : ∀ j, mark_ok (state (parser m)) j = true → mark_ok s j = true).
  { intros j Hj. revert H1 Hj. destruct (state (parser m)); try done; by destruct j. }
  unfold MARK. destruct (marks m body_mark) eqn:E.
  - eapply marks_move; [exact (inv_marks _ _ _ _ I)|done|done].
  - eapply marks_set; [exact (inv_marks _ _ _ _ I)|done|done|done].
Qed.

Lemma body_calls : calls (MARK body_mark p m) = calls m ∧ parser (MARK body_mark p m) = parser m.
Proof. unfold MARK. by destruct (marks m body_mark). Qed.

Lemma good_at r p' m' :
  (p ≤ p' < len)%nat → wf 0 (parser m') → marks_fit (state (parser m')) (p' + 1) (marks m') →
  calls_ok len (calls m') → good len p r (Ok (m', Break p')).
Proof. intros Hp' W M C. eexists _, _. split; [reflexivity|]. split; [lia|]. by split. Qed.

Lemma body_identity_good :
  state (parser m) = s_body_identity → good len p 1 (case_body_identity settings len p m).
Proof.
  intros Hs. pose proof I as [[He Hn Hl Hst] _ C]. unfold state_ok in Hst. rewrite Hs in Hst.
  destruct body_calls as [Ec Eq].
  apply take_body_good; [done|]. intros p' t Hp' Ht Ht'. cbv zeta. cbn [parser upd].
  rewrite Eq. cbn [content_length set_content_length]. destruct (t =? 0)%Z eqn:E0.
  - eapply (good_data settings len p Hp _ _ _ _ s_body_identity).
    + lia.
    + lia.
    + unfold no_error. cbn. rewrite Eq. by apply bool_decide_eq_true.
    + cbn. apply body_marks; by rewrite ?Hs.
    + by intros [].
    + cbn. by rewrite Ec.
    + intros ms cs Hcs Hms. cbn. rewrite Eq. eexists _, _. split; [reflexivity|].
      split_and!; [lia..| |cbn; lia|done].
      split; [constructor; cbn; done|apply Hms|done].
  - apply good_at; [done| | |by cbn; rewrite Ec]; cbn; rewrite ?Eq.
    + constructor; cbn; [done..|]. unfold state_ok. cbn. rewrite Hs. lia.
    + rewrite Hs. apply body_marks; [by rewrite Hs|done|lia].
Qed.

Lemma body_identity_eof_good :
  state (parser m) = s_body_identity_eof → good len p 0 (case_body_identity_eof len p m).
Proof.
  intros Hs. pose proof I as [[He Hn Hl Hst] _ C]. destruct body_calls as [Ec Eq].
  apply good_at; [lia| | |by rewrite Ec]; rewrite Eq.
  - constructor; [done..|]. unfold state_ok. by rewrite Hs.
  - rewrite Hs. apply body_marks; [by rewrite Hs|done|lia].
Qed.

Lemma chunk_size_good :
  match state (parser m) with
  | s_chunk_size_start => good len p 0 (case_chunk_size_start ch p m)
  | s_chunk_size => good len p 0 (case_chunk_size ch p m)
  | s_chunk_parameters => good len p 0 (case_chunk_parameters ch p m)
  | s_chunk_size_almost_done => good len p 0 (case_chunk_size_almost_done ch p m)
  | s_chunk_data_done => good len p 0 (case_chunk_data_done ch p m)
  | _ => True
  end.
Proof.
  destruct (state (parser m)) eqn:Hs; try exact Logic.I.
  all: unfold case_chunk_size_start, case_chunk_size, case_chunk_parameters,
    case_chunk_size_almost_done, case_chunk_data_done, is_chunked; open_inv.
  all: repeat match goal with H : _ ∧ _ |- _ => destruct H end.
  all: repeat (apply good_assert; [first [assumption|by apply Z.eqb_eq]|]).
  all: case_walk.
  all: try match goal with
    | H : (unhex_val ch =? -1)%Z = false |- _ =>
        apply Z.eqb_neq, unhex_range in H; unfold ULLONG_MAX; cbn; try split; try assumption; lia
    | H : accumulate _ _ _ = Some _ |- _ =>
        apply accumulate_range in H as [? ?]; cbn; first [assumption|split; assumption]
    end.
  split_and!; [done|by apply Z.eqb_neq|done].
Qed.

Lemma chunk_data_good :
  state (parser m) = s_chunk_data → good len p 0 (case_chunk_data len p m).
Proof.
  intros Hs. pose proof I as [[He Hn Hl Hst] _ C]. unfold state_ok in Hst. rewrite Hs in Hst.
  destruct body_calls as [Ec Eq], Hst as [Hch Hst].
  apply good_assert; [done|]. apply take_body_good; [done|].
  intros p' t Hp' Ht Ht'. cbv zeta. cbn [parser upd]. rewrite Eq.
  cbn [content_length set_content_length]. destruct (t =? 0)%Z eqn:E0.
  - apply good_at; [done| | |by cbn; rewrite Ec]; cbn; rewrite ?Eq.
    + constructor; cbn; [done..|]. unfold state_ok. cbn. split; [done|lia].
    + apply body_marks; [by rewrite Hs|done|lia].
  - apply good_at; [done| | |by cbn; rewrite Ec]; cbn; rewrite ?Eq.
    + constructor; cbn; [done..|]. unfold state_ok. cbn. rewrite Hs. split_and!; [done|lia|done].
    + rewrite Hs. apply body_marks; [by rewrite Hs|done|lia].
Qed.

Lemma chunk_data_almost_done_good :
  state (parser m) = s_chunk_data_almost_done →
  good len p 0 (case_chunk_data_almost_done settings ch p m).
Proof.
  intros Hs. open_inv. destruct Hst as [Hch Hz]. unfold case_chunk_data_almost_done, CALLBACK_DATA.
  apply good_assert; [done|]. apply good_assert; [by apply Z.eqb_eq|]. case_walk.
Qed.

(** The switch, in every state. *)
Lemma switch_good : good len p (rank (state (parser m))) (switch_state settings ch len p m).
Proof.
  pose proof res_start_good as H1. pose proof req_version_good as H2.
  pose proof chunk_size_good as H3. pose proof header_end_good as H4.
  unfold switch_state. destruct (state (parser m)) eqn:Hs; cbn [rank].
  all: try exact H1; try exact H2; try exact H3; try exact H4.
  all: try (eapply expect_good; [exact Hs|by intros []|intros ? q Hq; unfold state_ok; by rewrite Hq]).
  all: try (apply req_schema_good; by rewrite Hs).
  all: try (apply req_path_good; by rewrite Hs).
  all: auto using dead_good, start_req_good, req_method_good, spaces_before_url_good,
    header_field_start_good, header_field_good, header_value_start_good, header_value_good,
    headers_almost_done_good, headers_done_good, body_identity_good, body_identity_eof_good,
    message_done_good, chunk_data_good, chunk_data_almost_done_good.
Qed.
End Cases.

(** ** The loop *)

Lemma reexecute_good settings fuel len p ch m :
  (p < len)%nat → inv 1 len p m → (rank (state (parser m)) < fuel)%nat →
  good len p 0 (reexecute_byte settings fuel ch len p m).
Proof.
  revert p m. induction fuel as [|fuel IH]; intros p m Hp I Hr; [lia|]. cbn [reexecute_byte].
  destruct (switch_good settings len p Hp ch m I) as (m' & f & -> & Hf). cbn [rbind snd fst].
  destruct f as [p'|p'|p'|n]; try (by eexists _, _).
  destruct Hf as (Hp' & I' & Hr' & _).
  destruct (IH p' m') as (m2 & f2 & -> & Hf2); [lia|done|lia|].
  eexists _, _. split; [reflexivity|]. destruct f2; intuition lia.
Qed.

Lemma iteration_good settings len p ch m :
  (p < len)%nat → inv 0 len p m → good len p 0 (iteration settings ch len p m).
Proof.
  intros Hp [[He Hn Hl Hst] M C]. unfold iteration.
  assert (Hrank : ∀ s, (rank s < REEXECUTIONS)%nat) by (unfold REEXECUTIONS; intros []; cbn; lia).
  destruct (PARSING_HEADER _) eqn:Eh.
  - cbv zeta. cbn [parser upd nread set_nread].
    assert (Ew : u32 (nread (parser m) + 1) = (nread (parser m) + 1)%Z).
    { apply wrap_small. unfold HTTP_MAX_HEADER_SIZE in Hn. lia. }
    rewrite Ew. destruct (_ <? _)%Z eqn:Eo; [by apply good_error|].
    apply reexecute_good; [done| |apply Hrank]. split; [|done..].
    constructor; cbn; [done|lia|done|]. unfold state_ok in *. cbn.
    destruct (state (parser m)); try done. destruct Hst as [? ->]. done.
  - apply reexecute_good; [done| |apply Hrank]. split; [|done..].
    constructor; [done..|]. unfold state_ok in *. by destruct (state (parser m)).
Qed.

(** What the end of the loop does to a parser [q]. *)
Definition ended (len : nat) (q : http_parser) (s : step) : Prop :=
  ∃ m n, s = Ok (m, Return n) ∧ (0 ≤ n ≤ Z.of_nat len)%Z ∧ calls_ok len (calls m) ∧
    (no_error m = true → parser m = q ∧ n = Z.of_nat len).

Lemma data_ended settings len f m k :
  no_error m = true → calls_ok len (calls m) → (∀ j a, marks m j = Some a → (a ≤ len)%nat) →
  (∀ ms cs, (∀ j a, ms j = Some a → (a ≤ len)%nat) → calls_ok len cs →
     ended len (parser m) (k (MkExec (parser m) ms cs))) →
  ended len (parser m) (CALLBACK_DATA_NOADVANCE settings f len m k).
Proof.
  intros He C Hm Hk. unfold CALLBACK_DATA_NOADVANCE, CALLBACK_DATA_, assert. rewrite He.
  destruct m as [q ms cs]. cbn [marks parser calls] in *.
  destruct (ms f) as [a|] eqn:Ea; [|by apply Hk].
  assert (Hclear : ∀ j a, marks (set_mark f None (MkExec q ms cs)) j = Some a → (a ≤ len)%nat).
  { intros j b. rewrite set_mark_lookup. case_bool_decide; [done|apply Hm]. }
  destruct (data_cb settings f) as [g|]; [|by apply Hk].
  assert (C' : calls_ok len (cs ++ [data_event f a (len - a)])).
  { apply calls_snoc; [done|]. apply Hm in Ea. destruct f; cbn; lia. }
  cbv zeta. destruct (negb _); [|by apply Hk].
  eexists _, _. split; [reflexivity|]. split_and!; [lia|lia|done|].
  intros Hno. apply bool_decide_eq_true in Hno. by destruct f.
Qed.

Lemma leftover_ended settings len m :
  inv 0 len len m → ended len (parser m) (leftover settings len m).
Proof.
  intros [[He _ _ _] M C]. unfold leftover.
  assert (Hle : ∀ j a, marks m j = Some a → (a ≤ len)%nat) by (intros j a E; by apply (M j a)).
  assert (marked m header_field_mark + marked m header_value_mark + marked m url_mark +
    marked m body_mark <= 1)%Z as H1.
  { unfold marked.
    destruct (marks m header_field_mark) eqn:E1, (marks m header_value_mark) eqn:E2,
      (marks m url_mark) eqn:E3, (marks m body_mark) eqn:E4; try lia; exfalso.
    all: repeat match goal with
      | E : marks _ _ = Some _ |- _ => destruct (M _ _ E) as [? _]; clear E
      end.
    all: cbn in *; destruct (state (parser m)); discriminate. }
  apply Z.leb_le in H1. unfold assert at 1. rewrite H1.
  assert (Hno : ∀ ms cs, no_error (MkExec (parser m) ms cs) = true).
  { intros ms cs. by apply bool_decide_eq_true. }
  apply data_ended; [by apply bool_decide_eq_true|done|done|]. intros ms1 cs1 Hms1 Hcs1.
  apply (data_ended _ _ _ (MkExec (parser m) ms1 cs1)); [done|done|done|]. intros ms2 cs2 Hms2 Hcs2.
  apply (data_ended _ _ _ (MkExec (parser m) ms2 cs2)); [done|done|done|]. intros ms3 cs3 Hms3 Hcs3.
  apply (data_ended _ _ _ (MkExec (parser m) ms3 cs3)); [done|done|done|]. intros ms4 cs4 Hms4 Hcs4.
  eexists _, _. split; [reflexivity|]. split_and!; [lia|lia|done|done].
Qed.

(** How a call ends on a buffer of [len] bytes. *)
Definition call_ok (len : nat) (m : exec) (n : Z) : Prop :=
  (0 ≤ n ≤ Z.of_nat len)%Z ∧ calls_ok len (calls m) ∧
  (no_error m = true → wf 0 (parser m) ∧ (n = Z.of_nat len ∨ upgrade (parser m) = true)).

Lemma for_loop_ok settings data fuel p m :
  (p ≤ length data)%nat → inv 0 (length data) p m → (length data < p + fuel)%nat →
  ∃ m' n, for_loop settings fuel data p m = Ok (Some (m', n)) ∧ call_ok (length data) m' n.
Proof.
  revert p m. induction fuel as [|fuel IH]; intros p m Hp I Hf; [lia|]. cbn [for_loop].
  case_bool_decide as Hend.
  - subst p. destruct (leftover_ended settings _ _ I) as (m' & n & -> & Hn & C & Hno).
    cbn [rbind fst snd]. eexists _, _. split; [reflexivity|]. split_and!; [lia|lia|done|].
    intros Hok. destruct (Hno Hok) as [-> ->]. split; [apply I|by left].
  - destruct (lookup_lt_is_Some_2 data p) as [ch Ech]; [lia|]. rewrite Ech.
    destruct (iteration_good settings (length data) p ch m) as (m' & f & -> & Hg); [lia|done|].
    cbn [rbind fst snd]. destruct f as [p'|p'|p'|n].
    + destruct Hg as [Hp' I']. apply IH; [lia|done|lia].
    + destruct Hg as (_ & _ & Hr & _). lia.
    + destruct Hg as (Hp' & Hno & C). unfold at_error. rewrite Hno.
      eexists _, _. split; [reflexivity|]. split_and!; [lia|lia|done|]. by rewrite Hno.
    + eexists _, _. split; [reflexivity|]. done.
Qed.

End Before.

Lemma first_marks_fit s : marks_fit s 0 (first_marks s).
Proof. intros k a. destruct s, k; cbn; intros E; simplify_eq; by split. Qed.

Lemma http_parser_init_wf t : wf 0 (http_parser_init t).
Proof.
  constructor; cbn; unfold HTTP_MAX_HEADER_SIZE, ULLONG_MAX; [done|lia|lia|].
  unfold state_ok. by destruct t.
Qed.

(** Whatever a caller does with a parser: initialise it, and call [http_parser_execute]
    with any callbacks and bytes, also after errors. *)
Inductive parser_reachable : http_parser → Prop :=
  | reachable_init t : parser_reachable (http_parser_init t)
  | reachable_execute settings q data m n :
      parser_reachable q → http_parser_execute settings q data = Ok (Some (m, n)) →
      parser_reachable (parser m).

Lemma execute_ok settings q data :
  (http_errno q = HPE_OK → wf 0 q) →
  ∃ m n, http_parser_execute settings q data = Ok (Some (m, n)) ∧
    Forall (call_in (length data)) (calls m) ∧ (http_errno (parser m) = HPE_OK → wf 0 (parser m)) ∧
    (data ≠ [] → 0 ≤ n ≤ slen data)%Z ∧
    (no_error m = true → n = slen data ∨ upgrade (parser m) = true).
Proof.
  intros W. unfold http_parser_execute. cbv zeta.
  destruct (negb _) eqn:Eno.
  { eexists _, _. split; [reflexivity|]. apply negb_true_iff in Eno. cbn.
    split_and!; [constructor|done|unfold slen; lia|]. unfold no_error in *. cbn in *. congruence. }
  apply negb_false_iff, bool_decide_eq_true in Eno. cbn in Eno. specialize (W Eno).
  case_bool_decide as Hd.
  - subst data.
    destruct (state q) eqn:Hs.
    all: try (eexists _, _; split; [reflexivity|]; split_and!;
      [constructor|done|done|intros _; left; reflexivity]).
    all: try (eexists _, _; split; [reflexivity|]; split_and!;
      [constructor|discriminate|done|by intros Hf%bool_decide_eq_true]).
    unfold notify_message_complete, CALLBACK_NOTIFY_, assert, no_error. cbn. rewrite Eno. cbn.
    destruct (on_message_complete settings) as [f|]; cbn.
    + destruct (negb _); cbn; eexists _, _; (split; [reflexivity|]); cbn.
      * split_and!; [by repeat constructor|discriminate|done|by left].
      * split_and!; [by repeat constructor|done|done|by left].
    + eexists _, _. split; [reflexivity|]. by split_and!; [constructor| | |left].
  - destruct (for_loop_ok [] settings data (length data + 1) 0 (MkExec q (first_marks (state q)) []))
      as (m & n & -> & Hn & [C _] & Hok); [lia| |lia|].
    { split; [done|apply first_marks_fit|split; [constructor|apply prefix_nil]]. }
    eexists _, _. split; [reflexivity|]. split_and!; [done| |done|].
    + intros He. apply Hok. by apply bool_decide_eq_true.
    + intros He. by apply Hok.
Qed.

Lemma reachable_wf q : parser_reachable q → http_errno q = HPE_OK → wf 0 q.
Proof.
  induction 1 as [t|settings q data m n _ IH E]; [intros _; apply http_parser_init_wf|].
  destruct (execute_ok settings q data IH) as (m' & n' & E' & _ & W & _).
  rewrite E in E'. by simplify_eq.
Qed.

(** C17: Whatever bytes, callbacks and earlier calls, http_parser_execute ends without a failed
    assertion or a read outside a table or the buffer, every callback gets data inside the
    buffer, and a call without error has consumed the whole buffer unless the message asked
    for an upgrade. *)
Theorem execute_safe settings q data :
  parser_reachable q →
  ∃ m n, http_parser_execute settings q data = Ok (Some (m, n)) ∧
    Forall (call_in (length data)) (calls m) ∧ (data ≠ [] → 0 ≤ n ≤ slen data)%Z ∧
    (http_errno (parser m) = HPE_OK → n = slen data ∨ upgrade (parser m) = true).
Proof.
  intros R. destruct (execute_ok settings q data (reachable_wf q R))
    as (m & n & E & C & _ & Hn & Hok).
  exists m, n. split_and!; [done..|]. intros He. by apply Hok, bool_decide_eq_true.
Qed.

Lemma execute_safe_witness :
  ∃ m n, http_parser_execute wrapper_settings (http_parser_init HTTP_REQUEST) "GET /" =
           Ok (Some (m, n)) ∧
    Forall (call_in (length (cstr "GET /"))) (calls m) ∧
    (cstr "GET /" ≠ [] → 0 ≤ n ≤ slen "GET /")%Z ∧
    (http_errno (parser m) = HPE_OK → n = slen "GET /" ∨ upgrade (parser m) = true).
Proof. apply execute_safe. apply reachable_init. Defined.
