(* ===== verification/HttpRun.v ===== *)
(** Running the parser of [HttpMachine] over the bytes of a request: the request line.

    The header phase consumes one byte per iteration; [eat] runs it over a text, whatever
    follows in the buffer.  A body is taken by whole pieces; [steps] is the sequence of
    iterations of the loop. *)

From S2P Require Import Prelude HttpMachine HttpSafe.

(** ** Running over a text *)

Abbreviation settings := wrapper_settings (only parsing).

Fixpoint eat (len : nat) (w : str) (p : nat) (m : exec) : option exec :=
  match w with
  | [] => Some m
  | ch :: w' =>
      match iteration settings ch len p m with
      | Ok (m', Break p') => if bool_decide (p' = p) then eat len w' (p + 1) m' else None
      | _ => None
      end
  end.

(** Iterations of the [for] loop over [data] that end with [Break]. *)
Inductive steps (data : str) : nat → exec → nat → exec → Prop :=
  | steps_refl p m : steps data p m p m
  | steps_cons p m ch p' m' p2 m2 :
      data !! p = Some ch → iteration settings ch (length data) p m = Ok (m', Break p') →
      (p ≤ p')%nat → steps data (p' + 1) m' p2 m2 → steps data p m p2 m2.

Lemma eat_app len w1 w2 p m m1 :
  eat len w1 p m = Some m1 → eat len (w1 ++ w2) p m = eat len w2 (p + length w1) m1.
Proof.
  revert p m. induction w1 as [|ch w1 IH]; intros p m; cbn.
  { intros [= <-]. f_equal. lia. }
  destruct (iteration _ _ _ _ _) as [[m' []]| |]; try done.
  case_bool_decide; [|done]. intros E. rewrite (IH _ _ E). f_equal. lia.
Qed.

Lemma eat_trans len w1 w2 p m m1 m2 :
  eat len w1 p m = Some m1 → eat len w2 (p + length w1) m1 = Some m2 →
  eat len (w1 ++ w2) p m = Some m2.
Proof. intros E1 E2. by rewrite (eat_app _ _ _ _ _ _ E1). Qed.

Lemma steps_trans data p m p1 m1 p2 m2 :
  steps data p m p1 m1 → steps data p1 m1 p2 m2 → steps data p m p2 m2.
Proof. induction 1; [done|]. intros. econstructor; eauto. Qed.

Lemma eat_steps data w p m m' :
  take (length w) (drop p data) = w → eat (length data) w p m = Some m' →
  steps data p m (p + length w) m'.
Proof.
  revert p m. induction w as [|ch w IH]; intros p m Hw; cbn.
  { intros [= <-]. rewrite Nat.add_0_r. constructor. }
  assert (data !! p = Some ch) as Hch.
  { rewrite <- (Nat.add_0_r p), <- lookup_drop. cbn in Hw.
    destruct (drop p data) as [|x r]; [done|]. cbn in *. by simplify_eq. }
  destruct (iteration _ _ _ _ _) as [[m1 []]| |] eqn:E; try done.
  case_bool_decide; [subst|done]. intros Hm'. econstructor; [exact Hch|exact E|done|].
  replace (p + S (length w))%nat with (p + 1 + length w)%nat by lia. apply IH; [|done].
  rewrite <- drop_drop. cbn in Hw. destruct (drop p data) as [|x r]; [done|].
  cbn in *. rewrite drop_0. by simplify_eq.
Qed.

(** ** The state of a parser that reads a request *)

Definition no_marks : mark → option nat := mark_values None None None None.

Definition reading (s : pstate) (h : header_states) (i nr fl cl ma mi me : Z)
    (ms : mark → option nat) (cs : list callback) : exec :=
  MkExec (MkParser HTTP_REQUEST fl s h i nr cl ma mi 0 me HPE_OK false) ms cs.

(** One header byte: [nread] grows, and the byte is executed. *)
Lemma iteration_header ch len p s h i nr fl cl ma mi me ms cs :
  PARSING_HEADER s = true → (0 ≤ nr < HTTP_MAX_HEADER_SIZE)%Z →
  iteration settings ch len p (reading s h i nr fl cl ma mi me ms cs) =
  reexecute_byte settings 4 ch len p (reading s h i (nr + 1) fl cl ma mi me ms cs).
Proof.
  intros Hs Hn. unfold iteration. cbn [parser state reading]. rewrite Hs.
  unfold reading, upd. cbn.
  assert (u32 (nr + 1) = (nr + 1)%Z) as ->.
  { apply wrap_small. unfold HTTP_MAX_HEADER_SIZE in Hn. lia. }
  rewrite (proj2 (Z.ltb_ge _ _)) by lia. done.
Qed.

(** A byte that the switch takes without executing it again. *)
Lemma eat_header len ch w p s h i nr fl cl ma mi me ms cs m' :
  PARSING_HEADER s = true → (0 ≤ nr < HTTP_MAX_HEADER_SIZE)%Z →
  switch_state settings ch len p (reading s h i (nr + 1) fl cl ma mi me ms cs) =
    Ok (m', Break p) →
  eat len (ch :: w) p (reading s h i nr fl cl ma mi me ms cs) = eat len w (p + 1) m'.
Proof.
  intros Hs Hn E. cbn [eat]. rewrite iteration_header by done. cbn [reexecute_byte].
  rewrite E. cbn. by rewrite bool_decide_eq_true_2.
Qed.

Lemma eat_byte len ch w p s h i nr fl cl ma mi me ms cs s' h' i' nr' fl' cl' ma' mi' me' ms' cs' :
  switch_state settings ch len p (reading s h i (nr + 1) fl cl ma mi me ms cs) =
    Ok (reading s' h' i' nr' fl' cl' ma' mi' me' ms' cs', Break p) →
  PARSING_HEADER s = true → (0 ≤ nr < HTTP_MAX_HEADER_SIZE)%Z →
  eat len (ch :: w) p (reading s h i nr fl cl ma mi me ms cs) =
  eat len w (p + 1) (reading s' h' i' nr' fl' cl' ma' mi' me' ms' cs').
Proof. intros. by apply eat_header. Qed.

(** Computes the outcome of a step on a [reading] state. *)
Ltac run :=
  cbv -[Z.add Z.sub Z.mul Z.of_nat Nat.add Nat.sub app digit_of ULLONG_MAX HTTP_MAX_HEADER_SIZE
        TOKEN lower_char IS_NUM u8 Z.lor slen length].

(** Eats one byte whose step computes. *)
Ltac run_byte := erewrite eat_byte; [|run; reflexivity|done|lia].

(** ** The request line *)

(** The methods with their numbers: not CONNECT, whose URL is a server, and not M-SEARCH,
    which the parser does not recognise. *)
Definition is_method (k : nat) (w : str) : Prop :=
  method_strings !! k = Some w ∧ k ≠ 5%nat ∧ k ≠ 20%nat.

Definition start : exec := reading s_start_req h_general 0 0 0 0 0 0 0 no_marks [].

Lemma start_init : MkExec (http_parser_init HTTP_REQUEST) (first_marks s_start_req) [] = start.
Proof. reflexivity. Qed.

Lemma eat_method len k w :
  is_method k w →
  eat len (w ++ " ") 0 start =
  Some (reading s_req_spaces_before_url h_general (slen w + 1) (slen w + 1) 0 ULLONG_MAX 0 0
          (Z.of_nat k) no_marks []).
Proof.
  intros (Hw & H5 & H20).
  do 26 (destruct k as [|k]; [first [done|injection Hw as <-; vm_compute; reflexivity]|]).
  done.
Qed.

(** A URL: [/] or [*], then visible ASCII characters. *)
Definition visible (c : ascii) : bool := ((33 <=? u8 c) && (u8 c <=? 126))%Z.
Definition is_url (u : str) : Prop :=
  ∃ c r, u = c :: r ∧ (c = "/"%char ∨ c = "*"%char) ∧ Forall (λ c, visible c = true) r.

Definition path_state (s : pstate) : bool :=
  match s with
  | s_req_path | s_req_query_string_start | s_req_query_string | s_req_fragment_start
  | s_req_fragment => true
  | _ => false
  end.

Lemma path_visible s c :
  path_state s = true → visible c = true → path_state (parse_url_char s c) = true.
Proof.
  intros Hs Hc.
  pose proof (byte_forallb (λ c, negb (visible c) || forallb (λ s, path_state (parse_url_char s c))
    [s_req_path; s_req_query_string_start; s_req_query_string; s_req_fragment_start;
     s_req_fragment]) c ltac:(vm_compute; reflexivity)) as H.
  cbv beta in H. rewrite Hc in H. cbn [negb orb] in H. rewrite forallb_forall in H.
  apply H. destruct s; try discriminate; cbn; auto 6.
Qed.

Lemma visible_no_blank c :
  visible c = true → c ≠ " "%char ∧ c ≠ CR ∧ c ≠ LF.
Proof. intros Hc. by split_and!; intros ->. Qed.

Definition url_at (a : nat) : mark → option nat := mark_values (Some a) None None None.

(** A visible byte of a URL. *)
Lemma eat_url_byte len c w p a s h i nr me cs :
  path_state s = true → visible c = true → (0 ≤ nr < HTTP_MAX_HEADER_SIZE)%Z →
  eat len (c :: w) p (reading s h i nr 0 ULLONG_MAX 0 0 me (url_at a) cs) =
  eat len w (p + 1) (reading (parse_url_char s c) h i (nr + 1) 0 ULLONG_MAX 0 0 me (url_at a) cs).
Proof.
  intros Hs Hc Hn. pose proof (path_visible s c Hs Hc) as Hs'.
  destruct (visible_no_blank c Hc) as (N1 & N2 & N3).
  erewrite eat_header; [reflexivity|by destruct s|done|].
  transitivity (url_char c p (reading s h i (nr + 1) 0 ULLONG_MAX 0 0 me (url_at a) cs)).
  - unfold switch_state. cbn [parser reading state].
    assert (case_req_path settings c p (reading s h i (nr + 1) 0 ULLONG_MAX 0 0 me (url_at a) cs) =
      url_char c p (reading s h i (nr + 1) 0 ULLONG_MAX 0 0 me (url_at a) cs)) as E.
    { unfold case_req_path. by rewrite !bool_decide_eq_false_2 by done. }
    rewrite <- E. by destruct s.
  - unfold url_char. cbn [parser upd reading state set_state].
    rewrite bool_decide_eq_false_2; [reflexivity|]. intros E. by rewrite E in Hs'.
Qed.

Lemma eat_url_tail len r p a s h i nr me cs :
  path_state s = true → Forall (λ c, visible c = true) r →
  (0 ≤ nr)%Z → (nr + slen r < HTTP_MAX_HEADER_SIZE)%Z → (a ≤ p)%nat →
  eat len (r ++ " ") p (reading s h i nr 0 ULLONG_MAX 0 0 me (url_at a) cs) =
  Some (reading s_req_http_start h i (nr + slen r + 1) 0 ULLONG_MAX 0 0 me no_marks
          (cs ++ [CBurl a (p + length r - a)])).
Proof.
  revert p s nr. induction r as [|c r IH]; intros p s nr Hs Hr Hn Hmax Ha.
  - rewrite slen_nil in *. cbn [app length cstr String.list_ascii_of_string].
    erewrite eat_header; [|by destruct s|lia|].
    2: { unfold switch_state. cbn [parser reading state].
         destruct s; try discriminate; reflexivity. }
    cbn. unfold reading. by rewrite Nat.add_0_r, Z.add_0_r.
  - apply Forall_cons in Hr as [Hc Hr]. rewrite slen_cons in *. pose proof (slen_nonneg r).
    cbn [app]. rewrite eat_url_byte by (done || lia). pose proof (path_visible s c Hs Hc).
    etrans; [apply (IH (p + 1)%nat (parse_url_char s c) (nr + 1)%Z); [done|done|lia|lia|lia]|].
    unfold reading. do 3 f_equal; [lia|]. do 2 f_equal. cbn. lia.
Qed.

Lemma eat_url len u p h i nr me cs :
  is_url u → (0 ≤ nr)%Z → (nr + slen u < HTTP_MAX_HEADER_SIZE)%Z → (me =? HTTP_CONNECT)%Z = false →
  eat len (u ++ " ") p (reading s_req_spaces_before_url h i nr 0 ULLONG_MAX 0 0 me no_marks cs) =
  Some (reading s_req_http_start h i (nr + slen u + 1) 0 ULLONG_MAX 0 0 me no_marks
          (cs ++ [CBurl p (length u)])).
Proof.
  intros (c & r & -> & Hc & Hr) Hn Hmax Hme. rewrite slen_cons in *. cbn [app].
  pose proof (slen_nonneg r).
  erewrite eat_header; [|done|lia|].
  2: { unfold switch_state, case_req_spaces_before_url. cbn [parser reading state].
       assert (bool_decide (c = " "%char) = false) as ->.
       { apply bool_decide_eq_false. by destruct Hc as [-> | ->]. }
       unfold MARK. cbn [marks no_marks mark_values reading]. unfold url_char, set_mark, upd.
       cbn [parser method reading marks calls]. rewrite Hme. cbn [parser state].
       assert (parse_url_char s_req_spaces_before_url c = s_req_path) as ->.
       { by destruct Hc as [-> | ->]. }
       reflexivity. }
  etrans; [exact (eat_url_tail len r (p + 1) p s_req_path h i (nr + 1) me cs eq_refl Hr
    ltac:(lia) ltac:(lia) ltac:(lia))|].
  unfold reading. do 3 f_equal; [lia|]. do 2 f_equal. cbn. lia.
Qed.

(** The version [HTTP/1.x] and the end of the line. *)
Lemma eat_version len d p h i nr me cs :
  is_digit d = true → (0 ≤ nr)%Z → (nr + 10 ≤ HTTP_MAX_HEADER_SIZE)%Z →
  eat len ("HTTP/1." ++ d :: CRLF) p
    (reading s_req_http_start h i nr 0 ULLONG_MAX 0 0 me no_marks cs) =
  Some (reading s_header_field_start h i (nr + 10) 0 ULLONG_MAX 1 (digit_of d) me no_marks cs).
Proof.
  intros Hd Hn Hmax. change CRLF with [CR; LF]. cbn [app cstr String.list_ascii_of_string].
  do 7 run_byte.
  erewrite eat_byte; [| |done|lia].
  2: { unfold switch_state, case_first_http_minor, IS_NUM. cbn [parser reading state].
       rewrite Hd. run. reflexivity. }
  do 2 run_byte.
  cbn [eat]. do 2 f_equal. lia.
Qed.
