(* ===== verification/HttpHeader.v ===== *)
(** Running the parser over a header: which names and values it recognises, and what it
    makes of them. *)

From S2P Require Import Prelude HttpMachine HttpSafe HttpRun.

(** ** Names of headers *)

(** What comparing with [word] makes of [header_state]. *)
Definition matching_next (word : str) (found : header_states) (c : ascii) (h : header_states)
    (i : Z) : header_states :=
  let i := wrap 8 (i + 1) in
  if (slen word <? i)%Z then h_general
  else match cstr_at word i with
       | Ok w => if negb (bool_decide (c = w)) then h_general
                 else if (i =? slen word - 1)%Z then found else h
       | _ => h
       end.

Lemma matching_eq word found c q :
  matching word found c q =
  Ok (set_header_state (matching_next word found c (header_state q) (index q)) (incr_index q)).
Proof.
  unfold matching, matching_next. cbn [index incr_index set_index].
  destruct (_ <? _)%Z eqn:E; [done|].
  destruct (cstr_at_ok word (wrap 8 (index q + 1))) as [w ->].
  { pose proof (wrap_range 8 (index q + 1) ltac:(lia)). lia. }
  cbn [rbind]. destruct (negb _); [done|]. destruct (_ =? _)%Z; [done|]. by destruct q.
Qed.

Definition field_next (ch : ascii) (hi : header_states * Z) : header_states * Z :=
  match field_char (TOKEN ch) ch (parser (reading s_header_field hi.1 hi.2 0 0 0 0 0 0 no_marks []))
  with
  | Ok q => (header_state q, index q)
  | _ => hi
  end.

Lemma field_char_next ch h i nr fl cl ma mi me ms cs :
  field_state h = true →
  field_char (TOKEN ch) ch (parser (reading s_header_field h i nr fl cl ma mi me ms cs)) =
  Ok (parser (reading s_header_field (field_next ch (h, i)).1 (field_next ch (h, i)).2
                nr fl cl ma mi me ms cs)) ∧
  field_state (field_next ch (h, i)).1 = true.
Proof.
  intros Hh. unfold field_next, field_char. cbn [fst snd parser reading header_state].
  destruct h; try discriminate; rewrite ?matching_eq; cbn.
  all: try (split; [reflexivity|]).
  all: try done.
  all: repeat case_bool_decide; try done.
  all: unfold matching_next; repeat (destruct (_ <? _)%Z || destruct (_ =? _)%Z ||
    destruct (cstr_at _ _) || destruct (negb _)); done.
Qed.

(** The names that matter, with the state after their last byte. *)
Definition special : list (str * header_states) :=
  [(CONNECTION, h_connection); (PROXY_CONNECTION, h_connection);
   (CONTENT_LENGTH, h_content_length); (TRANSFER_ENCODING, h_transfer_encoding);
   (UPGRADE, h_upgrade)].

Definition first_field_state (c : ascii) : header_states :=
  if bool_decide (c = "c"%char) then h_C
  else if bool_decide (c = "p"%char) then h_matching_proxy_connection
  else if bool_decide (c = "t"%char) then h_matching_transfer_encoding
  else if bool_decide (c = "u"%char) then h_matching_upgrade
  else h_general.

(** The state after a name in lower case. *)
Definition name_state (l : str) : header_states * Z :=
  match l with
  | [] => (h_general, 0%Z)
  | c :: l => foldl (λ hi c, field_next c hi) (first_field_state c, 0%Z) l
  end.

Definition starts_special (l : str) : bool :=
  existsb (λ w, bool_decide (take (length l) w.1 = l)) special.
Definition special_prefixes : list str :=
  special ≫= λ w, (λ n, take n w.1) <$> seq 1 (length w.1).

Definition name_inv (l : str) (hi : header_states * Z) : Prop :=
  (starts_special l = true ∧ hi = name_state l) ∨ (starts_special l = false ∧ hi.1 = h_general).

Definition is_token (ch : ascii) : bool := negb (bool_decide (TOKEN ch = NUL)).

Lemma starts_special_in l : starts_special l = true → l ≠ [] → l ∈ special_prefixes.
Proof.
  unfold starts_special, special_prefixes. rewrite existsb_exists. intros (w & Hw & E) Hl.
  apply bool_decide_eq_true in E. apply list_elem_of_bind. exists w.
  split; [|by apply list_elem_of_In].
  apply list_elem_of_fmap. exists (length l). split; [done|]. apply elem_of_seq.
  assert (length l ≤ length w.1)%nat by (rewrite <- E at 1; rewrite length_take; lia).
  destruct l; [done|]. cbn in *. lia.
Qed.

Lemma starts_special_app l r : starts_special l = false → starts_special (l ++ r) = false.
Proof.
  intros Hl. apply not_true_is_false. intros Hr. apply not_true_iff_false in Hl. apply Hl. clear Hl.
  unfold starts_special in *. rewrite existsb_exists in *. destruct Hr as (w & Hw & E).
  exists w. split; [done|]. apply bool_decide_eq_true in E. apply bool_decide_eq_true.
  apply (f_equal (take (length l))) in E. rewrite take_take, take_app_length, length_app in E.
  by rewrite Nat.min_l in E by lia.
Qed.

(** One more byte, for every beginning of a special name and every byte. *)
Definition step_check_from (hi : header_states * Z) (l : str) (ch : ascii) : bool :=
  negb (is_token ch) || starts_special (l ++ [TOKEN ch]) ||
  bool_decide ((field_next ch hi).1 = h_general).

(** [name_state] depends on the bytes in lower case. *)
Definition token_check : bool :=
  forallb (λ ch, negb (is_token ch) || (is_token (TOKEN ch) && bool_decide (TOKEN (TOKEN ch) = TOKEN ch)
    && negb (bool_decide (ch = " "%char)) && negb (bool_decide (TOKEN ch = " "%char)))) all_bytes.

Lemma field_next_lower ch hi : is_token ch = true → field_next (TOKEN ch) hi = field_next ch hi.
Proof.
  intros Ht. assert (H : token_check = true) by (vm_compute; reflexivity).
  unfold token_check in H. apply (byte_forallb _ ch) in H. cbv beta in H. rewrite Ht in H.
  cbn [negb orb] in H. rewrite !andb_true_iff, !negb_true_iff in H. destruct H as [[[_ E] N1] N2].
  apply bool_decide_eq_true in E. unfold field_next, field_char. rewrite E, N1, N2. done.
Qed.

Definition name_first_check : bool :=
  forallb (λ ch, negb (is_token ch) ||
    if starts_special [TOKEN ch] then true
    else bool_decide (first_field_state (TOKEN ch) = h_general)) all_bytes.

Lemma name_inv_first ch :
  is_token ch = true → name_inv [TOKEN ch] (first_field_state (TOKEN ch), 0%Z).
Proof.
  intros Ht. assert (H : name_first_check = true) by (vm_compute; reflexivity).
  unfold name_first_check in H. apply (byte_forallb _ ch) in H. cbv beta in H. rewrite Ht in H.
  cbn [negb orb] in H. destruct (starts_special _) eqn:E; [by left|]. right.
  split; [done|]. by apply bool_decide_eq_true in H.
Qed.

Lemma name_step_checked :
  forallb (λ l, forallb (step_check_from (name_state l) l) all_bytes) special_prefixes = true.
Proof. vm_compute. reflexivity. Qed.

Lemma name_step_special l ch :
  l ∈ special_prefixes → is_token ch = true →
  starts_special (l ++ [TOKEN ch]) = true ∨ (field_next ch (name_state l)).1 = h_general.
Proof.
  intros Hl Ht. pose proof (proj1 (forallb_forall _ _) name_step_checked l
    (proj1 (list_elem_of_In _ _) Hl)) as H. apply (byte_forallb _ ch) in H.
  unfold step_check_from in H. rewrite Ht in H. cbn [negb orb] in H.
  apply orb_true_iff in H as [H|H]; [by left|]. right. by apply bool_decide_eq_true in H.
Qed.

Lemma name_inv_step l ch hi :
  is_token ch = true → l ≠ [] → name_inv l hi → name_inv (l ++ [TOKEN ch]) (field_next ch hi).
Proof.
  intros Ht Hl [[Hs ->]|[Hs Hg]].
  - destruct (name_step_special l ch (starts_special_in l Hs Hl) Ht) as [E|E].
    + left. split; [done|]. destruct l as [|c l]; [done|].
      unfold name_state. cbn [app]. rewrite foldl_app. cbn [foldl]. by rewrite field_next_lower.
    + destruct (starts_special (l ++ [TOKEN ch])) eqn:Es; [left|by right].
      split; [done|]. destruct l as [|c l]; [done|].
      unfold name_state. cbn [app]. rewrite foldl_app. cbn [foldl]. by rewrite field_next_lower.
  - right. split; [by apply starts_special_app|]. destruct hi as [h i]. cbn in Hg. by subst h.
Qed.

(** What a name means: the state for a special name, [h_general] for any other. *)
Definition name_kind (name : str) : header_states :=
  match filter (λ w, w.1 = TOKEN <$> name) special with
  | w :: _ => w.2
  | [] => h_general
  end.

Definition found_state (h : header_states) : bool :=
  match h with
  | h_connection | h_content_length | h_transfer_encoding | h_upgrade => true
  | _ => false
  end.

Definition word_kind (l : str) : header_states :=
  match filter (λ w, w.1 = l) special with w :: _ => w.2 | [] => h_general end.

Lemma name_kind_word name : name_kind name = word_kind (TOKEN <$> name).
Proof. done. Qed.

Lemma name_inv_kind l hi :
  l ≠ [] → name_inv l hi →
  if found_state hi.1 then word_kind l = hi.1 else word_kind l = h_general.
Proof.
  intros Hl [[Hs ->]|[Hs Hg]].
  - assert (H : forallb (λ l, if found_state (name_state l).1
      then bool_decide (word_kind l = (name_state l).1)
      else bool_decide (word_kind l = h_general)) special_prefixes = true)
      by (vm_compute; reflexivity).
    rewrite forallb_forall in H.
    specialize (H l (proj1 (list_elem_of_In _ _) (starts_special_in l Hs Hl))). cbv beta in H.
    destruct (found_state _); by apply bool_decide_eq_true in H.
  - rewrite Hg. cbn. unfold word_kind. destruct (filter _ special) as [|w ws] eqn:E; [done|].
    assert (w ∈ filter (λ w, w.1 = l) special) as Hin by (rewrite E; left).
    apply list_elem_of_filter in Hin as [Hw Hin]. apply not_true_iff_false in Hs. destruct Hs.
    apply existsb_exists. exists w. split; [by apply list_elem_of_In|].
    apply bool_decide_eq_true. rewrite <- Hw. apply firstn_all.
Qed.

(** ** The line of a header *)

Definition field_at (a : nat) : mark → option nat := mark_values None (Some a) None None.
Definition value_at (a : nat) : mark → option nat := mark_values None None (Some a) None.

(** The states in which a header, or the end of the headers, begins. *)
Definition header_start (s : pstate) : Prop := s = s_header_field_start ∨ s = s_header_value_lws.

(** A byte executed twice: in [s_header_value_lws], and again in [s_header_field_start]. *)
Lemma eat_header_start len ch w p s h i nr fl cl ma mi me ms cs m' :
  header_start s → ch ≠ " "%char → ch ≠ TAB → (0 ≤ nr < HTTP_MAX_HEADER_SIZE)%Z →
  case_header_field_start ch p (reading s_header_field_start h i (nr + 1) fl cl ma mi me ms cs) =
    Ok (m', Break p) →
  eat len (ch :: w) p (reading s h i nr fl cl ma mi me ms cs) = eat len w (p + 1) m'.
Proof.
  intros [-> | ->] N1 N2 Hn E.
  - by apply eat_header.
  - cbn [eat]. rewrite iteration_header by done. cbn [reexecute_byte].
    unfold switch_state at 1. cbn [parser reading state]. unfold case_header_value_lws.
    rewrite !bool_decide_eq_false_2 by done. cbn [orb rbind fst snd].
    change (upd (set_state s_header_field_start)
      (reading s_header_value_lws h i (nr + 1) fl cl ma mi me ms cs)) with
      (reading s_header_field_start h i (nr + 1) fl cl ma mi me ms cs).
    unfold switch_state at 1. cbn [parser reading state]. rewrite E. cbn.
    by rewrite bool_decide_eq_true_2.
Qed.

Lemma token_byte c :
  is_token c = true → c ≠ " "%char ∧ c ≠ TAB ∧ c ≠ CR ∧ c ≠ LF ∧ c ≠ ":"%char.
Proof. intros H. split_and!; intros ->; vm_compute in H; discriminate. Qed.

Lemma eat_name_first len c w p s h i nr fl cl ma mi me cs :
  header_start s → is_token c = true → (0 ≤ nr < HTTP_MAX_HEADER_SIZE)%Z →
  eat len (c :: w) p (reading s h i nr fl cl ma mi me no_marks cs) =
  eat len w (p + 1)
    (reading s_header_field (first_field_state (TOKEN c)) 0 (nr + 1) fl cl ma mi me (field_at p) cs).
Proof.
  intros Hs Hc Hn. destruct (token_byte c Hc) as (N1 & N2 & N3 & N4 & _).
  apply eat_header_start; [done..|]. unfold case_header_field_start.
  rewrite !(bool_decide_eq_false_2 (c = _)) by done.
  unfold is_token in Hc. apply negb_true_iff in Hc. cbv zeta. rewrite Hc. reflexivity.
Qed.

Lemma eat_name len r p a l h i nr fl cl ma mi me cs :
  Forall (λ c, is_token c = true) r → l ≠ [] → name_inv l (h, i) → field_state h = true →
  (0 ≤ nr)%Z → (nr + slen r < HTTP_MAX_HEADER_SIZE)%Z → (a ≤ p)%nat →
  ∃ h' i',
    eat len (r ++ ":") p (reading s_header_field h i nr fl cl ma mi me (field_at a) cs) =
      Some (reading s_header_value_start h' i' (nr + slen r + 1) fl cl ma mi me no_marks
              (cs ++ [CBheader_field a (p + length r - a)])) ∧
    name_inv (l ++ (TOKEN <$> r)) (h', i').
Proof.
  revert p l h i nr. induction r as [|c r IH]; intros p l h i nr Hr Hl Hi Hh Hn Hmax Ha.
  - exists h, i. rewrite slen_nil in *. split; [|by rewrite app_nil_r].
    cbn [app cstr String.list_ascii_of_string].
    erewrite eat_byte; [| |done|lia].
    2: { unfold switch_state, case_header_field. cbn [parser reading state].
         change (TOKEN ":") with NUL. run. reflexivity. }
    cbn. by rewrite Nat.add_0_r, Z.add_0_r.
  - apply Forall_cons in Hr as [Hc Hr]. rewrite slen_cons in *. pose proof (slen_nonneg r).
    destruct (field_char_next c h i (nr + 1) fl cl ma mi me (field_at a) cs Hh) as [E Hh'].
    destruct (field_next c (h, i)) as [h1 i1] eqn:Ef. cbn [fst snd] in *.
    destruct (IH (p + 1)%nat (l ++ [TOKEN c]) h1 i1 (nr + 1)%Z) as (h' & i' & E' & Hi');
      [done|by destruct l| |done|lia|lia|lia|].
    { rewrite <- Ef. by apply name_inv_step. }
    exists h', i'. cbn [fmap list_fmap]. rewrite <- app_assoc in Hi'. split; [|done].
    cbn [app]. erewrite eat_byte; [| |done|lia].
    2: { unfold switch_state, case_header_field. cbn [parser reading state].
         unfold is_token in Hc. rewrite Hc. unfold reading in E at 1. cbn [parser] in E.
         rewrite E. reflexivity. }
    etrans; [exact E'|]. do 2 f_equal; [lia|]. do 3 f_equal. cbn. lia.
Qed.

(** ** Values of headers *)

(** Reading the bytes of [whole] after its first ones: [R] relates what was read to
    [header_state], [index] and [content_length]. *)
Lemma eat_value (R : str → header_states → Z → Z → Prop) (whole : str) len p a v r h i nr fl cl
    ma mi me cs :
  (∀ v ch r' h i cl, whole = v ++ ch :: r' → v ≠ [] → R v h i cl →
     ∃ h' i' cl', R (v ++ [ch]) h' i' cl' ∧
       ∀ nr, value_char ch (parser (reading s_header_value h i nr fl cl ma mi me (value_at a) cs)) =
         Ok (Some (parser (reading s_header_value h' i' nr fl cl' ma mi me (value_at a) cs)))) →
  Forall (λ c, c ≠ CR ∧ c ≠ LF) whole → whole = v ++ r → v ≠ [] → R v h i cl →
  (0 ≤ nr)%Z → (nr + slen r < HTTP_MAX_HEADER_SIZE)%Z → (a ≤ p)%nat →
  ∃ h' i' cl', R whole h' i' cl' ∧
    eat len (r ++ [CR]) p (reading s_header_value h i nr fl cl ma mi me (value_at a) cs) =
    Some (reading s_header_almost_done h' i' (nr + slen r + 1) fl cl' ma mi me no_marks
            (cs ++ [CBheader_value a (p + length r - a)])).
Proof.
  intros Hstep Hclean. revert p v h i nr cl.
  induction r as [|c r IH]; intros p v h i nr cl Hw Hv HR Hn Hmax Ha.
  - exists h, i, cl. rewrite app_nil_r in Hw. subst v. split; [done|]. rewrite slen_nil in *.
    cbn [app]. run_byte. cbn. by rewrite Nat.add_0_r, Z.add_0_r.
  - rewrite slen_cons in *. pose proof (slen_nonneg r).
    destruct (Hstep v c r h i cl Hw Hv HR) as (h1 & i1 & cl1 & HR1 & E).
    destruct (IH (p + 1)%nat (v ++ [c]) h1 i1 (nr + 1)%Z cl1) as (h' & i' & cl' & HR' & E');
      [by rewrite <- app_assoc|by destruct v|done|lia|lia|lia|].
    exists h', i', cl'. split; [done|]. cbn [app].
    assert (c ≠ CR ∧ c ≠ LF) as [N1 N2].
    { rewrite Hw in Hclean. apply Forall_app in Hclean as [_ Hc]. by apply Forall_cons in Hc as [? _]. }
    erewrite eat_byte; [| |done|lia].
    2: { unfold switch_state, case_header_value. cbn [parser reading state].
         rewrite !bool_decide_eq_false_2 by done. specialize (E (nr + 1)%Z).
         unfold reading in E at 1. cbn [parser] in E. rewrite E. reflexivity. }
    etrans; [exact E'|]. do 2 f_equal; [lia|]. do 3 f_equal. cbn. lia.
Qed.

(** Whether a value is [word], whatever its case, followed by blanks. *)
Definition value_is (word v : str) : bool :=
  bool_decide (lower_char <$> take (length word) v = word) &&
  forallb (λ c, bool_decide (c = " "%char)) (drop (length word) v).

(** The state while a value that may be [word] is read. *)
Definition word_inv (word : str) (hm found : header_states) (v : str) (h : header_states) (i : Z)
    : Prop :=
  (h = hm ∧ lower_char <$> v = take (length v) word ∧ (length v < length word)%nat ∧
   i = (slen v - 1)%Z) ∨
  (h = found ∧ value_is word v = true) ∨
  (h = h_general ∧ value_is word v = false ∧ lower_char <$> v ≠ take (length v) word).

Lemma value_is_snoc word v c :
  value_is word (v ++ [c]) = true →
  (lower_char <$> v ++ [c] = take (length (v ++ [c])) word ∧ (length v < length word)%nat) ∨
  (value_is word v = true ∧ (length word ≤ length v)%nat ∧ c = " "%char).
Proof.
  unfold value_is. rewrite andb_true_iff, bool_decide_eq_true. intros [E Hb].
  destruct (decide (length v < length word)%nat) as [Hl|Hl].
  - left. split; [|done]. rewrite (firstn_all2 (v ++ [c])) in E by (rewrite length_app; cbn; lia).
    pose proof (f_equal length E) as Hlen. rewrite length_fmap in Hlen.
    by rewrite Hlen, firstn_all.
  - right. rewrite take_app_le in E by lia. rewrite drop_app_le in Hb by lia.
    rewrite forallb_app in Hb. apply andb_true_iff in Hb as [Hb Hc].
    split_and!; [by rewrite E, bool_decide_eq_true_2, Hb|lia|].
    cbn in Hc. rewrite andb_true_r in Hc. by apply bool_decide_eq_true in Hc.
Qed.

Lemma lower_snoc word v c :
  lower_char <$> v ++ [c] = take (length (v ++ [c])) word →
  lower_char <$> v = take (length v) word.
Proof.
  intros E. apply (f_equal (take (length v))) in E. rewrite fmap_app, take_take in E.
  rewrite take_app_le in E by (rewrite length_fmap; lia).
  rewrite firstn_all2 in E by (rewrite length_fmap; lia).
  rewrite length_app, Nat.min_l in E by lia. done.
Qed.

Lemma word_inv_dead word hm found v c :
  value_is word v = false → lower_char <$> v ≠ take (length v) word →
  word_inv word hm found (v ++ [c]) h_general 0 .
Proof.
  intros Hv Hl. right. right. split; [done|]. split.
  - apply not_true_is_false. intros [[E _]|[E _]]%value_is_snoc; [|congruence].
    by apply lower_snoc in E.
  - intros E. by apply lower_snoc in E.
Qed.

Lemma slen_take_lookup (word : str) n :
  (n < length word)%nat → ∃ w, word !! n = Some w ∧ take (S n) word = take n word ++ [w].
Proof.
  intros Hn. destruct (lookup_lt_is_Some_2 word n Hn) as [w Hw]. exists w.
  split; [done|]. by apply take_S_r.
Qed.

(** One more byte of a value that may be [word]. *)
Lemma word_matching word hm found v c i :
  (length word ≤ 200)%nat → lower_char <$> v = take (length v) word →
  (length v < length word)%nat → v ≠ [] → i = (slen v - 1)%Z →
  word_inv word hm found (v ++ [c]) (matching_next word found (lower_char c) hm i)
    (wrap 8 (i + 1)).
Proof.
  intros Hw Hl Hlt Hv ->. unfold matching_next.
  assert (wrap 8 (slen v - 1 + 1) = slen v) as ->.
  { rewrite Z.sub_add. apply wrap_small. unfold slen. lia. }
  rewrite (proj2 (Z.ltb_ge _ _)) by (unfold slen; lia).
  destruct (slen_take_lookup word (length v) Hlt) as (w & Ew & Et).
  unfold cstr_at, slen. rewrite Nat2Z.id, Ew.
  assert (length (v ++ [c]) = S (length v)) as Ec by (rewrite length_app; cbn; lia).
  case_bool_decide as Hc; cbn [negb].
  - assert (lower_char <$> v ++ [c] = take (length (v ++ [c])) word) as E.
    { by rewrite Ec, Et, fmap_app, Hl, <- Hc. }
    destruct (Z.eqb_spec (Z.of_nat (length v)) (Z.of_nat (length word) - 1)) as [He|He].
    + right. left. split; [done|]. unfold value_is.
      rewrite firstn_all2 by lia. rewrite drop_ge by lia.
      rewrite E, firstn_all2 by lia. by rewrite bool_decide_eq_true_2.
    + left. split_and!; [done|done|lia|]. unfold slen. rewrite Ec. lia.
  - assert (lower_char <$> v ++ [c] ≠ take (length (v ++ [c])) word) as E.
    { rewrite Ec, Et, fmap_app, Hl. cbn [fmap list_fmap]. intros [_ E]%app_inj_tail. by apply Hc. }
    right. right. split; [done|]. split; [|done].
    apply not_true_is_false. intros [[E' _]|(_ & Hle & _)]%value_is_snoc; [by apply E|lia].
Qed.

(** The values that matter, with the states while and after they are read. *)
Inductive value_word : str → header_states → header_states → Prop :=
  | word_chunked :
      value_word CHUNKED h_matching_transfer_encoding_chunked h_transfer_encoding_chunked
  | word_keep_alive :
      value_word KEEP_ALIVE h_matching_connection_keep_alive h_connection_keep_alive
  | word_close : value_word CLOSE h_matching_connection_close h_connection_close.

Lemma word_step word hm found fl ma mi me ms cs v ch h i cl :
  value_word word hm found → v ≠ [] → word_inv word hm found v h i →
  ∃ h' i', word_inv word hm found (v ++ [ch]) h' i' ∧
    ∀ nr, value_char ch (parser (reading s_header_value h i nr fl cl ma mi me ms cs)) =
      Ok (Some (parser (reading s_header_value h' i' nr fl cl ma mi me ms cs))).
Proof.
  intros Hword Hv [(-> & Hl & Hlt & Hi)|[(-> & His)|(-> & His & Hl)]].
  - eexists _, _. split; [apply (word_matching word hm found v ch i); [by destruct Hword; cbn; lia|done..]|].
    intros nr. destruct Hword; unfold value_char; cbn [parser reading header_state];
      by rewrite matching_eq.
  - destruct (decide (ch = " "%char)) as [->|Hc].
    + exists found, i. split.
      * right. left. split; [done|]. unfold value_is in *. apply andb_true_iff in His as [E Hb].
        apply bool_decide_eq_true in E. pose proof (f_equal length E) as Hlen.
        rewrite length_fmap, length_take in Hlen. rewrite take_app_le, drop_app_le by lia.
        by rewrite E, bool_decide_eq_true_2, forallb_app, Hb.
      * intros nr. by destruct Hword.
    + exists h_general, i. split.
      * right. right. split; [done|].
        assert (Hle : (length word ≤ length v)%nat).
        { unfold value_is in His. apply andb_true_iff in His as [E _].
          apply bool_decide_eq_true in E. pose proof (f_equal length E) as Hlen.
          rewrite length_fmap, length_take in Hlen. lia. }
        split.
        -- apply not_true_is_false. intros [[_ ?]|(_ & _ & ?)]%value_is_snoc; [lia|done].
        -- intros E. apply (f_equal length) in E. rewrite length_fmap, length_take in E.
           rewrite length_app in E. cbn in E. lia.
      * intros nr. destruct Hword; unfold value_char; cbn [parser reading header_state];
          by rewrite bool_decide_eq_false_2.
  - exists h_general, i. split; [|done].
    destruct (word_inv_dead word hm found v ch His Hl) as [(E & _)|[(E & _)|(_ & ? & ?)]];
      [by destruct Hword|by destruct Hword|by right; right].
Qed.

(** What a header adds to the flags and the content length. *)
Definition header_effect (x : str * str) (fc : Z * Z) : Z * Z :=
  match x.2 with
  | [] => fc
  | _ =>
      match name_kind x.1 with
      | h_upgrade => (Z.lor fc.1 F_UPGRADE, fc.2)
      | h_content_length => (fc.1, digits_value 0 x.2)
      | h_transfer_encoding =>
          (if value_is CHUNKED x.2 then Z.lor fc.1 F_CHUNKED else fc.1, fc.2)
      | h_connection =>
          (if value_is KEEP_ALIVE x.2 then Z.lor fc.1 F_CONNECTION_KEEP_ALIVE
           else if value_is CLOSE x.2 then Z.lor fc.1 F_CONNECTION_CLOSE else fc.1, fc.2)
      | _ => fc
      end
  end.

(** A header: a token, and a value without line breaks that does not start with a blank; a
    Content-Length is a decimal number. *)
Definition wf_header (x : str * str) : Prop :=
  x.1 ≠ [] ∧ Forall (λ c, is_token c = true) x.1 ∧
  Forall (λ c, c ≠ CR ∧ c ≠ LF) x.2 ∧
  (∀ c v, x.2 = c :: v → c ≠ " "%char ∧ c ≠ TAB) ∧
  (name_kind x.1 = h_content_length →
   Forall (λ c, is_digit c = true) x.2 ∧ (digits_value 0 x.2 < ULLONG_MAX)%Z).

Definition wire_header (x : str * str) : str := x.1 ++ ": " ++ x.2 ++ CRLF.
Definition header_calls (p : nat) (x : str * str) : list callback :=
  [CBheader_field p (length x.1); CBheader_value (p + length x.1 + 2) (length x.2)].

(** What the last byte of a value adds to the flags ([s_header_almost_done]). *)
Definition end_flags (h : header_states) (fl : Z) : Z :=
  match h with
  | h_connection_keep_alive => Z.lor fl F_CONNECTION_KEEP_ALIVE
  | h_connection_close => Z.lor fl F_CONNECTION_CLOSE
  | h_transfer_encoding_chunked => Z.lor fl F_CHUNKED
  | _ => fl
  end.

Section Value.
Variables (len p : nat) (c : ascii) (v : str).
Hypothesis Hclean : Forall (λ c, c ≠ CR ∧ c ≠ LF) (c :: v).
Hypothesis Hblank : c ≠ " "%char ∧ c ≠ TAB.

(** The value [c :: v], given what its first byte does ([h2], [fl2], [cl2]). *)
Lemma eat_value_from (R : str → header_states → Z → Z → Prop) h1 i1 nr fl cl fl2 h2 cl2 ma mi me
    cs :
  (∀ nr ms, value_first_char c (parser (reading s_header_value h1 0 nr fl cl ma mi me ms cs)) =
     Some (parser (reading s_header_value h2 0 nr fl2 cl2 ma mi me ms cs))) →
  R [c] h2 0%Z cl2 →
  (∀ w ch r' h i cl, c :: v = w ++ ch :: r' → w ≠ [] → R w h i cl →
     ∃ h' i' cl', R (w ++ [ch]) h' i' cl' ∧
       ∀ nr, value_char ch (parser (reading s_header_value h i nr fl2 cl ma mi me (value_at p) cs)) =
         Ok (Some (parser (reading s_header_value h' i' nr fl2 cl' ma mi me (value_at p) cs)))) →
  (0 ≤ nr)%Z → (nr + slen (c :: v) < HTTP_MAX_HEADER_SIZE)%Z →
  ∃ h' i' cl', R (c :: v) h' i' cl' ∧
    eat len (c :: v ++ [CR]) p (reading s_header_value_start h1 i1 nr fl cl ma mi me no_marks cs) =
    Some (reading s_header_almost_done h' i' (nr + slen (c :: v) + 1) fl2 cl' ma mi me no_marks
            (cs ++ [CBheader_value p (length (c :: v))])).
Proof.
  intros Hfirst HR Hstep Hn Hmax. rewrite slen_cons in *. pose proof (slen_nonneg v).
  destruct (eat_value R (c :: v) len (p + 1) p [c] v h2 0 (nr + 1) fl2 cl2 ma mi me cs)
    as (h' & i' & cl' & HR' & E); [done|done|done|done|done|lia|lia|lia|].
  exists h', i', cl'. split; [done|]. cbn [app].
  apply Forall_cons in Hclean as [[N1 N2] _]. destruct Hblank as [N3 N4].
  erewrite eat_byte; [| |done|lia].
  2: { unfold switch_state, case_header_value_start. cbn [parser reading state].
       rewrite !bool_decide_eq_false_2 by done. cbn [orb]. unfold MARK.
       cbn [marks reading no_marks mark_values]. specialize (Hfirst (nr + 1)%Z no_marks).
       unfold reading in Hfirst at 1. cbn [parser] in Hfirst.
       unfold set_mark, upd, set_state, set_index. cbn. rewrite Hfirst. reflexivity. }
  etrans; [exact E|]. do 2 f_equal; [lia|]. do 3 f_equal. cbn. lia.
Qed.

(** A name that means nothing: the value changes nothing. *)
Lemma eat_value_other h1 i1 nr fl cl fl2 ma mi me cs :
  (∀ nr ms, value_first_char c (parser (reading s_header_value h1 0 nr fl cl ma mi me ms cs)) =
     Some (parser (reading s_header_value h_general 0 nr fl2 cl ma mi me ms cs))) →
  (0 ≤ nr)%Z → (nr + slen (c :: v) < HTTP_MAX_HEADER_SIZE)%Z →
  ∃ i',
    eat len (c :: v ++ [CR]) p (reading s_header_value_start h1 i1 nr fl cl ma mi me no_marks cs) =
    Some (reading s_header_almost_done h_general i' (nr + slen (c :: v) + 1) fl2 cl ma mi me
            no_marks (cs ++ [CBheader_value p (length (c :: v))])).
Proof.
  intros Hf Hn Hmax.
  destruct (eat_value_from (λ _ h _ cl', h = h_general ∧ cl' = cl) h1 i1 nr fl cl fl2 h_general cl
    ma mi me cs) as (h' & i' & cl' & [-> ->] & E); [done|done| |done|done|by exists i'].
  intros w ch r' h i cl' _ _ [-> ->]. by exists h_general, i, cl.
Qed.

(** A value that may be [word]. *)
Lemma eat_value_word word hm found h1 i1 nr fl cl ma mi me cs :
  value_word word hm found →
  (∀ nr ms, value_first_char c (parser (reading s_header_value h1 0 nr fl cl ma mi me ms cs)) =
     Some (parser (reading s_header_value hm 0 nr fl cl ma mi me ms cs))) →
  lower_char c = nth 0 word NUL →
  (0 ≤ nr)%Z → (nr + slen (c :: v) < HTTP_MAX_HEADER_SIZE)%Z →
  ∃ h' i',
    eat len (c :: v ++ [CR]) p (reading s_header_value_start h1 i1 nr fl cl ma mi me no_marks cs) =
    Some (reading s_header_almost_done h' i' (nr + slen (c :: v) + 1) fl cl ma mi me
            no_marks (cs ++ [CBheader_value p (length (c :: v))])) ∧
    end_flags h' fl = (if value_is word (c :: v) then end_flags found fl else fl).
Proof.
  intros Hword Hf Hc Hn Hmax.
  destruct (eat_value_from (λ v h i cl', word_inv word hm found v h i ∧ cl' = cl) h1 i1 nr fl cl fl
    hm cl ma mi me cs) as (h' & i' & cl' & [HR ->] & E).
  - done.
  - split; [|done]. left. destruct Hword; cbn in *; (split_and!; [done|by rewrite Hc|lia|done]).
  - intros w ch r' h i cl' _ Hw [HR ->].
    destruct (word_step word hm found fl ma mi me (value_at p) cs w ch h i cl Hword Hw HR)
      as (h' & i' & HR' & E). by exists h', i', cl.
  - done.
  - done.
  - exists h', i'. split; [done|]. destruct HR as [(-> & Hl & Hlt & _)|[(-> & His)|(-> & His & _)]].
    + assert (value_is word (c :: v) = false) as ->.
      { unfold value_is. rewrite firstn_all2 by lia. rewrite Hl.
        rewrite bool_decide_eq_false_2; [done|]. intros E'. apply (f_equal length) in E'.
        rewrite length_take in E'. lia. }
      by destruct Hword.
    + by rewrite His.
    + by rewrite His.
Qed.
End Value.

Lemma accumulate_small base v d :
  (0 ≤ v)%Z → (0 ≤ d)%Z → (1 ≤ base)%Z → (v * base + d < ULLONG_MAX)%Z →
  accumulate base d v = Some (v * base + d)%Z.
Proof.
  intros Hv Hd Hb Hlt. unfold accumulate, ULLONG_MAX in *. assert (v ≤ v * base)%Z by nia.
  rewrite (wrap_small 64 (v * base)) by lia. rewrite wrap_small by lia.
  rewrite (proj2 (Z.ltb_ge _ _)) by lia. rewrite (proj2 (Z.eqb_neq _ _)) by lia. done.
Qed.

Lemma eat_value_digits len p c v i1 nr fl cl ma mi me cs :
  Forall (λ c, is_digit c = true) (c :: v) → (digits_value 0 (c :: v) < ULLONG_MAX)%Z →
  (0 ≤ nr)%Z → (nr + slen (c :: v) < HTTP_MAX_HEADER_SIZE)%Z →
  ∃ h' i',
    eat len (c :: v ++ [CR]) p
      (reading s_header_value_start h_content_length i1 nr fl cl ma mi me no_marks cs) =
    Some (reading s_header_almost_done h' i' (nr + slen (c :: v) + 1) fl
            (digits_value 0 (c :: v)) ma mi me no_marks
            (cs ++ [CBheader_value p (length (c :: v))])) ∧
    end_flags h' fl = fl.
Proof.
  intros Hd Hmax10 Hn Hmax.
  assert (Hne : ∀ x, x ∈ c :: v → is_digit x = true ∧ x ≠ CR ∧ x ≠ LF ∧ x ≠ " "%char ∧ x ≠ TAB).
  { intros x Hx. rewrite Forall_forall in Hd. pose proof (Hd x Hx) as E.
    split; [done|]. by split_and!; intros ->. }
  destruct (eat_value_from len p c v) with (R := λ w (h : header_states) (i : Z) cl',
    h = h_content_length ∧ cl' = digits_value 0 w) (h1 := h_content_length) (i1 := i1) (nr := nr)
    (fl := fl) (cl := cl) (fl2 := fl) (h2 := h_content_length) (cl2 := digits_value 0 [c])
    (ma := ma) (mi := mi) (me := me) (cs := cs) as (h' & i' & cl' & [-> ->] & E).
  - apply Forall_forall. intros x Hx. by destruct (Hne x Hx) as (_ & ? & ? & _).
  - destruct (Hne c) as (_ & _ & _ & ? & ?); [left|done].
  - intros nr' ms. unfold value_first_char. cbn [parser reading header_state]. unfold IS_NUM.
    apply Forall_cons in Hd as [Hc _]. rewrite Hc. cbn. by rewrite Hc.
  - done.
  - intros w ch r' h i cl' Hw Hw0 [-> ->].
    assert (Hall : Forall (λ c, is_digit c = true) (w ++ [ch])).
    { rewrite Hw, cons_middle, app_assoc in Hd. by apply Forall_app in Hd as [? _]. }
    apply Forall_app in Hall as [Hdw Hdc]. apply Forall_cons in Hdc as [Hdc _].
    exists h_content_length, i, (digits_value 0 (w ++ [ch])). split; [done|]. intros nr'.
    unfold value_char. cbn [parser reading header_state content_length].
    assert (ch ≠ " "%char) as Hb by (intros ->; discriminate).
    rewrite bool_decide_eq_false_2 by done. unfold IS_NUM. rewrite Hdc. cbn [negb].
    assert (Hv : digits_value 0 (w ++ [ch]) = (digits_value 0 w * 10 + digit_of ch)%Z).
    { rewrite digits_value_app by done. cbn. by rewrite Hdc. }
    pose proof (digits_value_ge w 0 Hdw ltac:(lia)) as Hpos.
    assert (digits_value 0 (w ++ [ch]) ≤ digits_value 0 (c :: v))%Z as Hle.
    { assert (c :: v = (w ++ [ch]) ++ r') as -> by (by rewrite <- app_assoc).
      rewrite (digits_value_app 0 (w ++ [ch]) r').
      - apply digits_value_ge; [|by rewrite Hv; pose proof (digit_range ch Hdc); lia].
        rewrite Hw in Hd. apply Forall_app in Hd as [_ Hd]. by apply Forall_cons in Hd as [_ ?].
      - apply Forall_app. split; [done|by constructor]. }
    rewrite accumulate_small; [|done|by apply digit_range|lia|lia]. cbn. by rewrite Hv.
  - done.
  - done.
  - by exists h_content_length, i'.
Qed.

Lemma value_is_head word c v :
  word ≠ [] → lower_char c ≠ nth 0 word NUL → value_is word (c :: v) = false.
Proof.
  destruct word as [|w word]; [done|]. intros _ Hc. unfold value_is. cbn.
  rewrite bool_decide_eq_false_2; [done|]. intros [= E _]. by apply Hc.
Qed.

(** A whole value, after a name [n] that left the state [h1]. *)
Lemma eat_value_part len p n c v h1 i1 nr fl cl ma mi me cs :
  wf_header (n, c :: v) →
  (if found_state h1 then name_kind n = h1 else name_kind n = h_general) →
  (0 ≤ nr)%Z → (nr + slen (c :: v) < HTTP_MAX_HEADER_SIZE)%Z →
  ∃ h' i' fl1,
    eat len (c :: v ++ [CR]) p (reading s_header_value_start h1 i1 nr fl cl ma mi me no_marks cs) =
    Some (reading s_header_almost_done h' i' (nr + slen (c :: v) + 1) fl1
            (header_effect (n, c :: v) (fl, cl)).2 ma mi me no_marks
            (cs ++ [CBheader_value p (length (c :: v))])) ∧
    end_flags h' fl1 = (header_effect (n, c :: v) (fl, cl)).1.
Proof.
  intros (_ & _ & Hclean & Hblank & Hlen) Hk Hn Hmax. cbn [fst snd] in *.
  specialize (Hblank c v eq_refl). unfold header_effect. cbn [fst snd].
  destruct (found_state h1) eqn:Ef.
  2: { rewrite Hk. cbn [fst snd].
       destruct (eat_value_other len p c v Hclean Hblank h1 i1 nr fl cl fl ma mi me cs)
         as (i' & E); [|done|done|by eexists h_general, i', fl].
       intros nr' ms. by destruct h1. }
  destruct h1; try discriminate; rewrite Hk; cbn [fst snd].
  - destruct (decide (lower_char c = "k"%char)) as [Hc|Hc];
      [|destruct (decide (lower_char c = "c"%char)) as [Hc'|Hc']].
    + destruct (eat_value_word len p c v Hclean Hblank KEEP_ALIVE _ _ h_connection i1 nr fl cl ma mi
        me cs word_keep_alive) as (h' & i' & E & Eh); [|done|done|done|].
      { intros nr' ms. unfold value_first_char. cbn [parser reading header_state].
        by rewrite Hc. }
      exists h', i', fl. split; [done|]. rewrite Eh, (value_is_head CLOSE);
        [by destruct (value_is _ _)|done|by rewrite Hc].
    + destruct (eat_value_word len p c v Hclean Hblank CLOSE _ _ h_connection i1 nr fl cl ma mi
        me cs word_close) as (h' & i' & E & Eh); [|done|done|done|].
      { intros nr' ms. unfold value_first_char. cbn [parser reading header_state].
        by rewrite Hc'. }
      exists h', i', fl. split; [done|]. rewrite Eh, (value_is_head KEEP_ALIVE);
        [by destruct (value_is _ _)|done|by rewrite Hc'].
    + destruct (eat_value_other len p c v Hclean Hblank h_connection i1 nr fl cl fl ma mi me cs)
        as (i' & E); [|done|done|].
      { intros nr' ms. unfold value_first_char. cbn [parser reading header_state].
        by rewrite !bool_decide_eq_false_2. }
      exists h_general, i', fl. split; [done|]. by rewrite !value_is_head.
  - destruct Hlen as [Hd Hv]; [done|].
    destruct (eat_value_digits len p c v i1 nr fl cl ma mi me cs Hd Hv Hn Hmax)
      as (h' & i' & E & Eh). by exists h', i', fl.
  - destruct (decide (lower_char c = "c"%char)) as [Hc|Hc].
    + destruct (eat_value_word len p c v Hclean Hblank CHUNKED _ _ h_transfer_encoding i1 nr fl cl ma
        mi me cs word_chunked) as (h' & i' & E & Eh); [|done|done|done|].
      { intros nr' ms. unfold value_first_char. cbn [parser reading header_state].
        by rewrite Hc. }
      exists h', i', fl. split; [done|]. rewrite Eh. by destruct (value_is _ _).
    + destruct (eat_value_other len p c v Hclean Hblank h_transfer_encoding i1 nr fl cl fl ma mi me cs)
        as (i' & E); [|done|done|].
      { intros nr' ms. unfold value_first_char. cbn [parser reading header_state].
        by rewrite !bool_decide_eq_false_2. }
      exists h_general, i', fl. split; [done|]. by rewrite value_is_head.
  - destruct (eat_value_other len p c v Hclean Hblank h_upgrade i1 nr fl cl (Z.lor fl F_UPGRADE) ma mi
      me cs) as (i' & E); [done|done|done|]. by exists h_general, i', (Z.lor fl F_UPGRADE).
Qed.

(** A whole header. *)
Lemma eat_header_line len p x s h i nr fl cl ma mi me cs :
  wf_header x → header_start s → (0 ≤ nr)%Z → (nr + slen (wire_header x) ≤ HTTP_MAX_HEADER_SIZE)%Z →
  ∃ h' i',
    eat len (wire_header x) p (reading s h i nr fl cl ma mi me no_marks cs) =
    Some (reading s_header_value_lws h' i' (nr + slen (wire_header x))
            (header_effect x (fl, cl)).1 (header_effect x (fl, cl)).2 ma mi me no_marks
            (cs ++ header_calls p x)).
Proof.
  destruct x as [n v]. intros Hwf Hs Hn Hmax. pose proof Hwf as (Hn0 & Htok & _).
  unfold wire_header in *. cbn [fst snd] in *. rewrite !slen_app in Hmax |- *.
  change (slen ": ") with 2%Z in *. change (slen CRLF) with 2%Z in *.
  destruct n as [|c n]; [done|]. apply Forall_cons in Htok as [Hc Htok]. rewrite slen_cons in *.
  pose proof (slen_nonneg n). pose proof (slen_nonneg v).
  set (m0 := reading s h i nr fl cl ma mi me no_marks cs).
  (* the name *)
  assert (field_state (first_field_state (TOKEN c)) = true) as Hf.
  { unfold first_field_state. by repeat case_bool_decide. }
  destruct (eat_name len n (p + 1) p [TOKEN c] (first_field_state (TOKEN c)) 0 (nr + 1) fl cl ma mi
    me cs Htok ltac:(done) (name_inv_first c Hc) Hf ltac:(lia) ltac:(lia) ltac:(lia))
    as (h1 & i1 & E1 & Hi1).
  assert (Hk : if found_state h1 then name_kind (c :: n) = h1 else name_kind (c :: n) = h_general).
  { rewrite !name_kind_word. by apply (name_inv_kind (TOKEN <$> c :: n) (h1, i1)). }
  assert (E2 : eat len ((c :: n) ++ ": ") p m0 =
    Some (reading s_header_value_start h1 i1 (nr + slen n + 3) fl cl ma mi me no_marks
      (cs ++ [CBheader_field p (length (c :: n))]))).
  { change (cstr ": ") with ((":" : str) ++ [" "%char]). rewrite app_assoc.
    eapply eat_trans.
    - cbn [app]. unfold m0. rewrite eat_name_first by (done || lia). exact E1.
    - run_byte. cbn [eat]. do 2 f_equal; [lia|]. do 3 f_equal. cbn. lia. }
  (* the value and the line break *)
  rewrite app_assoc. rewrite (eat_app _ _ _ _ _ _ E2). clear E1 E2 m0.
  set (q := (p + length ((c :: n) ++ ": "))%nat).
  assert (q = p + length (c :: n) + 2)%nat as Hq by (unfold q; rewrite length_app; cbn; lia).
  unfold header_calls. cbn [fst snd]. rewrite <- Hq.
  destruct v as [|d v].
  - exists h_general, 0%Z. change ([] ++ CRLF) with [CR; LF]. rewrite slen_nil in *.
    do 2 run_byte. cbn [eat header_effect fst snd]. rewrite Nat.sub_diag, <- app_assoc.
    do 2 f_equal. lia.
  - destruct (eat_value_part len q (c :: n) d v h1 i1 (nr + slen n + 3) fl cl ma mi me
      (cs ++ [CBheader_field p (length (c :: n))]) Hwf Hk ltac:(lia) ltac:(lia))
      as (h' & i' & fl1 & E & Efl).
    exists h', i'. change ((d :: v) ++ CRLF) with (d :: v ++ [CR] ++ [LF]).
    rewrite app_assoc, app_comm_cons. eapply eat_trans; [exact E|].
    set (m1 := header_effect _ _) in *.
    erewrite eat_byte; [| |done|lia].
    2: { unfold switch_state, case_header_almost_done. cbn [parser reading state].
         cbn [STRICT_CHECK]. unfold STRICT_CHECK. cbn [negb]. rewrite bool_decide_eq_true_2 by done.
         cbn [negb].
         transitivity (Ok (reading s_header_value_lws h' i' (nr + slen n + 3 + slen (d :: v) + 1 + 1)
           (end_flags h' fl1) m1.2 ma mi me no_marks
           ((cs ++ [CBheader_field p (length (c :: n))]) ++ [CBheader_value q (length (d :: v))]),
           Break (q + length (d :: v ++ [CR])))%Z); [|reflexivity].
         by destruct h'. }
    cbn [eat]. rewrite Efl, <- app_assoc. do 2 f_equal. lia.
Qed.

(** [wf_header], decided. *)
Definition wf_headerb (x : str * str) : bool :=
  negb (bool_decide (x.1 = [])) && forallb is_token x.1 &&
  forallb (λ c, negb (bool_decide (c = CR)) && negb (bool_decide (c = LF))) x.2 &&
  match x.2 with
  | c :: _ => negb (bool_decide (c = " "%char)) && negb (bool_decide (c = TAB))
  | [] => true
  end &&
  (if bool_decide (name_kind x.1 = h_content_length)
   then forallb is_digit x.2 && (digits_value 0 x.2 <? ULLONG_MAX)%Z else true).

Lemma forallb_Forall {A} (f : A → bool) l : forallb f l = true → Forall (λ x, f x = true) l.
Proof. rewrite forallb_forall, Forall_forall. intros H x Hx. apply H. by apply list_elem_of_In. Qed.

Lemma wf_headerb_sound x : wf_headerb x = true → wf_header x.
Proof.
  unfold wf_headerb. rewrite !andb_true_iff, negb_true_iff, bool_decide_eq_false.
  intros [[[[Hn Ht] Hc] Hb] Hl]. split_and!; [done|by apply forallb_Forall| | |].
  - eapply Forall_impl; [by apply forallb_Forall|]. intros c. cbv beta.
    by rewrite andb_true_iff, !negb_true_iff, !bool_decide_eq_false.
  - intros c v E. rewrite E in Hb.
    by rewrite andb_true_iff, !negb_true_iff, !bool_decide_eq_false in Hb.
  - intros E. rewrite bool_decide_eq_true_2 in Hl by done. apply andb_true_iff in Hl as [Hd Hv].
    split; [by apply forallb_Forall|lia].
Qed.
