(* ===== verification/HttpRequest.v ===== *)
(** What the vendored parser reports for a request ([HttpMachine] with the callbacks of
    [CHttpParserWrapper]): a grammar of requests, the callbacks of each, and what a request
    cut short by TCP reports. *)

From S2P Require Import Prelude HttpMachine HttpSafe HttpRun HttpHeader.

(** ** The headers of a request *)

Definition wire_headers (xs : list (str * str)) : str := xs ≫= wire_header.
Definition header_effects (xs : list (str * str)) (fc : Z * Z) : Z * Z :=
  foldl (λ fc x, header_effect x fc) fc xs.

Fixpoint headers_calls (p : nat) (xs : list (str * str)) : list callback :=
  match xs with
  | [] => []
  | x :: xs => header_calls p x ++ headers_calls (p + length (wire_header x)) xs
  end.

Lemma eat_headers len p xs s h i nr fl cl ma mi me cs :
  Forall wf_header xs → header_start s → (0 ≤ nr)%Z →
  (nr + slen (wire_headers xs) ≤ HTTP_MAX_HEADER_SIZE)%Z →
  ∃ s' h' i', header_start s' ∧
    eat len (wire_headers xs) p (reading s h i nr fl cl ma mi me no_marks cs) =
    Some (reading s' h' i' (nr + slen (wire_headers xs))
            (header_effects xs (fl, cl)).1 (header_effects xs (fl, cl)).2 ma mi me no_marks
            (cs ++ headers_calls p xs)).
Proof.
  revert p s h i nr fl cl cs. induction xs as [|x xs IH]; intros p s h i nr fl cl cs Hx Hs Hn Hmax.
  { exists s, h, i. split; [done|]. cbn. by rewrite app_nil_r, Z.add_0_r. }
  apply Forall_cons in Hx as [Hx Hxs]. unfold wire_headers in *. rewrite bind_cons, slen_app in *.
  pose proof (slen_nonneg (wire_header x)). pose proof (slen_nonneg (xs ≫= wire_header)).
  destruct (eat_header_line len p x s h i nr fl cl ma mi me cs) as (h1 & i1 & E1); [done..|lia|].
  destruct (IH (p + length (wire_header x))%nat s_header_value_lws h1 i1
    (nr + slen (wire_header x))%Z (header_effect x (fl, cl)).1 (header_effect x (fl, cl)).2
    (cs ++ header_calls p x)) as (s' & h' & i' & Hs' & E2); [done|by right|lia|lia|].
  exists s', h', i'. split; [done|].
  rewrite (eat_app _ _ _ _ _ _ E1), E2. cbn [headers_calls header_effects foldl].
  rewrite <- app_assoc. unfold header_effects. cbn [foldl].
  destruct (header_effect x (fl, cl)). cbn [fst snd]. do 2 f_equal. lia.
Qed.

(** ** Requests *)

(** A body as it is written: by its length, or in chunks with the text of their sizes. *)
Inductive body : Type :=
  | Plain (s : str)
  | Chunked (chunks : list (str * str)).

Record request : Type := MkRequest {
  r_method : str;
  r_url : str;
  r_minor : ascii;
  r_headers : list (str * str);
  r_body : body
}.

Definition is_hex (c : ascii) : bool := negb (unhex_val c =? -1)%Z && (u8 c <? 128)%Z.
Definition hex_value (a : Z) (s : str) : Z := foldl (λ a c, a * 16 + unhex_val c)%Z a s.

Definition wf_chunk (x : str * str) : Prop :=
  x.1 ≠ [] ∧ x.2 ≠ [] ∧ Forall (λ c, is_hex c = true) x.1 ∧ hex_value 0 x.1 = slen x.2 ∧
  (slen x.2 < ULLONG_MAX)%Z ∧ (slen x.1 + 2 ≤ HTTP_MAX_HEADER_SIZE)%Z.

Definition wire_chunk (x : str * str) : str := x.1 ++ CRLF ++ x.2 ++ CRLF.
Definition last_chunk : str := "0" ++ CRLF ++ CRLF.
Definition wire_body (b : body) : str :=
  match b with
  | Plain s => s
  | Chunked xs => (xs ≫= wire_chunk) ++ last_chunk
  end.
Definition body_bytes (b : body) : str :=
  match b with Plain s => s | Chunked xs => xs ≫= snd end.

(** The request line and the headers, without the last line break. *)
Definition wire_head (r : request) : str :=
  (r_method r ++ " ") ++ (r_url r ++ " ") ++ ("HTTP/1." ++ r_minor r :: CRLF) ++
  wire_headers (r_headers r).
Definition wire (r : request) : str := wire_head r ++ CRLF ++ wire_body (r_body r).

(** The flags and the length that the headers announce. *)
Definition framing (r : request) : Z * Z := header_effects (r_headers r) (0, ULLONG_MAX)%Z.

Definition wf_body (fc : Z * Z) (b : body) : Prop :=
  match b with
  | Plain s => Z.land fc.1 F_CHUNKED = 0%Z ∧ 
      ((fc.2 = slen s ∧ (slen s < ULLONG_MAX)%Z) ∨ (fc.2 = ULLONG_MAX ∧ s = []))
  | Chunked xs => Z.land fc.1 F_CHUNKED ≠ 0%Z ∧ Forall wf_chunk xs
  end.

(** A request that the parser understands: its headers announce its body and no upgrade,
    and are not too long. *)
Record wf_request (r : request) : Prop := {
  wf_method : ∃ k, is_method k (r_method r);
  wf_url : is_url (r_url r);
  wf_minor : is_digit (r_minor r) = true;
  wf_headers : Forall wf_header (r_headers r);
  wf_upgrade : Z.land (framing r).1 F_UPGRADE = 0%Z;
  wf_framing : wf_body (framing r) (r_body r);
  wf_size : (slen (wire_head r) + 2 ≤ HTTP_MAX_HEADER_SIZE)%Z
}.

(** The callbacks made. *)
Fixpoint chunks_calls (p : nat) (xs : list (str * str)) : list callback :=
  match xs with
  | [] => []
  | x :: xs => CBbody (p + length x.1 + 2) (length x.2) :: chunks_calls (p + length (wire_chunk x)) xs
  end.
Definition body_calls (p : nat) (b : body) : list callback :=
  match b with
  | Plain [] => []
  | Plain s => [CBbody p (length s)]
  | Chunked xs => chunks_calls p xs
  end.
Definition head_calls (r : request) : list callback :=
  let u := (length (r_method r) + 1)%nat in
  CBurl u (length (r_url r)) ::
  headers_calls (u + length (r_url r) + 11) (r_headers r).
Definition request_calls (r : request) : list callback :=
  head_calls r ++
  [CBheaders_complete (slen (wire_head r) + 2) (framing r).2] ++
  body_calls (length (wire_head r) + 2) (r_body r) ++ [CBmessage_complete].

(** *** The head *)

Lemma eat_head len r :
  wf_request r →
  ∃ h i k, is_method k (r_method r) ∧
    eat len (wire_head r ++ [CR]) 0 start =
    Some (reading s_headers_almost_done h i (slen (wire_head r) + 1) (framing r).1 (framing r).2
            1 (digit_of (r_minor r)) (Z.of_nat k) no_marks (head_calls r)).
Proof.
  intros [[k Hk] Hu Hd Hh _ _ Hsize]. unfold wire_head, head_calls in *.
  rewrite !slen_app in *. change (slen " ") with 1%Z in *.
  change (slen ("HTTP/1." ++ r_minor r :: CRLF)) with 10%Z in *.
  change (slen "HTTP/1." + slen (r_minor r :: CRLF))%Z with 10%Z in *.
  pose proof (slen_nonneg (r_method r)). pose proof (slen_nonneg (r_url r)).
  pose proof (slen_nonneg (wire_headers (r_headers r))).
  assert (Hcon : (Z.of_nat k =? HTTP_CONNECT)%Z = false).
  { destruct Hk as (_ & Hk & _). apply Z.eqb_neq. unfold HTTP_CONNECT. lia. }
  pose proof (eat_method len k (r_method r) Hk) as E1.
  set (u := (length (r_method r) + 1)%nat).
  pose proof (eat_url len (r_url r) u h_general (slen (r_method r) + 1) (slen (r_method r) + 1)
    (Z.of_nat k) [] Hu ltac:(lia) ltac:(lia) Hcon) as E2.
  pose proof (eat_version len (r_minor r) (u + length (r_url r ++ " ")) h_general
    (slen (r_method r) + 1) (slen (r_method r) + 1 + slen (r_url r) + 1) (Z.of_nat k)
    [CBurl u (length (r_url r))] Hd ltac:(lia) ltac:(lia)) as E3.
  destruct (eat_headers len (u + length (r_url r) + 11) (r_headers r) s_header_field_start h_general
    (slen (r_method r) + 1) (slen (r_method r) + 1 + slen (r_url r) + 1 + 10) 0 ULLONG_MAX 1
    (digit_of (r_minor r)) (Z.of_nat k) [CBurl u (length (r_url r))]) as (s' & h' & i' & Hs' & E4);
    [done|by left|lia|lia|].
  exists h', i', k. split; [done|]. rewrite <- !app_assoc.
  rewrite app_assoc, (eat_app _ _ _ _ _ _ E1).
  replace (0 + length (r_method r ++ " "))%nat with u by (unfold u; rewrite length_app; cbn; lia).
  rewrite app_assoc, (eat_app _ _ _ _ _ _ E2).
  rewrite (app_assoc (cstr "HTTP/1.")), (eat_app _ _ _ _ _ _ E3).
  replace (u + length (r_url r ++ " ") + length ("HTTP/1." ++ r_minor r :: CRLF))%nat with
    (u + length (r_url r) + 11)%nat by (rewrite length_app; cbn; lia).
  rewrite (eat_app _ _ _ _ _ _ E4).
  erewrite eat_header_start; [|done|done|done|lia|reflexivity].
  cbn [eat]. unfold framing. cbn [app]. unfold upd, reading, set_state. cbn.
  do 3 f_equal. lia.
Qed.

(** *** The end of the headers *)

Lemma land_lor_zero a b f : Z.land a f = 0%Z → Z.land b f = 0%Z → Z.land (Z.lor a b) f = 0%Z.
Proof. intros Ha Hb. by rewrite Z.land_lor_distr_l, Ha, Hb. Qed.

(** Headers never set [F_TRAILING] or [F_SKIPBODY]. *)
Lemma header_effects_land xs fc f :
  f = F_TRAILING ∨ f = F_SKIPBODY → Z.land fc.1 f = 0%Z → Z.land (header_effects xs fc).1 f = 0%Z.
Proof.
  intros Hf. revert fc. induction xs as [|x xs IH]; intros fc H; [done|]. apply IH.
  unfold header_effect. destruct x.2; [done|].
  destruct (name_kind x.1); try done; cbn [fst]; repeat case_match; try done.
  all: apply land_lor_zero; [done|]; by destruct Hf as [-> | ->].
Qed.

(** The line feed that ends the headers of a request with no body, with a body of a known
    length, or with chunks. *)
Lemma last_line_feed len p h i nr fl cl mi k cs :
  (0 ≤ nr < HTTP_MAX_HEADER_SIZE)%Z → (k =? HTTP_CONNECT)%Z = false →
  Z.land fl F_UPGRADE = 0%Z → Z.land fl F_TRAILING = 0%Z → Z.land fl F_SKIPBODY = 0%Z →
  let m := reading s_headers_almost_done h i nr fl cl 1 mi k no_marks cs in
  let cs' := cs ++ [CBheaders_complete (nr + 1) cl] in
  if (Z.land fl F_CHUNKED =? 0)%Z then
    if (cl =? 0)%Z || (cl =? ULLONG_MAX)%Z then
      ∃ m', iteration settings LF len p m = Ok (m', Break p) ∧ marks m' = no_marks ∧
        http_errno (parser m') = HPE_OK ∧ calls m' = cs' ++ [CBmessage_complete]
    else iteration settings LF len p m =
      Ok (reading s_body_identity h i 0 fl cl 1 mi k no_marks cs', Break p)
  else iteration settings LF len p m =
    Ok (reading s_chunk_size_start h i 0 fl cl 1 mi k no_marks cs', Break p).
Proof.
  intros Hn Hk Hu Ht Hsk m cs'. unfold m. rewrite iteration_header by done.
  set (m1 := reading s_headers_done h i (nr + 1) fl cl 1 mi k no_marks cs').
  assert (E : switch_state settings LF len p
    (reading s_headers_almost_done h i (nr + 1) fl cl 1 mi k no_marks cs) = Ok (m1, Reexecute p)).
  { unfold switch_state, case_headers_almost_done. cbn [parser reading state].
    unfold STRICT_CHECK. change (negb (bool_decide (LF = LF))) with false. cbv iota.
    unfold has_flag, upd, reading, set_state, set_upgrade. cbn -[F_TRAILING F_UPGRADE HTTP_CONNECT].
    rewrite Ht, Hu, Hk. reflexivity. }
  cbn [reexecute_byte]. rewrite E. cbn [rbind fst snd]. clear E.
  assert (E : switch_state settings LF len p m1 =
    (if (Z.land fl F_CHUNKED =? 0)%Z then
       if (cl =? 0)%Z || (cl =? ULLONG_MAX)%Z then
         finish_message settings p (reading s_headers_done h i 0 fl cl 1 mi k no_marks cs')
           (λ m, Ok (m, Break p))
       else Ok (reading s_body_identity h i 0 fl cl 1 mi k no_marks cs', Break p)
     else Ok (reading s_chunk_size_start h i 0 fl cl 1 mi k no_marks cs', Break p))).
  { unfold switch_state, case_headers_done, m1. cbn [parser reading state].
    unfold STRICT_CHECK. change (negb (bool_decide (LF = LF))) with false. cbv iota zeta.
    unfold has_flag, upd, reading, set_nread, set_state.
    cbn -[F_SKIPBODY F_CHUNKED ULLONG_MAX finish_message].
    rewrite Hsk. cbn -[F_CHUNKED ULLONG_MAX finish_message].
    destruct (_ =? 0)%Z; cbn -[ULLONG_MAX finish_message]; [|done].
    destruct (cl =? 0)%Z; [done|]. by destruct (cl =? ULLONG_MAX)%Z. }
  destruct (_ =? 0)%Z; [|by rewrite E].
  destruct (_ || _)%bool; [|by rewrite E].
  rewrite E. eexists. split; [reflexivity|]. done.
Qed.

(** ** Bodies *)

(** [w] stands in [data] at [p]. *)
Definition seg (data : str) (p : nat) (w : str) : Prop := take (length w) (drop p data) = w.

Lemma seg_app data p w1 w2 :
  seg data p (w1 ++ w2) → seg data p w1 ∧ seg data (p + length w1) w2.
Proof.
  unfold seg. intros E. rewrite length_app in E.
  pose proof (f_equal (take (length w1)) E) as E1. pose proof (f_equal (drop (length w1)) E) as E2.
  rewrite take_take, take_app_length, Nat.min_l in E1 by lia.
  rewrite drop_app_length, skipn_firstn_comm, drop_drop in E2.
  replace (length w1 + length w2 - length w1)%nat with (length w2) in E2 by lia. done.
Qed.

Lemma seg_cons data p c w : seg data p (c :: w) → data !! p = Some c ∧ seg data (p + 1) w.
Proof.
  intros E. change (c :: w) with ([c] ++ w) in E. apply seg_app in E as [E1 E2]. split; [|done].
  unfold seg in E1. cbn in E1. rewrite <- (Nat.add_0_r p), <- lookup_drop.
  destruct (drop p data) as [|x l]; [done|]. cbn in *. by simplify_eq.
Qed.

Lemma seg_length data p w : seg data p w → w ≠ [] → (p + length w ≤ length data)%nat.
Proof.
  unfold seg. intros E Hw. apply (f_equal length) in E. rewrite length_take, length_drop in E.
  assert (length w ≠ 0)%nat by (by destruct w). lia.
Qed.

(** A byte of a body state, which does not count as a header byte. *)
Lemma iteration_body ch len p s h i nr fl cl ma mi me ms cs :
  PARSING_HEADER s = false →
  iteration settings ch len p (reading s h i nr fl cl ma mi me ms cs) =
  reexecute_byte settings 4 ch len p (reading s h i nr fl cl ma mi me ms cs).
Proof. intros Hs. unfold iteration. cbn [parser state reading]. by rewrite Hs. Qed.

Definition body_at (a : nat) : mark → option nat := mark_values None None None (Some a).

(** The [n] bytes that the body still has are all in the buffer. *)
Lemma take_body_all len p s h i fl n ma mi me cs k :
  (1 ≤ n)%nat → (Z.of_nat n < ULLONG_MAX)%Z → (p + n ≤ len)%nat →
  take_body len p (reading s h i 0 fl (Z.of_nat n) ma mi me no_marks cs) k =
  k (p + n - 1)%nat (reading s h i 0 fl 0 ma mi me (body_at p) cs).
Proof.
  intros Hn Hmax Hlen. unfold take_body, to_read. cbn [parser reading content_length].
  rewrite Z.min_l by lia. unfold assert.
  rewrite (proj2 (Z.eqb_neq (Z.of_nat n) 0)) by lia. rewrite (proj2 (Z.eqb_neq _ ULLONG_MAX)) by lia.
  cbn [negb andb]. rewrite Nat2Z.id. unfold upd, MARK, set_mark, set_content_length.
  cbn [parser reading marks no_marks mark_values content_length calls].
  rewrite Z.sub_diag. reflexivity.
Qed.

Lemma body_identity_step ch len p h i fl n mi k cs :
  (1 ≤ n)%nat → (Z.of_nat n < ULLONG_MAX)%Z → (p + n = len)%nat →
  ∃ m', iteration settings ch len p
      (reading s_body_identity h i 0 fl (Z.of_nat n) 1 mi k no_marks cs) =
      Ok (m', Break (p + n - 1)) ∧
    marks m' = no_marks ∧ http_errno (parser m') = HPE_OK ∧
    calls m' = cs ++ [CBbody p n; CBmessage_complete].
Proof.
  intros Hn Hmax Hlen. rewrite iteration_body by done. cbn [reexecute_byte].
  assert (E : switch_state settings ch len p
      (reading s_body_identity h i 0 fl (Z.of_nat n) 1 mi k no_marks cs) =
    Ok (reading s_message_done h i 0 fl 0 1 mi k no_marks (cs ++ [CBbody p n]),
        Reexecute (p + n - 1))).
  { unfold switch_state. cbn [parser reading state]. unfold case_body_identity.
    rewrite take_body_all by lia. unfold upd, reading, set_state. cbn.
    unfold CALLBACK_DATA_, assert, no_error, called, body_at. cbn.
    replace (p + n - 1 + 1 - p)%nat with n by lia. done. }
  rewrite E. cbn [rbind fst snd reexecute_byte]. eexists. split; [reflexivity|].
  cbn. by rewrite <- app_assoc.
Qed.

Lemma hex_range c : is_hex c = true → (0 ≤ unhex_val c ≤ 15)%Z ∧ c ≠ CR.
Proof.
  unfold is_hex. rewrite andb_true_iff, negb_true_iff, Z.eqb_neq. intros [H _].
  split; [by apply unhex_range|]. by intros ->.
Qed.

Lemma hex_value_ge s a : Forall (λ c, is_hex c = true) s → (0 ≤ a)%Z → (a ≤ hex_value a s)%Z.
Proof.
  revert a. induction s as [|c s IH]; intros a Hs Ha; [done|]. apply Forall_cons in Hs as [Hc Hs].
  apply hex_range in Hc as [Hc _]. unfold hex_value in *. cbn [foldl].
  specialize (IH (a * 16 + unhex_val c)%Z Hs ltac:(lia)). lia.
Qed.

(** The rest of a chunk size, and the end of its line. *)
Lemma eat_size_tail len s p h i nr fl cl mi k cs :
  negb (Z.land fl F_CHUNKED =? 0)%Z = true →
  Forall (λ c, is_hex c = true) s → (0 ≤ cl)%Z → (hex_value cl s < ULLONG_MAX)%Z →
  (0 ≤ nr)%Z → (nr + slen s < HTTP_MAX_HEADER_SIZE)%Z →
  eat len (s ++ [CR]) p (reading s_chunk_size h i nr fl cl 1 mi k no_marks cs) =
  Some (reading s_chunk_size_almost_done h i (nr + slen s + 1) fl (hex_value cl s) 1 mi k
          no_marks cs).
Proof.
  intros Hch. revert p nr cl. induction s as [|c s IH]; intros p nr cl Hs Hcl Hv Hn Hmax.
  - rewrite slen_nil in *. cbn [app]. erewrite eat_byte; [| |done|lia].
    2: { unfold switch_state, case_chunk_size, is_chunked, has_flag, assert.
         cbn [parser reading state flags]. rewrite Hch.
         rewrite bool_decide_eq_true_2 by done. reflexivity. }
    cbn. unfold reading. do 3 f_equal. lia.
  - apply Forall_cons in Hs as [Hc Hs]. rewrite slen_cons in *. pose proof (slen_nonneg s).
    destruct (hex_range c Hc) as [Hr Hcr]. unfold hex_value in Hv. cbn [foldl] in Hv.
    pose proof (hex_value_ge s (cl * 16 + unhex_val c) Hs ltac:(lia)) as Hge. unfold hex_value in Hge.
    cbn [app]. erewrite eat_byte; [| |done|lia].
    2: { unfold switch_state, case_chunk_size, is_chunked, has_flag, assert.
         cbn [parser reading state flags]. rewrite Hch, bool_decide_eq_false_2 by done.
         rewrite (proj2 (Z.eqb_neq (unhex_val c) (-1))) by lia. cbn [content_length].
         rewrite accumulate_small by lia. reflexivity. }
    etrans; [apply (IH (p + 1)%nat (nr + 1)%Z (cl * 16 + unhex_val c)%Z); [done|lia|done|lia|lia]|].
    do 2 f_equal. lia.
Qed.

Lemma eat_size len sz p h i fl cl mi k cs :
  negb (Z.land fl F_CHUNKED =? 0)%Z = true → sz ≠ [] →
  Forall (λ c, is_hex c = true) sz → (hex_value 0 sz < ULLONG_MAX)%Z →
  (slen sz + 2 ≤ HTTP_MAX_HEADER_SIZE)%Z →
  eat len (sz ++ [CR]) p (reading s_chunk_size_start h i 0 fl cl 1 mi k no_marks cs) =
  Some (reading s_chunk_size_almost_done h i (slen sz + 1) fl (hex_value 0 sz) 1 mi k no_marks cs).
Proof.
  intros Hch Hne Hs Hv Hmax. destruct sz as [|c s]; [done|]. rewrite slen_cons in *.
  apply Forall_cons in Hs as [Hc Hs]. destruct (hex_range c Hc) as [Hr Hcr].
  pose proof (slen_nonneg s). unfold hex_value in *. cbn [foldl] in *. cbn [app].
  erewrite eat_byte; [| |done|lia].
  2: { unfold switch_state, case_chunk_size_start, is_chunked, has_flag, assert.
       cbn [parser reading state flags nread]. change (0 + 1 =? 1)%Z with true. cbv iota.
       rewrite Hch. rewrite (proj2 (Z.eqb_neq (unhex_val c) (-1))) by lia. reflexivity. }
  etrans; [apply (eat_size_tail len s (p + 1) h i 1 fl (unhex_val c)); [done|done|lia|done|lia|lia]|].
  do 2 f_equal; lia.
Qed.

(** A byte at a known place of the buffer. *)
Lemma steps_byte data p ch m m' p2 m2 :
  data !! p = Some ch → iteration settings ch (length data) p m = Ok (m', Break p) →
  steps data (p + 1) m' p2 m2 → steps data p m p2 m2.
Proof. intros Hch E S. by econstructor. Qed.

(** One chunk: its size, its bytes and its line breaks. *)
Lemma chunk_steps data p x h i fl cl mi k cs :
  negb (Z.land fl F_CHUNKED =? 0)%Z = true → wf_chunk x → seg data p (wire_chunk x) →
  steps data p (reading s_chunk_size_start h i 0 fl cl 1 mi k no_marks cs)
    (p + length (wire_chunk x))
    (reading s_chunk_size_start h i 0 fl 0 1 mi k no_marks
       (cs ++ [CBbody (p + length x.1 + 2) (length x.2)])).
Proof.
  destruct x as [sz d]. intros Hch (Hsz & Hd & Hhex & Hval & Hmax & Hsize) Hseg.
  unfold wire_chunk in *. cbn [fst snd] in *.
  change CRLF with ([CR] ++ [LF]) in *. rewrite <- !app_assoc in Hseg. rewrite app_assoc in Hseg.
  apply seg_app in Hseg as [S1 Hseg]. apply seg_cons in Hseg as [L1 Hseg].
  apply seg_app in Hseg as [S2 Hseg]. apply seg_cons in Hseg as [L2 Hseg].
  apply seg_cons in Hseg as [L3 _].
  pose proof (seg_length _ _ _ S2 Hd) as Hlen. rewrite length_app in *. cbn [length] in *.
  pose proof (lookup_lt_Some _ _ _ L3) as Hlen3.
  set (q := (p + (length sz + 1) + 1)%nat) in *.
  eapply steps_trans.
  { eapply eat_steps; [exact S1|]. apply eat_size; [done|done|done|by rewrite Hval|done]. }
  rewrite length_app. cbn [length]. rewrite Hval.
  (* the line feed after the size *)
  eapply steps_byte; [exact L1| |].
  { rewrite iteration_header; [|done|unfold slen; unfold slen in Hsize; lia]. cbn [reexecute_byte].
    unfold switch_state, case_chunk_size_almost_done, is_chunked, has_flag, assert.
    cbn [parser reading state flags]. rewrite Hch. unfold STRICT_CHECK.
    change (negb (bool_decide (LF = LF))) with false. cbv iota zeta.
    cbn [parser upd content_length set_nread reading].
    rewrite (proj2 (Z.eqb_neq (slen d) 0)) by (destruct d; [done|rewrite slen_cons;
      pose proof (slen_nonneg d); lia]).
    reflexivity. }
  (* the bytes of the chunk *)
  change (upd (set_state s_chunk_data) _) with
    (reading s_chunk_data h i 0 fl (slen d) 1 mi k no_marks cs).
  fold q. destruct d as [|d0 d']; [done|]. apply seg_cons in S2 as [L0 S2].
  set (d := d0 :: d') in *. assert (1 ≤ length d)%nat by (cbn; lia).
  eapply (steps_cons _ _ _ d0 (q + length d - 1)); [exact L0| |lia|].
  { rewrite iteration_body by done. cbn [reexecute_byte].
    assert (E : switch_state settings d0 (length data) q
        (reading s_chunk_data h i 0 fl (slen d) 1 mi k no_marks cs) =
      Ok (reading s_chunk_data_almost_done h i 0 fl 0 1 mi k (body_at q) cs,
          Break (q + length d - 1))).
    { unfold switch_state, case_chunk_data, is_chunked, has_flag, assert.
      cbn [parser reading state flags]. rewrite Hch. unfold slen at 1.
      rewrite take_body_all; [reflexivity|lia|done|lia]. }
    rewrite E. reflexivity. }
  replace (q + length d - 1 + 1)%nat with (q + length d)%nat by lia.
  (* the line break after them *)
  eapply steps_byte; [exact L2| |].
  { rewrite iteration_body by done. cbn [reexecute_byte].
    unfold switch_state, case_chunk_data_almost_done, is_chunked, has_flag, assert.
    cbn [parser reading state flags content_length]. rewrite Hch. reflexivity. }
  cbn [fst snd].
  eapply steps_byte; [exact L3| |].
  { change (upd (set_state s_chunk_data_done) _) with
      (reading s_chunk_data_done h i 0 fl 0 1 mi k (body_at q) cs).
    match goal with |- iteration _ _ _ _ ?m = _ =>
      change m with (reading s_chunk_data_done h i 0 fl 0 1 mi k no_marks
        (cs ++ [CBbody q (q + length d - q)])) end.
    rewrite iteration_body by done. cbn [reexecute_byte].
    unfold switch_state, case_chunk_data_done, is_chunked, has_flag, assert.
    cbn [parser reading state flags]. rewrite Hch. reflexivity. }
  cbn [fst snd]. change (upd _ _) with (reading s_chunk_size_start h i 0 fl 0 1 mi k no_marks
    (cs ++ [CBbody q (q + length d - q)])).
  replace (q + length d - q)%nat with (length d) by lia.
  replace (p + length sz + 2)%nat with q by (unfold q; lia).
  match goal with |- steps _ ?a _ ?b _ => replace b with a; [apply steps_refl|] end.
  rewrite !length_app. unfold q. cbn [length]. lia.
Qed.

Lemma chunks_steps data p xs h i fl cl mi k cs :
  negb (Z.land fl F_CHUNKED =? 0)%Z = true → Forall wf_chunk xs → seg data p (xs ≫= wire_chunk) →
  ∃ cl', steps data p (reading s_chunk_size_start h i 0 fl cl 1 mi k no_marks cs)
    (p + length (xs ≫= wire_chunk))
    (reading s_chunk_size_start h i 0 fl cl' 1 mi k no_marks (cs ++ chunks_calls p xs)).
Proof.
  intros Hch. revert p cl cs. induction xs as [|x xs IH]; intros p cl cs Hx Hseg.
  { exists cl. cbn. rewrite Nat.add_0_r, app_nil_r. apply steps_refl. }
  apply Forall_cons in Hx as [Hx Hxs]. rewrite bind_cons in *. apply seg_app in Hseg as [S1 S2].
  destruct (IH _ 0%Z (cs ++ [CBbody (p + length x.1 + 2) (length x.2)]) Hxs S2) as [cl' S].
  exists cl'. eapply steps_trans; [by apply chunk_steps|].
  rewrite <- app_assoc in S. rewrite length_app, Nat.add_assoc. exact S.
Qed.

(** The chunk of size zero and the line break after it, but for its last byte. *)
Lemma last_chunk_steps data p h i fl cl mi k cs :
  negb (Z.land fl F_CHUNKED =? 0)%Z = true → seg data p last_chunk →
  ∃ m m', steps data p (reading s_chunk_size_start h i 0 fl cl 1 mi k no_marks cs) (p + 4) m ∧
    calls m = cs ∧ data !! (p + 4)%nat = Some LF ∧
    iteration settings LF (length data) (p + 4) m = Ok (m', Break (p + 4)) ∧
    marks m' = no_marks ∧ http_errno (parser m') = HPE_OK ∧ calls m' = cs ++ [CBmessage_complete].
Proof.
  intros Hch Hseg. change last_chunk with (("0" ++ [CR]) ++ [LF; CR; LF]) in Hseg.
  apply seg_app in Hseg as [S1 Hseg]. apply seg_cons in Hseg as [L1 Hseg].
  apply seg_cons in Hseg as [L2 Hseg]. apply seg_cons in Hseg as [L3 _].
  change (length ("0" ++ [CR])) with 2%nat in *.
  replace (p + 2 + 1 + 1)%nat with (p + 4)%nat in L3 by lia.
  exists (reading s_headers_almost_done h i 1 (Z.lor fl F_TRAILING) 0 1 mi k no_marks cs).
  eexists. split; [|split; [done|split; [exact L3|]]].
  - eapply steps_trans.
    { eapply eat_steps; [exact S1|].
      apply (eat_size (length data) "0" p h i fl cl mi k cs Hch); try done.
      by repeat constructor. }
    change (length ("0" ++ [CR])) with 2%nat.
    eapply steps_byte; [exact L1| |].
    { rewrite iteration_header by done. cbn [reexecute_byte].
      unfold switch_state, case_chunk_size_almost_done, is_chunked, has_flag, assert.
      cbn [parser reading state flags]. rewrite Hch. reflexivity. }
    cbn [fst snd]. change (upd _ _) with
      (reading s_header_field_start h i 0 (Z.lor fl F_TRAILING) 0 1 mi k no_marks cs).
    eapply steps_byte; [exact L2| |].
    { rewrite iteration_header by done. reflexivity. }
    cbn [fst snd]. replace (p + 2 + 1 + 1)%nat with (p + 4)%nat by lia. apply steps_refl.
  - assert (Z.land (Z.lor fl F_TRAILING) F_TRAILING ≠ 0%Z) as Ht.
    { rewrite Z.land_lor_distr_l. rewrite Z.lor_eq_0_iff. intros [_ Ht]. discriminate Ht. }
    split.
    { rewrite iteration_header by done. cbn [reexecute_byte].
      unfold switch_state, case_headers_almost_done, STRICT_CHECK.
      cbn [parser reading state]. change (negb (bool_decide (LF = LF))) with false. cbv iota.
      unfold has_flag. cbn [parser reading flags].
      rewrite (proj2 (Z.eqb_neq _ _) Ht). cbn [negb]. reflexivity. }
    done.
Qed.

(** The callbacks before the last byte do not end the message. *)
Definition incomplete (cs : list callback) : Prop := CBmessage_complete ∉ cs.

Lemma headers_calls_incomplete p xs : incomplete (headers_calls p xs).
Proof.
  unfold incomplete. revert p. induction xs as [|x xs IH]; intros p; cbn; [set_solver|].
  rewrite !not_elem_of_cons. split_and!; [done..|apply IH].
Qed.

Lemma chunks_calls_incomplete p xs : incomplete (chunks_calls p xs).
Proof.
  unfold incomplete. revert p. induction xs as [|x xs IH]; intros p; cbn; [set_solver|].
  rewrite not_elem_of_cons. split; [done|apply IH].
Qed.

Lemma head_calls_incomplete r : incomplete (head_calls r).
Proof.
  unfold incomplete, head_calls. rewrite not_elem_of_cons. split; [done|].
  apply headers_calls_incomplete.
Qed.

(** The run over a request: all iterations but the last one, which ends the message. *)
Definition runs (data : str) (cs : list callback) : Prop :=
  ∃ p m ch m', steps data 0 start p m ∧ incomplete (calls m) ∧ data !! p = Some ch ∧
    iteration settings ch (length data) p m = Ok (m', Break (length data - 1)) ∧
    marks m' = no_marks ∧ http_errno (parser m') = HPE_OK ∧ calls m' = cs.

Section Run.
Variable r : request.
Hypothesis Hwf : wf_request r.

(** The offset of the last byte of the headers. *)
Let q : nat := (length (wire_head r) + 1)%nat.
Let complete_call : list callback :=
  [CBheaders_complete (slen (wire_head r) + 2) (framing r).2].

Lemma wire_places :
  seg (wire r) 0 (wire_head r ++ [CR]) ∧ wire r !! q = Some LF ∧
  seg (wire r) (q + 1) (wire_body (r_body r)) ∧
  length (wire r) = (q + 1 + length (wire_body (r_body r)))%nat.
Proof.
  assert (Hseg : seg (wire r) 0 ((wire_head r ++ [CR]) ++ [LF] ++ wire_body (r_body r))).
  { unfold seg. rewrite drop_0. change CRLF with ([CR] ++ [LF]).
    assert ((wire_head r ++ [CR]) ++ [LF] ++ wire_body (r_body r) = wire r) as ->.
    { unfold wire. by rewrite <- app_assoc. }
    by apply firstn_all. }
  apply seg_app in Hseg as [S1 Hseg]. apply seg_app in Hseg as [SLF SB].
  apply seg_cons in SLF as [LLF _]. rewrite length_app in LLF, SB.
  split_and!; [done|done|exact SB|]. unfold wire, q. rewrite !length_app. cbn. lia.
Qed.

(** The state before the last line feed of the headers, and what that byte does. *)
Lemma head_run :
  ∃ h i k,
    let m := reading s_headers_almost_done h i (slen (wire_head r) + 1) (framing r).1
               (framing r).2 1 (digit_of (r_minor r)) k no_marks (head_calls r) in
    let cs := head_calls r ++ complete_call in
    steps (wire r) 0 start q m ∧
    if (Z.land (framing r).1 F_CHUNKED =? 0)%Z then
      if ((framing r).2 =? 0)%Z || ((framing r).2 =? ULLONG_MAX)%Z then
        ∃ m', iteration settings LF (length (wire r)) q m = Ok (m', Break q) ∧
          marks m' = no_marks ∧ http_errno (parser m') = HPE_OK ∧
          calls m' = cs ++ [CBmessage_complete]
      else iteration settings LF (length (wire r)) q m =
        Ok (reading s_body_identity h i 0 (framing r).1 (framing r).2 1 (digit_of (r_minor r)) k
              no_marks cs, Break q)
    else iteration settings LF (length (wire r)) q m =
      Ok (reading s_chunk_size_start h i 0 (framing r).1 (framing r).2 1 (digit_of (r_minor r)) k
            no_marks cs, Break q).
Proof.
  destruct (eat_head (length (wire r)) r Hwf) as (h & i & k & (_ & Hk5 & _) & Eh).
  exists h, i, (Z.of_nat k). cbv zeta. destruct wire_places as (S1 & _).
  pose proof (eat_steps _ _ _ _ _ S1 Eh) as Hsteps. rewrite length_app in Hsteps.
  split; [exact Hsteps|].
  pose proof (wf_size r Hwf) as Hsize. pose proof (slen_nonneg (wire_head r)) as Hpos.
  assert (Hcon : (Z.of_nat k =? HTTP_CONNECT)%Z = false).
  { apply Z.eqb_neq. unfold HTTP_CONNECT. lia. }
  assert (Hfl : ∀ f, f = F_TRAILING ∨ f = F_SKIPBODY → Z.land (framing r).1 f = 0%Z).
  { intros f Hf. by apply header_effects_land. }
  pose proof (last_line_feed (length (wire r)) q h i (slen (wire_head r) + 1) (framing r).1
    (framing r).2 (digit_of (r_minor r)) (Z.of_nat k) (head_calls r) ltac:(lia) Hcon
    (wf_upgrade r Hwf) (Hfl _ (or_introl eq_refl)) (Hfl _ (or_intror eq_refl))) as HLF.
  unfold complete_call. replace (slen (wire_head r) + 1 + 1)%Z with (slen (wire_head r) + 2)%Z in HLF
    by lia.
  exact HLF.
Qed.

Lemma head_incomplete : incomplete (head_calls r ++ complete_call).
Proof.
  unfold incomplete, complete_call. rewrite not_elem_of_app. split; [apply head_calls_incomplete|].
  by rewrite list_elem_of_singleton.
Qed.

Lemma request_calls_eq :
  request_calls r =
  (head_calls r ++ complete_call) ++ body_calls (q + 1) (r_body r) ++ [CBmessage_complete].
Proof.
  unfold request_calls. replace (length (wire_head r) + 2)%nat with (q + 1)%nat by (unfold q; lia).
  by rewrite <- app_assoc.
Qed.

Lemma run_plain s : r_body r = Plain s → runs (wire r) (request_calls r).
Proof.
  intros Hb. pose proof (wf_framing r Hwf) as Hbody. rewrite request_calls_eq.
  destruct wire_places as (_ & LLF & SB & Hlen). rewrite Hb in *. cbn [wire_body wf_body] in *.
  destruct Hbody as [Hch Hcl].
  destruct head_run as (h & i & k & Hsteps & HLF). rewrite (proj2 (Z.eqb_eq _ _) Hch) in HLF.
  destruct s as [|c s].
  - (* no body: the line feed is the last byte *)
    assert (((framing r).2 =? 0)%Z || ((framing r).2 =? ULLONG_MAX)%Z = true) as Eb.
    { by destruct Hcl as [[-> _]|[-> _]]. }
    rewrite Eb in HLF. destruct HLF as (m' & E & Hm & He & Hc). cbn [length] in Hlen.
    eexists q, _, LF, m'. split_and!; [exact Hsteps|apply head_calls_incomplete|done| |done|done|done].
    by replace (length (wire r) - 1)%nat with q by lia.
  - destruct Hcl as [[Hcl Hmax]|[_ ?]]; [|done]. unfold slen in Hcl, Hmax.
    assert (((framing r).2 =? 0)%Z || ((framing r).2 =? ULLONG_MAX)%Z = false) as Eb.
    { rewrite Hcl. apply orb_false_iff. rewrite !Z.eqb_neq. cbn [length] in *. lia. }
    rewrite Eb, Hcl in HLF. apply seg_cons in SB as [LB SB].
    destruct (body_identity_step c (length (wire r)) (q + 1) h i (framing r).1 (length (c :: s))
      (digit_of (r_minor r)) k (head_calls r ++ complete_call)) as (m' & E & Hm & He & Hc);
      [cbn; lia|done|lia|].
    exists (q + 1)%nat, (reading s_body_identity h i 0 (framing r).1 (Z.of_nat (length (c :: s))) 1
      (digit_of (r_minor r)) k no_marks (head_calls r ++ complete_call)), c, m'.
    split_and!; [|exact head_incomplete|done| |done|done|done].
    + eapply steps_trans; [exact Hsteps|]. rewrite Hcl.
      eapply steps_byte; [exact LLF|exact HLF|apply steps_refl].
    + by replace (length (wire r) - 1)%nat with (q + 1 + length (c :: s) - 1)%nat by lia.
Qed.

Lemma run_chunked xs : r_body r = Chunked xs → runs (wire r) (request_calls r).
Proof.
  intros Hb. pose proof (wf_framing r Hwf) as Hbody. rewrite request_calls_eq.
  destruct wire_places as (_ & LLF & SB & Hlen). rewrite Hb in *. cbn [wire_body wf_body] in *.
  destruct Hbody as [Hch Hxs].
  destruct head_run as (h & i & k & Hsteps & HLF). rewrite (proj2 (Z.eqb_neq _ _) Hch) in HLF.
  assert (Hch' : negb (Z.land (framing r).1 F_CHUNKED =? 0)%Z = true).
  { by rewrite (proj2 (Z.eqb_neq _ _) Hch). }
  apply seg_app in SB as [S2 S3].
  destruct (chunks_steps (wire r) (q + 1) xs h i (framing r).1 (framing r).2 (digit_of (r_minor r))
    k (head_calls r ++ complete_call) Hch' Hxs S2) as [cl' Hsteps2].
  destruct (last_chunk_steps (wire r) _ h i (framing r).1 cl' (digit_of (r_minor r)) k
    ((head_calls r ++ complete_call) ++ chunks_calls (q + 1) xs) Hch' S3)
    as (m & m' & Hsteps3 & Hcm & L & E & Hm & He & Hc).
  eexists _, m, LF, m'. split_and!; [| |exact L| |done|done|].
  - eapply steps_trans; [exact Hsteps|]. eapply steps_byte; [exact LLF|exact HLF|].
    eapply steps_trans; [exact Hsteps2|exact Hsteps3].
  - rewrite Hcm. unfold incomplete. rewrite not_elem_of_app.
    split; [exact head_incomplete|apply chunks_calls_incomplete].
  - rewrite E. do 3 f_equal. rewrite Hlen, length_app. change (length last_chunk) with 5%nat. lia.
  - by rewrite Hc, <- !app_assoc.
Qed.

Lemma request_run : runs (wire r) (request_calls r).
Proof. destruct (r_body r) eqn:E; [by eapply run_plain|by eapply run_chunked]. Qed.
End Run.

(** ** The whole call *)

Lemma steps_loop data p m p2 m2 fuel :
  steps data p m p2 m2 → (length data < p + fuel)%nat →
  ∃ fuel', for_loop settings fuel data p m = for_loop settings fuel' data p2 m2 ∧
    (length data < p2 + fuel')%nat.
Proof.
  intros S. revert fuel. induction S as [p m|p m ch p' m' p2 m2 Hch E Hle S IH]; intros fuel Hf.
  { by exists fuel. }
  pose proof (lookup_lt_Some _ _ _ Hch). destruct fuel as [|fuel]; [lia|].
  destruct (IH fuel ltac:(lia)) as (fuel' & Ef & Hf'). exists fuel'. split; [|done].
  cbn [for_loop]. rewrite bool_decide_eq_false_2 by lia. rewrite Hch, E. exact Ef.
Qed.

Lemma leftover_none len m :
  marks m = no_marks → http_errno (parser m) = HPE_OK →
  leftover settings len m = Ok (m, Return (Z.of_nat len)).
Proof.
  intros Hm He. unfold leftover, marked. rewrite Hm. unfold assert. cbn [no_marks mark_values].
  cbn -[Z.of_nat CALLBACK_DATA_NOADVANCE].
  unfold CALLBACK_DATA_NOADVANCE, CALLBACK_DATA_, assert, no_error.
  rewrite bool_decide_eq_true_2 by done. rewrite Hm. reflexivity.
Qed.

Lemma execute_start data :
  data ≠ [] →
  http_parser_execute settings (http_parser_init HTTP_REQUEST) data =
  for_loop settings (length data + 1) data 0 start.
Proof.
  intros Hd. unfold http_parser_execute. cbv zeta.
  change (MkExec (http_parser_init HTTP_REQUEST) (first_marks (state (http_parser_init HTTP_REQUEST))) [])
    with start.
  change (negb (no_error start)) with false. cbv iota. by rewrite bool_decide_eq_false_2.
Qed.

Lemma runs_execute data cs :
  data ≠ [] → runs data cs →
  ∃ m, http_parser_execute settings (http_parser_init HTTP_REQUEST) data =
         Ok (Some (m, slen data)) ∧
    http_errno (parser m) = HPE_OK ∧ calls m = cs.
Proof.
  intros Hd (p & m & ch & m' & S & _ & Hch & E & Hm & He & Hc). exists m'. split; [|done].
  rewrite execute_start by done.
  destruct (steps_loop _ _ _ _ _ (length data + 1) S ltac:(lia)) as (fuel & -> & Hf).
  pose proof (lookup_lt_Some _ _ _ Hch). destruct fuel as [|fuel]; [lia|]. cbn [for_loop].
  rewrite bool_decide_eq_false_2 by lia. rewrite Hch, E. cbn [rbind fst snd].
  replace (length data - 1 + 1)%nat with (length data) by lia.
  destruct fuel as [|fuel]; [lia|]. cbn [for_loop]. rewrite bool_decide_eq_true_2 by done.
  rewrite leftover_none by done. reflexivity.
Qed.

Lemma wire_not_empty r : wire r ≠ [].
Proof. unfold wire. intros E. apply (f_equal length) in E. rewrite !length_app in E. cbn in E. lia. Qed.

(** C16: The parser understands every well-formed request: on its bytes, and nothing else, it
    consumes them all without error and makes exactly the callbacks of its URL, its headers
    in order, the length its headers announce, its body (by length or in chunks), and the
    end of the message. *)
Theorem request_reported r :
  wf_request r →
  ∃ m, http_parser_execute wrapper_settings (http_parser_init HTTP_REQUEST) (wire r) =
         Ok (Some (m, slen (wire r))) ∧
    http_errno (parser m) = HPE_OK ∧ calls m = request_calls r.
Proof. intros Hwf. apply runs_execute; [apply wire_not_empty|by apply request_run]. Qed.

(** A request that uses all of it: a POST with headers that matter and chunks. *)
Definition demo_chunked : request := MkRequest "POST" "/api/login?x#y" "1"
  [("Host" : str, "h" : str); ("CONNECTION" : str, "Keep-Alive " : str);
   ("Transfer-Encoding" : str, "CHUNKED" : str)]
  (Chunked [("3" : str, "abc" : str); ("0A" : str, "0123456789" : str)]).
Definition demo_plain : request := MkRequest "POST" "/api/login" "1"
  [("Content-Length" : str, "2" : str)] (Plain "{}").

Lemma headers_wf xs : forallb wf_headerb xs = true → Forall wf_header xs.
Proof. intros H. eapply Forall_impl; [by apply forallb_Forall|]. apply wf_headerb_sound. Qed.

Lemma demo_url (u : str) c r :
  u = c :: r → c = "/"%char → forallb visible r = true → is_url u.
Proof. intros -> -> H. eexists _, _. split_and!; [done|by left|by apply forallb_Forall]. Qed.

Lemma demo_chunked_wf : wf_request demo_chunked.
Proof.
  constructor; cbn [r_method r_url r_minor r_headers r_body demo_chunked]; try reflexivity.
  - exists 3%nat. by split.
  - by eapply demo_url.
  - apply headers_wf. vm_compute. reflexivity.
  - split; [vm_compute; discriminate|]. repeat constructor; try done; vm_compute; by intros.
  - vm_compute. by intros.
Qed.

Lemma demo_plain_wf : wf_request demo_plain.
Proof.
  constructor; cbn [r_method r_url r_minor r_headers r_body demo_plain]; try reflexivity.
  - exists 3%nat. by split.
  - by eapply demo_url.
  - apply headers_wf. vm_compute. reflexivity.
  - split; [reflexivity|]. left. by split.
  - vm_compute. by intros.
Qed.

Lemma request_reported_witness :
  ∃ m, http_parser_execute wrapper_settings (http_parser_init HTTP_REQUEST) (wire demo_chunked) =
         Ok (Some (m, slen (wire demo_chunked))) ∧
    http_errno (parser m) = HPE_OK ∧ calls m = request_calls demo_chunked.
Proof. apply request_reported. exact demo_chunked_wf. Defined.
