(* ===== verification/HttpCut.v ===== *)
(** What the vendored parser reports of a request of which only a beginning has arrived:
    the [CHttpConn] of the request parses what it has from the start each time bytes come. *)

From S2P Require Import Prelude HttpMachine HttpSafe HttpRun HttpHeader HttpRequest.

(** ** Iterations do not look ahead *)

Lemma switch_len ch len1 len p m :
  len_free (state (parser m)) = true →
  switch_state settings ch len1 p m = switch_state settings ch len p m.
Proof. unfold switch_state. by destruct (state (parser m)). Qed.

Lemma reexecute_len fuel b ch len1 len p m :
  (p < len1)%nat → inv b 1 len1 p m → len_free (state (parser m)) = true →
  reexecute_byte settings fuel ch len1 p m = reexecute_byte settings fuel ch len p m.
Proof.
  revert p m. induction fuel as [|fuel IH]; intros p m Hp I Hf; [done|]. cbn [reexecute_byte].
  rewrite <- (switch_len ch len1 len) by done.
  destruct (switch_good b settings len1 p Hp ch m I) as (m' & f & -> & Hg). cbn [rbind fst snd].
  destruct f as [| p' | |]; try done. destruct Hg as (? & I' & _ & Hf'). apply IH; [lia|done|done].
Qed.

(** The part of the iteration before the byte is executed. *)
Lemma iteration_enter b ch len p m :
  inv b 0 len p m →
  (∃ m1, inv b 1 len p m1 ∧ calls m1 = calls m ∧
     ∀ len', iteration settings ch len' p m = reexecute_byte settings REEXECUTIONS ch len' p m1) ∨
  (∀ len', iteration settings ch len' p m = iteration settings ch len p m).
Proof.
  intros [[He Hn Hl Hst] M C]. unfold iteration. destruct (PARSING_HEADER _) eqn:Eh.
  - cbv zeta. cbn [parser upd nread set_nread].
    assert (u32 (nread (parser m) + 1) = (nread (parser m) + 1)%Z) as ->.
    { apply wrap_small. unfold HTTP_MAX_HEADER_SIZE in Hn. lia. }
    destruct (_ <? _)%Z eqn:Eo; [by right|]. left.
    exists (upd (λ q, set_nread (u32 (nread q + 1)) q) m). split_and!; try done.
    + split; [|done..].
      assert (u32 (nread (parser m) + 1) = (nread (parser m) + 1)%Z) as Ew.
      { apply wrap_small. unfold HTTP_MAX_HEADER_SIZE in Hn. lia. }
      constructor; cbn; rewrite ?Ew; [done|lia|done|]. unfold state_ok in *. cbn. rewrite ?Ew.
      destruct (state (parser m)); try done. destruct Hst as [? ->]. done.
  - left. exists m. split_and!; try done. split; [|done..].
    constructor; [done..|]. unfold state_ok in *. by destruct (state (parser m)).
Qed.

Lemma take_body_len len1 len p m k :
  (len1 ≤ len)%nat → (content_length (parser m) ≤ Z.of_nat (len1 - p))%Z →
  take_body len1 p m k = take_body len p m k.
Proof. intros Hl Hc. unfold take_body, to_read. rewrite !Z.min_l by lia. done. Qed.

(** A piece of a body that does not end it. *)
Lemma take_body_part b len1 p m :
  (p < len1)%nat → inv b 1 len1 p m →
  (content_length (parser m) ≠ 0 ∧ content_length (parser m) ≠ ULLONG_MAX)%Z →
  (Z.of_nat (len1 - p) < content_length (parser m))%Z →
  ∃ m', calls m' = calls m ∧ (content_length (parser m') =? 0)%Z = false ∧
    ∀ k, take_body len1 p m k = k (len1 - 1)%nat m'.
Proof.
  intros Hp I [H0 H1] Hc. pose proof (wf_length _ _ (inv_wf _ _ _ _ _ I)) as Hl.
  exists (upd (λ q, set_content_length (u64 (content_length q - Z.of_nat (len1 - p))) q)
    (MARK body_mark p m)).
  assert (calls (MARK body_mark p m) = calls m ∧ parser (MARK body_mark p m) = parser m) as [Ec Ep].
  { unfold MARK. by destruct (marks m body_mark). }
  split_and!; [done| |].
  - cbn. rewrite Ep. unfold ULLONG_MAX in Hl. rewrite wrap_small by lia. apply Z.eqb_neq. lia.
  - intros k. unfold take_body, to_read. rewrite Z.min_r by lia. unfold assert.
    rewrite (proj2 (Z.eqb_neq (content_length (parser m)) 0)) by done.
    rewrite (proj2 (Z.eqb_neq _ ULLONG_MAX)) by done. cbn [negb andb].
    rewrite Nat2Z.id. f_equal. lia.
Qed.

(** The same for a whole case of the switch. *)
Lemma switch_cut b ch len1 len p m :
  (p < len1)%nat → (len1 ≤ len)%nat → inv b 1 len1 p m →
  switch_state settings ch len1 p m = switch_state settings ch len p m ∨
  ∃ m1, switch_state settings ch len1 p m = Ok (m1, Break (len1 - 1)) ∧ calls m1 = calls m.
Proof.
  intros Hp Hlen I. destruct (len_free (state (parser m))) eqn:Hf; [left; by apply switch_len|].
  pose proof (wf_state _ _ (inv_wf _ _ _ _ _ I)) as Hst. unfold state_ok in Hst.
  unfold switch_state. destruct (state (parser m)) eqn:Hs; try discriminate.
  - destruct Hst as [Hch Hcl]. unfold case_chunk_data, assert, is_chunked. rewrite Hch.
    destruct (Z_le_gt_dec (content_length (parser m)) (Z.of_nat (len1 - p))) as [Hc|Hc].
    { left. by apply take_body_len. }
    right. destruct (take_body_part b len1 p m Hp I Hcl ltac:(lia)) as (m' & Em & E0 & Ek).
    exists m'. by rewrite Ek, E0.
  - unfold case_body_identity.
    destruct (Z_le_gt_dec (content_length (parser m)) (Z.of_nat (len1 - p))) as [Hc|Hc].
    { left. by apply take_body_len. }
    right. destruct (take_body_part b len1 p m Hp I Hst ltac:(lia)) as (m' & Em & E0 & Ek).
    exists m'. by rewrite Ek, E0.
  - right. exists (MARK body_mark p m). split; [done|]. unfold MARK. by destruct (marks m body_mark).
Qed.

(** With fewer bytes in the buffer an iteration does the same, or takes what there is of a
    body and ends the loop. *)
Lemma iteration_cut b ch len1 len p m :
  (p < len1)%nat → (len1 ≤ len)%nat → inv b 0 len1 p m →
  iteration settings ch len1 p m = iteration settings ch len p m ∨
  ∃ m1, iteration settings ch len1 p m = Ok (m1, Break (len1 - 1)) ∧ calls m1 = calls m.
Proof.
  intros Hp Hlen I. destruct (iteration_enter b ch len1 p m I) as [(m1 & I1 & Hc & E)|E];
    [|by left; rewrite (E len)].
  rewrite !E. unfold REEXECUTIONS. cbn [reexecute_byte]. rewrite <- Hc.
  destruct (switch_cut b ch len1 len p m1 Hp Hlen I1) as [Es|(m2 & Es & Hc2)].
  - left. rewrite <- Es.
    destruct (switch_good b settings len1 p Hp ch m1 I1) as (m' & f & -> & Hg). cbn [rbind fst snd].
    destruct f as [|p'| |]; try done. destruct Hg as (? & I' & _ & Hf').
    apply (reexecute_len 3 b); [lia|done|done].
  - right. exists m2. by rewrite Es.
Qed.

(** ** The loop over a beginning of the buffer *)

Lemma inv_before b n len p m : inv b n len p m → inv (calls m) n len p m.
Proof. intros [W M [C _]]. split; [done..|]. by split. Qed.

Lemma steps_inv b data p m p2 m2 :
  steps data p m p2 m2 → inv b 0 (length data) p m → inv b 0 (length data) p2 m2.
Proof.
  induction 1 as [|p m ch p' m' p2 m2 Hch E Hle S IH]; [done|]. intros I. apply IH.
  destruct (iteration_good b settings (length data) p ch m) as (m1 & f & E' & Hg); [|done|].
  { by eapply lookup_lt_Some. }
  rewrite E in E'. simplify_eq. apply Hg.
Qed.

(** The loop over the first [c] bytes follows the loop over all of them, to where that one
    is or to the end of what it has. *)
Lemma cut_loop data c p m p2 m2 fuel :
  steps data p m p2 m2 → (c ≤ length data)%nat → (p ≤ c)%nat → (c < p + fuel)%nat →
  inv [] 0 c p m → inv [] 0 (length data) p m →
  ∃ fuel' p3 m3,
    for_loop settings fuel (take c data) p m = for_loop settings fuel' (take c data) p3 m3 ∧
    (p3 ≤ c)%nat ∧ (c < p3 + fuel')%nat ∧ inv [] 0 c p3 m3 ∧
    ((p3 = p2 ∧ m3 = m2) ∨ (p3 = c ∧ calls m3 `prefix_of` calls m2)).
Proof.
  intros St Hc. assert (Hlc : length (take c data) = c) by (rewrite length_take; lia).
  revert fuel. induction St as [p m|p m ch p' m' p2 m2 Hch E Hle St IH]; intros fuel Hp Hf I J.
  { exists fuel, p, m. split_and!; [done..|by left]. }
  assert (Hmono : calls m `prefix_of` calls m2).
  { apply (inv_calls _ _ _ _ _ (steps_inv (calls m) data p m p2 m2
      (steps_cons _ _ _ _ _ _ _ _ Hch E Hle St) (inv_before _ _ _ _ _ J))). }
  destruct (decide (p = c)) as [->|Hne].
  { exists fuel, c, m. split_and!; [done..|]. by right. }
  destruct fuel as [|fuel]; [lia|].
  assert (Eloop : for_loop settings (S fuel) (take c data) p m =
    (let* r := iteration settings ch c p m in
     match r.2 with
     | Break p' => for_loop settings fuel (take c data) (p' + 1) r.1
     | GotoError p' => Ok (Some (at_error p' r.1))
     | Return n => Ok (Some (r.1, n))
     | Reexecute _ => Ok None
     end)).
  { cbn [for_loop]. rewrite Hlc, bool_decide_eq_false_2 by done.
    by rewrite lookup_take_lt, Hch by lia. }
  rewrite Eloop. clear Eloop.
  destruct (iteration_good [] settings c p ch m ltac:(lia) I) as (m1 & f & E1 & Hg).
  rewrite E1. cbn [rbind fst snd].
  destruct (iteration_cut [] ch c (length data) p m ltac:(lia) Hc I) as [Eq|(m3 & Eq & Hc3)];
    rewrite E1 in Eq.
  - rewrite E in Eq. injection Eq as -> ->. destruct Hg as [Hp' I'].
    destruct (IH fuel ltac:(lia) ltac:(lia) I') as (fuel' & p3 & m3 & ? & ? & ? & ? & Hor).
    { destruct (iteration_good [] settings (length data) p ch m) as (m2' & f & E2 & Hg2); [|done|].
      - by eapply lookup_lt_Some.
      - rewrite E in E2. simplify_eq. apply Hg2. }
    by exists fuel', p3, m3.
  - injection Eq as -> ->. destruct Hg as [Hp' I'].
    replace (c - 1 + 1)%nat with c in * by lia. exists fuel, c, m3.
    split_and!; [done|done|lia|done|]. right. by rewrite Hc3.
Qed.

(** ** The callbacks for what is left over *)

Lemma data_wrapper f last er m k :
  no_error m = true →
  ∃ m', CALLBACK_DATA_ settings f last er m k = k m' ∧ parser m' = parser m ∧
    (incomplete (calls m) → incomplete (calls m')).
Proof.
  intros He. unfold CALLBACK_DATA_, assert. rewrite He. destruct (marks m f) as [a|]; [|by exists m].
  assert (data_cb settings f = Some (λ _, 0%Z)) as -> by (by destruct f). cbn [negb Z.eqb].
  eexists. split; [reflexivity|]. split; [done|]. unfold incomplete. cbn. intros Hi.
  rewrite not_elem_of_app, list_elem_of_singleton. split; [done|]. by destruct f.
Qed.

Lemma leftover_wrapper b len m :
  inv b 0 len len m → incomplete (calls m) →
  ∃ m', leftover settings len m = Ok (m', Return (Z.of_nat len)) ∧
    http_errno (parser m') = HPE_OK ∧ incomplete (calls m').
Proof.
  intros I Hi. destruct (leftover_ended b settings len m I) as (m0 & n0 & E0 & _).
  unfold leftover in *. destruct (_ <=? 1)%Z; [|done]. cbn [assert]. unfold assert.
  pose proof (wf_errno _ _ (inv_wf _ _ _ _ _ I)) as He.
  assert (Hno : ∀ m', parser m' = parser m → no_error m' = true).
  { intros m' Ep. apply bool_decide_eq_true. by rewrite Ep. }
  unfold CALLBACK_DATA_NOADVANCE.
  edestruct data_wrapper as (m1 & -> & P1 & C1); [by apply Hno|].
  edestruct data_wrapper as (m2 & -> & P2 & C2); [by apply Hno|].
  edestruct data_wrapper as (m3 & -> & P3 & C3); [apply Hno; congruence|].
  edestruct data_wrapper as (m4 & -> & P4 & C4); [apply Hno; congruence|].
  exists m4. split; [done|]. split; [by rewrite P4, P3, P2, P1|auto].
Qed.

Lemma start_inv len : inv [] 0 len 0 start.
Proof.
  rewrite <- start_init. split; [apply http_parser_init_wf|apply first_marks_fit|].
  split; [constructor|apply prefix_nil].
Qed.

Lemma runs_cut data cs c :
  runs data cs → (0 < c < length data)%nat →
  ∃ m, http_parser_execute settings (http_parser_init HTTP_REQUEST) (take c data) =
         Ok (Some (m, Z.of_nat c)) ∧
    http_errno (parser m) = HPE_OK ∧ incomplete (calls m).
Proof.
  intros (p & m & ch & m' & Hst & Hinc & Hch & E & _) Hc.
  assert (Hlc : length (take c data) = c) by (rewrite length_take; lia).
  rewrite execute_start, Hlc by (intros Hnil; rewrite Hnil in Hlc; cbn in Hlc; lia).
  destruct (cut_loop data c 0 start p m (c + 1) Hst ltac:(lia) ltac:(lia) ltac:(lia) (start_inv _)
    (start_inv _)) as (fuel & p3 & m3 & -> & Hp3 & Hf & I & Hor).
  assert (Hend : ∀ fuel m3, (0 < fuel)%nat → inv [] 0 c c m3 → incomplete (calls m3) →
    ∃ m, for_loop settings fuel (take c data) c m3 = Ok (Some (m, Z.of_nat c)) ∧
      http_errno (parser m) = HPE_OK ∧ incomplete (calls m)).
  { intros [|fu] m0 Hfu I0 Hi0; [lia|]. cbn [for_loop]. rewrite Hlc, bool_decide_eq_true_2 by done.
    destruct (leftover_wrapper [] c m0 I0 Hi0) as (m4 & -> & He4 & Hi4). by exists m4. }
  destruct Hor as [[-> ->]|[-> [l Hl]]].
  2: { apply Hend; [lia|done|]. intros Hin. apply Hinc. rewrite Hl. apply elem_of_app. by left. }
  destruct (decide (p = c)) as [->|Hne]; [apply Hend; [lia|done|done]|].
  destruct fuel as [|fuel]; [lia|]. cbn [for_loop]. rewrite Hlc, bool_decide_eq_false_2 by done.
  rewrite lookup_take_lt, Hch by lia.
  destruct (iteration_good [] settings c p ch m ltac:(lia) I) as (m1 & f & E1 & Hg).
  rewrite E1. cbn [rbind fst snd].
  destruct (iteration_cut [] ch c (length data) p m ltac:(lia) ltac:(lia) I) as [Eq|(m2 & Eq & Hc2)];
    rewrite E1 in Eq.
  - rewrite E in Eq. injection Eq as -> ->. destruct Hg as [Hp' _]. lia.
  - injection Eq as -> ->. destruct Hg as [_ I']. replace (c - 1 + 1)%nat with c in * by lia.
    apply Hend; [lia|done|]. by rewrite Hc2.
Qed.

(** Of a request cut short by TCP, wherever the cut is, the parser consumes all that has
    arrived without error and never reports the end of the message. *)
Theorem request_cut r c :
  wf_request r → (c < length (wire r))%nat →
  ∃ m, http_parser_execute wrapper_settings (http_parser_init HTTP_REQUEST) (take c (wire r)) =
         Ok (Some (m, Z.of_nat c)) ∧
    http_errno (parser m) = HPE_OK ∧ CBmessage_complete ∉ calls m.
Proof.
  intros Hwf Hc. destruct c as [|c].
  - eexists. split; [reflexivity|]. split; [done|]. by apply not_elem_of_nil.
  - destruct (runs_cut (wire r) (request_calls r) (S c) (request_run r Hwf) ltac:(lia))
      as (m & E & He & Hi). by exists m.
Qed.

Lemma request_cut_witness :
  ∃ m, http_parser_execute wrapper_settings (http_parser_init HTTP_REQUEST)
         (take 60 (wire demo_chunked)) = Ok (Some (m, 60%Z)) ∧
    http_errno (parser m) = HPE_OK ∧ CBmessage_complete ∉ calls m.
Proof. apply (request_cut demo_chunked 60); [exact demo_chunked_wf|vm_compute; lia]. Defined.
