(* ===== verification/HttpLimits.v ===== *)
(** Where the vendored parser stops or miscounts: a URL that never ends, a method whose name
    the source misspells, and a Content-Length beyond 64 bits. *)

From S2P Require Import Prelude HttpMachine HttpSafe HttpRun HttpHeader HttpRequest HttpCut.

(** ** Reaching a byte of the loop *)

Lemma execute_eat w rest m :
  w ≠ [] → eat (length (w ++ rest)) w 0 start = Some m →
  ∃ fuel, http_parser_execute settings (http_parser_init HTTP_REQUEST) (w ++ rest) =
            for_loop settings fuel (w ++ rest) (length w) m ∧ (length rest < fuel)%nat.
Proof.
  intros Hw E. rewrite execute_start by (by destruct w).
  destruct (steps_loop _ _ _ _ _ (length (w ++ rest) + 1)
    (eat_steps (w ++ rest) w 0 start m ltac:(by rewrite drop_0, take_app_length) E) ltac:(lia))
    as (fuel & -> & Hf).
  exists fuel. split; [done|]. rewrite length_app in Hf. lia.
Qed.

(** The byte after [w] ends the call. *)
Lemma execute_stop w ch rest m m' p' :
  w ≠ [] → eat (length (w ++ ch :: rest)) w 0 start = Some m →
  iteration settings ch (length (w ++ ch :: rest)) (length w) m = Ok (m', GotoError p') →
  http_parser_execute settings (http_parser_init HTTP_REQUEST) (w ++ ch :: rest) =
  Ok (Some (at_error p' m')).
Proof.
  intros Hw E Ei. destruct (execute_eat w (ch :: rest) m Hw E) as (fuel & -> & Hf).
  destruct fuel as [|fuel]; [cbn in Hf; lia|]. cbn [for_loop].
  rewrite bool_decide_eq_false_2 by (rewrite length_app; cbn; lia).
  rewrite list_lookup_middle by done. by rewrite Ei.
Qed.

(** ** A method that is not recognised *)

(** [M-SEARCH] is in the table of methods, but with blanks around the hyphen, so that a
    request with that method is refused at its third byte, whatever follows. *)
Theorem msearch_refused rest :
  ∃ m, http_parser_execute wrapper_settings (http_parser_init HTTP_REQUEST) ("M-SEARCH" ++ rest) =
         Ok (Some (m, 2%Z)) ∧
    http_errno (parser m) = HPE_INVALID_METHOD ∧ calls m = [].
Proof.
  change (cstr "M-SEARCH" ++ rest) with (cstr "M-" ++ "S"%char :: (cstr "EARCH" ++ rest)).
  eexists. split.
  { etransitivity; [eapply execute_stop; [done|vm_compute; reflexivity|vm_compute; reflexivity]|].
    vm_compute. reflexivity. }
  by split.
Qed.

(** ** A URL that never ends *)

Lemma eat_visible len u p s h i nr me a cs :
  path_state s = true → Forall (λ c, visible c = true) u →
  (0 ≤ nr)%Z → (nr + slen u ≤ HTTP_MAX_HEADER_SIZE)%Z →
  ∃ s', path_state s' = true ∧
    eat len u p (reading s h i nr 0 ULLONG_MAX 0 0 me (url_at a) cs) =
    Some (reading s' h i (nr + slen u) 0 ULLONG_MAX 0 0 me (url_at a) cs).
Proof.
  revert p s nr. induction u as [|c u IH]; intros p s nr Hs Hu Hn Hmax.
  { exists s. split; [done|]. rewrite slen_nil, Z.add_0_r. done. }
  apply Forall_cons in Hu as [Hc Hu]. rewrite slen_cons in *. pose proof (slen_nonneg u).
  rewrite eat_url_byte by (done || lia).
  destruct (IH (p + 1)%nat (parse_url_char s c) (nr + 1)%Z) as (s' & Hs' & ->);
    [by apply path_visible|done|lia|lia|].
  exists s'. split; [done|]. by rewrite <- Z.add_assoc.
Qed.

(** The line and headers of a request have a bound: a URL that goes on past the limit of
    80 KiB is refused exactly at that limit, and nothing of it is ever reported. *)
Theorem url_too_long u :
  Forall (λ c, visible c = true) u → (HTTP_MAX_HEADER_SIZE < slen u + 5)%Z →
  ∃ m, http_parser_execute wrapper_settings (http_parser_init HTTP_REQUEST) ("GET /" ++ u) =
         Ok (Some (m, HTTP_MAX_HEADER_SIZE)) ∧
    http_errno (parser m) = HPE_HEADER_OVERFLOW ∧ calls m = [].
Proof.
  intros Hu Hlen. set (k := Z.to_nat (HTTP_MAX_HEADER_SIZE - 5)).
  assert (Hk : Z.of_nat k = (HTTP_MAX_HEADER_SIZE - 5)%Z) by (unfold k, HTTP_MAX_HEADER_SIZE; lia).
  clearbody k. destruct (lookup_lt_is_Some_2 u k) as [ch Hch]; [unfold slen in Hlen; lia|].
  rewrite <- (take_drop_middle u k ch Hch) in *. set (u2 := drop (S k) u).
  assert (Hk1 : length (take k u) = k).
  { rewrite length_take. apply lookup_lt_Some in Hch. lia. }
  rewrite Forall_app, Forall_cons in Hu. destruct Hu as (Hu1 & _ & _).
  set (u1 := take k u) in *. clearbody u1 u2. rewrite app_assoc.
  set (len := length ((cstr "GET /" ++ u1) ++ ch :: u2)).
  assert (E0 : eat len "GET /" 0 start =
    Some (reading s_req_path h_general 4 5 0 ULLONG_MAX 0 0 1 (url_at 4) [])) by reflexivity.
  destruct (eat_visible len u1 5 s_req_path h_general 4 5 1 4 []) as (s' & Hs' & E1);
    [done|done|lia|unfold slen; lia|].
  assert (5 + slen u1 = HTTP_MAX_HEADER_SIZE)%Z as Hn by (unfold slen; lia). rewrite Hn in E1.
  assert (Z.of_nat (length (cstr "GET /" ++ u1)) = HTTP_MAX_HEADER_SIZE) as Hend.
  { rewrite length_app. cbn -[Z.of_nat]. lia. }
  eexists. split.
  { etransitivity; [eapply execute_stop; [done| |]|].
    - rewrite (eat_app _ _ _ _ _ _ E0). exact E1.
    - unfold iteration. cbn [parser reading state].
      replace (PARSING_HEADER s') with true by (by destruct s'). reflexivity.
    - unfold at_error. rewrite Hend. reflexivity. }
  by split.
Qed.

Lemma url_too_long_witness :
  let u := replicate (Z.to_nat 81920) "a"%char in
  ∃ m, http_parser_execute wrapper_settings (http_parser_init HTTP_REQUEST) ("GET /" ++ u) =
         Ok (Some (m, HTTP_MAX_HEADER_SIZE)) ∧
    http_errno (parser m) = HPE_HEADER_OVERFLOW ∧ calls m = [].
Proof.
  intros u. apply url_too_long.
  - apply Forall_replicate. reflexivity.
  - unfold u, slen. rewrite length_replicate, Z2Nat.id by lia. reflexivity.
Defined.

(** ** A Content-Length beyond 64 bits *)

(** What the parser reported at a point of its run, it reported when the call ends. *)
Lemma execute_prefix w rest m :
  w ≠ [] → eat (length (w ++ rest)) w 0 start = Some m →
  ∃ m' n, http_parser_execute settings (http_parser_init HTTP_REQUEST) (w ++ rest) =
            Ok (Some (m', n)) ∧ calls m `prefix_of` calls m'.
Proof.
  intros Hw E. destruct (execute_eat w rest m Hw E) as (fuel & -> & Hf).
  pose proof (eat_steps (w ++ rest) w 0 start m ltac:(by rewrite drop_0, take_app_length) E) as S.
  pose proof (inv_before _ _ _ _ _ (steps_inv [] _ _ _ _ _ S (start_inv _))) as I.
  destruct (for_loop_ok (calls m) settings (w ++ rest) fuel (length w) m) as (m' & n & -> & Hok);
    [rewrite length_app; lia|exact I|rewrite length_app; lia|].
  exists m', n. split; [done|apply Hok].
Qed.

Definition long_head : str :=
  "POST / HTTP/1.1" ++ CRLF ++ "Content-Length: 50000000000000000000" ++ CRLF ++ CRLF.

(** The test for an overflow of the Content-Length misses some: fifty quintillions, which
    do not fit 64 bits, are accepted and reported to the callback modulo 2^64, whatever
    follows the headers. *)
Theorem content_length_wraps rest :
  ∃ m n cs, http_parser_execute wrapper_settings (http_parser_init HTTP_REQUEST) (long_head ++ rest) =
         Ok (Some (m, n)) ∧
    calls m = [CBurl 5 1; CBheader_field 17 14; CBheader_value 33 20;
      CBheaders_complete (slen long_head) (u64 50000000000000000000)] ++ cs ∧
    u64 50000000000000000000 = 13106511852580896768%Z.
Proof.
  assert (∃ m, eat (length (long_head ++ rest)) long_head 0 start = Some m ∧
    calls m = [CBurl 5 1; CBheader_field 17 14; CBheader_value 33 20;
      CBheaders_complete (slen long_head) (u64 50000000000000000000)]) as (m & E & Ec).
  { generalize (length (long_head ++ rest)). intros len. eexists. split; vm_compute; reflexivity. }
  destruct (execute_prefix long_head rest m ltac:(done) E) as (m' & n & E' & cs & Hcs).
  exists m', n, cs. split_and!; [done|by rewrite Hcs, Ec|reflexivity].
Qed.
