(* ===== verification/HttpUrl.v ===== *)
(** [http_parser_parse_url] and what else [service/http_parser.cc] offers beside the parsing of
    messages: [http_parser_pause], [http_body_is_final], the names of methods and errors, the
    version.

    [mem] is the memory from [buf] on; reading beyond it is undefined.  The fields of the
    result are 16 bits wide, and [None] before they are written, unless the caller has
    cleared them.  Of a result other than 0 only the number is kept. *)

From S2P Require Import Prelude HttpMachine.

Local Notation "c =c d" := (bool_decide (c = d%char)) (at level 70, only parsing).

(** ** The host *)

Inductive http_host_state : Type :=
  | s_http_host_dead | s_http_userinfo_start | s_http_userinfo | s_http_host_start
  | s_http_host_v6_start | s_http_host | s_http_host_v6 | s_http_host_v6_end
  | s_http_host_port_start | s_http_host_port.
#[export] Instance http_host_state_eq_dec : EqDecision http_host_state.
Proof. solve_decision. Defined.

Definition IS_HEX (c : ascii) : bool := IS_NUM c || ((97 <=? LOWER c) && (LOWER c <=? 102))%Z.
Definition IS_HOST_CHAR (c : ascii) : bool := IS_ALPHANUM c || (c =c ".") || (c =c "-").

Definition http_parse_host_char (s : http_host_state) (ch : ascii) : http_host_state :=
  match s with
  | s_http_userinfo | s_http_userinfo_start =>
      if ch =c "@" then s_http_host_start
      else if IS_USERINFO_CHAR ch then s_http_userinfo else s_http_host_dead
  | s_http_host_start =>
      if ch =c "[" then s_http_host_v6_start
      else if IS_HOST_CHAR ch then s_http_host else s_http_host_dead
  | s_http_host =>
      if IS_HOST_CHAR ch then s_http_host
      else if ch =c ":" then s_http_host_port_start else s_http_host_dead
  | s_http_host_v6_end => if ch =c ":" then s_http_host_port_start else s_http_host_dead
  | s_http_host_v6 =>
      if ch =c "]" then s_http_host_v6_end
      else if IS_HEX ch || (ch =c ":") || (ch =c ".") then s_http_host_v6 else s_http_host_dead
  | s_http_host_v6_start =>
      if IS_HEX ch || (ch =c ":") || (ch =c ".") then s_http_host_v6 else s_http_host_dead
  | s_http_host_port | s_http_host_port_start =>
      if IS_NUM ch then s_http_host_port else s_http_host_dead
  | s_http_host_dead => s_http_host_dead
  end.

(** ** The result *)

Inductive url_field : Type :=
  UF_SCHEMA | UF_HOST | UF_PORT | UF_PATH | UF_QUERY | UF_FRAGMENT | UF_USERINFO.
#[export] Instance url_field_eq_dec : EqDecision url_field.
Proof. solve_decision. Defined.

(** The bits of [field_set] as a list; [off] and [len] of the fields. *)
Record http_parser_url : Type := MkUrl {
  field_set : list url_field;
  url_port : Z;
  field_data : url_field → option (Z * Z)
}.

Definition is_set (f : url_field) (u : http_parser_url) : bool := bool_decide (f ∈ field_set u).
Definition set_bit (f : url_field) (u : http_parser_url) : http_parser_url :=
  MkUrl (if is_set f u then field_set u else f :: field_set u) (url_port u) (field_data u).
Definition set_data (f : url_field) (off len : Z) (u : http_parser_url) : http_parser_url :=
  MkUrl (field_set u) (url_port u) (λ g, if bool_decide (g = f) then Some (off, len) else field_data u g).

(** [u->field_data[f]], of two [uint16_t]. *)
Definition data_of {A} (f : url_field) (u : http_parser_url) (k : Z * Z → result A) : result A :=
  match field_data u f with Some d => k d | None => Undef UninitRead end.

(** [u->field_data[f].off = p - buf] with the length [len], and [u->field_data[f].len++]. *)
Definition begin_field (f : url_field) (p len : Z) (u : http_parser_url) : http_parser_url :=
  set_data f (u16 p) len u.
Definition grow_field (f : url_field) (u : http_parser_url) : result http_parser_url :=
  data_of f u (λ d, Ok (set_data f d.1 (u16 (d.2 + 1)) u)).

(** The body of the loop of [http_parse_host], when the state changes from [s] to [new_s] at
    the offset [p]. *)
Definition host_field (s new_s : http_host_state) (p : Z) (u : http_parser_url) : result http_parser_url :=
  match new_s with
  | s_http_host | s_http_host_v6 =>
      data_of UF_HOST u (λ d,
        grow_field UF_HOST
          (if bool_decide (s = new_s) then u else set_data UF_HOST (u16 p) d.2 u))
  | s_http_host_port =>
      grow_field UF_PORT
        (if bool_decide (s = new_s) then u else set_bit UF_PORT (begin_field UF_PORT p 0 u))
  | s_http_userinfo =>
      grow_field UF_USERINFO
        (if bool_decide (s = new_s) then u else set_bit UF_USERINFO (begin_field UF_USERINFO p 0 u))
  | _ => Ok u
  end.

(** [None]: the result is 1. *)
Fixpoint host_loop (mem : str) (n : nat) (p : Z) (s : http_host_state) (u : http_parser_url)
    : result (option (http_host_state * http_parser_url)) :=
  match n with
  | O => Ok (Some (s, u))
  | S n =>
      match mem !! Z.to_nat p with
      | None => Undef OutOfBounds
      | Some ch =>
          let new_s := http_parse_host_char s ch in
          if bool_decide (new_s = s_http_host_dead) then Ok None
          else let* u := host_field s new_s p u in host_loop mem n (p + 1) new_s u
      end
  end.

Definition http_parse_host (mem : str) (found_at : bool) (u : http_parser_url)
    : result (option http_parser_url) :=
  data_of UF_HOST u (λ d,
    let u := set_data UF_HOST d.1 0 u in
    let* r := host_loop mem (Z.to_nat d.2) d.1
                (if found_at then s_http_userinfo_start else s_http_host_start) u in
    Ok match r with
       | None => None
       | Some (s, u) =>
           match s with
           | s_http_host_start | s_http_host_v6_start | s_http_host_v6 | s_http_host_port_start
           | s_http_userinfo | s_http_userinfo_start => None
           | _ => Some u
           end
       end).

(** ** The URL *)

(** What the switch of the loop makes of a state: the field it belongs to, and whether a
    user's name was seen. *)
Inductive url_class : Type := UDead | USkip | UField (f : url_field) (at_seen : bool) | UUnexpected.
Definition classify (s : pstate) : url_class :=
  match s with
  | s_dead => UDead
  | s_req_schema_slash | s_req_schema_slash_slash | s_req_server_start
  | s_req_query_string_start | s_req_fragment_start => USkip
  | s_req_schema => UField UF_SCHEMA false
  | s_req_server_with_at => UField UF_HOST true
  | s_req_server => UField UF_HOST false
  | s_req_path => UField UF_PATH false
  | s_req_query_string => UField UF_QUERY false
  | s_req_fragment => UField UF_FRAGMENT false
  | _ => UUnexpected
  end.

(** The loop; [old_uf] is [None] for [UF_MAX]. *)
Fixpoint url_loop (l : str) (p : Z) (s : pstate) (old_uf : option url_field) (found_at : bool)
    (u : http_parser_url) : result (option (bool * http_parser_url)) :=
  match l with
  | [] => Ok (Some (found_at, u))
  | ch :: l =>
      let s := parse_url_char s ch in
      match classify s with
      | UDead => Ok None
      | USkip => url_loop l (p + 1) s old_uf found_at u
      | UUnexpected => Undef AssertFailed
      | UField uf at_seen =>
          let found_at := found_at || at_seen in
          if bool_decide (old_uf = Some uf) then
            let* u := grow_field uf u in url_loop l (p + 1) s old_uf found_at u
          else url_loop l (p + 1) s (Some uf) found_at (set_bit uf (begin_field uf p 1 u))
      end
  end.

(** [strtoul] of digits, which is what a port starts with: it reads up to the first byte that
    is none. *)
Definition ULONG_MAX : Z := 2 ^ 64 - 1.
Fixpoint strtoul (acc : Z) (s : str) : result Z :=
  match s with
  | [] => Undef OutOfBounds
  | c :: s => if is_digit c then strtoul (acc * 10 + (u8 c - 48)) s else Ok (Z.min acc ULONG_MAX)
  end.

(** [None]: the result is 1. *)
Definition http_parser_parse_url (mem : str) (buflen : nat) (is_connect : bool) (u : http_parser_url)
    : result (option http_parser_url) :=
  let u := MkUrl [] 0 (field_data u) in
  let s := if is_connect then s_req_server_start else s_req_spaces_before_url in
  let* r := url_loop (take buflen mem) 0 s None false u in
  match r with
  | None => Ok None
  | Some (found_at, u) =>
      let* r := (if is_set UF_SCHEMA u || is_set UF_HOST u then http_parse_host mem found_at u
                 else Ok (Some u)) in
      match r with
      | None => Ok None
      | Some u =>
          if is_connect &&
             negb (bool_decide (Forall (λ f, is_set f u = bool_decide (f ∈ [UF_HOST; UF_PORT]))
               [UF_SCHEMA; UF_HOST; UF_PORT; UF_PATH; UF_QUERY; UF_FRAGMENT; UF_USERINFO]))
          then Ok None
          else if is_set UF_PORT u then
            data_of UF_PORT u (λ d,
              let* v := strtoul 0 (drop (Z.to_nat d.1) mem) in
              Ok (if (0xffff <? v)%Z then None else Some (MkUrl (field_set u) (u16 v) (field_data u))))
          else Ok (Some u)
      end
  end.

(** ** The rest *)

(** [ELEM_AT(method_strings, m, ..)] *)
Definition http_method_str (m : Z) : str :=
  if ((0 <=? m) && (m <? Z.of_nat (length method_strings)))%Z then nth (Z.to_nat m) method_strings "<unknown>"
  else "<unknown>".

(** The name and the description of an error; [http_strerror_tab] has an entry for each. *)
Definition http_strerror (e : errno) : str * str :=
  match e with
  | HPE_OK => ("HPE_OK" : str, "success" : str)
  | HPE_CB_message_begin => ("HPE_CB_message_begin" : str, "the on_message_begin callback failed" : str)
  | HPE_CB_status_complete => ("HPE_CB_status_complete" : str, "the on_status_complete callback failed" : str)
  | HPE_CB_url => ("HPE_CB_url" : str, "the on_url callback failed" : str)
  | HPE_CB_header_field => ("HPE_CB_header_field" : str, "the on_header_field callback failed" : str)
  | HPE_CB_header_value => ("HPE_CB_header_value" : str, "the on_header_value callback failed" : str)
  | HPE_CB_headers_complete => ("HPE_CB_headers_complete" : str, "the on_headers_complete callback failed" : str)
  | HPE_CB_body => ("HPE_CB_body" : str, "the on_body callback failed" : str)
  | HPE_CB_message_complete => ("HPE_CB_message_complete" : str, "the on_message_complete callback failed" : str)
  | HPE_INVALID_EOF_STATE => ("HPE_INVALID_EOF_STATE" : str, "stream ended at an unexpected time" : str)
  | HPE_HEADER_OVERFLOW => ("HPE_HEADER_OVERFLOW" : str, "too many header bytes seen; overflow detected" : str)
  | HPE_CLOSED_CONNECTION =>
      ("HPE_CLOSED_CONNECTION" : str, "data received after completed connection: close message" : str)
  | HPE_INVALID_VERSION => ("HPE_INVALID_VERSION" : str, "invalid HTTP version" : str)
  | HPE_INVALID_STATUS => ("HPE_INVALID_STATUS" : str, "invalid HTTP status code" : str)
  | HPE_INVALID_METHOD => ("HPE_INVALID_METHOD" : str, "invalid HTTP method" : str)
  | HPE_INVALID_URL => ("HPE_INVALID_URL" : str, "invalid URL" : str)
  | HPE_INVALID_HOST => ("HPE_INVALID_HOST" : str, "invalid host" : str)
  | HPE_INVALID_PORT => ("HPE_INVALID_PORT" : str, "invalid port" : str)
  | HPE_INVALID_PATH => ("HPE_INVALID_PATH" : str, "invalid path" : str)
  | HPE_INVALID_QUERY_STRING => ("HPE_INVALID_QUERY_STRING" : str, "invalid query string" : str)
  | HPE_INVALID_FRAGMENT => ("HPE_INVALID_FRAGMENT" : str, "invalid fragment" : str)
  | HPE_LF_EXPECTED => ("HPE_LF_EXPECTED" : str, "LF character expected" : str)
  | HPE_INVALID_HEADER_TOKEN => ("HPE_INVALID_HEADER_TOKEN" : str, "invalid character in header" : str)
  | HPE_INVALID_CONTENT_LENGTH =>
      ("HPE_INVALID_CONTENT_LENGTH" : str, "invalid character in content-length header" : str)
  | HPE_INVALID_CHUNK_SIZE => ("HPE_INVALID_CHUNK_SIZE" : str, "invalid character in chunk size header" : str)
  | HPE_INVALID_CONSTANT => ("HPE_INVALID_CONSTANT" : str, "invalid constant string" : str)
  | HPE_INVALID_INTERNAL_STATE =>
      ("HPE_INVALID_INTERNAL_STATE" : str, "encountered unexpected internal state" : str)
  | HPE_STRICT => ("HPE_STRICT" : str, "strict mode assertion failed" : str)
  | HPE_PAUSED => ("HPE_PAUSED" : str, "parser is paused" : str)
  | HPE_UNKNOWN => ("HPE_UNKNOWN" : str, "an unknown error occurred" : str)
  end.
Definition http_errno_name (e : errno) : str := (http_strerror e).1.
Definition http_errno_description (e : errno) : str := (http_strerror e).2.

Definition http_body_is_final (p : http_parser) : bool := bool_decide (state p = s_message_done).

(** [http_parser_pause]; with an error other than the pause the assertion fails. *)
Definition http_parser_pause (paused : bool) (p : http_parser) : result http_parser :=
  if bool_decide (http_errno p = HPE_OK) || bool_decide (http_errno p = HPE_PAUSED)
  then Ok (set_http_errno (if paused then HPE_PAUSED else HPE_OK) p)
  else Undef AssertFailed.

Definition http_parser_version : Z :=
  Z.lor (Z.lor (2 * 0x10000) (1 * 0x00100)) (0 * 0x00001).

(** ** The fields lie in the URL *)

(** A cleared [http_parser_url]. *)
Definition cleared : http_parser_url := MkUrl [] 0 (λ _, Some (0, 0)%Z).

(** The states before the host. *)
Definition before_host (s : pstate) : bool :=
  match s with
  | s_req_spaces_before_url | s_req_schema | s_req_schema_slash | s_req_schema_slash_slash
  | s_req_server_start => true
  | _ => false
  end.
Definition in_host (s : pstate) : bool :=
  match s with s_req_server | s_req_server_with_at => true | _ => false end.

(** The fields after the first [p] bytes of [mem]. *)
Record url_inv (mem : str) (p : nat) (s : pstate) (old : option url_field) (u : http_parser_url) : Prop := {
  u_data f : ∃ off len, field_data u f = Some (Z.of_nat off, Z.of_nat len) ∧
    (is_set f u = true → (off + len ≤ p)%nat) ∧ (is_set f u = false → off = 0%nat ∧ len = 0%nat);
  u_old f : old = Some f → is_set f u = true;
  u_later : is_set UF_PORT u = false ∧ is_set UF_USERINFO u = false;
  u_before : before_host s = true → is_set UF_HOST u = false;
  u_in : in_host s = true → old = Some UF_HOST;
  u_host : is_set UF_HOST u = true → ∃ off len, field_data u UF_HOST = Some (Z.of_nat off, Z.of_nat len) ∧
    if in_host s then (off + len)%nat = p else ∃ c, mem !! (off + len)%nat = Some c ∧ is_digit c = false
}.

Lemma u16_small z : (0 ≤ z < 2 ^ 16)%Z → u16 z = z.
Proof. apply wrap_small. Qed.

Lemma is_set_set_bit f g u : is_set g (set_bit f u) = bool_decide (g = f) || is_set g u.
Proof.
  apply Bool.eq_iff_eq_true. unfold set_bit, is_set. rewrite orb_true_iff, !bool_decide_eq_true. cbn.
  case_bool_decide; set_solver.
Qed.

(** What the next byte may change. *)
Lemma parse_url_char_host s ch :
  in_host s = false → in_host (parse_url_char s ch) = true → before_host s = true.
Proof.
  unfold parse_url_char. destruct (_ || _ || _); [done|]. destruct (_ || _); [done|].
  destruct s; try done; unfold url_server_char; intros _;
    repeat match goal with |- context [if ?b then _ else _] => destruct b end; done.
Qed.

Lemma parse_url_char_before s ch :
  before_host (parse_url_char s ch) = true → before_host s = true.
Proof.
  unfold parse_url_char. destruct (_ || _ || _); [done|]. destruct (_ || _); [done|].
  destruct s; try done; unfold url_server_char;
    repeat match goal with |- context [if ?b then _ else _] => destruct b end; done.
Qed.

Lemma parse_url_char_leaves s ch :
  in_host s = true → in_host (parse_url_char s ch) = false → parse_url_char s ch ≠ s_dead →
  is_digit ch = false.
Proof.
  unfold parse_url_char. destruct (_ || _ || _); [done|]. destruct (_ || _); [done|].
  destruct s; try done; unfold url_server_char; intros _;
    repeat match goal with |- context [if bool_decide ?b then _ else _] => destruct (decide b) as [->|];
      [rewrite (bool_decide_eq_true_2 _ eq_refl)|rewrite bool_decide_eq_false_2 by done] end;
    try done; destruct (_ || _); done.
Qed.

Lemma classify_field s f a :
  classify s = UField f a → f ≠ UF_PORT ∧ f ≠ UF_USERINFO ∧ in_host s = bool_decide (f = UF_HOST) ∧
  (f = UF_HOST → before_host s = false).
Proof. destruct s; try done; intros [= <- <-]; done. Qed.

Lemma classify_known s ch : classify (parse_url_char s ch) ≠ UUnexpected.
Proof.
  unfold parse_url_char. destruct (_ || _ || _); [done|]. destruct (_ || _); [done|].
  destruct s; try done; unfold url_server_char;
    repeat match goal with |- context [if ?b then _ else _] => destruct b end; done.
Qed.

(** A byte that begins no field and continues none. *)
Lemma url_inv_skip mem p s old u ch :
  url_inv mem p s old u → mem !! p = Some ch → parse_url_char s ch ≠ s_dead →
  in_host (parse_url_char s ch) = false → url_inv mem (S p) (parse_url_char s ch) old u.
Proof.
  intros [H1 H2 H3 H4 H5 H6] Hch Hd Hin. split; [|done|done| | |].
  - intros f. destruct (H1 f) as (off & len & E & A & B). exists off, len. split_and!; [done| |done].
    intros Hs. specialize (A Hs). lia.
  - intros Hb. by apply H4, (parse_url_char_before _ ch).
  - congruence.
  - intros Hs. destruct (H6 Hs) as (off & len & E & Hc). exists off, len. split; [done|]. rewrite Hin.
    destruct (in_host s) eqn:Hs0; [|done]. exists ch. rewrite Hc. split; [done|].
    by apply (parse_url_char_leaves s).
Qed.

Lemma url_inv_grow mem p s f a u ch :
  url_inv mem p s (Some f) u → mem !! p = Some ch → (Z.of_nat (S p) < 2 ^ 16)%Z →
  classify (parse_url_char s ch) = UField f a →
  ∃ u', grow_field f u = Ok u' ∧ url_inv mem (S p) (parse_url_char s ch) (Some f) u'.
Proof.
  intros H Hch Hp Hc. pose proof H as [H1 H2 H3 H4 H5 H6].
  destruct (classify_field _ _ _ Hc) as (N1 & N2 & Hin & Hbef).
  pose proof (H2 f eq_refl) as Hset. destruct (H1 f) as (off & len & E & A & _). specialize (A Hset).
  unfold grow_field, data_of. rewrite E. eexists. split; [reflexivity|]. cbn [fst snd].
  rewrite (u16_small (Z.of_nat len + 1)) by lia.
  assert (parse_url_char s ch ≠ s_dead) as Hd by (intros Ed; by rewrite Ed in Hc).
  split; [|done|done| | |].
  - intros g. unfold set_data. cbn [field_data]. destruct (decide (g = f)) as [->|Hn].
    + rewrite bool_decide_eq_true_2 by done. exists off, (S len).
      split_and!; [do 2 f_equal; lia|intros _; lia|]. intros Hf. change (is_set f u = false) in Hf. congruence.
    + rewrite bool_decide_eq_false_2 by done. destruct (H1 g) as (o & l & E' & A' & B'). exists o, l.
      split_and!; [done| |done]. intros Hs. specialize (A' Hs). lia.
  - intros Hb. apply H4, (parse_url_char_before _ ch), Hb.
  - rewrite Hin. intros ->%bool_decide_eq_true. done.
  - intros Hs. unfold set_data. cbn [field_data]. destruct (decide (f = UF_HOST)) as [->|Hn].
    + rewrite Hin, !bool_decide_eq_true_2 by done. exists off, (S len).
      split; [do 2 f_equal; lia|]. destruct (H6 Hset) as (o & l & E' & Hh). rewrite E in E'.
      injection E' as ? ?. destruct (in_host s) eqn:Hs0; [cbn in *; lia|].
      assert (before_host s = true) as Hb by by apply (parse_url_char_host _ ch); [|rewrite Hin].
      rewrite (H4 Hb) in Hset. done.
    + rewrite bool_decide_eq_false_2 by done. rewrite Hin, bool_decide_eq_false_2 by done.
      destruct (url_inv_skip mem p s (Some f) u ch H Hch Hd) as [_ _ _ _ _ G];
        [by rewrite Hin, bool_decide_eq_false_2|].
      specialize (G Hs). by rewrite Hin, bool_decide_eq_false_2 in G.
Qed.

Lemma url_inv_begin mem p s old f a u ch :
  url_inv mem p s old u → mem !! p = Some ch → (Z.of_nat (S p) < 2 ^ 16)%Z →
  classify (parse_url_char s ch) = UField f a → old ≠ Some f →
  url_inv mem (S p) (parse_url_char s ch) (Some f) (set_bit f (begin_field f (Z.of_nat p) 1 u)).
Proof.
  intros H Hch Hp Hc Hold. pose proof H as [H1 H2 H3 H4 H5 H6].
  destruct (classify_field _ _ _ Hc) as (N1 & N2 & Hin & Hbef).
  assert (parse_url_char s ch ≠ s_dead) as Hd by (intros Ed; by rewrite Ed in Hc).
  assert (∀ g, field_data (set_bit f (begin_field f (Z.of_nat p) 1 u)) g =
    if bool_decide (g = f) then Some (Z.of_nat p, 1)%Z else field_data u g) as Hdata.
  { intros g. unfold begin_field. by rewrite u16_small by lia. }
  assert (∀ g, is_set g (set_bit f (begin_field f (Z.of_nat p) 1 u)) = bool_decide (g = f) || is_set g u) as Hsets.
  { intros g. by rewrite is_set_set_bit. }
  split.
  - intros g. rewrite Hdata, Hsets. destruct (decide (g = f)) as [->|Hn].
    + rewrite bool_decide_eq_true_2 by done. exists p, 1%nat. split_and!; [done|intros _; lia|done].
    + rewrite bool_decide_eq_false_2 by done. destruct (H1 g) as (o & l & E' & A' & B'). exists o, l.
      split_and!; [done| |done]. intros Hs. specialize (A' Hs). lia.
  - intros g [= <-]. rewrite Hsets, bool_decide_eq_true_2; done.
  - rewrite !Hsets, !bool_decide_eq_false_2 by done. exact H3.
  - intros Hb. rewrite Hsets, bool_decide_eq_false_2 by (intros <-; by rewrite (Hbef eq_refl) in Hb).
    apply H4, (parse_url_char_before _ ch), Hb.
  - rewrite Hin. by intros ->%bool_decide_eq_true.
  - rewrite Hsets, Hdata, Hin. destruct (decide (f = UF_HOST)) as [->|Hn].
    + rewrite !bool_decide_eq_true_2 by done. intros _. exists p, 1%nat. split; [done|lia].
    + rewrite !bool_decide_eq_false_2 by done. cbn [orb]. intros Hs.
      destruct (url_inv_skip mem p s old u ch H Hch Hd) as [_ _ _ _ _ G];
        [by rewrite Hin, bool_decide_eq_false_2|].
      specialize (G Hs). by rewrite Hin, bool_decide_eq_false_2 in G.
Qed.

(** The loop ends with the fields in the first [n] bytes. *)
Lemma url_loop_ok mem n l p s old found u :
  url_inv mem p s old u → l = take (n - p) (drop p mem) → (p ≤ n)%nat → (n ≤ length mem)%nat →
  (Z.of_nat n < 2 ^ 16)%Z →
  url_loop l (Z.of_nat p) s old found u = Ok None ∨
  ∃ found' s' old' u', url_loop l (Z.of_nat p) s old found u = Ok (Some (found', u')) ∧
    url_inv mem n s' old' u'.
Proof.
  revert p s old found u. induction l as [|ch l IH]; intros p s old found u H Hl Hp Hn H16.
  { right. exists found, s, old, u. split; [done|].
    assert (p = n) as <-; [|done]. apply (f_equal length) in Hl. rewrite length_take, length_drop in Hl.
    cbn in Hl. lia. }
  assert (p < n)%nat as Hlt.
  { apply (f_equal length) in Hl. rewrite length_take, length_drop in Hl. cbn in Hl. lia. }
  assert (mem !! p = Some ch ∧ l = take (n - S p) (drop (S p) mem)) as [Hch Hl'].
  { replace (n - p)%nat with (S (n - S p)) in Hl by lia. destruct (mem !! p) as [c|] eqn:E.
    - rewrite (drop_S _ _ _ E) in Hl. cbn in Hl. by injection Hl as -> ->.
    - apply lookup_ge_None in E. lia. }
  cbn [url_loop]. replace (Z.of_nat p + 1)%Z with (Z.of_nat (S p)) by lia.
  pose proof (classify_known s ch) as Hk. destruct (classify (parse_url_char s ch)) as [| |f a|] eqn:Hc; [by left| | |done].
  - apply (IH (S p)); [|done|lia|done|done]. apply url_inv_skip; [done|done| |].
    + intros Ed. by rewrite Ed in Hc.
    + by destruct (parse_url_char s ch).
  - case_bool_decide as Ho.
    + subst old. destruct (url_inv_grow mem p s f a u ch H Hch) as (u' & E & H'); [lia|done|].
      rewrite E. cbn [rbind]. apply (IH (S p)); [done|done|lia|done|done].
    + apply (IH (S p)); [|done|lia|done|done]. by apply (url_inv_begin _ _ _ old _ a); [..|lia| |].
Qed.

(** ** The host and the port *)

Definition data_is (f : url_field) (u : http_parser_url) (off len : nat) : Prop :=
  field_data u f = Some (Z.of_nat off, Z.of_nat len).

(** The fields while the bytes of the host before [p] have been read; [n] is the length of the
    URL. *)
Record host_inv (mem : str) (n p : nat) (s : http_host_state) (u : http_parser_url) : Prop := {
  n_data f : ∃ off len, data_is f u off len ∧ (is_set f u = true → (off + len ≤ n)%nat);
  n_host : ∃ off len, data_is UF_HOST u off len ∧ (off ≤ p)%nat ∧
    match s with
    | s_http_host | s_http_host_v6 => (off + len)%nat = p
    | s_http_userinfo_start | s_http_userinfo | s_http_host_start | s_http_host_v6_start => len = 0%nat
    | _ => (off + len ≤ p)%nat
    end;
  n_port : if bool_decide (s = s_http_host_port) then
      is_set UF_PORT u = true ∧ ∃ off len, data_is UF_PORT u off len ∧ (off + len)%nat = p ∧ (0 < len)%nat ∧
        ∀ i, (off ≤ i < p)%nat → ∃ c, mem !! i = Some c ∧ is_digit c = true
    else is_set UF_PORT u = false;
  n_user : s = s_http_userinfo → ∃ off len, data_is UF_USERINFO u off len ∧ (off + len)%nat = p
}.

(** A field that grows by the byte at [p], where it ends. *)
Lemma grow_ok f off len p u :
  data_is f u off len → (off + len)%nat = p → (Z.of_nat (S p) < 2 ^ 16)%Z →
  ∃ u', grow_field f u = Ok u' ∧ data_is f u' off (S len) ∧ (∀ g, is_set g u' = is_set g u) ∧
    ∀ g, g ≠ f → field_data u' g = field_data u g.
Proof.
  intros E Hp H16. unfold grow_field, data_of. rewrite E. eexists. split; [reflexivity|]. cbn [fst snd].
  split_and!; [|done|].
  - unfold data_is, set_data. cbn [field_data]. rewrite bool_decide_eq_true_2 by done.
    rewrite u16_small by lia. do 2 f_equal. lia.
  - intros g Hg. unfold set_data. cbn [field_data]. by rewrite bool_decide_eq_false_2.
Qed.

(** A field that begins at [p]. *)
Lemma begin_ok f p u :
  (Z.of_nat (S p) < 2 ^ 16)%Z →
  ∃ u', grow_field f (set_bit f (begin_field f (Z.of_nat p) 0 u)) = Ok u' ∧ data_is f u' p 1 ∧
    (∀ g, is_set g u' = bool_decide (g = f) || is_set g u) ∧ ∀ g, g ≠ f → field_data u' g = field_data u g.
Proof.
  intros H16. destruct (grow_ok f p 0 p (set_bit f (begin_field f (Z.of_nat p) 0 u))) as (u' & E & D & A & B);
    [|lia|done|].
  - unfold data_is, set_bit, begin_field, set_data. cbn [field_data]. rewrite bool_decide_eq_true_2 by done.
    by rewrite u16_small by lia.
  - exists u'. split_and!; [done|done| |].
    + intros g. by rewrite A, is_set_set_bit.
    + intros g Hg. rewrite B by done. unfold set_bit, begin_field, set_data. cbn [field_data].
      by rewrite bool_decide_eq_false_2.
Qed.

Lemma data_keeps g u u' : field_data u' g = field_data u g → ∀ off len, data_is g u off len → data_is g u' off len.
Proof. unfold data_is. by intros ->. Qed.

(** The byte at [p] belongs to the host's name or address. *)
Lemma host_name_ok mem n p s new_s u :
  host_inv mem n p s u → (p < n)%nat → (Z.of_nat n < 2 ^ 16)%Z →
  new_s = s_http_host ∨ new_s = s_http_host_v6 →
  s = new_s ∨ s = s_http_host_start ∨ s = s_http_host_v6_start →
  ∃ u', host_field s new_s (Z.of_nat p) u = Ok u' ∧ host_inv mem n (S p) new_s u'.
Proof.
  intros [H1 (off & len & D & Ho & Hs) H3 H4] Hp H16 Hnew Hold.
  assert (∃ off', (off' + (p - off'))%nat = p ∧ (off' ≤ p)%nat ∧ data_is UF_HOST
    (if bool_decide (s = new_s) then u else set_data UF_HOST (u16 (Z.of_nat p)) (Z.of_nat len) u) off' (p - off'))
    as (off' & Ho' & Hle & D').
  { destruct (decide (s = new_s)) as [Hsn|Hsn];
      [rewrite bool_decide_eq_true_2 by done|rewrite bool_decide_eq_false_2 by done].
    - exists off. assert (off + len = p)%nat as <- by (rewrite Hsn in Hs; destruct Hnew as [E|E]; rewrite E in Hs; exact Hs).
      split_and!; [lia|lia|]. by replace (off + len - off)%nat with len by lia.
    - exists p. split_and!; [lia|lia|]. unfold data_is, set_data. cbn [field_data].
      rewrite bool_decide_eq_true_2 by done. rewrite u16_small by lia. rewrite Nat.sub_diag.
      destruct Hold as [->|[->| ->]]; [done|by subst len..]. }
  destruct (grow_ok _ _ _ _ _ D' Ho') as (u' & E & D2 & A & B); [lia|].
  exists u'. split.
  { unfold host_field, data_of. rewrite D. destruct Hnew as [->| ->]; exact E. }
  assert (∀ g, is_set g u' = is_set g u) as A'.
  { intros g. rewrite A. by destruct (bool_decide (s = new_s)). }
  assert (∀ g, g ≠ UF_HOST → field_data u' g = field_data u g) as B'.
  { intros g Hg. rewrite B by done. destruct (bool_decide (s = new_s)); [done|]. unfold set_data. cbn [field_data].
    by rewrite bool_decide_eq_false_2. }
  assert (bool_decide (s = s_http_host_port) = false) as Hnp.
  { apply bool_decide_eq_false. intros ->. destruct Hold as [<-|[?|?]]; [|done..]. by destruct Hnew. }
  rewrite Hnp in H3. split.
  - intros f. destruct (decide (f = UF_HOST)) as [->|Hn].
    + exists off', (S (p - off')). split; [done|]. intros _. lia.
    + destruct (H1 f) as (o & l & E1 & E2). exists o, l. rewrite A'. split; [|done].
      apply (data_keeps f u); [by apply B'|done].
  - exists off', (S (p - off')). split_and!; [done|lia|]. destruct Hnew as [->| ->]; lia.
  - rewrite bool_decide_eq_false_2 by (by destruct Hnew as [->| ->]). by rewrite A'.
  - intros ->. by destruct Hnew.
Qed.

(** From where each state is reached. *)
Lemma host_char_from s ch :
  match http_parse_host_char s ch with
  | s_http_host_dead => True
  | s_http_host => s = s_http_host ∨ s = s_http_host_start
  | s_http_host_v6 => s = s_http_host_v6 ∨ s = s_http_host_v6_start
  | s_http_host_port => (s = s_http_host_port ∨ s = s_http_host_port_start) ∧ is_digit ch = true
  | s_http_userinfo | s_http_host_start => s = s_http_userinfo ∨ s = s_http_userinfo_start
  | s_http_host_v6_start => s = s_http_host_start
  | s_http_host_v6_end => s = s_http_host_v6
  | s_http_host_port_start => s = s_http_host ∨ s = s_http_host_v6_end
  | s_http_userinfo_start => False
  end.
Proof.
  unfold http_parse_host_char, IS_NUM. destruct s; try done;
    repeat match goal with |- context [if ?b then _ else _] => destruct b eqn:? end; auto.
Qed.

(** A delimiter changes no field. *)
Lemma host_delimiter_ok mem n p s new_s u :
  host_inv mem n p s u → s ≠ s_http_host_port →
  match new_s with
  | s_http_host_start => s = s_http_userinfo ∨ s = s_http_userinfo_start
  | s_http_host_v6_start => s = s_http_host_start
  | s_http_host_v6_end => s = s_http_host_v6
  | s_http_host_port_start => s = s_http_host ∨ s = s_http_host_v6_end
  | _ => False
  end → host_inv mem n (S p) new_s u.
Proof.
  intros [H1 (off & len & D & Ho & Hs) H3 H4] Hnp Hfrom.
  rewrite bool_decide_eq_false_2 in H3 by done. split; [done| | |].
  - exists off, len. split_and!; [done|lia|]. destruct new_s; try done;
      repeat match goal with H : _ ∨ _ |- _ => destruct H end; subst s; try done; lia.
  - rewrite bool_decide_eq_false_2; [done|]. intros ->. done.
  - intros ->. done.
Qed.

Lemma host_port_ok mem n p s ch u :
  host_inv mem n p s u → mem !! p = Some ch → is_digit ch = true → (p < n)%nat → (Z.of_nat n < 2 ^ 16)%Z →
  s = s_http_host_port ∨ s = s_http_host_port_start →
  ∃ u', host_field s s_http_host_port (Z.of_nat p) u = Ok u' ∧ host_inv mem n (S p) s_http_host_port u'.
Proof.
  intros [H1 (off & len & D & Ho & Hs) H3 H4] Hch Hd Hp H16 Hold.
  assert (∃ u' o l, host_field s s_http_host_port (Z.of_nat p) u = Ok u' ∧ data_is UF_PORT u' o (S l) ∧
    (o + l)%nat = p ∧ (∀ i, (o ≤ i < p)%nat → ∃ c, mem !! i = Some c ∧ is_digit c = true) ∧
    (∀ g, is_set g u' = bool_decide (g = UF_PORT) || is_set g u) ∧
    ∀ g, g ≠ UF_PORT → field_data u' g = field_data u g)
    as (u' & o & l & E & D' & Hol & Hdig & A & B).
  { destruct Hold as [->| ->]; unfold host_field.
    - rewrite bool_decide_eq_true_2 in H3 by done. destruct H3 as (Hset & o & l & Dp & Hol & Hl & Hdig).
      rewrite bool_decide_eq_true_2 by done. destruct (grow_ok _ _ _ _ _ Dp Hol) as (u' & E & D' & A & B); [lia|].
      exists u', o, l. split_and!; [done..| |done]. intros g. rewrite A.
      destruct (decide (g = UF_PORT)) as [->|]; [by rewrite bool_decide_eq_true_2, Hset|by rewrite bool_decide_eq_false_2].
    - rewrite bool_decide_eq_false_2 by done. destruct (begin_ok UF_PORT p u) as (u' & E & D' & A & B); [lia|].
      exists u', p, 0%nat. split_and!; [done|done|lia|lia|done|done]. }
  exists u'. split; [done|]. split.
  - intros f. destruct (decide (f = UF_PORT)) as [->|Hn].
    + exists o, (S l). split; [done|]. intros _. lia.
    + destruct (H1 f) as (o1 & l1 & E1 & E2). exists o1, l1. rewrite A, bool_decide_eq_false_2 by done.
      split; [|done]. apply (data_keeps f u); [by apply B|done].
  - exists off, len. split_and!; [apply (data_keeps UF_HOST u); [by apply B|done]|lia|].
    destruct Hold as [->| ->]; lia.
  - rewrite bool_decide_eq_true_2 by done. split; [by rewrite A|]. exists o, (S l).
    split_and!; [done|lia|lia|]. intros i Hi. destruct (decide (i = p)) as [->|]; [by exists ch|]. apply Hdig. lia.
  - done.
Qed.

Lemma host_user_ok mem n p s u :
  host_inv mem n p s u → (p < n)%nat → (Z.of_nat n < 2 ^ 16)%Z →
  s = s_http_userinfo ∨ s = s_http_userinfo_start →
  ∃ u', host_field s s_http_userinfo (Z.of_nat p) u = Ok u' ∧ host_inv mem n (S p) s_http_userinfo u'.
Proof.
  intros [H1 (off & len & D & Ho & Hs) H3 H4] Hp H16 Hold.
  assert (∃ u' o l, host_field s s_http_userinfo (Z.of_nat p) u = Ok u' ∧ data_is UF_USERINFO u' o (S l) ∧
    (o + l)%nat = p ∧ (∀ g, g ≠ UF_USERINFO → is_set g u' = is_set g u) ∧
    ∀ g, g ≠ UF_USERINFO → field_data u' g = field_data u g)
    as (u' & o & l & E & D' & Hol & A & B).
  { destruct Hold as [->| ->]; unfold host_field.
    - destruct (H4 eq_refl) as (o & l & Dp & Hol).
      rewrite bool_decide_eq_true_2 by done. destruct (grow_ok _ _ _ _ _ Dp Hol) as (u' & E & D' & A & B); [lia|].
      exists u', o, l. split_and!; [done..| |done]. intros g _. by rewrite A.
    - rewrite bool_decide_eq_false_2 by done. destruct (begin_ok UF_USERINFO p u) as (u' & E & D' & A & B); [lia|].
      exists u', p, 0%nat. split_and!; [done|done|lia| |done]. intros g Hg. by rewrite A, bool_decide_eq_false_2. }
  exists u'. split; [done|]. split.
  - intros f. destruct (decide (f = UF_USERINFO)) as [->|Hn].
    + exists o, (S l). split; [done|]. intros _. lia.
    + destruct (H1 f) as (o1 & l1 & E1 & E2). exists o1, l1. rewrite A by done.
      split; [|done]. apply (data_keeps f u); [by apply B|done].
  - exists off, len. split_and!; [apply (data_keeps UF_HOST u); [by apply B|done]|lia|].
    destruct Hold as [->| ->]; done.
  - rewrite bool_decide_eq_false_2 in * by (by destruct Hold as [->| ->]). by rewrite A.
  - intros _. exists o, (S l). split; [done|lia].
Qed.

Lemma host_loop_ok mem n k p s u :
  host_inv mem n p s u → (p + k ≤ n)%nat → (n ≤ length mem)%nat → (Z.of_nat n < 2 ^ 16)%Z →
  host_loop mem k (Z.of_nat p) s u = Ok None ∨
  ∃ s' u', host_loop mem k (Z.of_nat p) s u = Ok (Some (s', u')) ∧ host_inv mem n (p + k) s' u'.
Proof.
  revert p s u. induction k as [|k IH]; intros p s u H Hk Hn H16.
  { right. exists s, u. by rewrite Nat.add_0_r. }
  cbn [host_loop]. rewrite Nat2Z.id. destruct (mem !! p) as [ch|] eqn:Hch; [|apply lookup_ge_None in Hch; lia].
  case_bool_decide as Hd; [by left|].
  assert (∃ u', host_field s (http_parse_host_char s ch) (Z.of_nat p) u = Ok u' ∧
    host_inv mem n (S p) (http_parse_host_char s ch) u') as (u' & -> & H').
  { pose proof (host_char_from s ch) as Hf. destruct (http_parse_host_char s ch) eqn:En; try done.
    - apply host_user_ok; [done|lia|done|done].
    - exists u. split; [done|]. apply (host_delimiter_ok _ _ _ s); [done|by destruct Hf as [->| ->]|done].
    - exists u. split; [done|]. apply (host_delimiter_ok _ _ _ s); [done|by rewrite Hf|done].
    - apply host_name_ok; [done|lia|done|by left|]. destruct Hf as [->| ->]; auto.
    - apply host_name_ok; [done|lia|done|by right|]. destruct Hf as [->| ->]; auto.
    - exists u. split; [done|]. apply (host_delimiter_ok _ _ _ s); [done|by rewrite Hf|done].
    - exists u. split; [done|]. apply (host_delimiter_ok _ _ _ s); [done|by destruct Hf as [->| ->]|done].
    - destruct Hf as [Hf Hdig]. apply (host_port_ok _ _ _ _ ch); [done..|lia|done|done]. }
  cbn [rbind]. replace (Z.of_nat p + 1)%Z with (Z.of_nat (S p)) by lia.
  destruct (IH (S p) _ u' H') as [E|(s1 & u1 & E & H1)]; [lia|done|done|by left|].
  right. exists s1, u1. split; [done|]. by replace (p + S k)%nat with (S p + k)%nat by lia.
Qed.

(** What is known of the fields of an accepted URL. *)
Definition fields_in (n : nat) (u : http_parser_url) : Prop :=
  ∀ f, ∃ off len, data_is f u off len ∧ (is_set f u = true → (off + len ≤ n)%nat).
Definition port_is (mem : str) (u : http_parser_url) : Prop :=
  is_set UF_PORT u = true → ∃ off len c, data_is UF_PORT u off len ∧ (0 < len)%nat ∧
    (∀ i, (off ≤ i < off + len)%nat → ∃ c, mem !! i = Some c ∧ is_digit c = true) ∧
    mem !! (off + len)%nat = Some c ∧ is_digit c = false.

Lemma parse_host_ok mem n s old found u c :
  url_inv mem n s old u → (n ≤ length mem)%nat → (Z.of_nat n < 2 ^ 16)%Z →
  mem !! n = Some c → is_digit c = false →
  http_parse_host mem found u = Ok None ∨
  ∃ u', http_parse_host mem found u = Ok (Some u') ∧ fields_in n u' ∧ port_is mem u'.
Proof.
  intros [H1 H2 [H3 _] H4 H5 H6] Hn H16 Hc Hdc. destruct (H1 UF_HOST) as (off & len & D & Hle & Hz).
  unfold http_parse_host, data_of. rewrite D. cbn [fst snd]. rewrite Nat2Z.id.
  set (u0 := set_data UF_HOST (Z.of_nat off) 0 u).
  set (s0 := if found then s_http_userinfo_start else s_http_host_start).
  assert (host_inv mem n off s0 u0) as H0.
  { split.
    - intros f. unfold data_is, u0, set_data, is_set. cbn [field_data field_set].
      destruct (decide (f = UF_HOST)) as [->|Hf].
      + rewrite (bool_decide_eq_true_2 (UF_HOST = UF_HOST)) by done. exists off, 0%nat. split; [done|].
        intros Hs. specialize (Hle Hs). lia.
      + rewrite (bool_decide_eq_false_2 (f = UF_HOST)) by done. destruct (H1 f) as (o & l & E & A & _). eauto.
    - exists off, 0%nat. split_and!; [|lia|by destruct found].
      unfold data_is, u0, set_data. cbn [field_data]. by rewrite bool_decide_eq_true_2.
    - rewrite bool_decide_eq_false_2 by by destruct found. done.
    - unfold s0. by destruct found. }
  assert (off + len ≤ n)%nat as Hoff by (destruct (is_set UF_HOST u) eqn:E; [auto|destruct (Hz eq_refl); lia]).
  destruct (host_loop_ok mem n len off s0 u0 H0) as [E|(s1 & u1 & E & G)]; [done..|by rewrite E; left|].
  rewrite E. cbn [rbind].
  assert (len = 0%nat → s1 = s0) as Hzero by (intros ->; cbn in E; by injection E as <- <-).
  assert (fields_in n u1) as Hf by exact (n_data _ _ _ _ _ G).
  assert (port_is mem u1) as Hport.
  { intros Hset. pose proof (n_port _ _ _ _ _ G) as Hp. destruct (decide (s1 = s_http_host_port)) as [->|Hs1];
      [|rewrite bool_decide_eq_false_2 in Hp by done; congruence].
    rewrite bool_decide_eq_true_2 in Hp by done. destruct Hp as (_ & o & l & Dp & Hol & Hl & Hdig).
    assert (is_set UF_HOST u = true) as Hh.
    { destruct (is_set UF_HOST u) eqn:Eh; [done|]. destruct (Hz eq_refl) as [_ ->].
      specialize (Hzero eq_refl). unfold s0 in Hzero. by destruct found. }
    destruct (H6 Hh) as (o1 & l1 & D1 & Hend). rewrite D in D1. injection D1 as E1 E2.
    apply Nat2Z.inj in E1 as <-. apply Nat2Z.inj in E2 as <-.
    assert (∃ c1, mem !! (off + len)%nat = Some c1 ∧ is_digit c1 = false) as (c1 & M1 & M2).
    { destruct (in_host s); [|done]. exists c. by rewrite Hend. }
    exists o, l, c1. split_and!; [done|done| |by rewrite Hol|done].
    intros i Hi. apply Hdig. lia. }
  destruct s1; [by right; exists u1|by left|by left|by left|by left|by right; exists u1|by left|
    by right; exists u1|by left|by right; exists u1].
Qed.

(** [strtoul] reads exactly a run of digits. *)
Lemma strtoul_digits mem l off c acc :
  (∀ i, (off ≤ i < off + l)%nat → ∃ c, mem !! i = Some c ∧ is_digit c = true) →
  mem !! (off + l)%nat = Some c → is_digit c = false →
  strtoul acc (drop off mem) = Ok (Z.min (digits_value acc (take l (drop off mem))) ULONG_MAX).
Proof.
  revert off acc. induction l as [|l IH]; intros off acc Hd Hc Hn.
  - rewrite Nat.add_0_r in Hc. rewrite (drop_S _ _ _ Hc). cbn [strtoul]. by rewrite Hn.
  - destruct (Hd off) as (d & Ed & Hdd); [lia|]. rewrite (drop_S _ _ _ Ed). cbn [strtoul take firstn digits_value].
    rewrite Hdd. apply IH; [|by replace (S off + l)%nat with (off + S l)%nat by lia|done].
    intros i Hi. apply Hd. lia.
Qed.

Lemma digits_value_nonneg acc s : (0 ≤ acc)%Z → (0 ≤ digits_value acc s)%Z.
Proof.
  revert acc. induction s as [|c s IH]; intros acc H; [done|]. cbn. destruct (is_digit c) eqn:E; [|done].
  apply IH. unfold is_digit in E. lia.
Qed.

(** The number of the port stays 0 until the end. *)
Lemma grow_port f u u' : grow_field f u = Ok u' → url_port u' = url_port u.
Proof. unfold grow_field, data_of. destruct (field_data u f); [|done]. by intros [= <-]. Qed.

Lemma url_loop_port l p s old found u found' u' :
  url_loop l p s old found u = Ok (Some (found', u')) → url_port u' = url_port u.
Proof.
  revert p s old found u. induction l as [|ch l IH]; intros p s old found u; cbn [url_loop];
    [by intros [= <- <-]|].
  destruct (classify _) as [| |f a|]; [done|apply IH| |done]. case_bool_decide.
  - intros E. destruct (grow_field f u) as [u1|e|e] eqn:Eg; [|done|done]. cbn [rbind] in E.
    rewrite (IH _ _ _ _ _ E). by apply (grow_port f).
  - intros E. by rewrite (IH _ _ _ _ _ E).
Qed.

Lemma host_field_port s new_s p u u' : host_field s new_s p u = Ok u' → url_port u' = url_port u.
Proof.
  unfold host_field. destruct new_s; try (by intros [= <-]); unfold data_of;
    try (destruct (field_data u UF_HOST); [|done]); intros E%grow_port; rewrite E; by destruct (bool_decide _).
Qed.

Lemma host_loop_port mem k p s u s' u' :
  host_loop mem k p s u = Ok (Some (s', u')) → url_port u' = url_port u.
Proof.
  revert p s u. induction k as [|k IH]; intros p s u; cbn [host_loop]; [by intros [= <- <-]|].
  destruct (mem !! _) as [ch|]; [|done]. case_bool_decide; [done|]. intros E.
  destruct (host_field _ _ _ u) as [u1|e|e] eqn:Eh; [|done|done]. cbn [rbind] in E.
  rewrite (IH _ _ _ E). by eapply host_field_port.
Qed.

Lemma parse_host_port mem found u u' : http_parse_host mem found u = Ok (Some u') → url_port u' = url_port u.
Proof.
  unfold http_parse_host, data_of. destruct (field_data u UF_HOST) as [d|]; [|done].
  destruct (host_loop _ _ _ _ _) as [[[s1 u1]|]|e|e] eqn:E; try done. cbn [rbind].
  apply host_loop_port in E. destruct s1; try done; by intros [= <-].
Qed.

(** C20: A URL of less than 64 KiB that is followed by a byte that is no digit, as a terminated
    string is, is parsed without a failed assertion and without a read beyond that byte into
    a cleared result; if it is accepted, every field lies in the URL, and the port is the
    number that its digits are, at most 65535. *)
Theorem parse_url_in_bounds mem n is_connect c :
  mem !! n = Some c → is_digit c = false → (Z.of_nat n < 2 ^ 16)%Z →
  ∃ r, http_parser_parse_url mem n is_connect cleared = Ok r ∧
  ∀ u, r = Some u →
    (∀ f, is_set f u = true → ∃ off len,
      field_data u f = Some (Z.of_nat off, Z.of_nat len) ∧ (off + len ≤ n)%nat) ∧
    if is_set UF_PORT u then ∃ off len,
      field_data u UF_PORT = Some (Z.of_nat off, Z.of_nat len) ∧ (0 < len)%nat ∧
      Forall (λ c, is_digit c = true) (take len (drop off mem)) ∧
      url_port u = digits_value 0 (take len (drop off mem)) ∧ (url_port u ≤ 65535)%Z
    else url_port u = 0%Z.
Proof.
  intros Hc Hdc H16. pose proof (lookup_lt_Some _ _ _ Hc) as Hlen. unfold http_parser_parse_url.
  set (s0 := if is_connect then s_req_server_start else s_req_spaces_before_url).
  assert (url_inv mem 0 s0 None cleared) as H0.
  { split; try done; [|by destruct is_connect]. intros f. exists 0%nat, 0%nat. done. }
  change (MkUrl [] 0 (field_data cleared)) with cleared.
  destruct (url_loop_ok mem n (take n mem) 0 s0 None false cleared H0) as [E|(found & s1 & old & u1 & E & H1)];
    [by rewrite Nat.sub_0_r|lia|lia|done| |]; change (Z.of_nat 0) with 0%Z in E; rewrite E; cbn [rbind];
    [by exists None|].
  assert (url_port u1 = 0%Z) as P1 by (by apply url_loop_port in E).
  assert (∃ r, (if is_set UF_SCHEMA u1 || is_set UF_HOST u1 then http_parse_host mem found u1 else Ok (Some u1)) = Ok r ∧
    ∀ u, r = Some u → fields_in n u ∧ port_is mem u ∧ url_port u = 0%Z) as (r & -> & Hr).
  { destruct (_ || _).
    - destruct (parse_host_ok mem n s1 old found u1 c H1) as [E1|(u' & E1 & A & B)]; [lia|done..|by exists None|].
      exists (Some u'). split; [done|]. intros ? [= <-]. split_and!; [done..|].
      rewrite <- P1. by apply (parse_host_port mem found).
    - exists (Some u1). split; [done|]. intros ? [= <-]. split_and!; [|intros Hs|done].
      + intros f. destruct (u_data _ _ _ _ _ H1 f) as (o & l & D & A & _). eauto.
      + destruct (u_later _ _ _ _ _ H1). congruence. }
  cbn [rbind]. destruct r as [u|]; [|by exists None]. destruct (Hr u eq_refl) as (Hf & Hp & P0).
  destruct (is_connect && _); [by exists None|].
  assert (∀ f, is_set f u = true → ∃ off len,
    field_data u f = Some (Z.of_nat off, Z.of_nat len) ∧ (off + len ≤ n)%nat) as Hf'.
  { intros f Hs. destruct (Hf f) as (o & l & D & A). eauto. }
  destruct (is_set UF_PORT u) eqn:Hset.
  - destruct (Hp Hset) as (o & l & c1 & D & Hl & Hdig & Hc1 & Hn1). unfold data_of. rewrite D.
    cbn [fst]. rewrite Nat2Z.id, (strtoul_digits mem l o c1) by done. cbn [rbind].
    set (v := digits_value 0 (take l (drop o mem))).
    assert (0 ≤ v)%Z as Hv by by apply digits_value_nonneg.
    destruct (Z.ltb_spec 0xffff (Z.min v ULONG_MAX)) as [|Hle]; [by exists None|].
    assert (Z.min v ULONG_MAX = v) as Hmin by (unfold ULONG_MAX in *; lia).
    eexists. split; [done|]. intros ? [= <-]. split; [exact Hf'|].
    change (is_set UF_PORT (MkUrl (field_set u) (u16 (Z.min v ULONG_MAX)) (field_data u))) with (is_set UF_PORT u).
    rewrite Hset. cbn [field_data url_port]. rewrite Hmin in *. exists o, l.
    rewrite u16_small by lia. split_and!; [done|done| |done|lia].
    apply Forall_lookup. intros i d Hd. apply lookup_take_Some in Hd as [Hd Hi]. rewrite lookup_drop in Hd.
    destruct (Hdig (o + i)%nat) as (d' & E1 & E2); [lia|]. congruence.
  - exists (Some u). split; [done|]. intros ? [= <-]. split; [exact Hf'|]. by rewrite Hset.
Qed.

Lemma parse_url_in_bounds_witness :
  let mem : str := cstr "http://u@h.org:8080/a?b#c" ++ [NUL] in
  ∃ r, http_parser_parse_url mem 25 false cleared = Ok r ∧
  ∀ u, r = Some u →
    (∀ f, is_set f u = true → ∃ off len,
      field_data u f = Some (Z.of_nat off, Z.of_nat len) ∧ (off + len ≤ 25)%nat) ∧
    if is_set UF_PORT u then ∃ off len,
      field_data u UF_PORT = Some (Z.of_nat off, Z.of_nat len) ∧ (0 < len)%nat ∧
      Forall (λ c, is_digit c = true) (take len (drop off mem)) ∧
      url_port u = digits_value 0 (take len (drop off mem)) ∧ (url_port u ≤ 65535)%Z
    else url_port u = 0%Z.
Proof.
  intros mem. apply (parse_url_in_bounds mem 25 false NUL); [reflexivity|reflexivity|reflexivity].
Defined.

(** The fields of that URL: the host, the port and the path. *)
Example url_fields :
  ∃ u, http_parser_parse_url (cstr "http://u@h.org:8080/a?b#c" ++ [NUL]) 25 false cleared = Ok (Some u) ∧
    url_port u = 8080%Z ∧ field_data u UF_HOST = Some (9, 5)%Z ∧ field_data u UF_PATH = Some (19, 2)%Z.
Proof. eexists. split; [vm_compute; reflexivity|]. by vm_compute. Qed.

(** Into a result that is not cleared, a URL that ends before its host reads what was never
    written; and a port at the end of the buffer is read on beyond it. *)
Example schema_without_host :
  http_parser_parse_url ("http:" : str) 5 false (MkUrl [] 0 (λ _, None)) = Undef UninitRead.
Proof. vm_compute. reflexivity. Qed.

Example port_read_beyond :
  ∃ u, http_parser_parse_url ("http://h:8012" : str) 11 false cleared = Undef OutOfBounds ∧
    http_parser_parse_url (cstr "http://h:8012" ++ [NUL]) 11 false cleared = Ok (Some u) ∧ url_port u = 8012%Z.
Proof. eexists. split; [vm_compute; reflexivity|]. split; [vm_compute; reflexivity|]. reflexivity. Qed.
