(* ===== verification/HttpParserWrapper.v ===== *)
(** [service/http_parser_wrapper.{h,cc}]: the callbacks that collect the URL, the body
    and a few headers from the vendored [http_parser].

    The parser is an interface: a function from the buffer to the callbacks it makes
    ([HttpFront] gives it by the vendored parser).  A
    callback with data gets a pointer into the buffer and a length; since
    [OnHeaderField] compares from the pointer without looking at the length, an event
    carries all the bytes of the buffer from the pointer on. *)

From S2P Require Import Prelude.

(** One callback of [http_parser]: [at_] is the buffer from the pointer on. *)
Inductive parser_event : Type :=
  | EUrl (at_ : str) (length : Z)
  | EHeaderField (at_ : str) (length : Z)
  | EHeaderValue (at_ : str) (length : Z)
  | EHeadersComplete (nread content_length : Z)
  | EBody (at_ : str) (length : Z)
  | EMessageComplete.

(** [http_parser_init(.., HTTP_REQUEST)] followed by [http_parser_execute] on the bytes. *)
Class HttpParser : Type := { http_parser_execute : str → list parser_event }.

Record CHttpParserWrapper : Type := MkWrapper {
  read_all_ : bool;
  read_referer_ : bool;
  read_forward_ip_ : bool;
  read_user_agent_ : bool;
  read_content_type_ : bool;
  read_content_len_ : bool;
  read_host_ : bool;
  total_length_ : Z;
  url_ : str;
  body_content_ : str;
  referer_ : str;
  forward_ip_ : str;
  user_agent_ : str;
  content_type_ : str;
  content_len_ : Z;
  host_ : str
}.

Definition MAX_REFERER_LEN : Z := 32.

(** The resets at the start of [ParseHttpContent]. *)
Definition wrapper_reset : CHttpParserWrapper :=
  MkWrapper false false false false false false false 0 [] [] [] [] [] [] 0 [].

(** [strncasecmp(at, name, n) == 0] with [n] the length of [name]. *)
Fixpoint strncaseeq (at_ name : str) : result bool :=
  match name with
  | [] => Ok true
  | d :: name' =>
      match at_ with
      | [] => Undef OutOfBounds
      | c :: at_' =>
          if bool_decide (to_lower c = to_lower d) then strncaseeq at_' name' else Ok false
      end
  end.

(** [append(at, length)] *)
Definition at_bytes (at_ : str) (length : Z) : str := take (Z.to_nat length) at_.

(** One test of [OnHeaderField]: the new value of a [read_] flag. *)
Definition field_flag (has_read flag : bool) (at_ name : str) : result bool :=
  if has_read then Ok flag
  else let* m := strncaseeq at_ name in Ok (if m : bool then true else flag).

Definition OnHeaderField (at_ : str) (w : CHttpParserWrapper) : result CHttpParserWrapper :=
  let* ref := field_flag (bool_decide (referer_ w ≠ [])) (read_referer_ w) at_ "Referer" in
  let* fwd := field_flag (bool_decide (forward_ip_ w ≠ [])) (read_forward_ip_ w) at_
                "X-Forwarded-For" in
  let* ua := field_flag (bool_decide (user_agent_ w ≠ [])) (read_user_agent_ w) at_
               "User-Agent" in
  let* ct := field_flag (bool_decide (content_type_ w ≠ [])) (read_content_type_ w) at_
               "Content-Type" in
  let* cl := field_flag (bool_decide (content_len_ w ≠ 0%Z)) (read_content_len_ w) at_
               "Content-Length" in
  let* ho := field_flag (bool_decide (host_ w ≠ [])) (read_host_ w) at_ "Host" in
  Ok (MkWrapper (read_all_ w) ref fwd ua ct cl ho (total_length_ w) (url_ w) (body_content_ w)
        (referer_ w) (forward_ip_ w) (user_agent_ w) (content_type_ w) (content_len_ w) (host_ w)).

Definition OnHeaderValue (at_ : str) (length : Z) (w : CHttpParserWrapper)
    : CHttpParserWrapper :=
  let v := at_bytes at_ length in
  MkWrapper (read_all_ w) false false false false false false (total_length_ w) (url_ w)
    (body_content_ w)
    (if read_referer_ w
     then referer_ w ++ at_bytes at_ (if (MAX_REFERER_LEN <? length)%Z then MAX_REFERER_LEN else length)
     else referer_ w)
    (if read_forward_ip_ w then forward_ip_ w ++ v else forward_ip_ w)
    (if read_user_agent_ w then user_agent_ w ++ v else user_agent_ w)
    (if read_content_type_ w then content_type_ w ++ v else content_type_ w)
    (if read_content_len_ w then u32 (atoi v) else content_len_ w)
    (if read_host_ w then host_ w ++ v else host_ w).

Definition OnHeadersComplete (nread content_length : Z) (w : CHttpParserWrapper)
    : CHttpParserWrapper :=
  MkWrapper (read_all_ w) (read_referer_ w) (read_forward_ip_ w) (read_user_agent_ w)
    (read_content_type_ w) (read_content_len_ w) (read_host_ w)
    (u32 (nread + u32 content_length)) (url_ w) (body_content_ w) (referer_ w) (forward_ip_ w)
    (user_agent_ w) (content_type_ w) (content_len_ w) (host_ w).

(** [OnUrl]/[SetUrl], [OnBody]/[SetBodyContent] and [OnMessageComplete]/[SetReadAll]. *)
Definition set_collected (all : bool) (url body : str) (w : CHttpParserWrapper)
    : CHttpParserWrapper :=
  MkWrapper all (read_referer_ w) (read_forward_ip_ w) (read_user_agent_ w)
    (read_content_type_ w) (read_content_len_ w) (read_host_ w) (total_length_ w) url body
    (referer_ w) (forward_ip_ w) (user_agent_ w) (content_type_ w) (content_len_ w) (host_ w).

Definition OnUrl (at_ : str) (length : Z) (w : CHttpParserWrapper) : CHttpParserWrapper :=
  set_collected (read_all_ w) (url_ w ++ at_bytes at_ length) (body_content_ w) w.
Definition OnBody (at_ : str) (length : Z) (w : CHttpParserWrapper) : CHttpParserWrapper :=
  set_collected (read_all_ w) (url_ w) (body_content_ w ++ at_bytes at_ length) w.
Definition OnMessageComplete (w : CHttpParserWrapper) : CHttpParserWrapper :=
  set_collected true (url_ w) (body_content_ w) w.

Definition on_event (w : CHttpParserWrapper) (e : parser_event) : result CHttpParserWrapper :=
  match e with
  | EUrl at_ n => Ok (OnUrl at_ n w)
  | EHeaderField at_ _ => OnHeaderField at_ w
  | EHeaderValue at_ n => Ok (OnHeaderValue at_ n w)
  | EHeadersComplete nread cl => Ok (OnHeadersComplete nread cl w)
  | EBody at_ n => Ok (OnBody at_ n w)
  | EMessageComplete => Ok (OnMessageComplete w)
  end.

Fixpoint on_events (w : CHttpParserWrapper) (es : list parser_event)
    : result CHttpParserWrapper :=
  match es with
  | [] => Ok w
  | e :: es' => let* w' := on_event w e in on_events w' es'
  end.

(** [ParseHttpContent]: the wrapper's previous state [w] is overwritten. *)
Definition ParseHttpContent `{HttpParser} (buf : str) (w : CHttpParserWrapper)
    : result CHttpParserWrapper :=
  on_events wrapper_reset (http_parser_execute buf).

(** ** What the events carry *)

Definition url_of (es : list parser_event) : str :=
  es ≫= λ e, match e with EUrl a n => at_bytes a n | _ => [] end.
Definition body_of (es : list parser_event) : str :=
  es ≫= λ e, match e with EBody a n => at_bytes a n | _ => [] end.
Definition complete_in (es : list parser_event) : bool :=
  existsb (λ e, match e with EMessageComplete => true | _ => false end) es.

(** Whether a header name starts with [name], whatever its case. *)
Definition named (name at_ : str) : bool :=
  match strncaseeq at_ name with Ok b => b | _ => false end.

(** The value of the first header whose name starts with [Host] and whose value is not
    empty, from a list of field/value events. *)
Fixpoint host_of (flag : bool) (es : list parser_event) : str :=
  match es with
  | [] => []
  | EHeaderField a _ :: es' => host_of (flag || named "Host" a) es'
  | EHeaderValue a n :: es' =>
      if flag && negb (bool_decide (at_bytes a n = [])) then at_bytes a n else host_of false es'
  | _ :: es' => host_of flag es'
  end.

(** ** Properties *)

Lemma on_events_collect es w w' :
  on_events w es = Ok w' →
  url_ w' = url_ w ++ url_of es ∧ body_content_ w' = body_content_ w ++ body_of es ∧
  read_all_ w' = read_all_ w || complete_in es.
Proof.
  revert w. induction es as [|e es IH]; intros w Hw.
  { injection Hw as <-. by rewrite !app_nil_r, orb_false_r. }
  cbn in Hw. apply rbind_inv in Hw as (w1 & H1 & Hw).
  destruct (IH _ Hw) as (-> & -> & ->). clear IH Hw.
  unfold url_of, body_of. rewrite !bind_cons. cbn [complete_in existsb].
  destruct e; cbn in H1; try (injection H1 as <-; cbn; rewrite <- ?app_assoc, ?orb_true_r; done).
  unfold OnHeaderField in H1. repeat apply rbind_inv in H1 as (? & ? & H1).
  by injection H1 as <-.
Qed.

Lemma field_flag_named has flag a name b :
  field_flag has flag a name = Ok b → b = if has then flag else flag || named name a.
Proof.
  unfold field_flag, named. destruct has; [by intros [= <-]|]. intros H.
  apply rbind_inv in H as (m & -> & [= <-]). destruct m; by rewrite ?orb_true_r, ?orb_false_r.
Qed.

Lemma on_events_host es w w' :
  on_events w es = Ok w' →
  (host_ w ≠ [] → read_host_ w = false → host_ w' = host_ w) ∧
  (host_ w = [] → host_ w' = host_of (read_host_ w) es).
Proof.
  revert w. induction es as [|e es IH]; intros w Hw.
  { injection Hw as <-. done. }
  cbn in Hw. apply rbind_inv in Hw as (w1 & H1 & Hw). destruct (IH _ Hw) as [IH1 IH2].
  destruct e as [a n|a n|a n|nr cl|a n|]; cbn in H1; try (injection H1 as <-; by split).
  - unfold OnHeaderField in H1. do 5 apply rbind_inv in H1 as (? & _ & H1).
    apply rbind_inv in H1 as (ho & Hho & [= <-]). apply field_flag_named in Hho. cbn in *.
    split.
    + intros Hh Hr. rewrite bool_decide_eq_true_2 in Hho by done. subst ho. by apply IH1.
    + intros Hh. rewrite bool_decide_eq_false_2 in Hho by (by intros ?). subst ho. by apply IH2.
  - injection H1 as <-. cbn in *. destruct (read_host_ w); cbn in *.
    + split; [done|]. intros Hh. rewrite Hh in *. cbn in *.
      case_bool_decide as Hv; cbn; [by apply IH2|by apply IH1].
    + split; [intros; by apply IH1|]. intros. by apply IH2.
Qed.

(** After [ParseHttpContent], whatever the wrapper held before, the URL and the body
    are the concatenations of the pieces the parser reported, [IsReadAll] holds exactly
    when the end of the message was reported, and the recorded host is the value of the
    first non-empty header whose name starts with [Host]. *)
Theorem ParseHttpContent_collects `{HttpParser} buf w0 w :
  ParseHttpContent buf w0 = Ok w →
  url_ w = url_of (http_parser_execute buf) ∧
  body_content_ w = body_of (http_parser_execute buf) ∧
  read_all_ w = complete_in (http_parser_execute buf) ∧
  host_ w = host_of false (http_parser_execute buf).
Proof.
  unfold ParseHttpContent. intros Hw.
  destruct (on_events_collect _ _ _ Hw) as (-> & -> & ->). split_and!; [done..|].
  by apply (on_events_host _ _ _ Hw).
Qed.

(** A parser for the witnesses: it reports the URL of a POST request line, one header and
    the body of one fixed request. *)
Definition demo_request : str := "POST /api/login HTTP/1.1" ++ CRLF ++ "Host: h" ++ CRLF ++ CRLF ++ "{}".
Definition demo_parser : HttpParser := {|
  http_parser_execute buf :=
    [EUrl (drop 5 buf) 10; EHeaderField (drop 26 buf) 4; EHeaderValue (drop 32 buf) 1;
     EHeadersComplete 37 2; EBody (drop 37 buf) 2; EMessageComplete]
|}.

#[local] Existing Instance demo_parser.

Lemma ParseHttpContent_collects_witness :
  exists w, ParseHttpContent demo_request wrapper_reset = Ok w ∧
    url_ w = cstr "/api/login" ∧ body_content_ w = cstr "{}" ∧ read_all_ w = true ∧
    host_ w = cstr "h".
Proof.
  destruct (ParseHttpContent demo_request wrapper_reset) as [w|e|u] eqn:E;
    [|vm_compute in E; discriminate..].
  exists w. split; [reflexivity|]. exact (ParseHttpContent_collects demo_request wrapper_reset w E).
Defined.
