(* ===== verification/HttpConn.v ===== *)
(** [service/http_conn.{h,cc}] of the comet service: the HTTP side of a connection
    (login and registration, forwarded to the logic server).

    A handler returns the list of texts given to [tcp_conn_->send].  Not modelled:
    [getSubdirectoryFromHttpRequest], a [std::regex] search nothing calls. *)

From S2P Require Import Prelude LogicClient HttpParserWrapper.

(** ** Response formats *)

Definition HTTP_RESPONSE_JSON_MAX : nat := 4096.
Definition HTTP_RESPONSE_HTML_MAX : nat := 4096.

Definition json_headers (len : Z) (body : str) : str :=
  "Content-Length:" ++ to_string len ++ CRLF ++
  "Content-Type:application/json;charset=utf-8" ++ CRLF ++ CRLF ++ c_str body.

(** [HTTP_RESPONSE_WITH_CODE] *)
Definition fmt_with_code (code : Z) (msg : str) (len : Z) (body : str) : str :=
  "HTTP/1.1 " ++ to_string code ++ " " ++ c_str msg ++ CRLF ++
  "Connection:close" ++ CRLF ++ json_headers len body.

(** [HTTP_RESPONSE_WITH_COOKIE] *)
Definition fmt_with_cookie (code : Z) (msg sid : str) (len : Z) (body : str) : str :=
  "HTTP/1.1 " ++ to_string code ++ " " ++ c_str msg ++ CRLF ++
  "Connection:close" ++ CRLF ++
  "set-cookie: sid=" ++ c_str sid ++ "; HttpOnly; Max-Age=86400; SameSite=Strict" ++ CRLF ++
  json_headers len body.

(** [HTTP_RESPONSE_HTML] *)
Definition fmt_html (len : Z) (body : str) : str :=
  "HTTP/1.1 200 OK" ++ CRLF ++ "Connection:close" ++ CRLF ++
  "Content-Length:" ++ to_string len ++ CRLF ++
  "Content-Type:text/html;charset=utf-8" ++ CRLF ++ CRLF ++ c_str body.

(** The fallback response of [OnRead], in its 256-byte buffer. *)
Definition http_404 : str :=
  snprintf_trunc 256
    ("HTTP/1.1 404 OK" ++ CRLF ++ "Connection:close" ++ CRLF ++ json_headers 11 (dq "{'code': 1}")).

(** [_HandleHtml] on the content of [index.html] ([None]: it cannot be opened). *)
Definition HandleHtml (index_html : option str) : str :=
  let s := default [] index_html in
  snprintf_trunc HTTP_RESPONSE_JSON_MAX (fmt_html (u32 (slen s)) s).

(** [_HandleMemHtml] *)
Definition HandleMemHtml (htmlStr : str) : str :=
  snprintf_trunc HTTP_RESPONSE_HTML_MAX (fmt_html (slen (c_str htmlStr)) htmlStr).

(** ** [class CHttpConn] *)

Section HttpConn.
Context {W : Type} `{CC : CurlClient W} `{HP : HttpParser}.
Variable logic_server_addr : str.

(** What both handlers send for the outcome [ret] and the [response_json] received. *)
Definition auth_response (no_content : str) (ret : Z) (response_json : str) : str :=
  snprintf_trunc HTTP_RESPONSE_JSON_MAX
    (if (ret =? 0)%Z then fmt_with_cookie 204 no_content response_json 0 []
     else fmt_with_code 400 "Bad Request" (slen response_json) response_json).

(** [_HandleRegisterRequest] *)
Definition HandleRegisterRequest (post_data : str) : io W (list str) :=
  do* r := registerUser logic_server_addr post_data [] in
  iret [auth_response "No content" r.1 r.2].

(** [_HandleLoginRequest] *)
Definition HandleLoginRequest (post_data : str) : io W (list str) :=
  do* r := loginUser logic_server_addr post_data [] in
  iret [auth_response "No Content" r.1 r.2].

(** [int32_t len = buf->readableBytes();] and its conversion to the [uint32_t] of
    [ParseHttpContent]: the bytes that the parser is given. *)
Definition parsed_part (buf : str) : str := take (Z.to_nat (u32 (i32 (slen buf)))) buf.

(** [CHttpConn::OnRead] on the readable bytes of the buffer (which it does not
  consume); returns the parser state and what was sent. *)
Definition CHttpConn_OnRead (buf : str) (http_parser : CHttpParserWrapper)
    : io W (CHttpParserWrapper * list str) :=
  do* p := ilift (ParseHttpContent (parsed_part buf) http_parser) in
  if read_all_ p then
    do* out :=
      (if starts_with "/api/login" (c_str (url_ p)) then HandleLoginRequest (body_content_ p)
       else if starts_with (take 18 "/api/create-account") (c_str (url_ p))
       then HandleRegisterRequest (body_content_ p)
       else iret [http_404]) in
    iret (p, out)
  else iret (p, []).
End HttpConn.

(** ** Lemmas *)

Lemma dec_digits_length fuel z acc : (length (dec_digits fuel z acc) ≤ fuel + length acc)%nat.
Proof.
  revert z acc. induction fuel as [|fuel IH]; intros z acc; cbn; [lia|].
  destruct (z <? 10)%Z; cbn; [lia|]. etrans; [apply IH|]. cbn. lia.
Qed.

Lemma to_string_length z : (slen (to_string z) ≤ 21)%Z.
Proof.
  assert (Hd : ∀ z, (slen (dec_digits 20 z []) ≤ 20)%Z).
  { intros z'. pose proof (dec_digits_length 20 z' []) as H. rewrite Nat.add_0_r in H.
    unfold slen. lia. }
  unfold to_string. destruct (z <? 0)%Z; [rewrite slen_cons|]; [specialize (Hd (- z))%Z|
    specialize (Hd z)]; lia.
Qed.

Lemma snprintf_trunc_id n s : (slen s < Z.of_nat n)%Z → snprintf_trunc n s = s.
Proof. intros H. unfold snprintf_trunc. apply firstn_all2. unfold slen in H. lia. Qed.

Lemma c_str_length s : (slen (c_str s) ≤ slen s)%Z.
Proof. induction s as [|c s IH]; cbn; [done|]. case_bool_decide; slia. Qed.

(** The length of a text built from literal parts and [to_string]. *)
Ltac text_length :=
  repeat match goal with
  | |- context [slen (to_string ?z)] =>
      lazymatch goal with
      | _ : (slen (to_string z) ≤ 21)%Z |- _ => fail
      | _ => pose proof (to_string_length z)
      end
  | |- context [slen (c_str ?s)] =>
      lazymatch goal with
      | _ : (slen (c_str s) ≤ slen s)%Z |- _ => fail
      | _ => pose proof (c_str_length s)
      end
  | |- context [slen (cstr ?s)] =>
      let n := eval vm_compute in (slen (cstr s)) in change (slen (cstr s)) with n
  | |- context [slen CRLF] => change (slen CRLF) with 2%Z
  end.

Lemma fmt_with_code_length code msg len body :
  (slen (fmt_with_code code msg len body) ≤ 170 + slen msg + slen body)%Z.
Proof.
  unfold fmt_with_code, json_headers. rewrite !slen_app. text_length.
  lia.
Qed.

Lemma fmt_with_cookie_length code msg sid len body :
  (slen (fmt_with_cookie code msg sid len body) ≤ 240 + slen msg + slen sid + slen body)%Z.
Proof.
  unfold fmt_with_cookie, json_headers. rewrite !slen_app. text_length. lia.
Qed.

(** The text sent for a reply of the logic server, when the 4096-byte buffer holds it. *)
Definition reply_text (no_content : str) (r : curl_reply) : str :=
  if reply_accepted r then fmt_with_cookie 204 no_content (curl_body r) 0 []
  else fmt_with_code 400 "Bad Request" (slen (curl_body r)) (curl_body r).

Lemma auth_response_text no_content r :
  (slen no_content ≤ 20)%Z → (slen (curl_body r) ≤ 3800)%Z →
  auth_response no_content (if reply_accepted r then 0 else -1)%Z (curl_body r) =
  reply_text no_content r.
Proof.
  intros Hn Hb. unfold auth_response, reply_text, HTTP_RESPONSE_JSON_MAX.
  destruct (reply_accepted r); cbn [Z.eqb]; apply snprintf_trunc_id.
  - pose proof (fmt_with_cookie_length 204 no_content (curl_body r) 0 []) as H.
    rewrite slen_nil in H. lia.
  - pose proof (fmt_with_code_length 400 "Bad Request" (slen (curl_body r)) (curl_body r)) as H.
    change (slen "Bad Request") with 11%Z in H. lia.
Qed.

(** A buffer below 4 GiB is parsed whole. *)
Lemma parsed_part_all (buf : str) : (slen buf < 2 ^ 32)%Z → parsed_part buf = buf.
Proof.
  intros H. unfold parsed_part. rewrite wrap_swrap, wrap_small by slia. unfold slen. rewrite Nat2Z.id.
  apply firstn_all.
Qed.

Section Replies.
Context {W : Type} `{CC : CurlClient W} `{HP : HttpParser}.

(** A complete login (or account creation) request makes exactly one POST, with the
  request body, to the matching path of the logic server, and gets exactly one reply:
  204 with the body of the logic server as session cookie when that server was reached
  and answered 200 or 401, and otherwise 400 with that body and its length; the reply
  is not cut as long as the body has at most 3800 bytes. *)
Theorem auth_request_reply (addr buf : str) p0 p (w w' : W) r :
  ParseHttpContent (parsed_part buf) p0 = Ok p → read_all_ p = true → (slen (curl_body r) ≤ 3800)%Z →
  (starts_with "/api/login" (c_str (url_ p)) = true →
   curl_post (c_str (addr ++ "/logic/login")) (body_content_ p) w = (Some r, w') →
   CHttpConn_OnRead addr buf p0 w = (Ok (p, [reply_text "No Content" r]), w')) ∧
  (starts_with "/api/login" (c_str (url_ p)) = false →
   starts_with "/api/create-account" (c_str (url_ p)) = true →
   curl_post (c_str (addr ++ "/logic/register")) (body_content_ p) w = (Some r, w') →
   CHttpConn_OnRead addr buf p0 w = (Ok (p, [reply_text "No content" r]), w')).
Proof.
  intros Hp Hall Hb. split.
  - intros Hu Hc. unfold CHttpConn_OnRead. rewrite Hp, (ibind_lift _ _ p eq_refl), Hall, Hu.
    cbv beta iota.
    rewrite (ibind_Ok _ _ _ [reply_text "No Content" r] w'); [done|].
    unfold HandleLoginRequest. rewrite (ibind_Ok _ _ _ _ _ (loginUser_reply _ _ _ _ _ _ Hc)).
    cbn [fst snd app]. by rewrite auth_response_text.
  - intros Hl Hu Hc. unfold CHttpConn_OnRead.
    rewrite Hp, (ibind_lift _ _ p eq_refl), Hall, Hl.
    assert (starts_with (take 18 "/api/create-account") (c_str (url_ p)) = true) as ->.
    { clear -Hu. revert Hu. generalize (c_str (url_ p)) as s.
      assert (Hpre : ∀ a b s, starts_with (a ++ b) s = true → starts_with a s = true).
      { induction a as [|x a IH]; intros b s; [by destruct s|]. destruct s as [|c s]; [done|].
        cbn. rewrite !andb_true_iff. naive_solver. }
      intros s. exact (Hpre (take 18 "/api/create-account") (drop 18 "/api/create-account") s). }
    cbv beta iota.
    rewrite (ibind_Ok _ _ _ [reply_text "No content" r] w'); [done|].
    unfold HandleRegisterRequest.
    rewrite (ibind_Ok _ _ _ _ _ (registerUser_reply _ _ _ _ _ _ Hc)).
    cbn [fst snd app]. by rewrite auth_response_text.
Qed.
End Replies.

Lemma auth_request_reply_witness :
  exists p, CHttpConn_OnRead (HP := demo_parser) "http://l" demo_request wrapper_reset
    (MkPeer [] (Some (CurlReply "sid1" 0 200))) =
  (Ok (p, [reply_text "No Content" (CurlReply "sid1" 0 200)]),
   MkPeer [("http://l/logic/login" : str, "{}" : str)] (Some (CurlReply "sid1" 0 200))).
Proof.
  destruct (ParseHttpContent (H := demo_parser) (parsed_part demo_request) wrapper_reset) as [p|e|u] eqn:E;
    [|vm_compute in E; discriminate..].
  exists p. vm_compute in E. injection E as <-.
  eapply (auth_request_reply (HP := demo_parser) "http://l" demo_request wrapper_reset);
    [reflexivity|reflexivity|vm_compute; by intros|reflexivity|reflexivity].
Defined.
