(* ===== verification/HttpFront.v ===== *)
(** The HTTP front end on the parser it is compiled with: [CHttpParserWrapper] and
    [CHttpConn] with the vendored [http_parser] as their parser. *)

From S2P Require Import Prelude LogicClient HttpMachine HttpSafe HttpRun HttpHeader HttpRequest HttpCut.
From S2P Require Import HttpParserWrapper HttpConn.

(** A call of the parser as the wrapper receives it: a pointer into the buffer and a length.
    The two callbacks that the wrapper leaves null are never made. *)
Definition event_of (buf : str) (e : callback) : option parser_event :=
  match e with
  | CBurl a n => Some (EUrl (drop a buf) (Z.of_nat n))
  | CBheader_field a n => Some (EHeaderField (drop a buf) (Z.of_nat n))
  | CBheader_value a n => Some (EHeaderValue (drop a buf) (Z.of_nat n))
  | CBheaders_complete nr cl => Some (EHeadersComplete nr cl)
  | CBbody a n => Some (EBody (drop a buf) (Z.of_nat n))
  | CBmessage_complete => Some EMessageComplete
  | CBmessage_begin | CBstatus_complete => None
  end.

(** [http_parser_init(&http_parser_, HTTP_REQUEST)] and [http_parser_execute]; the call
    always returns ([HttpSafe.execute_safe]). *)
Definition parse_events (buf : str) : list parser_event :=
  match HttpMachine.http_parser_execute wrapper_settings (http_parser_init HTTP_REQUEST) buf with
  | Ok (Some (m, _)) => omap (event_of buf) (calls m)
  | _ => []
  end.

Definition vendored_parser : HttpParser := {| http_parser_execute := parse_events |}.
#[local] Existing Instance vendored_parser.

(** ** What the wrapper collects of a request *)

(** Comparing a name that a colon follows stays inside the buffer. *)
Lemma strncaseeq_colon at_ name :
  ":"%char ∈ at_ → ":"%char ∉ name → ∃ b, strncaseeq at_ name = Ok b.
Proof.
  revert at_. induction name as [|d name IH]; intros at_ Hin Hd; [by destruct at_; exists true|].
  apply not_elem_of_cons in Hd as [Hd Hname].
  destruct at_ as [|c at_]; [by apply not_elem_of_nil in Hin|]. cbn.
  case_bool_decide as Hc; [|by exists false].
  apply IH; [|done]. apply elem_of_cons in Hin as [<-|Hin]; [|done].
  exfalso. apply Hd. revert Hc. clear.
  intros Hc. assert (H : (negb (bool_decide (to_lower ":" = to_lower d)) ||
    bool_decide (":"%char = d)) = true).
  { apply (byte_forallb (λ d : ascii, negb (bool_decide (to_lower ":" = to_lower d)) ||
      bool_decide (":"%char = d)) d). vm_compute. reflexivity. }
  rewrite bool_decide_eq_true_2 in H by done. by apply bool_decide_eq_true in H.
Qed.

Lemma field_flag_colon has flag at_ name :
  ":"%char ∈ at_ → ":"%char ∉ name → ∃ b, field_flag has flag at_ name = Ok b.
Proof.
  intros H1 H2. unfold field_flag. destruct has; [by exists flag|].
  destruct (strncaseeq_colon at_ name H1 H2) as [b ->]. by eexists.
Qed.

(** An event on which the wrapper's callback stays inside the buffer. *)
Definition safe_event (e : parser_event) : Prop :=
  match e with EHeaderField at_ _ => ":"%char ∈ at_ | _ => True end.

Lemma on_event_safe w e : safe_event e → ∃ w', on_event w e = Ok w'.
Proof.
  intros He. unfold on_event. destruct e; try by eexists. unfold OnHeaderField.
  repeat match goal with
  | |- context [field_flag ?h ?f ?a ?n] =>
      destruct (field_flag_colon h f a n He) as [? ->]; 
        [apply (bool_decide_unpack _); vm_compute; exact Logic.I|]; cbn [rbind]
  end.
  by eexists.
Qed.

Lemma on_events_safe w es : Forall safe_event es → ∃ w', on_events w es = Ok w'.
Proof.
  revert w. induction es as [|e es IH]; intros w He; [by exists w|].
  apply Forall_cons in He as [He Hes]. destruct (on_event_safe w e He) as [w1 E]. cbn. rewrite E.
  by apply IH.
Qed.

Definition events (buf : str) (cs : list callback) : list parser_event := omap (event_of buf) cs.

Lemma at_bytes_seg buf a (w : str) : seg buf a w → at_bytes (drop a buf) (Z.of_nat (length w)) = w.
Proof. unfold at_bytes, seg. by rewrite Nat2Z.id. Qed.

Section Collect.
Variable buf : str.

Lemma events_app cs1 cs2 : events buf (cs1 ++ cs2) = events buf cs1 ++ events buf cs2.
Proof. apply omap_app. Qed.

Lemma url_of_app es1 es2 : url_of (es1 ++ es2) = url_of es1 ++ url_of es2.
Proof. apply bind_app. Qed.
Lemma body_of_app es1 es2 : body_of (es1 ++ es2) = body_of es1 ++ body_of es2.
Proof. apply bind_app. Qed.

Lemma headers_events p xs :
  Forall wf_header xs → seg buf p (wire_headers xs) →
  let es := events buf (headers_calls p xs) in
  Forall safe_event es ∧ url_of es = [] ∧ body_of es = [].
Proof.
  revert p. induction xs as [|x xs IH]; intros p Hx Hseg; [by split|].
  apply Forall_cons in Hx as [Hx Hxs]. unfold wire_headers in Hseg. rewrite bind_cons in Hseg.
  apply seg_app in Hseg as [S1 S2]. destruct (IH _ Hxs S2) as (I1 & I2 & I3).
  cbn [headers_calls]. rewrite events_app. split_and!.
  - apply Forall_app. split; [|done]. repeat constructor. cbn.
    unfold seg in S1. rewrite <- (take_drop (length (wire_header x)) (drop p buf)), S1.
    apply elem_of_app. left. unfold wire_header. apply elem_of_app. right. by left.
  - by rewrite url_of_app, I2.
  - by rewrite body_of_app, I3.
Qed.

Lemma chunks_events p xs :
  seg buf p (xs ≫= wire_chunk) →
  let es := events buf (chunks_calls p xs) in
  Forall safe_event es ∧ url_of es = [] ∧ body_of es = xs ≫= snd.
Proof.
  revert p. induction xs as [|x xs IH]; intros p Hseg; [by split|].
  rewrite bind_cons in Hseg. apply seg_app in Hseg as [S1 S2]. destruct (IH _ S2) as (I1 & I2 & I3).
  cbn [chunks_calls]. split_and!; [by constructor|done|].
  change (at_bytes (drop (p + length x.1 + 2) buf) (Z.of_nat (length x.2)) ++
    body_of (events buf (chunks_calls (p + length (wire_chunk x)) xs)) = x.2 ++ (xs ≫= snd)).
  f_equal; [|exact I3].
  unfold wire_chunk in S1. apply seg_app in S1 as [_ S1]. apply seg_app in S1 as [_ S1].
  apply seg_app in S1 as [S1 _]. apply at_bytes_seg.
  by replace (p + length x.1 + 2)%nat with (p + length x.1 + length CRLF)%nat by done.
Qed.

Lemma body_events p b rest :
  seg buf p (wire_body b ++ rest) →
  let es := events buf (body_calls p b) in
  Forall safe_event es ∧ url_of es = [] ∧ body_of es = body_bytes b.
Proof.
  intros Hseg. apply seg_app in Hseg as [Hseg _]. destruct b as [s|xs]; cbn [wire_body] in Hseg.
  - destruct s as [|c s]; [by split|]. split_and!; [by repeat constructor|done|].
    cbn -[Z.of_nat]. rewrite app_nil_r. exact (at_bytes_seg _ _ _ Hseg).
  - apply seg_app in Hseg as [Hseg _]. by apply chunks_events.
Qed.
End Collect.

(** ** A request as the wrapper sees it *)

Section Request.
Variable r : request.

Lemma wire_url :
  seg (wire r) (length (r_method r) + 1) (r_url r) ∧
  seg (wire r) (length (r_method r) + 1 + length (r_url r) + 11) (wire_headers (r_headers r)) ∧
  seg (wire r) (length (wire_head r) + 2) (wire_body (r_body r) ++ []).
Proof.
  assert (S0 : seg (wire r) 0 (wire r)) by (unfold seg; rewrite drop_0; by apply firstn_all).
  unfold wire in S0 at 2. apply seg_app in S0 as [S1 S2]. apply seg_app in S2 as [_ S2].
  unfold wire_head in S1. apply seg_app in S1 as [S0 S1]. apply seg_app in S1 as [SU S1].
  apply seg_app in S1 as [_ SH]. apply seg_app in SU as [SU _].
  rewrite !length_app in SH, SU.
  replace (0 + length (wire_head r) + length CRLF)%nat with (length (wire_head r) + 2)%nat in S2 by done.
  change (length (cstr " ")) with 1%nat in *. rewrite app_nil_r. split_and!; [exact SU| |exact S2].
  match type of SH with seg _ ?q _ =>
    replace (length (r_method r) + 1 + length (r_url r) + 11)%nat with q;
      [done|rewrite length_app; cbn; lia] end.
Qed.

Hypothesis Hwf : wf_request r.

Lemma request_events :
  let es := events (wire r) (request_calls r) in
  Forall safe_event es ∧ url_of es = r_url r ∧ body_of es = body_bytes (r_body r) ∧
  complete_in es = true.
Proof.
  destruct wire_url as (SU & SH & SB).
  destruct (headers_events _ _ _ (wf_headers r Hwf) SH) as (H1 & H2 & H3).
  destruct (body_events _ _ _ _ SB) as (B1 & B2 & B3).
  unfold request_calls, head_calls. cbv zeta.
  set (hs := headers_calls _ _) in *. set (bs := body_calls _ _) in *.
  change (CBurl ?a ?n :: hs) with ([CBurl a n] ++ hs). rewrite !events_app. split_and!.
  - repeat apply Forall_app_2; by repeat constructor.
  - rewrite !url_of_app, H2, B2, app_nil_r. cbn -[Z.of_nat].
    rewrite !app_nil_r. by apply at_bytes_seg.
  - rewrite !body_of_app, H3, B3. cbn. by rewrite app_nil_r.
  - unfold complete_in. rewrite !existsb_app. cbn. by rewrite !orb_true_r.
Qed.

Lemma request_parsed w :
  ∃ w', ParseHttpContent (wire r) w = Ok w' ∧
    url_ w' = r_url r ∧ body_content_ w' = body_bytes (r_body r) ∧ read_all_ w' = true.
Proof.
  destruct request_events as (E1 & E2 & E3 & E4). unfold ParseHttpContent.
  destruct (runs_execute (wire r) (request_calls r) (wire_not_empty r) (request_run r Hwf))
    as (m & Em & _ & Ec).
  cbn [http_parser_execute vendored_parser]. unfold parse_events. rewrite Em, Ec.
  destruct (on_events_safe wrapper_reset _ E1) as [w' Ew]. exists w'. split; [exact Ew|].
  destruct (on_events_collect _ _ _ Ew) as (-> & -> & ->).
  by rewrite E2, E3, E4.
Qed.
End Request.

(** On the bytes of a well-formed request, whatever the wrapper held before, it collects
    exactly the request's URL and the bytes of its body (the data of the chunks, without
    their sizes, when it is chunked), and knows that it has all of them. *)
Theorem request_collected r w :
  wf_request r →
  ∃ w', ParseHttpContent (wire r) w = Ok w' ∧
    url_ w' = r_url r ∧ body_content_ w' = body_bytes (r_body r) ∧ read_all_ w' = true.
Proof. intros Hwf. by apply request_parsed. Qed.

Lemma request_collected_witness :
  ∃ w', ParseHttpContent (wire demo_chunked) wrapper_reset = Ok w' ∧
    url_ w' = cstr "/api/login?x#y" ∧ body_content_ w' = cstr "abc0123456789" ∧
    read_all_ w' = true.
Proof. apply (request_collected demo_chunked). exact demo_chunked_wf. Defined.

(** Until the parser reports the end of the message, the wrapper waits for more, unless
    comparing a header name that is not complete yet reads past what has arrived. *)
Lemma field_flag_cases has flag a name :
  (∃ b, field_flag has flag a name = Ok b) ∨ field_flag has flag a name = Undef OutOfBounds.
Proof.
  unfold field_flag. destruct has; [by left; exists flag|].
  assert ((∃ b, strncaseeq a name = Ok b) ∨ strncaseeq a name = Undef OutOfBounds)
    as [[b ->]| ->]; [|left; by eexists|by right].
  revert a. induction name as [|d name IH]; intros a; [by destruct a; left; exists true|].
  destruct a as [|c a]; [by right|]. cbn. case_bool_decide; [apply IH|left; by exists false].
Qed.

Lemma on_events_cases w es : (∃ w', on_events w es = Ok w') ∨ on_events w es = Undef OutOfBounds.
Proof.
  revert w. induction es as [|e es IH]; intros w; [left; by exists w|]. cbn.
  assert ((∃ w', on_event w e = Ok w') ∨ on_event w e = Undef OutOfBounds) as [[w1 ->]| ->];
    [|apply IH|by right].
  destruct e; try (left; by eexists). cbn. unfold OnHeaderField.
  repeat match goal with
  | |- context [field_flag ?h ?f ?a ?n] =>
      destruct (field_flag_cases h f a n) as [[? ->]| ->]; cbn [rbind]; [|by right]
  end.
  left. by eexists.
Qed.

Lemma incomplete_events buf cs : incomplete cs → complete_in (events buf cs) = false.
Proof.
  unfold incomplete, events. induction cs as [|e cs IH]; [done|].
  rewrite not_elem_of_cons. intros [He Hcs]. specialize (IH Hcs). by destruct e; cbn.
Qed.

(** ** The connection *)

Section Connection.
Context {W : Type} `{CC : CurlClient W}.
Variable addr : str.

(** The calls of [OnRead] on a connection: each finds all the bytes that have arrived. *)
Fixpoint OnReads (bufs : list str) (p : CHttpParserWrapper) : io W (list str) :=
  match bufs with
  | [] => iret []
  | buf :: bufs =>
      do* x := CHttpConn_OnRead addr buf p in
      do* out := OnReads bufs x.1 in
      iret (x.2 ++ out)
  end.

Lemma OnRead_cut r c p (w : W) :
  wf_request r → (slen (wire r) < 2 ^ 32)%Z → (c < length (wire r))%nat →
  (∃ p', CHttpConn_OnRead addr (take c (wire r)) p w = (Ok (p', []), w)) ∨
  CHttpConn_OnRead addr (take c (wire r)) p w = (Undef OutOfBounds, w).
Proof.
  intros Hwf Hsz Hc. unfold CHttpConn_OnRead, ParseHttpContent. rewrite parsed_part_all.
  2: { unfold slen in *. rewrite length_take. lia. }
  cbn [http_parser_execute vendored_parser]. unfold parse_events.
  assert (∃ m n, HttpMachine.http_parser_execute wrapper_settings (http_parser_init HTTP_REQUEST)
    (take c (wire r)) = Ok (Some (m, n)) ∧ incomplete (calls m)) as (m & n & -> & Hi).
  { destruct c as [|c]; [do 2 eexists; split; [reflexivity|]; by apply not_elem_of_nil|].
    destruct (runs_cut (wire r) (request_calls r) (S c) (request_run r Hwf) ltac:(lia))
      as (m & E & _ & Hi). by exists m, (Z.of_nat (S c)). }
  fold (events (take c (wire r)) (calls m)).
  destruct (on_events_cases wrapper_reset (events (take c (wire r)) (calls m))) as [[p' E]|E].
  - left. exists p'. rewrite E, (ibind_lift _ _ p' eq_refl).
    destruct (on_events_collect _ _ _ E) as (_ & _ & ->).
    by rewrite incomplete_events.
  - right. by rewrite E.
Qed.

(** C15: A login request is answered once, however TCP cuts it: as long as a part of it is
    missing, nothing is sent and the logic server is not asked (or comparing a header name
    that has arrived only in part reads past the buffer, which is undefined behaviour);
    when all of it has arrived, exactly one POST with the bytes of the body goes to
    [/logic/login] and exactly one reply is sent.  The request is smaller than 4 GiB: the
    length of the buffer is narrowed to 32 bits. *)
Theorem login_request_any_cut r cuts p (w w' : W) reply :
  wf_request r → (slen (wire r) < 2 ^ 32)%Z →
  starts_with "/api/login" (c_str (r_url r)) = true →
  Forall (λ c, c < length (wire r))%nat cuts →
  curl_post (c_str (addr ++ "/logic/login")) (body_bytes (r_body r)) w = (Some reply, w') →
  (slen (curl_body reply) ≤ 3800)%Z →
  OnReads (((λ c, take c (wire r)) <$> cuts) ++ [wire r]) p w =
    (Ok [reply_text "No Content" reply], w') ∨
  OnReads (((λ c, take c (wire r)) <$> cuts) ++ [wire r]) p w = (Undef OutOfBounds, w).
Proof.
  intros Hwf Hsz Hu Hcuts Hpost Hlen. revert p.
  induction Hcuts as [|c cuts Hc Hcuts IH]; intros p; cbn [fmap list_fmap app OnReads].
  - left. destruct (request_parsed r Hwf p) as (p' & Ep & Eu & Eb & Er).
    assert (Hwhole : ∀ x, ParseHttpContent (wire r) p = x → ParseHttpContent (parsed_part (wire r)) p = x)
      by (by rewrite parsed_part_all).
    erewrite (ibind_Ok _ _ _ (p', [reply_text "No Content" reply]) w'); [done|].
    apply (proj1 (auth_request_reply addr (wire r) p p' w w' reply (Hwhole _ Ep) Er Hlen)).
    + by rewrite Eu.
    + by rewrite Eb.
  - destruct (OnRead_cut r c p w Hwf Hsz Hc) as [[p' E]|E].
    + rewrite (ibind_Ok _ _ _ _ _ E). cbn [fst snd app].
      destruct (IH p') as [E'|E'].
      * left. by rewrite (ibind_Ok _ _ _ _ _ E').
      * right. unfold ibind. by rewrite E'.
    + right. unfold ibind. by rewrite E.
Qed.
End Connection.

Lemma login_request_any_cut_witness :
  let reply := CurlReply "sid1" 0 200 in
  let cut c := take c (wire demo_plain) in
  OnReads (W := Peer) "http://l" [cut 10; cut 30; cut 45; wire demo_plain]%nat wrapper_reset
    (MkPeer [] (Some reply)) =
    (Ok [reply_text "No Content" reply],
     MkPeer [("http://l/logic/login" : str, "{}" : str)] (Some reply)) ∨
  OnReads (W := Peer) "http://l" [cut 10; cut 30; cut 45; wire demo_plain]%nat wrapper_reset
    (MkPeer [] (Some reply)) = (Undef OutOfBounds, MkPeer [] (Some reply)).
Proof.
  apply (login_request_any_cut (W := Peer) "http://l" demo_plain [10; 30; 45]%nat).
  - exact demo_plain_wf.
  - reflexivity.
  - reflexivity.
  - repeat (apply Forall_cons; split; [vm_compute; lia|]). by apply Forall_nil.
  - reflexivity.
  - vm_compute. by intros.
Defined.
