(* ===== verification/WsConn.v ===== *)
(** [service/websocket_conn.{h,cc}]: the WebSocket side of a connection — handshake and
    authentication, the frame loop, the tasks run by the thread pool and the handlers
    they call.  The byte formats are in [WsFrame].

    The state shared by the connections of the process is one record; a connection
    object ([shared_ptr<CWebSocketConn>]) is a natural number into [ws_conns].  A task of
    the thread pool is atomic; the pool's queue is [thread_tasks]. *)

From S2P Require Import Prelude Json Base64 WsFrame ApiTypes PubSub LogicClient.

(** ** State *)

(** The fields of one [CWebSocketConn] (with [headers_] of its base class). *)
Record ws_conn : Type := MkWs {
  user_id : str;
  username : str;
  handshake_completed : bool;
  rooms_map : gmap str Room;
  incomplete_frame_buffer : str;
  stats_total_messages : Z;
  stats_total_bytes : Z;
  headers_ : gmap str str
}.

(** [CWebSocketConn::CWebSocketConn], then [setHeaders]. *)
Definition CWebSocketConn_new (headers : gmap str str) : ws_conn :=
  MkWs [] [] false ∅ [] 0 0 headers.

(** What a connection's socket is asked to do. *)
Inductive tcp_action : Type :=
  | TSend (data : str)
  | TShutdown.

Record comet (P W : Type) : Type := MkComet {
  ws_conns : gmap nat ws_conn;
  s_user_ws_conn_map : gmap str nat;
  pubsub : P;
  s_room_list : list Room;
  tcp_out : list (nat * tcp_action);          (* in order *)
  thread_tasks : list (nat * str);            (* queue of [s_thread_pool] *)
  http : W
}.
Arguments MkComet {P W}.
Arguments ws_conns {P W}.
Arguments s_user_ws_conn_map {P W}.
Arguments pubsub {P W}.
Arguments s_room_list {P W}.
Arguments tcp_out {P W}.
Arguments thread_tasks {P W}.
Arguments http {P W}.

Definition set_user (u n : str) (x : ws_conn) : ws_conn :=
  MkWs u n (handshake_completed x) (rooms_map x) (incomplete_frame_buffer x)
    (stats_total_messages x) (stats_total_bytes x) (headers_ x).
Definition set_room (r : str) (room : Room) (x : ws_conn) : ws_conn :=
  MkWs (user_id x) (username x) (handshake_completed x) (<[r := room]> (rooms_map x))
    (incomplete_frame_buffer x) (stats_total_messages x) (stats_total_bytes x) (headers_ x).
(** [rooms_map.insert]: a known room is kept. *)
Definition insert_room (x : ws_conn) (room : Room) : ws_conn :=
  match rooms_map x !! room_id room with
  | Some _ => x
  | None => set_room (room_id room) room x
  end.
Definition set_buffer (b : str) (x : ws_conn) : ws_conn :=
  MkWs (user_id x) (username x) (handshake_completed x) (rooms_map x) b
    (stats_total_messages x) (stats_total_bytes x) (headers_ x).
(** [++stats_total_messages; stats_total_bytes += n] *)
Definition count_frame (n : Z) (x : ws_conn) : ws_conn :=
  MkWs (user_id x) (username x) (handshake_completed x) (rooms_map x)
    (incomplete_frame_buffer x) (u64 (stats_total_messages x + 1))
    (u64 (stats_total_bytes x + n)) (headers_ x).
(** [handshake_completed = true], and [headers_[key]] with the member it creates. *)
Definition complete_handshake (key : str) (x : ws_conn) : ws_conn :=
  MkWs (user_id x) (username x) true (rooms_map x) (incomplete_frame_buffer x)
    (stats_total_messages x) (stats_total_bytes x)
    (<[key := default [] (headers_ x !! key)]> (headers_ x)).

Section State.
Context {P W : Type}.
Implicit Types c : comet P W.

Definition set_conns c x : comet P W :=
  MkComet x (s_user_ws_conn_map c) (pubsub c) (s_room_list c) (tcp_out c) (thread_tasks c) (http c).
Definition set_users c x : comet P W :=
  MkComet (ws_conns c) x (pubsub c) (s_room_list c) (tcp_out c) (thread_tasks c) (http c).
Definition set_pubsub c x : comet P W :=
  MkComet (ws_conns c) (s_user_ws_conn_map c) x (s_room_list c) (tcp_out c) (thread_tasks c) (http c).
Definition set_rooms c x : comet P W :=
  MkComet (ws_conns c) (s_user_ws_conn_map c) (pubsub c) x (tcp_out c) (thread_tasks c) (http c).
Definition set_out c x : comet P W :=
  MkComet (ws_conns c) (s_user_ws_conn_map c) (pubsub c) (s_room_list c) x (thread_tasks c) (http c).
Definition set_tasks c x : comet P W :=
  MkComet (ws_conns c) (s_user_ws_conn_map c) (pubsub c) (s_room_list c) (tcp_out c) x (http c).
Definition set_http c x : comet P W :=
  MkComet (ws_conns c) (s_user_ws_conn_map c) (pubsub c) (s_room_list c) (tcp_out c) (thread_tasks c) x.

(** [this]: the fields of connection [cid]. *)
Definition this (cid : nat) : io (comet P W) ws_conn := λ c,
  match ws_conns c !! cid with
  | Some x => (Ok x, c)
  | None => (Undef NullDeref, c)
  end.
(** Assignments to the fields of [this]. *)
Definition update_this (cid : nat) (f : ws_conn → ws_conn) : io (comet P W) unit := λ c,
  match ws_conns c !! cid with
  | Some x => (Ok tt, set_conns c (<[cid := f x]> (ws_conns c)))
  | None => (Undef NullDeref, c)
  end.
Definition emit (cid : nat) (a : tcp_action) : io (comet P W) unit := λ c,
  (Ok tt, set_out c (tcp_out c ++ [(cid, a)])).
Definition modify (f : comet P W → comet P W) : io (comet P W) unit := λ c, (Ok tt, f c).
(** A computation of the HTTP client. *)
Definition via_http {A} (m : io W A) : io (comet P W) A := λ c,
  let (r, w) := m (http c) in (r, set_http c w).
End State.

(** ** Operations *)

Section WsConn.
Context {J P W : Type} `{JC : JsonCpp J} `{SS : SubscriptionService P} `{CC : CurlClient W}.
Variable logic_server_url : str.
(** OpenSSL's digest, and the indeterminate bytes its buffer leaves to [base64_encode]. *)
Variable SHA1 : str → list ascii.
Variable junk : list Z.
(** [InitThreadPool] was called. *)
Variable pool_started : bool.

Abbreviation M := (io (comet P W)).

(** [CHttpConn::send] *)
Definition send (cid : nat) (data : str) : M unit := emit cid (TSend data).

(** [SendCloseFrame]: the two bytes of the code, then the reason. *)
Definition SendCloseFrame (cid : nat) (code : Z) (reason : str) : M unit :=
  emit cid (TSend (chr (Z.land (Z.shiftr code 8) 0xFF) :: chr (Z.land code 0xFF) :: reason)).

(** The body of the room loop of [SendHelloMessage]. *)
Definition hello_room (cid : nat) (room : J) : M unit :=
  do* m := ilift (jisMember room "id") in
  if m : bool then
    do* i := ilift (jget room "id") in
    do* room_id := ilift (jasString i) in
    do* n := ilift (jget_default room "name" (jstring [])) in
    do* room_name := ilift (jasString n) in
    do* _ := update_this cid (set_room room_id (MkRoom room_id room_name [] [] [] [])) in
    do* x := this cid in
    modify (λ c, set_pubsub c (svc_add_subscriber room_id (user_id x) (pubsub c)).2)
  else iret tt.

(** [for (int i = 0; i < rooms.size(); ++i)] *)
Fixpoint hello_rooms (cid : nat) (rooms : J) (idxs : list nat) : M unit :=
  match idxs with
  | [] => iret tt
  | i :: idxs' =>
      do* room := ilift (jidx rooms i) in
      do* _ := hello_room cid room in
      hello_rooms cid rooms idxs'
  end.

(** [SendHelloMessage] *)
Definition SendHelloMessage (cid : nat) : M Z :=
  do* x := this cid in
  do* hello_request := ilift (jobj [("userId" : str, jstring (user_id x));
                                    ("username" : str, jstring (username x))]) in
  do* r := via_http (sendHttpRequest (logic_server_url ++ "/logic/hello")
                       (jwrite hello_request) []) in
  let '(ok, response_json) := r in
  if negb ok then iret (-1)%Z
  else
    match jparse response_json with
    | None => iret (-1)%Z
    | Some logic_response =>
        do* m := ilift (jisMember logic_response "payload") in
        do* mr := (if m : bool then
                     ilift (let* p := jget logic_response "payload" in jisMember p "rooms")
                   else iret false) in
        do* _ := (if mr : bool then
                    do* p := ilift (jget logic_response "payload") in
                    do* rooms := ilift (jget p "rooms") in
                    hello_rooms cid rooms (seq 0 (jsize rooms))
                  else iret tt) in
        do* _ := send cid (BuildWebSocketFrame response_json 1) in
        iret 0%Z
    end.

(** [HandleClientMessages] *)
Definition HandleClientMessages (cid : nat) (root : J) : M Z :=
  do* x := this cid in
  do* r := via_http (handleSend logic_server_url root (user_id x) (username x) []) in
  iret r.1.

(** [HandleRequestRoomHistory] *)
Definition HandleRequestRoomHistory (cid : nat) (root : J) : M Z :=
  do* x := this cid in
  do* r := via_http (handleRoomHistory logic_server_url root (user_id x) (username x) []) in
  let '(ret, response_json) := r in
  do* _ := (if (ret =? 0)%Z then send cid (BuildWebSocketFrame response_json 1)
            else iret tt) in
  iret ret.

(** [root[key]] is present, and its text is [expected]. *)
Definition member_is (root : J) (key expected : str) : result bool :=
  let* m := jisMember root key in
  if m : bool then
    let* x := jget root key in let* s := jasString x in Ok (bool_decide (s = expected))
  else Ok false.

(** [HandleClientCreateRoom] *)
Definition HandleClientCreateRoom (cid : nat) (root : J) : M Z :=
  do* x := this cid in
  do* r := via_http (handleCreateRoom logic_server_url root (user_id x) (username x) []) in
  let '(ret, response_json) := r in
  if negb (ret =? 0)%Z then iret (-1)%Z
  else
    match jparse response_json with
    | None => iret (-1)%Z
    | Some response_root =>
        do* t := ilift (member_is response_root "type" "serverCreateRoom") in
        do* p := (if t : bool then ilift (member_not_null response_root "payload")
                  else iret None) in
        match p with
        | None => iret (-1)%Z
        | Some payload =>
            do* m1 := ilift (jisMember payload "roomId") in
            do* m2 := (if m1 : bool then ilift (jisMember payload "roomName") else iret false) in
            if negb m2 then iret (-1)%Z
            else
              do* i := ilift (jget payload "roomId") in
              do* room_id := ilift (jasString i) in
              do* n := ilift (jget payload "roomName") in
              do* room_name := ilift (jasString n) in
              if bool_decide (room_id = []) then
                do* respPayload := ilift (jobj
                  [("roomId" : str, jstring []); ("roomName" : str, jstring room_name);
                   ("creatorId" : str, jstring (user_id x))]) in
                do* resp := ilift (jobj
                  [("type" : str, jstring "serverCreateRoom");
                   ("payload" : str, respPayload)]) in
                do* _ := send cid (BuildWebSocketFrame (jwrite resp) 1) in
                iret 0%Z
              else iret 0%Z
        end
    end.

(** [Disconnect] *)
Definition Disconnect (cid : nat) : M unit :=
  do* x := this cid in
  do* _ := SendCloseFrame cid 1000 "Normal closure" in
  do* _ := emit cid TShutdown in
  modify (λ c, set_users c (delete (user_id x) (s_user_ws_conn_map c))).

(** The task that [OnRead] gives to the thread pool for one frame. *)
Definition frame_task (cid : nat) (frame_data : str) : M unit :=
  do* frame := ilift (ParseWebSocketFrame frame_data) in
  do* _ := update_this cid (count_frame (slen (payload_data frame))) in
  if (opcode frame =? 1)%Z then
    match jparse (payload_data frame) with
    | None => iret tt
    | Some root =>
        if jisObject root then
          do* t := ilift (jget root "type") in
          if jisNull t then iret tt
          else
            do* type := ilift (jasString t) in
            if bool_decide (type = "clientMessages") then
              do* _ := HandleClientMessages cid root in iret tt
            else if bool_decide (type = "requestRoomHistory") then
              do* _ := HandleRequestRoomHistory cid root in iret tt
            else if bool_decide (type = "clientCreateRoom") then
              do* _ := HandleClientCreateRoom cid root in iret tt
            else iret tt
        else iret tt
    end
  else if (opcode frame =? 8)%Z then Disconnect cid
  else iret tt.

(** The successful branch of the handshake up to [SendHelloMessage]: the user's data,
  the map of connections (an older connection of the user is replaced) and the rooms
  already known. *)
Definition register_user (cid : nat) (u n : str) : M unit :=
  do* _ := update_this cid (set_user u n) in
  do* _ := modify (λ c, set_users c (<[u := cid]> (delete u (s_user_ws_conn_map c)))) in
  λ c, update_this cid (λ x, foldl insert_room x (GetRoomList (s_room_list c))) c.

(** [OnRead] before the handshake, on the bytes [request] taken from the buffer. *)
Definition OnRead_handshake (cid : nat) (request : str) : M unit :=
  let key_start := sfind request "Sec-WebSocket-Key: " 0 in
  if (key_start =? npos)%Z then iret tt
  else
    let key_start := (key_start + 19)%Z in
    let key_end := sfind request CRLF key_start in
    do* key := ilift (substr request key_start (u64 (key_end - key_start))) in
    do* response := ilift (GenerateWebSocketHandshakeResponse SHA1 junk key) in
    do* _ := send cid response in
    do* _ := update_this cid (complete_handshake "Cookie") in
    do* x := this cid in
    let Cookie := default [] (headers_ x !! ("Cookie" : str)) in
    do* sid := (if bool_decide (Cookie ≠ []) then ilift (ExtractSid Cookie) else iret []) in
    do* auth_result := via_http (verifyUserAuth logic_server_url sid) in
    if bool_decide (Cookie = []) || negb (success auth_result) then
      SendCloseFrame cid 1008
        (if bool_decide (error_message auth_result = []) then "Cookie validation failed"
         else error_message auth_result)
    else
      do* _ := register_user cid (auth_user_id auth_result) (auth_username auth_result) in
      do* _ := SendHelloMessage cid in
      iret tt.

(** [s_thread_pool->run] for each frame, in order; the pool is null when the server was
  configured with no worker thread. *)
Definition push_tasks (tasks : list (nat * str)) : M unit :=
  match tasks with
  | [] => iret tt
  | _ => if pool_started then modify (λ c, set_tasks c (thread_tasks c ++ tasks))
         else ilift (Undef NullDeref)
  end.

(** [OnRead] after the handshake: [fuel] bounds the iterations of the frame loop.
  [None]: the loop did not end within [fuel] iterations. *)
Definition OnRead_frames (fuel : nat) (cid : nat) (data : str) : M (option unit) :=
  do* x := this cid in
  do* r := ilift (frame_loop fuel (incomplete_frame_buffer x ++ data) []) in
  match r with
  | None => iret None
  | Some (tasks, rest) =>
      do* _ := update_this cid (set_buffer rest) in
      do* _ := push_tasks ((λ t, (cid, t)) <$> tasks) in
      iret (Some tt)
  end.

(** [CWebSocketConn::OnRead] *)
Definition CWebSocketConn_OnRead (fuel : nat) (cid : nat) (data : str) : M (option unit) :=
  do* x := this cid in
  if handshake_completed x then OnRead_frames fuel cid data
  else do* _ := OnRead_handshake cid data in iret (Some tt).

(** A worker of the pool takes the oldest task and runs it. *)
Definition run_next_task : M unit := λ c,
  match thread_tasks c with
  | [] => (Ok tt, c)
  | (cid, frame_data) :: rest => frame_task cid frame_data (set_tasks c rest)
  end.
End WsConn.

(** ** Reasoning about effects *)

Section Triples.
Context {P W : Type}.
Implicit Types I Pre Post : comet P W → Prop.

(** From a state in [Pre] the computation ends in a state in [Post], whether it returns,
  throws or stops being defined. *)
Definition triple {A} Pre (m : io (comet P W) A) Post : Prop := ∀ c, Pre c → Post (m c).2.

Lemma triple_bind {A B} Pre Mid Post (m : io (comet P W) A) (k : A → io (comet P W) B) :
  triple Pre m Mid → (∀ a, triple Mid (k a) Post) → (∀ c, Mid c → Post c) →
  triple Pre (ibind m k) Post.
Proof.
  intros Hm Hk Himp c Hc. specialize (Hm c Hc). unfold ibind.
  destruct (m c) as [[a|e|u] c']; [by apply Hk|by apply Himp..].
Qed.

Lemma keep_bind {A B} I (m : io (comet P W) A) (k : A → io (comet P W) B) :
  triple I m I → (∀ a, triple I (k a) I) → triple I (ibind m k) I.
Proof. intros. by eapply triple_bind. Qed.

Lemma keep_ret {A} I (a : A) : triple I (iret a) I.
Proof. by intros c. Qed.
Lemma keep_lift {A} I (m : result A) : triple I (ilift m) I.
Proof. by intros c. Qed.
Lemma keep_this I cid : triple I (this cid) I.
Proof. intros c Hc. unfold this. by destruct (ws_conns c !! cid). Qed.
Lemma keep_modify I f : (∀ c, I c → I (f c)) → triple I (modify f) I.
Proof. intros H c. apply H. Qed.
Lemma keep_emit I cid a :
  (∀ c, I c → I (set_out c (tcp_out c ++ [(cid, a)]))) → triple I (emit cid a) I.
Proof. intros H c. apply H. Qed.
Lemma keep_via_http {A} I (m : io W A) :
  (∀ c w, I c → I (set_http c w)) → triple I (via_http m) I.
Proof. intros H c Hc. unfold via_http. destruct (m (http c)) as [r w]. by apply H. Qed.
Lemma keep_update_this I cid f :
  (∀ c x, ws_conns c !! cid = Some x → I c → I (set_conns c (<[cid := f x]> (ws_conns c)))) →
  triple I (update_this cid f) I.
Proof. intros H c Hc. unfold update_this. destruct (ws_conns c !! cid) eqn:E; cbn; eauto. Qed.
End Triples.

(** Decompose a computation that keeps [I]; leaves the elementary effects. *)
Ltac keep_step :=
  match goal with
  | |- triple _ (ibind _ _) _ => apply keep_bind; [|intros]
  | |- triple _ (iret _) _ => apply keep_ret
  | |- triple _ (ilift _) _ => apply keep_lift
  | |- triple _ (this _) _ => apply keep_this
  | |- triple _ (modify _) _ => apply keep_modify
  | |- triple _ (emit _ _) _ => apply keep_emit
  | |- triple _ (send _ _) _ => apply keep_emit
  | |- triple _ (SendCloseFrame _ _ _) _ => apply keep_emit
  | |- triple _ (via_http _) _ => apply keep_via_http
  | |- triple _ (update_this _ _) _ => apply keep_update_this
  | |- triple _ (if ?b then _ else _) _ => destruct b
  | |- triple _ (match ?o with Some _ => _ | None => _ end) _ => destruct o
  | |- triple _ (match ?p with (_, _) => _ end) _ => destruct p
  end.

(** ** Who is registered

    A registered connection belongs to the user it is registered for and has completed its
    handshake; a connection without a completed handshake has no user. *)
Definition registered_ok {P W} (c : comet P W) : Prop :=
  (∀ u cid, s_user_ws_conn_map c !! u = Some cid →
     ∃ x, ws_conns c !! cid = Some x ∧ user_id x = u ∧ handshake_completed x = true) ∧
  (∀ cid x, ws_conns c !! cid = Some x → handshake_completed x = false → user_id x = []).

Definition unregistered {P W} (cid : nat) (c : comet P W) : Prop :=
  ∀ u, s_user_ws_conn_map c !! u ≠ Some cid.

Definition pending {P W} (cid : nat) (c : comet P W) : Prop :=
  registered_ok c ∧ unregistered cid c.

(** An update of a connection that keeps its user and its handshake. *)
Definition keeps_identity (f : ws_conn → ws_conn) : Prop :=
  ∀ x, user_id (f x) = user_id x ∧ handshake_completed (f x) = handshake_completed x.

Lemma registered_ok_update {P W} (c : comet P W) cid x f :
  ws_conns c !! cid = Some x → keeps_identity f → registered_ok c →
  registered_ok (set_conns c (<[cid := f x]> (ws_conns c))).
Proof.
  intros Hx Hf [H1 H2]. destruct (Hf x) as [Hu Hh]. split; cbn.
  - intros u cid' Hu'. destruct (H1 u cid' Hu') as (y & Hy & Huy & Hhy).
    destruct (decide (cid' = cid)) as [->|]; simplify_map_eq; [|by eauto].
    exists (f x). by rewrite Hu, Hh.
  - intros cid' y. destruct (decide (cid' = cid)) as [->|]; simplify_map_eq; [|by eauto].
    intros [= <-]. rewrite Hu, Hh. by apply H2 with cid.
Qed.

Lemma keeps_identity_insert_rooms l : keeps_identity (λ x, foldl insert_room x l).
Proof.
  intros x. revert x. induction l as [|room l IH]; intros x; [done|]. cbn [foldl].
  destruct (IH (insert_room x room)) as [-> ->]. unfold insert_room.
  by destruct (rooms_map x !! room_id room).
Qed.

Section Registered.
Context {J P W : Type} `{JC : JsonCpp J} `{SS : SubscriptionService P} `{CC : CurlClient W}.
Implicit Types I : comet P W → Prop.

(** A condition on the connections and the users only. *)
Definition conns_users I : Prop :=
  ∀ c c', ws_conns c' = ws_conns c → s_user_ws_conn_map c' = s_user_ws_conn_map c →
          I c → I c'.

Lemma registered_conns_users : conns_users registered_ok.
Proof. intros c c' Hc Hu [H1 H2]. split; rewrite ?Hc, ?Hu; done. Qed.

(** What all the operations but registration and disconnection need. *)
Definition stable I : Prop :=
  conns_users I ∧
  ∀ c cid x f, ws_conns c !! cid = Some x → keeps_identity f → I c →
               I (set_conns c (<[cid := f x]> (ws_conns c))).

Lemma registered_stable : stable registered_ok.
Proof. split; [apply registered_conns_users|]. intros. by apply registered_ok_update. Qed.

Lemma unregistered_stable cid : stable (pending cid).
Proof.
  split.
  - intros c c' Hc Hu [H1 H2]. split; [by eapply registered_conns_users|].
    intros u. by rewrite Hu.
  - intros c cid' x f Hx Hf [H1 H2]. split; [by apply registered_ok_update|done].
Qed.

(** One elementary effect: only the other fields change, or one connection does. *)
Ltac stable_effect HI :=
  intros;
  first [ eapply (proj1 HI); [| |eassumption]; reflexivity
        | eapply (proj2 HI); [eassumption|by intros []|assumption] ].

Lemma hello_room_keeps I cid (room : J) : stable I → triple I (hello_room cid room) I.
Proof. intros HI. unfold hello_room. repeat keep_step; stable_effect HI. Qed.

Lemma hello_rooms_keeps I cid (rooms : J) l : stable I → triple I (hello_rooms cid rooms l) I.
Proof.
  intros HI. induction l as [|i l IH]; cbn; [apply keep_ret|].
  apply keep_bind; [apply keep_lift|]. intros room.
  apply keep_bind; [by apply hello_room_keeps|]. by intros _.
Qed.

Lemma SendHelloMessage_keeps I url cid : stable I → triple I (SendHelloMessage (J := J) url cid) I.
Proof.
  intros HI. unfold SendHelloMessage.
  repeat match goal with
  | |- triple _ (hello_rooms _ _ _) _ => by apply hello_rooms_keeps
  | _ => keep_step
  end; stable_effect HI.
Qed.

Lemma frame_task_keeps I url cid f :
  stable I → (∀ c u, I c → I (set_users c (delete u (s_user_ws_conn_map c)))) →
  triple I (frame_task (J := J) url cid f) I.
Proof.
  intros HI Hdel. unfold frame_task, HandleClientMessages, HandleRequestRoomHistory,
    HandleClientCreateRoom, Disconnect.
  repeat keep_step; first [by intros; apply Hdel | stable_effect HI].
Qed.
Lemma complete_handshake_keeps cid key :
  triple (P := P) (W := W) (pending cid)
    (update_this cid (complete_handshake key)) (pending cid).
Proof.
  apply keep_update_this. intros c x Hx [[H1 H2] Hun]. split; [split; cbn|done].
  - intros u cid' Hu. destruct (decide (cid' = cid)) as [->|]; [by destruct (Hun u)|].
    destruct (H1 u cid' Hu) as (y & ? & ?). exists y. by simplify_map_eq.
  - intros cid' y. destruct (decide (cid' = cid)) as [->|]; simplify_map_eq; [|by eauto].
    by intros [= <-].
Qed.

Lemma register_user_registers cid u n c x :
  ws_conns c !! cid = Some x → handshake_completed x = true →
  registered_ok c → unregistered cid c → registered_ok (register_user (P := P) (W := W) cid u n c).2.
Proof.
  intros Hx Hh [H1 H2] Hun. unfold register_user, ibind, update_this, modify.
  rewrite Hx. cbn. rewrite lookup_insert_eq. cbn.
  destruct (keeps_identity_insert_rooms (s_room_list c) (set_user u n x)) as [Hu' Hh'].
  split; cbn.
  - intros v cid' Hv. rewrite insert_delete_eq in Hv.
    destruct (decide (v = u)) as [->|Hne]; simplify_map_eq.
    + eexists. by rewrite Hu', Hh'.
    + destruct (H1 v cid' Hv) as (y & ? & ?). exists y.
      destruct (decide (cid' = cid)) as [->|]; [by destruct (Hun v)|]. by simplify_map_eq.
  - intros cid' y. destruct (decide (cid' = cid)) as [->|]; simplify_map_eq; [|by eauto].
    intros [= <-]. unfold GetRoomList. rewrite Hh'. cbn. by rewrite Hh.
Qed.
(** The handshake is done and the connection is not registered yet. *)
Definition ready (cid : nat) (c : comet P W) : Prop :=
  registered_ok c ∧ unregistered cid c ∧
  ∀ x, ws_conns c !! cid = Some x → handshake_completed x = true.

Lemma ready_stable cid : stable (ready cid).
Proof.
  split.
  - intros c c' Hc Hu (H1 & H2 & H3). split_and!; [by eapply registered_conns_users| |].
    + intros u. by rewrite Hu.
    + by rewrite Hc.
  - intros c cid' x f Hx Hf (H1 & H2 & H3). split_and!; [by apply registered_ok_update|done|].
    cbn. intros y. destruct (decide (cid' = cid)) as [->|]; simplify_map_eq; [|by eauto].
    intros [= <-]. destruct (Hf x) as [_ ->]. by apply H3.
Qed.

Lemma complete_handshake_ready cid key :
  triple (P := P) (W := W) (pending cid)
    (update_this cid (complete_handshake key)) (ready cid).
Proof.
  intros c Hc. destruct (complete_handshake_keeps cid key c Hc) as [H1 H2].
  split_and!; [done..|]. unfold update_this in *. destruct (ws_conns c !! cid) eqn:E; cbn in *.
  - intros x. rewrite lookup_insert_eq. by intros [= <-].
  - by rewrite E.
Qed.

Lemma register_user_keeps cid u n : triple (ready cid) (register_user cid u n) registered_ok.
Proof.
  intros c (H1 & H2 & H3). destruct (ws_conns c !! cid) as [x|] eqn:Hx.
  - eapply register_user_registers; eauto.
  - unfold register_user, ibind, update_this. by rewrite Hx.
Qed.

Lemma OnRead_handshake_keeps url SHA1 junk cid data :
  triple (P := P) (W := W) (pending cid)
    (OnRead_handshake (J := J) url SHA1 junk cid data) registered_ok.
Proof.
  unfold OnRead_handshake. destruct (_ =? _)%Z; [by intros c []|].
  pose proof (unregistered_stable cid) as HU. pose proof (ready_stable cid) as HR.
  apply (triple_bind _ (pending cid)); [apply keep_lift| |by intros c []].
  intros key. apply (triple_bind _ (pending cid)); [apply keep_lift| |by intros c []]. intros response.
  apply (triple_bind _ (pending cid)); [apply keep_emit; stable_effect HU| |by intros c []]. intros _.
  eapply triple_bind; [apply complete_handshake_ready| |by intros c []]. intros _.
  apply (triple_bind _ (ready cid)); [apply keep_this| |by intros c []]. intros x.
  apply (triple_bind _ (ready cid)); [destruct (bool_decide _); [apply keep_lift|apply keep_ret]| |by intros c []]. intros sid.
  apply (triple_bind _ (ready cid));
    [apply keep_via_http; stable_effect HR| |by intros c []]. intros auth_result.
  destruct (_ || _).
  - intros c Hc. apply registered_conns_users with c; [done..|apply Hc].
  - eapply triple_bind; [apply register_user_keeps| |done]. intros _.
    eapply triple_bind; [apply SendHelloMessage_keeps, registered_stable|by intros ? ? ?|done].
Qed.

Lemma OnRead_frames_keeps I started fuel cid data :
  stable I → triple I (OnRead_frames started fuel cid data) I.
Proof.
  intros HI. unfold OnRead_frames, push_tasks.
  repeat first [keep_step | match goal with
    | |- triple _ (match ?l with [] => _ | _ :: _ => _ end) _ => destruct l end];
    stable_effect HI.
Qed.
End Registered.

(** ** The task queue *)

Section Stream.
Context {J P W : Type} `{JC : JsonCpp J} `{SS : SubscriptionService P} `{CC : CurlClient W}.
Variable url : str.
Variable SHA1 : str → list ascii.
Variable junk : list Z.

(** [OnRead] once per received chunk. *)
Fixpoint OnRead_all (fuel cid : nat) (chunks : list str) : io (comet P W) (option unit) :=
  match chunks with
  | [] => iret (Some tt)
  | chunk :: chunks' =>
      do* r := CWebSocketConn_OnRead (J := J) url SHA1 junk true fuel cid chunk in
      match r with
      | None => iret None
      | Some _ => OnRead_all fuel cid chunks'
      end
  end.

(** The state after frames [fs] were queued and [rest] was kept in the buffer. *)
Definition queued (c : comet P W) (cid : nat) (x : ws_conn) (rest : str) (fs : list str) : comet P W :=
  set_tasks (set_conns c (<[cid := set_buffer rest x]> (ws_conns c)))
    (thread_tasks c ++ ((λ t, (cid, t)) <$> fs)).

Lemma OnRead_frames_queued fuel cid chunk (c : comet P W) x fs rest :
  ws_conns c !! cid = Some x → handshake_completed x = true →
  frame_loop fuel (incomplete_frame_buffer x ++ chunk) [] = Ok (Some (fs, rest)) →
  CWebSocketConn_OnRead (J := J) url SHA1 junk true fuel cid chunk c =
    (Ok (Some tt), queued c cid x rest fs).
Proof.
  intros Hx Hh Hl. unfold CWebSocketConn_OnRead, ibind, this. rewrite Hx. cbv beta iota.
  rewrite Hh. unfold OnRead_frames, ibind, this. rewrite Hx. cbv beta iota.
  unfold ilift at 1. rewrite Hl. cbv beta iota. unfold update_this. rewrite Hx.
  unfold queued. destruct fs as [|f fs]; cbn; [|done]. unfold iret, set_conns, set_tasks. cbn.
  by rewrite app_nil_r.
Qed.

Lemma OnRead_all_stream fuel cid chunks : ∀ (c : comet P W) x fs,
  ws_conns c !! cid = Some x → handshake_completed x = true →
  Forall is_frame fs → incomplete_frame_buffer x ++ concat chunks = concat fs →
  (incomplete_frame_buffer x = [] ∨ scan_frame (incomplete_frame_buffer x) = Ok NeedMore) →
  (length (concat fs) < fuel)%nat →
  OnRead_all fuel cid chunks c = (Ok (Some tt), queued c cid x [] fs).
Proof.
  induction chunks as [|chunk chunks IH]; intros c x fs Hx Hh Hfs Hcat Hbuf Hfuel.
  - assert (incomplete_frame_buffer x = [] ∧ fs = []) as [Hb ->].
    { cbn in Hcat. rewrite app_nil_r in Hcat. destruct fs as [|f fs]; [done|].
      apply Forall_cons in Hfs as [[Hne Hf] _]. rewrite Hcat in Hbuf. cbn in Hbuf.
      destruct Hbuf as [[-> _]%app_eq_nil|Hs]; [done|]. by rewrite Hf in Hs. }
    cbn. unfold iret, queued. f_equal. rewrite app_nil_r, insert_id by (destruct x; cbn in *; by subst).
    by destruct c.
  - destruct (frame_loop_stream fs fuel (incomplete_frame_buffer x ++ chunk) (concat chunks) [])
      as (fs1 & fs2 & p & -> & Hp & Hor & Hl).
    { done. }
    { apply (f_equal length) in Hcat. cbn in Hcat. rewrite !length_app in *. lia. }
    { by rewrite <- app_assoc. }
    cbn [OnRead_all]. rewrite (ibind_Ok _ _ _ _ _ (OnRead_frames_queued _ _ _ _ _ _ _ Hx Hh Hl)).
    apply Forall_app in Hfs as [_ Hfs2].
    rewrite (IH _ (set_buffer p x) fs2); cbn; [|by rewrite lookup_insert_eq|done|done|done|done|].
    + f_equal. unfold queued, set_tasks, set_conns. cbn.
      by rewrite insert_insert_eq, fmap_app, <- app_assoc.
    + rewrite concat_app, length_app in Hfuel. lia.
Qed.
End Stream.

(** ** Properties *)

(** What a task run for connection [cid] may have changed since [c0]: that connection's
    counters, sockets writes on that connection only, and no new registration. *)
Definition only_own {P W} (c0 : comet P W) (cid : nat) (c : comet P W) : Prop :=
  (∀ cid', cid' ≠ cid → ws_conns c !! cid' = ws_conns c0 !! cid') ∧
  (user_id <$> ws_conns c !! cid) = (user_id <$> ws_conns c0 !! cid) ∧
  s_user_ws_conn_map c ⊆ s_user_ws_conn_map c0 ∧
  pubsub c = pubsub c0 ∧ s_room_list c = s_room_list c0 ∧ thread_tasks c = thread_tasks c0 ∧
  ∃ out, tcp_out c = tcp_out c0 ++ ((λ a, (cid, a)) <$> out).

Section Isolation.
Context {J P W : Type} `{JC : JsonCpp J} `{SS : SubscriptionService P} `{CC : CurlClient W}.

Lemma only_own_emit (c0 c : comet P W) cid a :
  only_own c0 cid c → only_own c0 cid (set_out c (tcp_out c ++ [(cid, a)])).
Proof.
  intros (? & ? & ? & ? & ? & ? & out & Hout). do 6 (split; [done|]). cbn.
  exists (out ++ [a]). by rewrite Hout, fmap_app, app_assoc.
Qed.

Lemma only_own_delete (c0 c : comet P W) cid u :
  only_own c0 cid c → only_own c0 cid (set_users c (delete u (s_user_ws_conn_map c))).
Proof.
  intros (? & ? & ? & ? & ? & ? & ?). do 2 (split; [done|]). split; [|done]. cbn.
  etrans; [apply delete_subseteq|done].
Qed.

Lemma only_own_update (c0 c : comet P W) cid x f :
  ws_conns c !! cid = Some x → user_id (f x) = user_id x →
  only_own c0 cid c → only_own c0 cid (set_conns c (<[cid := f x]> (ws_conns c))).
Proof.
  intros Hx Hf (H1 & H2 & ?). split; [|split; [|done]]; cbn.
  - intros cid' Hne. rewrite lookup_insert_ne by done. by apply H1.
  - rewrite lookup_insert_eq, <- H2, Hx. cbn. by rewrite Hf.
Qed.

(** C25: whatever bytes a client puts in a frame, the task run for it (returning,
  throwing, or not) writes only to that client's own socket, changes no other
  connection and no subscription or room, changes no user, and registers nobody. *)
Theorem frame_task_isolated (url : str) (cid : nat) (frame_data : str) (c : comet P W) :
  only_own c cid (frame_task (J := J) url cid frame_data c).2.
Proof.
  enough (H : triple (only_own c cid) (frame_task (J := J) url cid frame_data) (only_own c cid)).
  { apply H. split_and!; try done. exists []. by rewrite app_nil_r. }
  unfold frame_task, HandleClientMessages, HandleRequestRoomHistory, HandleClientCreateRoom,
    Disconnect.
  repeat keep_step; intros;
    first [ by apply only_own_emit | by apply only_own_delete
          | by apply (only_own_update _ _ _ x) | assumption ].
Qed.

(** C2: however TCP cuts the byte stream of a client's frames into chunks, the successive
  [OnRead] calls queue exactly those frames for the thread pool, each once and in
  order, leave nothing in the buffer and change nothing else; one loop iteration per
  byte is enough. *)
Theorem OnRead_queues_frames (url : str) SHA1 (junk : list Z) (cid : nat) (c : comet P W) x
    (frames chunks : list str) :
  ws_conns c !! cid = Some x → handshake_completed x = true → incomplete_frame_buffer x = [] →
  Forall client_sent frames → concat chunks = concat frames →
  OnRead_all (J := J) url SHA1 junk (S (length (concat frames))) cid chunks c =
    (Ok (Some tt), queued c cid x [] frames).
Proof.
  intros Hx Hh Hb Hf Hc. apply OnRead_all_stream; rewrite ?Hb; [done|done| |done|by left|lia].
  eapply Forall_impl; [exact Hf|]. intros f (op & key & payload & Hk & -> & Hlen).
  by apply encode_is_frame.
Qed.

(** A handshake without cookie is answered with the 101 response and the bytes of
  code 1008, makes no call to the logic server and registers nobody; but the handshake
  counts as completed and the socket is not shut down, so frames are read from it. *)
Theorem handshake_without_cookie (url : str) SHA1 (junk : list Z) (cid : nat) (c : comet P W) x
    (pre key tl response : str) :
  ws_conns c !! cid = Some x → headers_ x !! ("Cookie" : str) = None →
  (slen (pre ++ "Sec-WebSocket-Key: " ++ key ++ CRLF ++ tl) < npos)%Z →
  no_occurrence "Sec-WebSocket-Key: " pre ("Sec-WebSocket-Key: " ++ key ++ CRLF ++ tl) →
  no_occurrence CRLF key (CRLF ++ tl) →
  GenerateWebSocketHandshakeResponse SHA1 junk key = Ok response →
  OnRead_handshake (J := J) url SHA1 junk cid
    (pre ++ "Sec-WebSocket-Key: " ++ key ++ CRLF ++ tl) c =
  (Ok tt,
   set_out (set_conns c (<[cid := complete_handshake "Cookie" x]> (ws_conns c)))
     (tcp_out c ++ [(cid, TSend response);
                    (cid, TSend (chr 3 :: chr 240 :: "Cookie is empty"))])).
Proof.
  intros Hx Hck Hlen Hpre Hkey Hresp. unfold OnRead_handshake.
  rewrite (sfind_first _ _ pre (key ++ CRLF ++ tl)) by done.
  set (req := pre ++ "Sec-WebSocket-Key: " ++ key ++ CRLF ++ tl) in *.
  assert (Hreq : req = (pre ++ "Sec-WebSocket-Key: ") ++ key ++ CRLF ++ tl)
    by (unfold req; by rewrite <- !app_assoc).
  assert (Hs : (slen pre + 19)%Z = slen (pre ++ "Sec-WebSocket-Key: ")) by by rewrite slen_app.
  rewrite (proj2 (Z.eqb_neq _ _)) by (unfold req, npos in *; slia). rewrite Hs.
  assert (Hend : sfind req CRLF (slen (pre ++ "Sec-WebSocket-Key: ")) =
                 (slen (pre ++ "Sec-WebSocket-Key: ") + slen key)%Z).
  { rewrite Hreq. unfold sfind. rewrite (proj2 (Z.leb_le _ _)) by slia.
    assert (Z.to_nat (slen (pre ++ "Sec-WebSocket-Key: ")) = length (pre ++ "Sec-WebSocket-Key: "))
      as -> by (unfold slen; lia).
    rewrite drop_app_length, find_nat_first by done. cbn. unfold slen. lia. }
  rewrite Hend. clear Hs Hend. rewrite Hreq.
  rewrite (ibind_lift _ _ key) by (apply substr_mid; rewrite Hreq in Hlen; unfold npos in Hlen; slia).
  rewrite (ibind_lift _ _ response) by done.
  set (c1 := set_out c (tcp_out c ++ [(cid, TSend response)])).
  rewrite (ibind_Ok _ _ c tt c1) by done.
  set (c2 := set_conns c1 (<[cid := complete_handshake "Cookie" x]> (ws_conns c1))).
  rewrite (ibind_Ok _ _ c1 tt c2) by (unfold update_this; cbn; by rewrite Hx).
  rewrite (ibind_Ok _ _ c2 (complete_handshake "Cookie" x) c2)
    by (unfold this, c2; cbn; by rewrite lookup_insert_eq).
  assert (default [] (headers_ (complete_handshake "Cookie" x) !! ("Cookie" : str)) = []) as ->
    by (cbn -[cstr]; by rewrite lookup_insert_eq, Hck).
  cbv zeta. rewrite (bool_decide_false ([] ≠ [])) by (by intros []).
  rewrite (ibind_Ok _ _ c2 [] c2) by done.
  rewrite (ibind_Ok _ _ c2 (auth_failed "Cookie is empty") c2) by (by destruct c).
  cbn. unfold SendCloseFrame, c2, c1, emit, set_out, set_conns. cbn. by rewrite <- app_assoc.
Qed.
End Isolation.

(** A process with one connection, for the witnesses. *)
Definition demo_comet (x : ws_conn) (reply : option curl_reply) : comet PubSubService Peer :=
  MkComet {[0%nat := x]} ∅ ∅ [] [] [] (MkPeer [] reply).
Definition demo_conn : ws_conn := MkWs "u1" "ann" true ∅ [] 0 0 ∅.

Lemma OnRead_queues_frames_witness :
  let f := client_frame 1 [chr 1; chr 2; chr 3; chr 4] "ab" in
  OnRead_all (J := Mini.jv) "http://l" (λ s, s) [] (S (length (concat [f; f]))) 0
    [take 3 f; drop 3 f ++ take 1 f; drop 1 f] (demo_comet demo_conn None) =
  (Ok (Some tt), queued (demo_comet demo_conn None) 0 demo_conn [] [f; f]).
Proof.
  intros f. apply (OnRead_queues_frames "http://l" (λ s, s) [] 0 (demo_comet demo_conn None)
    demo_conn [f; f] [take 3 f; drop 3 f ++ take 1 f; drop 1 f]).
  - reflexivity.
  - reflexivity.
  - reflexivity.
  - apply Forall_cons; split; [|apply Forall_cons; split; [|apply Forall_nil; exact I]];
      exists 1%Z, [chr 1; chr 2; chr 3; chr 4], ("ab" : str);
      (split; [reflexivity|]); (split; [reflexivity|]); reflexivity.
  - vm_compute. reflexivity.
Defined.

Lemma handshake_without_cookie_witness :
  let x := CWebSocketConn_new ∅ in
  (OnRead_handshake (J := Mini.jv) "http://l" (λ _, replicate 20 NUL) [0; 0; 0]%Z 0
     ("GET /" ++ CRLF ++ "Sec-WebSocket-Key: " ++ "k" ++ CRLF ++ CRLF)
     (demo_comet x None)).1 = Ok tt ∧
  (* a chat message received afterwards is forwarded, with an empty user *)
  peer_log (http (frame_task (J := Mini.jv) "http://l" 0
     (client_frame 1 [NUL; NUL; NUL; NUL]
        (dq "{'type':'clientMessages','payload':{'roomId':'r','messages':[]}}"))
     (demo_comet (complete_handshake "Cookie" x) None)).2) =
  [("http://l/logic/send" : str,
    dq "{'roomId':'r','userId':'','username':'','messages':[]}" ++ [LF])].
Proof.
  intros x. split; [|vm_compute; reflexivity].
  change ("GET /" ++ CRLF ++ "Sec-WebSocket-Key: " ++ "k" ++ CRLF ++ CRLF)
    with (("GET /" ++ CRLF) ++ "Sec-WebSocket-Key: " ++ "k" ++ CRLF ++ CRLF).
  rewrite (handshake_without_cookie "http://l" (λ _, replicate 20 NUL) [0; 0; 0]%Z 0
    (demo_comet x None) x ("GET /" ++ CRLF) "k" CRLF
    ("HTTP/1.1 101 Switching Protocols" ++ CRLF ++ "Upgrade: websocket" ++ CRLF ++
     "Connection: Upgrade" ++ CRLF ++ "Sec-WebSocket-Accept: AAAAAAAAAAAAAAAAAAAAAAAAAAA=" ++
     CRLF ++ CRLF)).
  - reflexivity.
  - reflexivity.
  - reflexivity.
  - reflexivity.
  - intros k Hk. do 7 (destruct k as [|k]; [reflexivity|]). simpl in Hk. lia.
  - intros k Hk. do 1 (destruct k as [|k]; [reflexivity|]). simpl in Hk. lia.
  - vm_compute. reflexivity.
Defined.
