(* ===== verification/CometService.v ===== *)
(** [rpc/comet_service.{h,cc}]: the gRPC service through which the job pushes messages to
    the connected users.

    The request and reply classes are generated by protobuf and are records of the
    fields read.  [std::unordered_map] and [std::unordered_set] are iterated in the order
    of [map_to_list] and [elements]: the source's order is unspecified, and no statement
    depends on it. *)

From S2P Require Import Prelude Json WsFrame ApiTypes PubSub LogicClient WsConn.

(** [Protocol::Proto], [BroadcastReq] and [BroadcastRoomReq] *)
Record Proto : Type := MkProto { op : Z; body : str }.
Record BroadcastRoomReq : Type := MkRoomReq { roomid : str; room_proto : Proto }.

Section CometService.
Context {J P W : Type} `{JC : JsonCpp J} `{SS : SubscriptionService P}.
Abbreviation M := (io (comet P W)).

(** [ws_conn_ptr->send(ws_frame)] for each connection of the list. *)
Fixpoint send_all (ws_frame : str) (conns : list nat) : M unit :=
  match conns with
  | [] => iret tt
  | cid :: conns' => do* _ := send cid ws_frame in send_all ws_frame conns'
  end.

(** The loop that subscribes every online user. *)
Definition subscribe_all (room_id : str) (users : list str) (p : P) : P :=
  foldl (λ p u, (svc_add_subscriber room_id u p).2) p users.

(** The effect of a room creation on the subscriptions and the list of rooms. *)
Definition add_created_room (room_id room_name creator_id : str) (c : comet P W) : comet P W :=
  let p := (svc_add_topic room_id room_name creator_id (pubsub c)).2 in
  let p := subscribe_all room_id (map_to_list (s_user_ws_conn_map c)).*1 p in
  let room := MkRoom room_id room_name creator_id [] [] [] in
  set_rooms (set_pubsub c p) (AddRoom room (s_room_list c)).2.

(** The branch of [Broadcast] for operation 5. *)
Definition room_creation (message_json : str) : M unit :=
  match jparse message_json with
  | None => iret tt
  | Some root =>
      do* t := ilift (jget root "type") in
      do* type := ilift (jasString t) in
      do* payload := (if bool_decide (type = "serverCreateRoom")
                      then do* p := ilift (jget root "payload") in
                           iret (if jisNull p then None else Some p)
                      else iret None) in
      match payload with
      | None => iret tt
      | Some payload =>
          do* i := ilift (jget payload "roomId") in do* room_id := ilift (jasString i) in
          do* n := ilift (jget payload "roomName") in do* room_name := ilift (jasString n) in
          do* c := ilift (jget payload "creatorId") in do* creator_id := ilift (jasString c) in
          do* u := ilift (jget payload "creatorUsername") in
          do* creator_username := ilift (jasString u) in
          modify (add_created_room room_id room_name creator_id)
      end
  end.

(** [CometServiceImpl::Broadcast] *)
Definition Broadcast (proto : Proto) : M unit :=
  do* _ := (if (op proto =? 5)%Z then room_creation (body proto) else iret tt) in
  λ c, send_all (BuildWebSocketFrame (body proto) 1)
         (map_to_list (s_user_ws_conn_map c)).*2 c.

(** The callback of [BroadcastRoom]: the connections found for the user ids. *)
Definition online_conns (users : list str) (c : comet P W) : list nat :=
  omap (λ u, s_user_ws_conn_map c !! u) users.

(** [CometServiceImpl::BroadcastRoom] *)
Definition BroadcastRoom (request : BroadcastRoomReq) : M unit := λ c,
  let ws_frame := BuildWebSocketFrame (body (room_proto request)) 1 in
  match svc_message (roomid request) (pubsub c) with
  | None => (Ok tt, c)
  | Some user_ids => send_all ws_frame (online_conns (elements user_ids) c) c
  end.

(** [PushMsg] and [Rooms] do nothing but report success. *)
Definition PushMsg (keys : list str) (proto : Proto) : M unit := iret tt.
Definition Rooms : M unit := iret tt.
End CometService.

(** ** Lemmas *)

Section Delivery.
Context {J P W : Type} `{JC : JsonCpp J} `{SS : SubscriptionService P}.
Implicit Types c : comet P W.

Lemma send_all_out f conns c :
  send_all f conns c = (Ok tt, set_out c (tcp_out c ++ ((λ cid, (cid, TSend f)) <$> conns))).
Proof.
  revert c. induction conns as [|cid conns IH]; intros c; cbn.
  - rewrite app_nil_r. by destruct c.
  - unfold ibind, send, emit. rewrite IH. cbn. unfold set_out. cbn. by rewrite <- app_assoc.
Qed.

Lemma subscribe_all_subscribers r users p r' :
  svc_subscribers (subscribe_all r users p) r' =
  if decide (r' = r) then (λ s, s ∪ list_to_set users) <$> svc_subscribers p r
  else svc_subscribers p r'.
Proof.
  unfold subscribe_all. revert p. induction users as [|u users IH]; intros p; cbn.
  - case_decide; subst; [|done]. destruct (svc_subscribers p r); cbn; [|done].
    f_equal. set_solver.
  - rewrite IH, !svc_add_subscriber_spec. case_decide; subst; [|done].
    rewrite decide_True by done. destruct (svc_subscribers p r); cbn; [|done].
    f_equal. set_solver.
Qed.

Lemma add_created_room_subscribers r n cr c r' :
  svc_subscribers (pubsub (add_created_room r n cr c)) r' =
  if decide (r' = r)
  then Some (default ∅ (svc_subscribers (pubsub c) r) ∪ dom (s_user_ws_conn_map c))
  else svc_subscribers (pubsub c) r'.
Proof.
  unfold add_created_room. cbn. rewrite subscribe_all_subscribers, !svc_add_topic_spec.
  case_decide; subst; [|done]. rewrite decide_True by done. cbn. do 2 f_equal.
  apply set_eq. intros u. rewrite elem_of_list_to_set, list_elem_of_fmap, elem_of_dom.
  setoid_rewrite elem_of_map_to_list'. unfold is_Some. split.
  - intros ([u' cid] & -> & H). eauto.
  - intros [cid H]. by exists (u, cid).
Qed.

(** A message of the room creation protocol. *)
Definition creation_message (message r n cr : str) : Prop :=
  ∃ (root t payload i nm cc u : J) un,
    jparse message = Some root ∧ jget root "type" = Ok t ∧
    jasString t = Ok (cstr "serverCreateRoom") ∧
    jget root "payload" = Ok payload ∧ jisNull payload = false ∧
    jget payload "roomId" = Ok i ∧ jasString i = Ok r ∧
    jget payload "roomName" = Ok nm ∧ jasString nm = Ok n ∧
    jget payload "creatorId" = Ok cc ∧ jasString cc = Ok cr ∧
    jget payload "creatorUsername" = Ok u ∧ jasString u = Ok un.

Lemma room_creation_effect message r n cr c :
  creation_message message r n cr →
  room_creation (J := J) message c = (Ok tt, add_created_room r n cr c).
Proof.
  intros (root & t & payload & i & nm & cc & u & un & Hp & Ht & Hty & Hpl & Hnn & Hi & Hr &
    Hn & Hnm & Hc & Hcr & Hu & Hun).
  unfold room_creation. rewrite Hp.
  rewrite (ibind_lift _ _ t), (ibind_lift _ _ (cstr "serverCreateRoom")) by done.
  rewrite bool_decide_true by done.
  rewrite (ibind_Ok _ _ c (Some payload) c)
    by (rewrite (ibind_lift _ _ payload) by done; by rewrite Hnn).
  rewrite (ibind_lift _ _ i), (ibind_lift _ _ r), (ibind_lift _ _ nm), (ibind_lift _ _ n),
    (ibind_lift _ _ cc), (ibind_lift _ _ cr), (ibind_lift _ _ u), (ibind_lift _ _ un) by done.
  done.
Qed.
End Delivery.

(** ** Properties *)

Section Properties.
Context {J P W : Type} `{JC : JsonCpp J} `{SS : SubscriptionService P}.
Implicit Types c : comet P W.

(** Two users are never registered with the same connection. *)
Lemma registered_inj c u v cid :
  registered_ok c → s_user_ws_conn_map c !! u = Some cid →
  s_user_ws_conn_map c !! v = Some cid → u = v.
Proof.
  intros [H _] Hu Hv. destruct (H _ _ Hu) as (x & Hx & <- & _).
  destruct (H _ _ Hv) as (y & Hy & <- & _). congruence.
Qed.

Lemma omap_NoDup {A B} (f : A → option B) l :
  NoDup l → (∀ a b y, f a = Some y → f b = Some y → a = b) → NoDup (omap f l).
Proof.
  intros Hl Hf. induction Hl as [|a l Ha Hl IH]; cbn; [constructor|].
  destruct (f a) as [y|] eqn:E; [|done]. constructor; [|done].
  rewrite list_elem_of_omap. intros (b & Hb & Hfb). by rewrite (Hf _ _ _ E Hfb) in Ha.
Qed.

(** The frame carrying [message], sent once to each connection of [conns] and nothing
  else; the frame parses back to a final text frame with that message. *)
Definition delivered (message : str) (conns : list nat) c c' : Prop :=
  NoDup conns ∧
  tcp_out c' = tcp_out c ++ ((λ cid, (cid, TSend (BuildWebSocketFrame message 1))) <$> conns) ∧
  ParseWebSocketFrame (BuildWebSocketFrame message 1) =
    Ok (Frame true 1 false (slen message) None message).

Lemma text_frame_parses message :
  (slen message < 2 ^ 64)%Z →
  ParseWebSocketFrame (BuildWebSocketFrame message 1) =
    Ok (Frame true 1 false (slen message) None message).
Proof.
  intros H. rewrite Build_encode, parse_encode by done.
  destruct (first_byte 1) as [-> ->]. done.
Qed.

Lemma BroadcastRoom_effects (room message : str) (o : Z) c :
  registered_ok c → (slen message < 2 ^ 64)%Z →
  ∃ conns,
    delivered message conns c (BroadcastRoom (MkRoomReq room (MkProto o message)) c).2 ∧
    BroadcastRoom (MkRoomReq room (MkProto o message)) c =
      (Ok tt, set_out c (tcp_out (BroadcastRoom (MkRoomReq room (MkProto o message)) c).2)) ∧
    ∀ cid, cid ∈ conns ↔
      ∃ u s, svc_subscribers (pubsub c) room = Some s ∧ u ∈ s ∧
             s_user_ws_conn_map c !! u = Some cid.
Proof.
  intros Hreg Hm. unfold BroadcastRoom. cbn [roomid room_proto body].
  rewrite svc_message_spec. destruct (svc_subscribers (pubsub c) room) as [s|].
  - exists (online_conns (elements s) c). rewrite send_all_out. split_and!.
    + split_and!; [|done|by apply text_frame_parses].
      apply omap_NoDup; [apply NoDup_elements|]. eauto using registered_inj.
    + done.
    + intros cid. unfold online_conns. rewrite list_elem_of_omap.
      setoid_rewrite elem_of_elements. naive_solver.
  - exists []. split_and!.
    + split_and!; [constructor|by rewrite app_nil_r|by apply text_frame_parses].
    + by destruct c.
    + intros cid. split; [by intros ?%elem_of_nil|naive_solver].
Qed.

(** [BroadcastRoom] sends the message, as one WebSocket text frame, exactly once to
  the connection of each subscriber of the room that is online, and to nobody else;
  it changes nothing else, and for an unknown room it sends nothing. *)
Theorem BroadcastRoom_delivers (room message : str) (o : Z) c :
  registered_ok c → (slen message < 2 ^ 64)%Z →
  ∃ conns,
    delivered message conns c (BroadcastRoom (MkRoomReq room (MkProto o message)) c).2 ∧
    BroadcastRoom (MkRoomReq room (MkProto o message)) c =
      (Ok tt, set_out c (tcp_out (BroadcastRoom (MkRoomReq room (MkProto o message)) c).2)) ∧
    ∀ cid, cid ∈ conns ↔
      ∃ u s, svc_subscribers (pubsub c) room = Some s ∧ u ∈ s ∧
             s_user_ws_conn_map c !! u = Some cid.
Proof. apply BroadcastRoom_effects. Qed.

Lemma snd_map_NoDup c :
  registered_ok c → NoDup (map_to_list (s_user_ws_conn_map c)).*2.
Proof.
  intros Hreg. pose proof (NoDup_map_to_list (s_user_ws_conn_map c)) as Hnd.
  assert (Hin : ∀ p, p ∈ map_to_list (s_user_ws_conn_map c) →
                     s_user_ws_conn_map c !! p.1 = Some p.2).
  { intros p. apply elem_of_map_to_list'. }
  induction Hnd as [|[u cid] l Hn Hnd IH]; [constructor|]. cbn. constructor.
  - intros ([v cid'] & -> & Hv)%list_elem_of_fmap. cbn in *.
    assert (u = v) as ->; [|done].
    apply (registered_inj c u v cid'); [done|apply (Hin (u, cid')); set_solver|].
    apply (Hin (v, cid')). set_solver.
  - apply IH. intros p Hp. apply Hin. set_solver.
Qed.

Lemma Broadcast_effects (message room name creator : str) c :
  registered_ok c → (slen message < 2 ^ 64)%Z →
  creation_message (J := J) message room name creator →
  ∃ c', Broadcast (J := J) (MkProto 5 message) c = (Ok tt, c') ∧
    delivered message (map_to_list (s_user_ws_conn_map c)).*2 c c' ∧
    s_user_ws_conn_map c' = s_user_ws_conn_map c ∧
    (∀ r, svc_subscribers (pubsub c') r =
          if decide (r = room)
          then Some (default ∅ (svc_subscribers (pubsub c) room) ∪ dom (s_user_ws_conn_map c))
          else svc_subscribers (pubsub c) r) ∧
    room ∈ room_id <$> s_room_list c'.
Proof.
  intros Hreg Hm Hcr. eexists. split; [|split_and!].
  - unfold Broadcast. cbn [op body Z.eqb Pos.eqb].
    rewrite (ibind_Ok _ _ _ _ _ (room_creation_effect _ _ _ _ c Hcr)).
    rewrite send_all_out. reflexivity.
  - split_and!; [by apply snd_map_NoDup|done|by apply text_frame_parses].
  - done.
  - intros r. apply add_created_room_subscribers.
  - cbn. unfold AddRoom. destruct (existsb _ _) eqn:E; cbn.
    + apply existsb_exists in E as (r & Hr & Hid%bool_decide_eq_true).
      apply list_elem_of_fmap. exists r. split; [done|]. by apply list_elem_of_In.
    + rewrite fmap_app. set_solver.
Qed.

(** The broadcast of a room creation makes the room known: afterwards every user
  online is subscribed to it in addition to its earlier subscribers, no other room's
  subscribers change, the room is in the list of rooms; and every online connection
  gets the message exactly once. *)
Theorem Broadcast_creates_room (message room name creator : str) c :
  registered_ok c → (slen message < 2 ^ 64)%Z →
  creation_message (J := J) message room name creator →
  ∃ c', Broadcast (J := J) (MkProto 5 message) c = (Ok tt, c') ∧
    delivered message (map_to_list (s_user_ws_conn_map c)).*2 c c' ∧
    s_user_ws_conn_map c' = s_user_ws_conn_map c ∧
    (∀ r, svc_subscribers (pubsub c') r =
          if decide (r = room)
          then Some (default ∅ (svc_subscribers (pubsub c) room) ∪ dom (s_user_ws_conn_map c))
          else svc_subscribers (pubsub c) r) ∧
    room ∈ room_id <$> s_room_list c'.
Proof. apply Broadcast_effects. Qed.
End Properties.

(** A process with two users online, one of them subscribed to room [r]. *)
Definition demo_two : comet PubSubService Peer :=
  MkComet {[0%nat := demo_conn; 1%nat := set_user "u2" "bob" demo_conn]}
    {["u1" : str := 0%nat; "u2" : str := 1%nat]}
    {["r" : str := MkTopic "r" "R" "u1" {["u1" : str]}]} [] [] [] (MkPeer [] None).

Lemma demo_two_ok : registered_ok demo_two.
Proof.
  split.
  - intros u cid. unfold demo_two. cbn [s_user_ws_conn_map ws_conns].
    intros [[<- <-]|[_ [<- <-]%lookup_singleton_Some]]%lookup_insert_Some; eauto.
  - intros cid x. cbn [demo_two ws_conns].
    intros [[_ <-]|[_ [_ <-]%lookup_singleton_Some]]%lookup_insert_Some; done.
Qed.

Lemma BroadcastRoom_delivers_witness :
  ∃ conns, delivered "hi" conns demo_two
             (BroadcastRoom (MkRoomReq "r" (MkProto 4 "hi")) demo_two).2 ∧
           0%nat ∈ conns ∧ 1%nat ∉ conns.
Proof.
  destruct (BroadcastRoom_delivers "r" "hi" 4 demo_two demo_two_ok) as (conns & Hd & _ & Hin).
  - reflexivity.
  - exists conns. split; [exact Hd|]. rewrite !Hin. split.
    + exists "u1", {["u1" : str]}. split_and!; [reflexivity|set_solver|reflexivity].
    + intros (u & s & Hs & Hu & Hc).
      assert (svc_subscribers (pubsub demo_two) "r" = Some {["u1" : str]}) as E by reflexivity.
      rewrite E in Hs. injection Hs as <-. apply elem_of_singleton in Hu as ->.
      assert (s_user_ws_conn_map demo_two !! ("u1" : str) = Some 0%nat) as E' by reflexivity.
      change (s_user_ws_conn_map demo_two !! ("u1" : str) = Some 1%nat) in Hc.
      rewrite E' in Hc. discriminate.
Defined.

Definition demo_creation : str := dq
  "{'type':'serverCreateRoom','payload':{'roomId':'x','roomName':'X','creatorId':'u1','creatorUsername':'ann'}}".

Lemma Broadcast_creates_room_witness :
  ∃ c', Broadcast (J := Mini.jv) (MkProto 5 demo_creation) demo_two = (Ok tt, c') ∧
        ("x" : str) ∈ room_id <$> s_room_list c'.
Proof.
  destruct (Broadcast_creates_room (J := Mini.jv) demo_creation "x" "X" "u1" demo_two demo_two_ok)
    as (c' & Hb & _ & _ & _ & Hr).
  - reflexivity.
  - set (root := default Mini.JNull (jparse demo_creation)).
    set (payload := default Mini.JNull
      (match jget root "payload" with Ok p => Some p | _ => None end)).
    exists root, (Mini.JStr "serverCreateRoom"), payload, (Mini.JStr "x"), (Mini.JStr "X"),
      (Mini.JStr "u1"), (Mini.JStr "ann"), "ann".
    split_and!; vm_compute; reflexivity.
  - exists c'. split; [exact Hb|exact Hr].
Defined.
