(* ===== verification/HttpHandler.v ===== *)
(** [service/http_handler.h]: the handler of one TCP connection of the comet service.  It
    looks at the first bytes received and becomes an HTTP connection or a WebSocket
    connection for good. *)

From S2P Require Import Prelude Json ApiTypes PubSub LogicClient HttpParserWrapper HttpConn WsFrame WsConn.

(** ** Headers *)

(** The body of the loop of [parseHttpHeaders] for one line. *)
Definition parse_header_line (headers : gmap str str) (line : str) : result (gmap str str) :=
  let colon := sfind_char line ":"%char 0 in
  if (colon =? npos)%Z then Ok headers
  else
    let* key := substr line 0 colon in
    let* value := substr line (colon + 2) (u64 (slen line - colon - 3)) in
    Ok (<[key := value]> headers).

(** [while (std::getline(stream, line) && line != "\r")] *)
Fixpoint parse_header_lines (headers : gmap str str) (lines : list str)
    : result (gmap str str) :=
  match lines with
  | [] => Ok headers
  | line :: lines' =>
      if bool_decide (line = [CR]) then Ok headers
      else let* h := parse_header_line headers line in parse_header_lines h lines'
  end.

Definition parseHttpHeaders (request : str) : result (gmap str str) :=
  parse_header_lines ∅ (getlines LF request).

Definition isWebSocketRequest (headers : gmap str str) : bool :=
  match headers !! ("Upgrade" : str), headers !! ("Connection" : str) with
  | Some upgrade, Some connection =>
      bool_decide (map to_lower upgrade = cstr "websocket") &&
      negb (sfind (map to_lower connection) "upgrade" 0 =? npos)%Z
  | _, _ => false
  end.

(** ** [class HttpHandler] *)

Inductive RequestType : Type := UNKNOWN | HTTP | WEBSOCKET.

#[export] Instance RequestType_eq_dec : EqDecision RequestType.
Proof. solve_decision. Defined.

(** [http_conn_] is the parser of a [CHttpConn] when the type is [HTTP] and the connection
    of the same number in [ws_conns] when it is [WEBSOCKET]. *)
Record HttpHandler : Type := MkHandler {
  request_type_ : RequestType;
  http_parser_ : CHttpParserWrapper
}.

(** The wrapper's fields before its first use are never read. *)
Definition HttpHandler_new : HttpHandler := MkHandler UNKNOWN wrapper_reset.

Section HttpHandler.
Context {J P W : Type} `{JC : JsonCpp J} `{SS : SubscriptionService P} `{CC : CurlClient W}
  `{HP : HttpParser}.
Variable logic_server_url : str.
Variable SHA1 : str → list ascii.
Variable junk : list Z.
Variable pool_started : bool.

(** [tcp_conn_->send] for each text. *)
Fixpoint send_texts (cid : nat) (out : list str) : io (comet P W) unit :=
  match out with
  | [] => iret tt
  | t :: out' => do* _ := send cid t in send_texts cid out'
  end.

(** [int32_t len = buf->readableBytes(); parseHttpHeaders(in_buf, len)]: a negative length
    becomes a [size_t] that [std::string] refuses. *)
Definition parseHttpHeaders_len (buf : str) : result (gmap str str) :=
  let len := i32 (slen buf) in
  if (len <? 0)%Z then Throw LogicErr else parseHttpHeaders (take (Z.to_nat len) buf).

(** First call: decide the type and create the connection object. *)
Definition classify (cid : nat) (buf : str) (h : HttpHandler) : io (comet P W) HttpHandler :=
  match request_type_ h with
  | UNKNOWN =>
      do* headers := ilift (parseHttpHeaders_len buf) in
      if isWebSocketRequest headers then
        do* _ := modify (λ c, set_conns c (<[cid := CWebSocketConn_new headers]> (ws_conns c))) in
        iret (MkHandler WEBSOCKET (http_parser_ h))
      else iret (MkHandler HTTP wrapper_reset)
  | _ => iret h
  end.

(** [http_conn_->OnRead(buf)]: the handler, and the bytes left in the buffer.  [None]:
  the frame loop did not end within [fuel] iterations. *)
Definition dispatch (fuel cid : nat) (buf : str) (h : HttpHandler)
    : io (comet P W) (option (HttpHandler * str)) :=
  match request_type_ h with
  | UNKNOWN => iret (Some (h, buf))
  | HTTP =>
      do* r := via_http (CHttpConn_OnRead logic_server_url buf (http_parser_ h)) in
      do* _ := send_texts cid r.2 in
      iret (Some (MkHandler HTTP r.1, buf))
  | WEBSOCKET =>
      do* r := CWebSocketConn_OnRead (J := J) logic_server_url SHA1 junk pool_started
                 fuel cid buf in
      iret ((λ _, (h, [])) <$> r)
  end.

(** [HttpHandler::OnRead] on the readable bytes of the buffer. *)
Definition HttpHandler_OnRead (fuel cid : nat) (buf : str) (h : HttpHandler)
    : io (comet P W) (option (HttpHandler * str)) :=
  do* h := classify cid buf h in dispatch fuel cid buf h.
End HttpHandler.

(** ** Lemmas *)

(** A header line as a client sends it, without its line feed. *)
Definition header_line (kv : str * str) : str := kv.1 ++ ": " ++ kv.2 ++ [CR].

Definition header_ok (kv : str * str) : Prop :=
  (":"%char ∉ kv.1) ∧ (LF ∉ kv.1) ∧ (LF ∉ kv.2) ∧ (slen kv.1 + slen kv.2 < 2 ^ 60)%Z.

Lemma parse_header_line_ok h kv :
  header_ok kv → parse_header_line h (header_line kv) = Ok (<[kv.1 := kv.2]> h).
Proof.
  destruct kv as [k v]. intros (Hk & _ & _ & Hlen).
  unfold parse_header_line, header_line. cbn [fst snd] in *.
  assert (Hc : sfind_char (k ++ ": " ++ v ++ [CR]) ":"%char 0 = slen k).
  { unfold sfind_char, sfind_first_of. rewrite (proj2 (Z.leb_le _ _)) by apply slen_nonneg.
    change (Z.to_nat 0) with 0%nat. rewrite drop_0.
    change (k ++ ": " ++ v ++ [CR]) with (k ++ ":"%char :: (" " ++ v ++ [CR])).
    rewrite find_char_nat_first; [done| |by apply bool_decide_eq_true; set_solver].
    apply Forall_forall. intros d Hd. apply bool_decide_eq_false. set_solver. }
  rewrite Hc, (proj2 (Z.eqb_neq _ _)) by (unfold npos; slia).
  rewrite substr_prefix. cbn [rbind].
  assert (Hl : slen (k ++ ": " ++ v ++ [CR]) = (slen k + slen v + 3)%Z).
  { rewrite !slen_app. change (slen ": ") with 2%Z. change (slen [CR]) with 1%Z. lia. }
  rewrite Hl. replace (slen k + slen v + 3 - slen k - 3)%Z with (slen v) by lia.
  rewrite wrap_small by slia. unfold substr. rewrite Hl, (proj2 (Z.ltb_ge _ _)) by slia.
  cbn [rbind]. do 2 f_equal.
  rewrite Z.min_l by slia.
  assert (Z.to_nat (slen k + 2) = length (k ++ ": ")) as ->
    by (rewrite length_app; cbn; unfold slen; lia).
  rewrite app_assoc, drop_app_length. unfold slen. by rewrite Nat2Z.id, take_app_length.
Qed.

Lemma lines_on_line cur l tl :
  LF ∉ l → lines_on LF cur (l ++ LF :: tl) = (rev cur ++ l) :: lines_on LF [] tl.
Proof.
  revert cur. induction l as [|c l IH]; intros cur Hl; cbn.
  - by rewrite bool_decide_true, app_nil_r.
  - apply not_elem_of_cons in Hl as [H1 H2]. rewrite bool_decide_false by congruence.
    rewrite IH by done. cbn. by rewrite <- app_assoc.
Qed.

(** A request: a first line without colon, header lines, and the empty line. *)
Definition request_text (first : str) (kvs : list (str * str)) (rest : str) : str :=
  first ++ LF :: (kvs ≫= λ kv, header_line kv ++ [LF]) ++ CR :: LF :: rest.

Lemma parse_header_lines_ok h kvs tl :
  Forall header_ok kvs →
  parse_header_lines h ((header_line <$> kvs) ++ [CR] :: tl) =
    Ok (foldl (λ m kv, <[kv.1 := kv.2]> m) h kvs).
Proof.
  revert h. induction kvs as [|kv kvs IH]; intros h Hk; cbn.
  - by rewrite bool_decide_true.
  - apply Forall_cons in Hk as [H1 H2]. rewrite bool_decide_false.
    + rewrite parse_header_line_ok by done. cbn. by apply IH.
    + unfold header_line. intros E. apply (f_equal length) in E.
      rewrite !length_app in E. cbn in E. lia.
Qed.

Lemma request_lines first kvs rest :
  LF ∉ first → Forall header_ok kvs →
  getlines LF (request_text first kvs rest) =
    first :: (header_line <$> kvs) ++ [CR] :: getlines LF rest.
Proof.
  intros Hf Hk. unfold request_text, getlines. rewrite lines_on_line by done. f_equal.
  induction kvs as [|kv kvs IH]; cbn -[lines_on header_line].
  - apply (lines_on_line [] [CR] rest). intros Hx%list_elem_of_singleton. discriminate.
  - apply Forall_cons in Hk as [(H1 & H2 & H3 & H4) Hk].
    rewrite <- !app_assoc. cbn [app]. rewrite lines_on_line; [by rewrite IH|].
    unfold header_line. rewrite !elem_of_app. intros [?|[Hx|[?|Hx]]]; [done| |done|];
      by apply (bool_decide_pack _) in Hx.
Qed.

(** ** Properties *)

(** On a request whose first line has no colon, [parseHttpHeaders] returns the header
    fields of the block with the last value of each, and nothing of what follows the empty
    line. *)
Theorem parseHttpHeaders_correct (first : str) (kvs : list (str * str)) (rest : str) :
  (LF ∉ first) → (":"%char ∉ first) → first ≠ [CR] → (slen first < npos)%Z →
  Forall header_ok kvs →
  parseHttpHeaders (request_text first kvs rest) =
    Ok (foldl (λ m kv, <[kv.1 := kv.2]> m) ∅ kvs).
Proof.
  intros Hlf Hcol Hcr Hlen Hk. unfold parseHttpHeaders. rewrite request_lines by done.
  cbn [parse_header_lines]. rewrite bool_decide_false by done.
  assert (parse_header_line ∅ first = Ok ∅) as ->.
  { unfold parse_header_line, sfind_char, sfind_first_of.
    rewrite (proj2 (Z.leb_le _ _)) by apply slen_nonneg.
    rewrite find_char_nat_None; [done|]. apply Forall_forall. intros d Hd.
    apply bool_decide_eq_false. set_solver. }
  cbn [rbind]. by apply parse_header_lines_ok.
Qed.

Lemma parseHttpHeaders_correct_witness :
  parseHttpHeaders (request_text ("GET /ws HTTP/1.1" ++ [CR])
    [("Upgrade" : str, "websocket" : str); ("Connection" : str, "Upgrade" : str)] "x: y") =
  Ok (foldl (λ m kv, <[kv.1 := kv.2]> m) (∅ : gmap str str)
    [("Upgrade" : str, "websocket" : str); ("Connection" : str, "Upgrade" : str)]).
Proof.
  apply (parseHttpHeaders_correct ("GET /ws HTTP/1.1" ++ [CR])
    [("Upgrade" : str, "websocket" : str); ("Connection" : str, "Upgrade" : str)] "x: y").
  - by apply (bool_decide_unpack _).
  - by apply (bool_decide_unpack _).
  - intros [=].
  - reflexivity.
  - repeat constructor; by apply (bool_decide_unpack _).
Defined.

(** Below 2 GiB the length is the buffer's. *)
Lemma parseHttpHeaders_len_all (buf : str) :
  (slen buf < 2 ^ 31)%Z → parseHttpHeaders_len buf = parseHttpHeaders buf.
Proof.
  intros H. unfold parseHttpHeaders_len. rewrite swrap_small by slia.
  rewrite (proj2 (Z.ltb_ge _ _)) by slia. unfold slen. by rewrite Nat2Z.id, firstn_all.
Qed.

Section Sticky.
Context {J P W : Type} `{JC : JsonCpp J} `{SS : SubscriptionService P} `{CC : CurlClient W}
  `{HP : HttpParser}.

Lemma classify_type cid buf h (c c' : comet P W) h' :
  classify cid buf h c = (Ok h', c') →
  request_type_ h' = match request_type_ h with
                     | UNKNOWN => match parseHttpHeaders_len buf with
                                  | Ok hs => if isWebSocketRequest hs then WEBSOCKET else HTTP
                                  | _ => UNKNOWN
                                  end
                     | t => t
                     end.
Proof.
  unfold classify. destruct (request_type_ h) eqn:E; [|by intros [= <- <-]..].
  unfold ibind, ilift. destruct (parseHttpHeaders_len buf) as [hs|e|u]; [|done..].
  destruct (isWebSocketRequest hs); by intros [= <- <-].
Qed.

Lemma dispatch_type url SHA1 junk started fuel cid buf h (c c' : comet P W) h' buf' :
  dispatch (J := J) url SHA1 junk started fuel cid buf h c = (Ok (Some (h', buf')), c') →
  request_type_ h' = request_type_ h.
Proof.
  unfold dispatch. destruct (request_type_ h) eqn:E; intros Hd.
  - by injection Hd as <- <- <-.
  - apply ibind_inv in Hd as (r & c1 & _ & Hd). apply ibind_inv in Hd as (? & c2 & _ & Hd).
    by injection Hd as <- _ _.
  - apply ibind_inv in Hd as ([r|] & c1 & _ & Hd); [by injection Hd as <- _ _|done].
Qed.

(** The protocol of a connection is decided by the headers of the first buffer it
  reads and never changes afterwards. *)
Theorem HttpHandler_type_sticky url SHA1 junk started fuel cid buf h (c c' : comet P W) h' buf' :
  HttpHandler_OnRead (J := J) url SHA1 junk started fuel cid buf h c = (Ok (Some (h', buf')), c') →
  (request_type_ h ≠ UNKNOWN → request_type_ h' = request_type_ h) ∧
  (request_type_ h = UNKNOWN → ∃ headers, parseHttpHeaders_len buf = Ok headers ∧
     request_type_ h' = if isWebSocketRequest headers then WEBSOCKET else HTTP).
Proof.
  intros H. apply ibind_inv in H as (h1 & c1 & Hc & Hd).
  rewrite (dispatch_type _ _ _ _ _ _ _ _ _ _ _ _ Hd). split.
  - intros Hne. rewrite (classify_type _ _ _ _ _ _ Hc). by destruct (request_type_ h).
  - intros Hu. pose proof (classify_type _ _ _ _ _ _ Hc) as Ht. rewrite Hu in Ht.
    unfold classify in Hc. rewrite Hu in Hc. apply ibind_inv in Hc as (hs & c2 & Hp & _).
    injection Hp as Hp <-. rewrite Hp in Ht. eauto.
Qed.
End Sticky.

Lemma HttpHandler_type_sticky_witness :
  let c := demo_comet demo_conn None in
  let buf := request_text ("GET / HTTP/1.1" ++ [CR]) [("Host" : str, "h" : str)] [] in
  let parser := {| http_parser_execute _ := [] |} in
  ∃ h' buf' c', HttpHandler_OnRead (J := Mini.jv) (HP := parser) "http://l" (λ s, s) [] true 1 0
                  buf HttpHandler_new c = (Ok (Some (h', buf')), c') ∧ request_type_ h' = HTTP.
Proof.
  intros c buf parser.
  exists (MkHandler HTTP wrapper_reset), buf, c.
  assert (HttpHandler_OnRead (J := Mini.jv) (HP := parser) "http://l" (λ s, s) [] true 1 0
            buf HttpHandler_new c = (Ok (Some (MkHandler HTTP wrapper_reset, buf)), c)) as E
    by (vm_compute; reflexivity).
  split; [exact E|].
  assert (match parseHttpHeaders_len buf with Ok hs => isWebSocketRequest hs | _ => true end = false)
    as Hws by (vm_compute; reflexivity).
  destruct (proj2 (HttpHandler_type_sticky (J := Mini.jv) (HP := parser) "http://l" (λ s, s) []
    true 1 0 buf HttpHandler_new c c (MkHandler HTTP wrapper_reset) buf E) eq_refl)
    as (headers & Hh & Ht). rewrite Hh in Hws. rewrite Ht, Hws. reflexivity.
Defined.
