(* ===== verification/CometMain.v ===== *)
(** [chat-room/main.cc]: the connection manager, the server configuration, the room
    initialisation, and the comet process as a transition system over its IO thread, its
    workers and its gRPC service.

    Not modelled: signal handling, and what the servers do once started. *)

From S2P Require Import Prelude Json WsFrame ApiTypes PubSub ConfigReader LogicClient.
From S2P Require Import HttpParserWrapper HttpConn WsConn CometService HttpHandler.

(** ** [class ConnectionManager]

    [m_next_id] is an atomic [uint32_t].  A handler is a natural number.  [AddConnection] does
    not hold [m_mutex] ([lock(mutex)] at line 42 declares a function): it is one step as long
    as the server has one loop, which [num_event_loops] = 0, the default and the setting in
    [chat-room.conf], gives it; with more loops the insertion would race. *)
Record ConnectionManager : Type := MkManager {
  m_next_id : Z;
  m_connections : gmap Z nat
}.

Definition ConnectionManager_new : ConnectionManager := MkManager 1 ∅.

Definition AddConnection (handler : nat) (m : ConnectionManager) : Z * ConnectionManager :=
  (m_next_id m, MkManager (u32 (m_next_id m + 1)) (<[m_next_id m := handler]> (m_connections m))).
Definition RemoveConnection (id : Z) (m : ConnectionManager) : ConnectionManager :=
  MkManager (m_next_id m) (delete id (m_connections m)).
Definition GetConnection (id : Z) (m : ConnectionManager) : option nat := m_connections m !! id.
Definition GetConnectionCount (m : ConnectionManager) : nat := size (m_connections m).

(** ** [struct ServerConfig] *)
Record ServerConfig : Type := MkServerConfig {
  bind_ip : str;
  http_port : Z;
  grpc_bind_ip : str;
  grpc_port : Z;
  num_event_loops : Z;
  num_threads : Z;
  timeout_ms : Z;
  log_level : Z
}.
Definition ServerConfig_default : ServerConfig :=
  MkServerConfig "0.0.0.0" 8080 "0.0.0.0" 50051 0 4 1000 2.

(** [ServerConfig::loadFromFile]; [content] is the file's content. *)
Definition loadFromFile (c : ServerConfig) (config_path : str) (content : option str)
    : result (bool * ServerConfig) :=
  let* r := CConfigFileReader_new config_path content in
  let* level := config_level r (log_level c) in
  let* loops := config_field r "num_event_loops" atoi (num_event_loops c) in
  let* threads := config_field r "num_threads" atoi (num_threads c) in
  let* port := config_field r "http_bind_port" (λ s, u16 (atoi s)) (http_port c) in
  let* gip := config_field r "grpc_bind_ip" id (grpc_bind_ip c) in
  let* gport := config_field r "grpc_bind_port" (λ s, u16 (atoi s)) (grpc_port c) in
  let* timeout := config_field r "timeout_ms" atoi (timeout_ms c) in
  Ok (true, MkServerConfig (bind_ip c) port gip gport loops threads timeout level).

(** ** The comet process *)

(** A TCP connection: its handler, its input buffer, and the id in its context. *)
Record tcp_conn : Type := MkTcp {
  handler : HttpHandler;
  input_buffer : str;
  context : Z
}.

Record server (P W : Type) : Type := MkServer {
  state : comet P W;
  m_connection_manager : ConnectionManager;
  tcp_conns : gmap nat tcp_conn
}.
Arguments MkServer {P W}.
Arguments state {P W}.
Arguments m_connection_manager {P W}.
Arguments tcp_conns {P W}.

Section Server.
Context {J P W : Type} `{JC : JsonCpp J} `{SS : SubscriptionService P} `{CC : CurlClient W}
  `{HP : HttpParser}.
Variable logic_server_url : str.
Variable SHA1 : str → list ascii.
Variable junk : list Z.
Variable pool_started : bool.

(** One room of the answer, in [InitializeRoomSubscriptions]. *)
Definition init_room (room : J) : io (comet P W) unit :=
  do* m1 := ilift (jisMember room "id") in
  do* m2 := (if m1 : bool then ilift (jisMember room "name") else iret false) in
  if m2 : bool then
    do* i := ilift (jget room "id") in do* room_id := ilift (jasString i) in
    do* n := ilift (jget room "name") in do* room_name := ilift (jasString n) in
    modify (λ c, set_pubsub c (svc_add_topic room_id room_name "1" (pubsub c)).2)
  else iret tt.

Fixpoint init_rooms (rooms : J) (idxs : list nat) : io (comet P W) unit :=
  match idxs with
  | [] => iret tt
  | i :: idxs' =>
      do* room := ilift (jidx rooms i) in
      do* _ := init_room room in init_rooms rooms idxs'
  end.

(** [RoomSubscriptionManager::InitializeRoomSubscriptions] *)
Definition InitializeRoomSubscriptions : io (comet P W) Z :=
  do* request_json := ilift (jobj [("type" : str, jstring "getAllRooms")]) in
  do* r := via_http (sendHttpRequest (logic_server_url ++ "/logic/rooms") (jwrite request_json) []) in
  let '(ok, response_json) := r in
  if negb ok then iret (-1)%Z
  else
    match jparse response_json with
    | None => iret (-1)%Z
    | Some logic_response =>
        do* m := ilift (jisMember logic_response "rooms") in
        do* s := (if m : bool then ilift (member_is logic_response "status" "success")
                  else iret false) in
        if s : bool then
          do* rooms := ilift (jget logic_response "rooms") in
          do* _ := init_rooms rooms (seq 0 (jsize rooms)) in
          iret 0%Z
        else iret (-1)%Z
    end.

(** [m_thread_pool] of the WebSocket connections is started by [HttpServer::Start]. *)
Definition starts_pool (c : ServerConfig) : bool := (0 <? num_threads c)%Z.

(** The address of the gRPC server in [StartServers]. *)
Definition grpc_server_address (c : ServerConfig) : str :=
  grpc_bind_ip c ++ ":" ++ to_string (grpc_port c).

Abbreviation S := (server P W).

(** [OnConnection] for a connection that was accepted; [cid] is a new object. *)
Definition OnConnect (cid : nat) (s : S) : S :=
  let (id, m) := AddConnection cid (m_connection_manager s) in
  MkServer (state s) m (<[cid := MkTcp HttpHandler_new [] id]> (tcp_conns s)).

(** [OnConnection] for a connection that was closed. *)
Definition OnClose (cid : nat) (s : S) : S :=
  match tcp_conns s !! cid with
  | None => s
  | Some t => MkServer (state s) (RemoveConnection (context t) (m_connection_manager s)) (tcp_conns s)
  end.

(** [OnMessage]: the bytes [data] arrived.  An exception is caught and logged; what was
  done before it stays.  [None]: no value, because the frame loop needs more than
  [fuel] iterations or the execution is undefined.  [m_thread_pool] is never
  started, so that [run] executes the handler in place. *)
Definition OnMessage (fuel cid : nat) (data : str) (s : S) : option S :=
  t ← tcp_conns s !! cid;
  let buf := input_buffer t ++ data in
  let store b (h : nat * HttpHandler) c :=
    let conns := alter (λ t', MkTcp (handler t') b (context t')) cid (tcp_conns s) in
    MkServer c (m_connection_manager s)
      (alter (λ t', MkTcp h.2 (input_buffer t') (context t')) h.1 conns) in
  match GetConnection (context t) (m_connection_manager s) with
  | None => Some (store buf (cid, handler t) (state s))
  | Some hid =>
      ht ← tcp_conns s !! hid;
      match HttpHandler_OnRead (J := J) logic_server_url SHA1 junk pool_started fuel hid buf
              (handler ht) (state s) with
      | (Ok (Some (h, rest)), c) => Some (store rest (hid, h) c)
      | (Ok None, _) | (Undef _, _) => None
      | (Throw _, c) =>
          (* a WebSocket connection took the bytes; its type was set before *)
          Some (match classify hid buf (handler ht) (state s) with
                | (Ok h, _) =>
                    store (if decide (request_type_ h = WEBSOCKET) then [] else buf) (hid, h) c
                | _ => store buf (hid, handler ht) c
                end)
      end
  end.

Definition with_state (s : S) (c : comet P W) : S :=
  MkServer c (m_connection_manager s) (tcp_conns s).

(** The steps of the process.  A worker's task that throws ends the process (muduo's
  [ThreadPool] aborts); gRPC turns an exception of a handler into an error status. *)
Inductive step (s : S) : S → Prop :=
  | step_connect cid : tcp_conns s !! cid = None → step s (OnConnect cid s)
  | step_close cid : step s (OnClose cid s)
  | step_message fuel cid data s' : OnMessage fuel cid data s = Some s' → step s s'
  | step_task c : run_next_task (J := J) logic_server_url (state s) = (Ok tt, c) →
      step s (with_state s c)
  | step_broadcast proto r c : Broadcast (J := J) proto (state s) = (r, c) →
      (∀ u, r ≠ Undef u) → step s (with_state s c)
  | step_broadcast_room request c : BroadcastRoom request (state s) = (Ok tt, c) →
      step s (with_state s c).

(** No connection yet; the room initialisation may have filled the subscriptions. *)
Definition initial (s : S) : Prop :=
  tcp_conns s = ∅ ∧ ws_conns (state s) = ∅ ∧ s_user_ws_conn_map (state s) = ∅.

Inductive reachable : S → Prop :=
  | reach_init s : initial s → reachable s
  | reach_step s s' : reachable s → step s s' → reachable s'.
End Server.

(** ** The rooms at the start *)

Section StartUp.
Context {J P W : Type} `{JC : JsonCpp J} `{SS : SubscriptionService P}.

(** [o] describes the room [rid]. *)
Definition room_entry (o : J) (rid : str) : Prop :=
  jisMember o "id" = Ok true ∧ jisMember o "name" = Ok true ∧
  (∃ i, jget o "id" = Ok i ∧ jasString i = Ok rid) ∧
  (∃ n name, jget o "name" = Ok n ∧ jasString n = Ok name).

(** [p'] has the topics of [p] and those of [rids], without new subscribers. *)
Definition with_topics (rids : list str) (p p' : P) : Prop :=
  ∀ r, svc_subscribers p' r =
       if decide (r ∈ rids) then Some (default ∅ (svc_subscribers p r)) else svc_subscribers p r.

Lemma init_rooms_topics (rooms : J) idxs rids (c : comet P W) :
  Forall2 (λ i rid, ∃ o, jidx rooms i = Ok o ∧ room_entry o rid) idxs rids →
  ∃ p', init_rooms rooms idxs c = (Ok tt, set_pubsub c p') ∧ with_topics rids (pubsub c) p'.
Proof.
  intros Hall. revert c. induction Hall as [|i rid idxs rids (o & Ho & Hid & Hname & Hi & Hn) _ IH]; intros c.
  - exists (pubsub c). split; [by destruct c|done].
  - destruct Hi as (vi & Hi & His). destruct Hn as (vn & name & Hn & Hns).
    set (p1 := (svc_add_topic rid name "1" (pubsub c)).2).
    destruct (IH (set_pubsub c p1)) as (p' & Hrun & Hp).
    exists p'. split.
    + cbn [init_rooms]. rewrite (ibind_lift _ _ _ Ho). unfold init_room.
      rewrite (ibind_Ok _ _ _ tt (set_pubsub c p1)); [exact Hrun|].
      unfold ibind, ilift. by rewrite Hid, Hname, Hi, His, Hn, Hns.
    + intros r. rewrite Hp. cbn [pubsub set_pubsub]. unfold p1. rewrite svc_add_topic_spec.
      assert (Hin : r ∈ rid :: rids ↔ r = rid ∨ r ∈ rids) by apply elem_of_cons.
      repeat case_decide; subst; cbn; naive_solver.
Qed.
End StartUp.

(** [ChatRoomApplication::Run] up to [StartServers]: the configurations with which the
    servers start, or [None] when it returns -1. *)
Definition Run {J P W} `{JC : JsonCpp J} `{SS : SubscriptionService P} `{CC : CurlClient W}
    (files : str → option str) (args : list str) : io (comet P W) (option (ServerConfig * LogicConfig)) :=
  let path : str := match args with [] => "chat-room.conf" | a :: _ => a end in
  icatch
    (do* c := ilift (loadFromFile ServerConfig_default path (files path)) in
     if negb c.1 then iret None
     else
       do* l := ilift (LogicConfig_init LogicConfig_default path (files path)) in
       if negb l.1 then iret None
       else
         do* ret := InitializeRoomSubscriptions (J := J) (LogicClient.logic_server_url l.2) in
         if (ret <? 0)%Z then iret None else iret (Some (c.2, l.2)))
    None.

(** ** The invariant of the process *)

Definition server_ok {P W} (s : server P W) : Prop :=
  registered_ok (state s) ∧
  ∀ cid x, ws_conns (state s) !! cid = Some x →
    ∃ t, tcp_conns s !! cid = Some t ∧ request_type_ (handler t) = WEBSOCKET.

Section Invariant.
Context {J P W : Type} `{JC : JsonCpp J} `{SS : SubscriptionService P} `{CC : CurlClient W}
  `{HP : HttpParser}.
Variable url : str.
Variable SHA1 : str → list ascii.
Variable junk : list Z.
Variable started : bool.

(** The connection objects are among [D]. *)
Definition conns_in (D : nat → Prop) (c : comet P W) : Prop :=
  ∀ cid x, ws_conns c !! cid = Some x → D cid.

Lemma conns_in_update D (c : comet P W) cid x y :
  ws_conns c !! cid = Some x → conns_in D c → conns_in D (set_conns c (<[cid := y]> (ws_conns c))).
Proof.
  intros Hx H cid' z. cbn. intros [[<- _]|[_ Hz]]%lookup_insert_Some; eauto.
Qed.

Lemma conns_in_stable D : stable (conns_in D).
Proof.
  split.
  - intros c c' Hc _ H cid x. rewrite Hc. apply H.
  - intros c cid x f Hx _. by apply conns_in_update with x.
Qed.

Lemma register_user_in D cid u n : triple (conns_in D) (register_user cid u n) (conns_in D).
Proof.
  unfold register_user. apply keep_bind; [|intros _; apply keep_bind; [|intros _]].
  - apply keep_update_this. intros c x Hx. by apply conns_in_update with x.
  - by apply keep_modify.
  - intros c Hc. unfold update_this. destruct (ws_conns c !! cid) eqn:E; [|done].
    by apply conns_in_update with w.
Qed.

Lemma OnRead_in D fuel cid data :
  triple (conns_in D) (CWebSocketConn_OnRead (J := J) url SHA1 junk started fuel cid data) (conns_in D).
Proof.
  pose proof (conns_in_stable D) as HI. unfold CWebSocketConn_OnRead.
  apply keep_bind; [apply keep_this|]. intros x. destruct (handshake_completed x).
  - by apply OnRead_frames_keeps.
  - apply keep_bind; [|intros; apply keep_ret]. unfold OnRead_handshake.
    destruct (_ =? _)%Z; [apply keep_ret|].
    repeat match goal with
    | |- triple _ (SendHelloMessage _ _) _ => by apply SendHelloMessage_keeps
    | |- triple _ (register_user _ _ _) _ => apply register_user_in
    | _ => keep_step
    end; intros; first [ eapply (proj1 HI); [| |eassumption]; reflexivity
                       | by eapply conns_in_update ].
Qed.

Lemma OnRead_registered fuel cid data :
  triple registered_ok (CWebSocketConn_OnRead (J := J) (P := P) (W := W) url SHA1 junk started fuel cid data)
    registered_ok.
Proof.
  intros c Hc. unfold CWebSocketConn_OnRead, ibind, this.
  destruct (ws_conns c !! cid) as [x|] eqn:Hx; [|done].
  destruct (handshake_completed x) eqn:Hh; [exact (OnRead_frames_keeps _ _ _ _ _ registered_stable c Hc)|].
  assert (Hun : unregistered cid c).
  { intros u Hu. destruct (proj1 Hc u cid Hu) as (y & Hy & _ & Hhy). congruence. }
  pose proof (OnRead_handshake_keeps (J := J) url SHA1 junk cid data c (conj Hc Hun)) as Ho.
  by destruct (OnRead_handshake _ _ _ _ _ _) as [[[]|e|v] c'].
Qed.

Lemma send_texts_keeps (I : comet P W → Prop) cid out : stable I → triple I (send_texts cid out) I.
Proof.
  intros HI. induction out as [|t out IH]; cbn; [apply keep_ret|].
  apply keep_bind; [|by intros _]. apply keep_emit. intros c Hc. eapply (proj1 HI); [| |eassumption]; reflexivity.
Qed.

(** What [OnRead] keeps, given that it holds once the connection object is created. *)
Lemma HttpHandler_OnRead_keeps (Post : comet P W → Prop) fuel cid buf h c :
  stable Post → triple Post (CWebSocketConn_OnRead (J := J) url SHA1 junk started fuel cid buf) Post →
  (∀ headers, request_type_ h = UNKNOWN → isWebSocketRequest headers = true →
     Post (set_conns c (<[cid := CWebSocketConn_new headers]> (ws_conns c)))) →
  Post c →
  Post (HttpHandler_OnRead (J := J) url SHA1 junk started fuel cid buf h c).2.
Proof.
  intros HS Hws Hnew Hc.
  assert (Hd : ∀ h', triple Post (dispatch (J := J) url SHA1 junk started fuel cid buf h') Post).
  { intros h'. unfold dispatch. destruct (request_type_ h'); [apply keep_ret| |].
    - apply keep_bind; [|intros; apply keep_bind; [by apply send_texts_keeps|intros; apply keep_ret]].
      apply keep_via_http. intros; eapply (proj1 HS); [| |eassumption]; reflexivity.
    - apply keep_bind; [done|intros; apply keep_ret]. }
  unfold HttpHandler_OnRead, ibind. unfold classify.
  destruct (request_type_ h) eqn:Hu; [|by apply Hd..].
  unfold ibind, ilift. destruct (parseHttpHeaders_len buf) as [headers|e|u]; [|done..].
  destruct (isWebSocketRequest headers) eqn:Hi; [|by apply Hd].
  apply Hd. cbn. by apply Hnew.
Qed.
Lemma add_conn_registered (c : comet P W) cid headers :
  ws_conns c !! cid = None → registered_ok c →
  registered_ok (set_conns c (<[cid := CWebSocketConn_new headers]> (ws_conns c))).
Proof.
  intros Hn [H1 H2]. split; cbn.
  - intros u cid' Hu. destruct (H1 u cid' Hu) as (x & Hx & ?). exists x.
    rewrite lookup_insert_ne by (intros ->; congruence). done.
  - intros cid' x [[<- <-]|[_ Hx]]%lookup_insert_Some; [done|by eapply H2].
Qed.

Definition is_ws (tcps : gmap nat tcp_conn) (cid : nat) : Prop :=
  ∃ t, tcps !! cid = Some t ∧ request_type_ (handler t) = WEBSOCKET.

(** The type a handler leaves [OnRead] with, whatever the outcome. *)
Lemma OnRead_new_conns fuel cid buf h (c : comet P W) (D : nat → Prop) :
  conns_in D c →
  conns_in (λ i, D i ∨ (i = cid ∧ ∃ headers, parseHttpHeaders_len buf = Ok headers ∧
                                    request_type_ h = UNKNOWN ∧
                                    isWebSocketRequest headers = true))
    (HttpHandler_OnRead (J := J) url SHA1 junk started fuel cid buf h c).2.
Proof.
  intros Hc.
  assert (Hd : ∀ D h', triple (conns_in D) (dispatch (J := J) url SHA1 junk started fuel cid buf h')
                         (conns_in D)).
  { intros D' h'. unfold dispatch. destruct (request_type_ h'); [apply keep_ret| |].
    - apply keep_bind; [|intros; apply keep_bind;
        [by apply send_texts_keeps, conns_in_stable|intros; apply keep_ret]].
      by apply keep_via_http.
    - apply keep_bind; [apply OnRead_in|intros; apply keep_ret]. }
  unfold HttpHandler_OnRead, ibind, classify.
  assert (Hw : ∀ D', conns_in D c → conns_in (λ i, D i ∨ D' i) c)
    by (intros D' H i x Hx; left; by eapply H).
  destruct (request_type_ h) eqn:Hu; [|by apply Hd, Hw..].
  unfold ibind, ilift. destruct (parseHttpHeaders_len buf) as [headers|e|u] eqn:Hp; [|by apply Hw..].
  destruct (isWebSocketRequest headers) eqn:Hi; [|by apply Hd, Hw].
  apply Hd. intros i x. cbn. intros [[<- _]|[_ Hx]]%lookup_insert_Some; [|left; by eapply Hc].
  right. split; [done|]. by exists headers.
Qed.

(** What the type of the handler stored by [OnMessage] must satisfy. *)
Definition type_kept (buf : str) (h h' : HttpHandler) : Prop :=
  (request_type_ h = WEBSOCKET → request_type_ h' = WEBSOCKET) ∧
  ∀ headers, parseHttpHeaders_len buf = Ok headers → request_type_ h = UNKNOWN →
             isWebSocketRequest headers = true → request_type_ h' = WEBSOCKET.

Lemma classify_type_kept cid buf h (c c' : comet P W) h' :
  classify cid buf h c = (Ok h', c') → type_kept buf h h'.
Proof.
  intros H%classify_type. split.
  - intros E. by rewrite H, E.
  - intros headers Hp E Hi. by rewrite H, E, Hp, Hi.
Qed.

Lemma OnRead_type_kept fuel cid buf h (c c' : comet P W) h' buf' :
  HttpHandler_OnRead (J := J) url SHA1 junk started fuel cid buf h c = (Ok (Some (h', buf')), c') →
  type_kept buf h h'.
Proof.
  intros H. apply ibind_inv in H as (h1 & c1 & Hc & Hd). apply classify_type_kept in Hc.
  apply dispatch_type in Hd. destruct Hc as [H1 H2]. split; rewrite Hd; auto.
Qed.

Definition store (s : server P W) (cid : nat) (buf : str) (hid : nat) (h : HttpHandler)
    (c : comet P W) : server P W :=
  MkServer c (m_connection_manager s)
    (alter (λ t', MkTcp h (input_buffer t') (context t')) hid
       (alter (λ t', MkTcp (handler t') buf (context t')) cid (tcp_conns s))).

Lemma store_ok s cid b hid (h : HttpHandler) c :
  is_Some (tcp_conns s !! hid) → registered_ok c →
  (∀ x, ws_conns c !! hid = Some x → request_type_ h = WEBSOCKET) →
  (∀ i x, i ≠ hid → ws_conns c !! i = Some x → is_ws (tcp_conns s) i) →
  server_ok (store s cid b hid h c).
Proof.
  intros [t Ht] Hreg Hh Hi. split; [done|]. intros i x Hx. cbn.
  destruct (decide (i = hid)) as [->|Hne].
  - rewrite lookup_alter_eq, lookup_alter.
    case_decide; subst; rewrite Ht; (eexists; split; [reflexivity|cbn; by eapply Hh]).
  - destruct (Hi _ _ Hne Hx) as (t' & Ht' & Hws).
    rewrite lookup_alter_ne, lookup_alter by done.
    case_decide; subst; rewrite Ht'; (eexists; split; [reflexivity|done]).
Qed.

(** After [OnRead] by the handler [ht] of [hid], for a stored handler [h]. *)
Lemma store_after_OnRead fuel s cid b hid t buf (h : HttpHandler) :
  server_ok s → tcp_conns s !! hid = Some t → type_kept buf (handler t) h →
  server_ok (store s cid b hid h
    (HttpHandler_OnRead (J := J) url SHA1 junk started fuel hid buf (handler t) (state s)).2).
Proof.
  intros [Hreg Hws] Ht [Hk1 Hk2].
  pose proof (OnRead_new_conns fuel hid buf (handler t) (state s) (is_ws (tcp_conns s)) Hws) as Hin.
  apply store_ok; [done| | |].
  - apply HttpHandler_OnRead_keeps; [apply registered_stable|apply OnRead_registered| |done].
    intros headers Hu _. apply add_conn_registered; [|done].
    destruct (ws_conns (state s) !! hid) as [x|] eqn:Hx; [|done].
    destruct (Hws _ _ Hx) as (t' & Ht' & Hty). congruence.
  - intros x Hx. destruct (Hin _ _ Hx) as [(t' & Ht' & Hty)|(_ & headers & Hp & Hu & Hi)].
    + apply Hk1. congruence.
    + by eapply Hk2.
  - intros i x Hne Hx. by destruct (Hin _ _ Hx) as [?|[-> _]].
Qed.

Lemma OnMessage_ok fuel cid data (s s' : server P W) :
  OnMessage (J := J) url SHA1 junk started fuel cid data s = Some s' →
  server_ok s → server_ok s'.
Proof.
  intros H Hok. unfold OnMessage in H.
  destruct (tcp_conns s !! cid) as [t|] eqn:Ht; [|done]. cbn in H.
  set (buf := input_buffer t ++ data) in *.
  destruct (GetConnection _ _) as [hid|].
  2: { injection H as <-. destruct Hok as [Hreg Hws]. apply store_ok; [done|done| |].
       - intros x Hx. destruct (Hws _ _ Hx) as (t' & Ht' & Hty). congruence.
       - intros i x _. apply Hws. }
  destruct (tcp_conns s !! hid) as [ht|] eqn:Hht; [|done]. cbn in H.
  pose proof (λ b h, store_after_OnRead fuel s cid b hid ht buf h Hok Hht) as Hst.
  destruct (HttpHandler_OnRead _ _ _ _ _ _ _ _ _) as [[[[h rest]|]|e|u] c] eqn:E; try done.
  - injection H as <-. apply Hst. by eapply OnRead_type_kept.
  - injection H as <-. unfold HttpHandler_OnRead, ibind in E.
    destruct (classify hid buf (handler ht) (state s)) as [[h|e'|u'] c1] eqn:Ec.
    + apply Hst. by eapply classify_type_kept.
    + (* the headers do not parse: nothing changed *)
      injection E as <- <-. apply Hst. unfold classify in Ec.
      destruct (request_type_ (handler ht)) eqn:Hu; [|done..].
      split; [by rewrite Hu|]. intros headers Hp. unfold ibind, ilift in Ec. rewrite Hp in Ec.
      by destruct (isWebSocketRequest headers).
    + done.
Qed.

Lemma send_all_keeps (I : comet P W → Prop) f l : stable I → triple I (send_all f l) I.
Proof.
  intros HI c Hc. rewrite send_all_out. eapply (proj1 HI); [| |eassumption]; reflexivity.
Qed.

Lemma Broadcast_keeps (I : comet P W → Prop) proto : stable I → triple I (Broadcast (J := J) proto) I.
Proof.
  intros HI. unfold Broadcast, room_creation. apply keep_bind.
  - repeat keep_step; intros; eapply (proj1 HI); [| |eassumption]; reflexivity.
  - intros _ c Hc. by apply send_all_keeps.
Qed.

Lemma server_ok_with_state (s : server P W) c :
  (∀ I, stable I → (∀ c' u, I c' → I (set_users c' (delete u (s_user_ws_conn_map c')))) →
        I (state s) → I c) →
  server_ok s → server_ok (with_state s c).
Proof.
  intros H [Hreg Hws]. split.
  - apply H; [apply registered_stable| |done].
    intros c' u [H1 H2]. split; cbn; [|done]. intros v cid' [_ Hv]%lookup_delete_Some. by apply H1.
  - apply (H (conns_in (is_ws (tcp_conns s)))); [apply conns_in_stable|done|exact Hws].
Qed.

Lemma step_ok (s s' : server P W) :
  step (J := J) url SHA1 junk started s s' → server_ok s → server_ok s'.
Proof.
  intros [cid Hn|cid|fuel cid data s1 H|c H|proto r c H _|request c H] Hok.
  - destruct Hok as [Hreg Hws]. split; [done|]. cbn. intros i x Hx.
    destruct (Hws _ _ Hx) as (t & Ht & Hty). exists t.
    rewrite lookup_insert_ne by (intros <-; congruence). done.
  - unfold OnClose. by destruct (tcp_conns s !! cid).
  - by eapply OnMessage_ok.
  - apply server_ok_with_state; [|done]. intros I HI Hdel HI0. unfold run_next_task in H.
    destruct (thread_tasks (state s)) as [|[cid f] rest]; [by injection H as <-|].
    pose proof (frame_task_keeps (J := J) I url cid f HI Hdel (set_tasks (state s) rest)) as Hf.
    rewrite H in Hf. apply Hf. eapply (proj1 HI); [| |eassumption]; reflexivity.
  - apply server_ok_with_state; [|done]. intros I HI _ HI0.
    pose proof (Broadcast_keeps I proto HI _ HI0) as Hb. by rewrite H in Hb.
  - apply server_ok_with_state; [|done]. intros I HI _ HI0. unfold BroadcastRoom in H.
    destruct (svc_message _ _); [|by injection H as <-].
    pose proof (send_all_keeps I (BuildWebSocketFrame (body (room_proto request)) 1)
      (online_conns (elements g) (state s)) HI _ HI0) as Hb. by rewrite H in Hb.
Qed.

(** C4: in every reachable state of the process, whatever the clients, the logic server
  and the job send and however the steps interleave: each registered user is
  registered with an existing connection that belongs to it, has completed its
  handshake and speaks WebSocket; no two users share a connection. *)
Theorem reachable_registered (s : server P W) :
  reachable (J := J) url SHA1 junk started s →
  (∀ u cid, s_user_ws_conn_map (state s) !! u = Some cid →
     is_ws (tcp_conns s) cid ∧
     ∃ x, ws_conns (state s) !! cid = Some x ∧ user_id x = u ∧ handshake_completed x = true) ∧
  (∀ u v cid, s_user_ws_conn_map (state s) !! u = Some cid →
     s_user_ws_conn_map (state s) !! v = Some cid → u = v).
Proof.
  intros Hr. assert (server_ok s) as [Hreg Hws].
  { induction Hr as [s (Ht & Hc & Hu)|s s' _ IH Hs]; [|by eapply step_ok].
    split; [split|].
    - intros u cid. by rewrite Hu.
    - intros cid x. by rewrite Hc.
    - intros cid x. by rewrite Hc. }
  split.
  - intros u cid Hu. destruct (proj1 Hreg u cid Hu) as (x & Hx & ?). split; [by eapply Hws|eauto].
  - intros u v cid. by apply registered_inj.
Qed.
End Invariant.

(** ** Witnesses and examples *)

Definition quiet_parser : HttpParser := {| http_parser_execute _ := [] |}.

(** The WebSocket upgrade of the user [u1] on connection [cid]. *)
Definition upgrade_request : str :=
  request_text ("GET /ws HTTP/1.1" ++ [CR])
    [("Upgrade" : str, "websocket" : str); ("Connection" : str, "Upgrade" : str);
     ("Sec-WebSocket-Key" : str, "k" : str); ("Cookie" : str, "sid=7" : str)] [].

Definition auth_reply : curl_reply :=
  CurlReply (dq "{'success':true,'user_id':'u1','username':'ann','email':'e'}") 0 200.

Definition server0 : server PubSubService Peer :=
  MkServer (MkComet ∅ ∅ ∅ [] [] [] (MkPeer [] (Some auth_reply))) ConnectionManager_new ∅.
Definition server1 : server PubSubService Peer := OnConnect 0 server0.
Definition server2 : option (server PubSubService Peer) :=
  OnMessage (J := Mini.jv) (HP := quiet_parser) "http://l" (λ _, replicate 20 NUL) [0; 0; 0]%Z true
    1 0 upgrade_request server1.

Lemma reachable_registered_witness :
  ∃ s2, server2 = Some s2 ∧ s_user_ws_conn_map (state s2) !! ("u1" : str) = Some 0%nat ∧
        is_ws (tcp_conns s2) 0.
Proof.
  destruct server2 as [s2|] eqn:E; [|vm_compute in E; discriminate].
  exists s2. split; [reflexivity|].
  assert (Hu : s_user_ws_conn_map (state s2) !! ("u1" : str) = Some 0%nat).
  { assert (H : (s ← server2; s_user_ws_conn_map (state s) !! ("u1" : str)) = Some 0%nat)
      by (vm_compute; reflexivity). rewrite E in H. exact H. }
  split; [exact Hu|].
  refine (proj1 (proj1 (reachable_registered (J := Mini.jv) (HP := quiet_parser) "http://l"
    (λ _, replicate 20 NUL) [0; 0; 0]%Z true s2 _) "u1" 0%nat Hu)).
  eapply reach_step; [eapply reach_step; [apply (reach_init _ _ _ _ server0)|]|].
  - repeat split.
  - apply (step_connect _ _ _ _ server0 0). reflexivity.
  - exact (step_message _ _ _ _ server1 1 0 upgrade_request s2 E).
Defined.

(** A text frame whose [type] is no string: the task throws, which [ThreadPool] answers by
    ending the process. *)
Definition hostile_comet : comet PubSubService Peer :=
  MkComet {[0%nat := MkWs "u1" "ann" true ∅ [] 0 0 ∅]} ∅ ∅ [] [] [] (MkPeer [] None).
Example frame_task_throws :
  (frame_task (J := Mini.jv) "http://l" 0
     (encode (chr 129) (Some ["a"; "b"; "c"; "d"]%char) (dq "{'type':{}}")) hostile_comet).1
  = Throw JsonError.
Proof. vm_compute. reflexivity. Qed.
