(* ===== verification/ConnPool.v ===== *)
(** The connection pools of the logic service: [CDBPool] of [mysql/db_pool.cc] and
    [CachePool] of [redis/cache_pool.cc] are the same code up to names and the number of
    initial connections, and are two uses of the definitions below.

    The pool is a monitor: its mutex makes every definition one atomic step, and
    [cond_var_.wait] splits [GetDBConn]/[GetCacheConn] into an entry and a wake-up. *)

From S2P Require Import Prelude.

(** ** The pool object

    A connection object is a natural number; [next_obj] numbers the next one created. *)
Record pool : Type := MkPool {
  free_list_ : list nat;
  cur_conn_cnt_ : Z;
  max_conn_cnt_ : Z;
  abort_request_ : bool;
  next_obj : nat
}.

(** The constructor, with the minimal number of connections. *)
Definition Pool_new (MIN_CONN_CNT max_conn_cnt : Z) : pool :=
  MkPool [] MIN_CONN_CNT max_conn_cnt false 0.

(** [Init]: [rets] are the results of [Init] on the successive new connections. *)
Fixpoint Pool_Init (n : nat) (rets : list Z) (p : pool) : Z * pool :=
  match n with
  | O => (0%Z, p)
  | S n' =>
      let ret := default 0%Z (head rets) in
      let p' := MkPool (free_list_ p) (cur_conn_cnt_ p) (max_conn_cnt_ p) (abort_request_ p)
                  (S (next_obj p)) in
      if (ret =? 0)%Z then
        Pool_Init n' (tail rets)
          (MkPool (free_list_ p ++ [next_obj p]) (cur_conn_cnt_ p) (max_conn_cnt_ p)
             (abort_request_ p) (S (next_obj p)))
      else (ret, p')
  end.

Inductive get_outcome : Type :=
  | Got (conn : nat)
  | GotNull
  | MustWait.

(** [free_list_.front(); free_list_.pop_front();] *)
Definition pop_front (p : pool) : get_outcome * pool :=
  match free_list_ p with
  | c :: l => (Got c, MkPool l (cur_conn_cnt_ p) (max_conn_cnt_ p) (abort_request_ p) (next_obj p))
  | [] => (GotNull, p)
  end.

(** [GetDBConn] / [GetCacheConn] from the lock to the wait or the return; [ret] is the
    result of [Init] if a new connection is tried. *)
Definition GetConn_enter (ret : Z) (p : pool) : get_outcome * pool :=
  if abort_request_ p then (GotNull, p)
  else
    match free_list_ p with
    | _ :: _ => pop_front p
    | [] =>
        if (max_conn_cnt_ p <=? cur_conn_cnt_ p)%Z then (MustWait, p)
        else if (ret =? 0)%Z then
          pop_front (MkPool (free_list_ p ++ [next_obj p]) (i32 (cur_conn_cnt_ p + 1))
                       (max_conn_cnt_ p) (abort_request_ p) (S (next_obj p)))
        else (GotNull, MkPool (free_list_ p) (cur_conn_cnt_ p) (max_conn_cnt_ p)
                         (abort_request_ p) (S (next_obj p)))
    end.

(** The predicate of the wait. *)
Definition wait_over (p : pool) : bool :=
  negb (bool_decide (free_list_ p = [])) || abort_request_ p.

(** After [wait] (its predicate holds) or [wait_for] (it holds or the time is over). *)
Definition GetConn_wake (timed : bool) (p : pool) : get_outcome * pool :=
  if timed && bool_decide (free_list_ p = []) then (GotNull, p)
  else if abort_request_ p then (GotNull, p)
  else pop_front p.

(** [RelDBConn] / [RelCacheConn]; the boolean: [notify_one] was called. *)
Definition RelConn (c : nat) (p : pool) : bool * pool :=
  if bool_decide (c ∈ free_list_ p) then (false, p)
  else (true, MkPool (free_list_ p ++ [c]) (cur_conn_cnt_ p) (max_conn_cnt_ p)
                (abort_request_ p) (next_obj p)).

(** The destructor: the connections deleted, and the state the waiting threads find. *)
Definition Pool_destroy (p : pool) : list nat * pool :=
  (free_list_ p, MkPool [] (cur_conn_cnt_ p) (max_conn_cnt_ p) true (next_obj p)).

(** ** Threads

    [borrowed]: the connections in use, with their thread.  [asleep] threads are blocked in
    the wait ([true]: [wait_for]); [woken] threads were notified and will test the
    predicate when they get the mutex. *)
Record pool_sys : Type := MkSys {
  the_pool : pool;
  borrowed : list (nat * nat);        (* (thread, connection) *)
  asleep : list (nat * bool);
  woken : list (nat * bool)
}.

Definition idle (s : pool_sys) (t : nat) : Prop :=
  (t ∉ (asleep s).*1) ∧ (t ∉ (woken s).*1).

(** The bookkeeping of an outcome for thread [t]. *)
Definition settle (t : nat) (timed : bool) (o : get_outcome) (p : pool) (s : pool_sys) : pool_sys :=
  match o with
  | Got c => MkSys p ((t, c) :: borrowed s) (asleep s) (woken s)
  | GotNull => MkSys p (borrowed s) (asleep s) (woken s)
  | MustWait => MkSys p (borrowed s) ((t, timed) :: asleep s) (woken s)
  end.

(** The effect of [notify_one] when [t] is the thread it picks. *)
Definition wake_one (w : option (nat * bool)) (s : pool_sys) : pool_sys :=
  match w with
  | None => s
  | Some e => MkSys (the_pool s) (borrowed s) (filter (λ e', e' ≠ e) (asleep s)) (e :: woken s)
  end.

Inductive pool_step (s : pool_sys) : pool_sys → Prop :=
  (* a thread asks for a connection *)
  | step_get t timed ret o p :
      idle s t → GetConn_enter ret (the_pool s) = (o, p) → pool_step s (settle t timed o p s)
  (* a notified thread gets the mutex: it goes on, or back to sleep *)
  | step_woken t timed rest o p :
      woken s ≡ₚ (t, timed) :: rest → wait_over (the_pool s) = true →
      GetConn_wake timed (the_pool s) = (o, p) →
      pool_step s (settle t timed o p (MkSys (the_pool s) (borrowed s) (asleep s) rest))
  | step_woken_again t timed rest :
      woken s ≡ₚ (t, timed) :: rest → wait_over (the_pool s) = false →
      pool_step s (MkSys (the_pool s) (borrowed s) ((t, timed) :: asleep s) rest)
  (* the time of a [wait_for] is over, or a spurious wake-up finds the predicate true *)
  | step_timeout t timed rest o p :
      asleep s ≡ₚ (t, timed) :: rest → (timed = true ∨ wait_over (the_pool s) = true) →
      GetConn_wake timed (the_pool s) = (o, p) →
      pool_step s (settle t timed o p (MkSys (the_pool s) (borrowed s) rest (woken s)))
  (* a connection is given back; [notify_one] wakes a sleeping thread if there is one *)
  | step_release t c rest notified p w :
      borrowed s ≡ₚ (t, c) :: rest → RelConn c (the_pool s) = (notified, p) →
      (w = None ∧ (notified = false ∨ asleep s = []) ∨
       ∃ e, w = Some e ∧ notified = true ∧ e ∈ asleep s) →
      pool_step s (wake_one w (MkSys p rest (asleep s) (woken s))).

(** A pool whose [Init] succeeded, before any request. *)
Definition pool_initial (min max : Z) (s : pool_sys) : Prop :=
  ∃ rets p, Pool_Init (Z.to_nat min) rets (Pool_new min max) = (0%Z, p) ∧
            s = MkSys p [] [] [].

Inductive pool_reachable (min max : Z) : pool_sys → Prop :=
  | pool_reach_init s : pool_initial min max s → pool_reachable min max s
  | pool_reach_step s s' : pool_reachable min max s → pool_step s s' → pool_reachable min max s'.

(** ** The invariant *)

Record pool_inv (bound : Z) (s : pool_sys) : Prop := {
  inv_nodup : NoDup (free_list_ (the_pool s) ++ (borrowed s).*2);
  inv_fresh : Forall (λ c, c < next_obj (the_pool s))%nat
                (free_list_ (the_pool s) ++ (borrowed s).*2);
  inv_count : Z.of_nat (length (free_list_ (the_pool s) ++ (borrowed s).*2)) =
              cur_conn_cnt_ (the_pool s);
  inv_bound : (cur_conn_cnt_ (the_pool s) ≤ Z.max bound (max_conn_cnt_ (the_pool s)))%Z;
  inv_max : (max_conn_cnt_ (the_pool s) < 2 ^ 31)%Z;
  inv_alive : abort_request_ (the_pool s) = false;
  inv_wakeup : asleep s = [] ∨ (length (free_list_ (the_pool s)) ≤ length (woken s))%nat
}.

(** The part about connections only, for a pool and the list of the borrowed ones. *)
Definition conns_ok (bound : Z) (p : pool) (l : list nat) : Prop :=
  NoDup (free_list_ p ++ l) ∧ Forall (λ c, c < next_obj p)%nat (free_list_ p ++ l) ∧
  Z.of_nat (length (free_list_ p ++ l)) = cur_conn_cnt_ p ∧
  (cur_conn_cnt_ p ≤ Z.max bound (max_conn_cnt_ p))%Z ∧
  (max_conn_cnt_ p < 2 ^ 31)%Z ∧ abort_request_ p = false.

Lemma conns_ok_perm bound p l l' : l ≡ₚ l' → conns_ok bound p l → conns_ok bound p l'.
Proof.
  unfold conns_ok. intros Hp (H1 & H2 & H3 & H4). split_and!; try apply H4.
  - by rewrite <- Hp.
  - by rewrite <- Hp.
  - by rewrite <- Hp.
Qed.

Lemma pool_inv_intro bound s :
  conns_ok bound (the_pool s) (borrowed s).*2 →
  (asleep s = [] ∨ (length (free_list_ (the_pool s)) ≤ length (woken s))%nat) →
  pool_inv bound s.
Proof. intros (? & ? & ? & ? & ? & ?) ?. by constructor. Qed.

Lemma pool_inv_elim bound s :
  pool_inv bound s → conns_ok bound (the_pool s) (borrowed s).*2 ∧
    (asleep s = [] ∨ (length (free_list_ (the_pool s)) ≤ length (woken s))%nat).
Proof. intros []. by split_and!. Qed.

(** What an outcome gives to the thread. *)
Definition outcome_conns (o : get_outcome) (l : list nat) : list nat :=
  match o with Got c => c :: l | _ => l end.

Lemma pop_front_ok bound p l o p' :
  pop_front p = (o, p') → conns_ok bound p l →
  conns_ok bound p' (outcome_conns o l) ∧
  (length (free_list_ p') ≤ length (free_list_ p) - 1)%nat.
Proof.
  unfold pop_front. intros H Hok. destruct (free_list_ p) as [|c f] eqn:E; injection H as <- <-.
  - rewrite E. split; [done|]. simpl. lia.
  - split; [|cbn; lia]. revert Hok. unfold conns_ok. cbn. rewrite E.
    assert (Hp : c :: f ++ l ≡ₚ f ++ c :: l) by apply Permutation_middle.
    cbn [app]. rewrite Hp. tauto.
Qed.

Lemma GetConn_enter_ok bound ret p l o p' :
  GetConn_enter ret p = (o, p') → conns_ok bound p l →
  conns_ok bound p' (outcome_conns o l) ∧
  (length (free_list_ p') ≤ length (free_list_ p) - 1)%nat ∧
  (o = MustWait → free_list_ p' = []).
Proof.
  unfold GetConn_enter. intros H Hok. pose proof Hok as (H1 & H2 & H3 & H4 & H5 & H6).
  rewrite H6 in H. destruct (free_list_ p) as [|c f] eqn:E.
  - destruct (Z.leb_spec (max_conn_cnt_ p) (cur_conn_cnt_ p)) as [Hle|Hlt].
    + injection H as <- <-. rewrite E. by split_and!.
    + destruct (ret =? 0)%Z.
      * cbn in H. injection H as <- <-. cbn. split_and!; [|lia|done].
        cbn in H1, H2, H3. unfold conns_ok. cbn.
        rewrite swrap_small by lia. split_and!; [| | |lia|done|done].
        -- constructor; [|done]. intros Hin. rewrite Forall_forall in H2.
           specialize (H2 _ Hin). lia.
        -- constructor; [lia|]. eapply Forall_impl; [exact H2|]. cbn. lia.
        -- cbn. lia.
      * injection H as <- <-. cbn. split_and!; [|lia|done].
        unfold conns_ok. cbn. split_and!; try done.
        eapply Forall_impl; [exact H2|]. cbn. lia.
  - destruct (pop_front_ok _ _ _ _ _ H Hok) as [Hp Hl]. rewrite E in Hl.
    split_and!; [done|done|]. intros ->. unfold pop_front in H. by rewrite E in H.
Qed.

Lemma GetConn_wake_ok bound timed p l o p' :
  GetConn_wake timed p = (o, p') → conns_ok bound p l →
  conns_ok bound p' (outcome_conns o l) ∧
  (length (free_list_ p') ≤ length (free_list_ p) - 1)%nat ∧ o ≠ MustWait.
Proof.
  unfold GetConn_wake. intros H Hok. pose proof Hok as (_ & _ & _ & _ & _ & Ha).
  destruct (timed && bool_decide (free_list_ p = [])) eqn:Et.
  - injection H as <- <-. apply andb_true_iff in Et as [_ Ef%bool_decide_eq_true].
    rewrite Ef. cbn. split_and!; [done|lia|done].
  - rewrite Ha in H. destruct (pop_front_ok _ _ _ _ _ H Hok) as [Hp Hl].
    split_and!; [done|done|]. unfold pop_front in H.
    destruct (free_list_ p); injection H as <- <-; done.
Qed.

Lemma settle_conns bound t timed o p s :
  conns_ok bound p (outcome_conns o (borrowed s).*2) →
  conns_ok bound (the_pool (settle t timed o p s)) (borrowed (settle t timed o p s)).*2.
Proof. by destruct o. Qed.

Lemma RelConn_ok bound c p l notified p' :
  RelConn c p = (notified, p') → conns_ok bound p (c :: l) →
  conns_ok bound p' l ∧ notified = true ∧ length (free_list_ p') = S (length (free_list_ p)).
Proof.
  unfold RelConn. intros H (H1 & H2 & H3 & H4).
  assert (Hp : free_list_ p ++ c :: l ≡ₚ c :: free_list_ p ++ l)
    by (symmetry; apply Permutation_middle).
  assert (Hc : c ∉ free_list_ p).
  { rewrite Hp in H1. apply NoDup_cons in H1 as [Hn _]. set_solver. }
  rewrite bool_decide_false in H by done. injection H as <- <-.
  split_and!; [|done|cbn; rewrite length_app; cbn; lia].
  assert (Hq : (free_list_ p ++ [c]) ++ l ≡ₚ free_list_ p ++ c :: l) by by rewrite <- app_assoc.
  unfold conns_ok. cbn. rewrite Hq. done.
Qed.

Lemma wake_one_len e (l : list (nat * bool)) : e ∈ l → l ≠ [].
Proof. by intros Hin ->; apply elem_of_nil in Hin. Qed.

Lemma pool_step_inv bound s s' : pool_inv bound s → pool_step s s' → pool_inv bound s'.
Proof.
  intros [Hc Hw]%pool_inv_elim Hstep. apply pool_inv_intro; destruct Hstep as
    [t timed ret o p Hi H|t timed rest o p Hwk Hov H|t timed rest Hwk Hov
    |t timed rest o p Hal Hor H|t c rest notified p w Hb H Hn].
  - apply settle_conns. by destruct (GetConn_enter_ok _ _ _ _ _ _ H Hc).
  - apply settle_conns. by destruct (GetConn_wake_ok _ _ _ _ _ _ H Hc).
  - done.
  - apply settle_conns. by destruct (GetConn_wake_ok _ _ _ _ _ _ H Hc).
  - assert (Hc' : conns_ok bound (the_pool s) (c :: rest.*2))
      by (eapply conns_ok_perm; [|exact Hc]; by rewrite Hb).
    destruct (RelConn_ok _ _ _ _ _ _ H Hc') as (? & _ & _). by destruct w.
  - destruct (GetConn_enter_ok _ _ _ _ _ _ H Hc) as (_ & Hl & Hm).
    destruct o as [c| |]; cbn; [destruct Hw; [by left|right; lia]..|].
    right. rewrite Hm by done. cbn. lia.
  - destruct (GetConn_wake_ok _ _ _ _ _ _ H Hc) as (_ & Hl & Hm).
    pose proof (Permutation_length Hwk) as Hlen.
    cbn in Hlen. destruct o as [c| |]; cbn; [destruct Hw; [by left|right; lia]..|done].
  - right. unfold wait_over in Hov. apply orb_false_iff in Hov as [Hf _].
    apply negb_false_iff, bool_decide_eq_true in Hf. cbn. rewrite Hf. cbn. lia.
  - destruct (GetConn_wake_ok _ _ _ _ _ _ H Hc) as (_ & Hl & Hm).
    pose proof (Permutation_length Hal) as Hlen. cbn in Hlen.
    destruct Hw as [Hw|Hw]; [rewrite Hw in Hlen; cbn in Hlen; lia|].
    destruct o as [c| |]; cbn; [right; lia..|done].
  - assert (Hc' : conns_ok bound (the_pool s) (c :: rest.*2))
      by (eapply conns_ok_perm; [|exact Hc]; by rewrite Hb).
    destruct (RelConn_ok _ _ _ _ _ _ H Hc') as (_ & -> & Hl).
    destruct Hn as [[-> [?|Ha]]|(e & -> & _ & He)]; [done|by left|].
    right. cbn. destruct Hw as [Hw|Hw]; [by apply wake_one_len in He|lia].
Qed.

Lemma Pool_Init_spec n : ∀ rets p p',
  Pool_Init n rets p = (0%Z, p') →
  p' = MkPool (free_list_ p ++ seq (next_obj p) n) (cur_conn_cnt_ p) (max_conn_cnt_ p)
         (abort_request_ p) (next_obj p + n).
Proof.
  induction n as [|n IH]; intros rets p p'; cbn.
  - intros [= <-]. rewrite app_nil_r, Nat.add_0_r. by destruct p.
  - destruct (Z.eqb_spec (default 0%Z (head rets)) 0) as [E|E]; [|by intros [= ?]].
    intros H%IH. subst p'. cbn. rewrite <- app_assoc. cbn. f_equal. lia.
Qed.

Lemma pool_initial_inv min max s :
  (0 ≤ min)%Z → (max < 2 ^ 31)%Z → pool_initial min max s → pool_inv min s.
Proof.
  intros Hmin Hmax (rets & p & H%Pool_Init_spec & ->). subst p. cbn.
  constructor; cbn; rewrite ?app_nil_r.
  - apply NoDup_seq.
  - apply Forall_forall. intros c Hc%elem_of_seq. lia.
  - rewrite length_seq. lia.
  - lia.
  - done.
  - done.
  - by left.
Qed.

Lemma pool_reachable_inv min max s :
  (0 ≤ min)%Z → (max < 2 ^ 31)%Z → pool_reachable min max s → pool_inv min s.
Proof.
  intros Hmin Hmax Hr. induction Hr as [s Hi|s s' _ IH Hs].
  - by eapply pool_initial_inv.
  - by eapply pool_step_inv.
Qed.

(** ** Properties *)

(** C23: however the threads interleave, a connection is never given to two threads at
    once nor kept in the free list while in use; free and borrowed connections together
    are exactly the ones counted, and the count never exceeds the configured maximum (or
    the initial number, when that is larger). *)
Theorem pool_exclusive min max s :
  (0 ≤ min)%Z → (max < 2 ^ 31)%Z → pool_reachable min max s →
  NoDup (borrowed s).*2 ∧
  (∀ c, c ∈ (borrowed s).*2 → c ∉ free_list_ (the_pool s)) ∧
  Z.of_nat (length (free_list_ (the_pool s)) + length (borrowed s)) =
    cur_conn_cnt_ (the_pool s) ∧
  (cur_conn_cnt_ (the_pool s) ≤ Z.max min (max_conn_cnt_ (the_pool s)))%Z.
Proof.
  intros Hmin Hmax Hr. destruct (pool_reachable_inv _ _ _ Hmin Hmax Hr) as [Hnd _ Hc Hb _ _ _].
  apply NoDup_app in Hnd as (_ & Hdis & Hnd). split_and!; [done| | |done].
  - intros c Hc' Hf. by apply (Hdis c).
  - rewrite <- Hc, length_app, length_fmap. lia.
Qed.

(** C35: no wake-up is lost: while a connection is free and a thread sleeps in the wait,
    at least as many threads as there are free connections have been notified and not
    run yet, and such a thread gets a connection when it runs. *)
Theorem pool_no_lost_wakeup min max s :
  (0 ≤ min)%Z → (max < 2 ^ 31)%Z → pool_reachable min max s →
  free_list_ (the_pool s) ≠ [] → asleep s ≠ [] →
  (length (free_list_ (the_pool s)) ≤ length (woken s))%nat ∧
  ∃ t timed, (t, timed) ∈ woken s ∧ wait_over (the_pool s) = true ∧
    ∃ c p, GetConn_wake timed (the_pool s) = (Got c, p).
Proof.
  intros Hmin Hmax Hr Hf Ha.
  destruct (pool_reachable_inv _ _ _ Hmin Hmax Hr) as [_ _ _ _ _ Hab [Hw|Hw]]; [done|].
  split; [done|]. destruct (woken s) as [|[t timed] w] eqn:Ew.
  { destruct (free_list_ (the_pool s)); [done|]. cbn in Hw. lia. }
  exists t, timed. split_and!; [set_solver| |].
  - unfold wait_over. by rewrite bool_decide_false.
  - unfold GetConn_wake. rewrite bool_decide_false, andb_false_r, Hab by done.
    unfold pop_front. destruct (free_list_ (the_pool s)); [done|]. eauto.
Qed.

(** One connection: thread 1 borrows it, threads 2 and 3 wait, thread 1 gives it back. *)
Definition demo_pool (free : list nat) : pool := MkPool free 1 1 false 1.
Definition demo_sys : pool_sys := MkSys (demo_pool [0%nat]) [] [(3%nat, false)] [(2%nat, false)].

Lemma demo_sys_reachable : pool_reachable 1 1 demo_sys.
Proof.
  set (s1 := MkSys (demo_pool []) [(1, 0)]%nat [] []).
  set (s3 := MkSys (demo_pool []) [(1, 0)]%nat [(3, false); (2, false)]%nat []).
  assert (H1 : pool_reachable 1 1 s1).
  { eapply pool_reach_step; [apply pool_reach_init|].
    - exists [], (demo_pool [0%nat]). split; reflexivity.
    - apply (step_get (MkSys (demo_pool [0%nat]) [] [] []) 1 false 0 (Got 0)); [|reflexivity].
      split; apply not_elem_of_nil. }
  assert (H3 : pool_reachable 1 1 s3).
  { eapply pool_reach_step; [eapply pool_reach_step; [exact H1|]|].
    - apply (step_get s1 2 false 0 MustWait); [|reflexivity]. split; apply not_elem_of_nil.
    - apply (step_get (MkSys (demo_pool []) [(1, 0)]%nat [(2, false)]%nat []) 3 false 0 MustWait);
        [|reflexivity].
      split; by apply (bool_decide_unpack _). }
  eapply pool_reach_step; [exact H3|].
  apply (step_release s3 1 0 [] true (demo_pool [0%nat]) (Some (2%nat, false))).
  - reflexivity.
  - reflexivity.
  - right. exists (2%nat, false). split_and!; [reflexivity|reflexivity|].
    by apply (bool_decide_unpack _).
Qed.

Lemma pool_exclusive_witness : NoDup (borrowed demo_sys).*2.
Proof.
  apply (pool_exclusive 1 1 demo_sys); [lia|lia|exact demo_sys_reachable].
Defined.

Lemma pool_no_lost_wakeup_witness : ∃ t timed, (t, timed) ∈ woken demo_sys.
Proof.
  destruct (pool_no_lost_wakeup 1 1 demo_sys) as (_ & t & timed & H & _);
    [lia|lia|exact demo_sys_reachable|intros [=]|intros [=]|].
  exists t, timed. exact H.
Defined.
