(* ===== verification/CacheConn.v ===== *)
(** [redis/cache_pool.{h,cc}] of the logic service: [CacheConn], one connection to Redis
    and its commands; [CachePool] and [CacheManager].

    hiredis and the Redis server are a class.  A format such as ["SET %s %s"] yields one
    argument per blank-separated word of the format, each [%s] standing for the C string
    given to it. *)

From S2P Require Import Prelude Util ConfigReader ConnPool.

(** ** hiredis *)

(** [struct redisReply]: [rstr] is the [str] pointer ([None]: null) with its [len] bytes. *)
#[warnings="-register-all"]
Inductive redisReply : Type :=
  MkReply (rtype : Z) (integer : Z) (rstr : option str) (elements : list redisReply).

Definition rtype (r : redisReply) : Z := let '(MkReply t _ _ _) := r in t.
Definition rinteger (r : redisReply) : Z := let '(MkReply _ n _ _) := r in n.
Definition rstr (r : redisReply) : option str := let '(MkReply _ _ s _) := r in s.
Definition relements (r : redisReply) : list redisReply := let '(MkReply _ _ _ l) := r in l.

Definition REDIS_REPLY_STRING : Z := 1.
Definition REDIS_REPLY_ARRAY : Z := 2.
Definition REDIS_REPLY_INTEGER : Z := 3.
Definition REDIS_REPLY_NIL : Z := 4.
Definition REDIS_REPLY_STATUS : Z := 5.
Definition REDIS_REPLY_ERROR : Z := 6.

Class HiRedis (W : Type) : Type := {
  unix_time : W → Z * W;                               (* time(NULL) *)
  redis_connect : str → Z → W → option Z * W;          (* None: null; else context_->err *)
  redis_argv : list str → W → option redisReply * W;   (* one command on the connection *)
  redis_format : str → W → option redisReply * W;      (* a format without arguments *)
  redis_err : W → Z                                    (* context_->err *)
}.

(** ** [class CacheConn] *)

Record cache_conn : Type := MkCache {
  server_ip_ : str;
  server_port_ : Z;
  db_index_ : Z;
  password_ : str;
  cache_pool_name_ : str;
  context_ : bool;                  (* not null *)
  last_connect_time_ : Z
}.

(** The constructor used by the pool. *)
Definition CacheConn_new (server_ip : str) (server_port db_index : Z) (password pool_name : str)
    : cache_conn :=
  MkCache server_ip (u16 server_port) (u16 db_index) password pool_name false 0.

Definition set_context (b : bool) (c : cache_conn) : cache_conn :=
  MkCache (server_ip_ c) (server_port_ c) (db_index_ c) (password_ c) (cache_pool_name_ c) b
    (last_connect_time_ c).

Definition VALUES_ID_SIZE : Z := 1024.

(** [s.append(reply->str, reply->len)] and [string(reply->str, reply->len)]: a null pointer
    comes with length 0. *)
Definition reply_bytes (r : redisReply) : str := default [] (rstr r).

(** [string s = reply->str]: a C string; throws on a null pointer. *)
Definition reply_cstring (r : redisReply) : result str :=
  match rstr r with Some s => Ok (c_str s) | None => Throw LogicErr end.

Section CacheConn.
Context {W : Type} `{HR : HiRedis W}.

(** The world of a connection's operations. *)
Abbreviation M := (io (cache_conn * W)).

Definition via_redis {A} (f : W → A * W) : M A := λ '(c, w),
  let (a, w) := f w in (Ok a, (c, w)).
Definition get_conn : M cache_conn := λ s, (Ok s.1, s).
Definition put_conn (c : cache_conn) : M unit := λ s, (Ok tt, (c, s.2)).

(** [redisFree(context_); context_ = NULL;] *)
Definition DeInit : M unit := λ s, (Ok tt, (set_context false s.1, s.2)).

(** [redisCommand(context_, "SELECT %d", db_index_)] and its test. *)
Definition select_db (c : cache_conn) : M Z :=
  do* reply := via_redis (redis_argv ["SELECT" : str; to_string (db_index_ c)]) in
  match reply with
  | None => iret 2%Z
  | Some r =>
      if ((rtype r =? REDIS_REPLY_STATUS)%Z && starts_with "OK" (c_str (reply_bytes r)))
      then iret 0%Z else iret 2%Z
  end.

(** [CacheConn::Init] *)
Definition Init : M Z :=
  do* c := get_conn in
  if context_ c then iret 0%Z
  else
    do* cur_time := via_redis unix_time in
    if (cur_time <? u64 (last_connect_time_ c + 1))%Z then iret 1%Z
    else
      let c := MkCache (server_ip_ c) (server_port_ c) (db_index_ c) (password_ c)
                 (cache_pool_name_ c) (context_ c) cur_time in
      do* _ := put_conn c in
      do* context := via_redis (redis_connect (server_ip_ c) (server_port_ c)) in
      match context with
      | None => iret 1%Z
      | Some err =>
          if negb (err =? 0)%Z then iret 1%Z
          else
            do* _ := put_conn (set_context true c) in
            if bool_decide (password_ c ≠ []) then
              do* reply := via_redis (redis_argv ["AUTH" : str; c_str (password_ c)]) in
              match reply with
              | None => iret (-1)%Z
              | Some r => if (rtype r =? REDIS_REPLY_ERROR)%Z then iret (-1)%Z else select_db c
              end
            else select_db c
      end.

(** The shape of most operations: [Init], one command, and [f] on its reply; without
  reply the context is freed. *)
Definition with_command {A} (not_init failed : A) (cmd : W → option redisReply * W)
    (f : redisReply → result A) : M A :=
  do* i := Init in
  if negb (i =? 0)%Z then iret not_init
  else
    do* reply := via_redis cmd in
    match reply with
    | None => do* _ := DeInit in iret failed
    | Some r => ilift (f r)
    end.

(** The same, for the operations that use the reply without testing it for null. *)
Definition with_command_unchecked {A} (not_init : A) (cmd : W → option redisReply * W)
    (f : redisReply → result A) : M A :=
  do* i := Init in
  if negb (i =? 0)%Z then iret not_init
  else
    do* reply := via_redis cmd in
    match reply with
    | None => ilift (Undef NullDeref)
    | Some r => ilift (f r)
    end.

Definition command (name : str) (args : list str) : W → option redisReply * W :=
  redis_argv (name :: (c_str <$> args)).

(** *** Strings *)

Definition Get (key : str) : M str :=
  with_command [] [] (command "GET" [key])
    (λ r, Ok (if (rtype r =? REDIS_REPLY_STRING)%Z then reply_bytes r else [])).

Definition Set_ (key value : str) : M str :=
  with_command [] [] (command "SET" [key; value]) (λ r, Ok (reply_bytes r)).

Definition SetEx (key : str) (timeout : Z) (value : str) : M str :=
  with_command [] [] (command "SETEX" [key; to_string timeout; value])
    (λ r, Ok (reply_bytes r)).

(** [for i < reply->elements: ret_value[keys[i]] = child_reply->str] on the children of
  type string. *)
Fixpoint mget_collect (keys : list str) (l : list redisReply) (ret : gmap str str)
    : result (gmap str str) :=
  match l with
  | [] => Ok ret
  | r :: l' =>
      if (rtype r =? REDIS_REPLY_STRING)%Z then
        match keys with
        | [] => Undef OutOfBounds
        | k :: keys' => let* v := reply_cstring r in mget_collect keys' l' (<[k := v]> ret)
        end
      else mget_collect (tail keys) l' ret
  end.

Definition join_spaces (keys : list str) : str :=
  match keys with [] => [] | k :: ks => foldl (λ a k, a ++ " " ++ k) k ks end.

Definition MGet (keys : list str) (ret_value : gmap str str) : M (bool * gmap str str) :=
  do* i := Init in
  if negb (i =? 0)%Z then iret (false, ret_value)
  else
    let strKey := join_spaces keys in
    if bool_decide (keys = [] ∨ strKey = []) then iret (false, ret_value)
    else
      do* reply := via_redis (redis_format (c_str ("MGET " ++ strKey))) in
      match reply with
      | None => do* _ := DeInit in iret (false, ret_value)
      | Some r =>
          if (rtype r =? REDIS_REPLY_ARRAY)%Z then
            do* m := ilift (mget_collect keys (relements r) ret_value) in iret (true, m)
          else iret (true, ret_value)
      end.

Definition IsExists (key : str) : M bool :=
  with_command false false (command "EXISTS" [key]) (λ r, Ok (negb (rinteger r =? 0)%Z)).
Definition Del (key : str) : M Z :=
  with_command 0%Z 0%Z (command "DEL" [key]) (λ r, Ok (rinteger r)).

(** The [int64_t&] of [Incr] is reset first, that of [Decr] is not. *)
Definition Incr (key : str) : M (Z * Z) :=
  with_command (-1, 0)%Z (-1, 0)%Z (command "INCR" [key]) (λ r, Ok (0, rinteger r)%Z).
Definition Decr (key : str) (value : Z) : M (Z * Z) :=
  with_command (-1, value)%Z (-1, value)%Z (command "DECR" [key]) (λ r, Ok (0, rinteger r)%Z).

(** *** Hashes *)

Definition integer_op (name : str) (args : list str) : M Z :=
  with_command (-1)%Z (-1)%Z (command name args) (λ r, Ok (rinteger r)).

Definition Hdel (key field : str) : M Z := integer_op "HDEL" [key; field].
Definition Hset (key field value : str) : M Z := integer_op "HSET" [key; field; value].
Definition HincrBy (key field : str) (value : Z) : M Z :=
  integer_op "HINCRBY" [key; field; to_string value].
Definition IncrBy (key : str) (value : Z) : M Z := integer_op "INCRBY" [key; to_string value].

Definition Hget (key field : str) : M str :=
  with_command [] [] (command "HGET" [key; field])
    (λ r, Ok (if (rtype r =? REDIS_REPLY_STRING)%Z then reply_bytes r else [])).

(** The overload of [Hget] with character buffers: the C string stored in [value], if any.  A missing reply
  does not free the context. *)
Definition Hget_buf (key field : str) : M (Z * option str) :=
  do* i := Init in
  if negb (i =? 0)%Z then iret ((-1)%Z, None)
  else
    do* reply := via_redis (command "hget" [key; field]) in
    match reply with
    | None => iret ((-1)%Z, None)
    | Some r =>
        if (rtype r =? REDIS_REPLY_STRING)%Z
        then iret (0%Z, Some (c_str (take (Z.to_nat VALUES_ID_SIZE) (reply_bytes r))))
        else iret ((-1)%Z, None)
    end.

(** Field and value alternate; [insert] keeps the first value of a field. *)
Fixpoint hgetall_collect (l : list redisReply) (ret : gmap str str) : gmap str str :=
  match l with
  | f :: v :: l' =>
      hgetall_collect l'
        (match ret !! reply_bytes f with
         | Some _ => ret
         | None => <[reply_bytes f := reply_bytes v]> ret
         end)
  | _ => ret
  end.

Definition HgetAll (key : str) (ret_value : gmap str str) : M (bool * gmap str str) :=
  with_command (false, ret_value) (false, ret_value) (command "HGETALL" [key])
    (λ r, Ok (true,
       if ((rtype r =? REDIS_REPLY_ARRAY)%Z && Nat.even (length (relements r)))
       then hgetall_collect (relements r) ret_value else ret_value)).

(** [hash] in the order of its keys. *)
Definition Hmset (key : str) (hash : list (str * str)) : M str :=
  with_command [] [] (command "HMSET" (key :: (hash ≫= λ e, [e.1; e.2])))
    (λ r, Ok (reply_bytes r)).

Definition array_strings (r : redisReply) (ret_value : list str) : list str :=
  if (rtype r =? REDIS_REPLY_ARRAY)%Z then ret_value ++ (reply_bytes <$> relements r)
  else ret_value.

Definition Hmget (key : str) (fields ret_value : list str) : M (bool * list str) :=
  with_command (false, ret_value) (false, ret_value) (command "HMGET" (key :: fields))
    (λ r, Ok (true, array_strings r ret_value)).

(** *** Lists *)

Definition Lpush (key value : str) : M Z := integer_op "LPUSH" [key; value].
Definition Rpush (key value : str) : M Z := integer_op "RPUSH" [key; value].
Definition Llen (key : str) : M Z := integer_op "LLEN" [key].
(** The two [long]s are given to [%d], which reads an [int]. *)
Definition Lrange (key : str) (start end_ : Z) (ret_value : list str) : M (bool * list str) :=
  with_command (false, ret_value) (false, ret_value)
    (command "LRANGE" [key; to_string (i32 start); to_string (i32 end_)])
    (λ r, Ok (true, array_strings r ret_value)).

(** *** Sorted sets *)

Definition expect_integer (k : Z → Z) (r : redisReply) : result Z :=
  Ok (if (rtype r =? REDIS_REPLY_INTEGER)%Z then i32 (k (rinteger r)) else (-1)%Z).

Definition ZsetExit (key member : str) : M Z :=
  with_command_unchecked (-1)%Z
    (redis_argv ["zlexcount" : str; c_str key; "[" ++ c_str member; "[" ++ c_str member])
    (expect_integer id).
Definition ZsetAdd (key : str) (score : Z) (member : str) : M Z :=
  with_command_unchecked (-1)%Z (command "ZADD" [key; to_string score; member])
    (expect_integer (λ _, 0%Z)).
Definition ZsetZrem (key member : str) : M Z :=
  with_command_unchecked (-1)%Z (command "ZREM" [key; member]) (expect_integer (λ _, 0%Z)).
(** [strcmp(reply->str, "OK") != 0] *)
Definition ZsetIncr (key member : str) : M Z :=
  with_command_unchecked 0%Z (command "ZINCRBY" [key; "1" : str; member])
    (λ r, match rstr r with
          | None => Undef NullDeref
          | Some s => Ok (if bool_decide (c_str s = "OK") then 0 else -1)%Z
          end).
Definition ZsetZcard (key : str) : M Z :=
  with_command_unchecked (-1)%Z (command "ZCARD" [key]) (expect_integer id).
Definition ZsetGetScore (key member : str) : M Z :=
  with_command_unchecked (-1)%Z (command "ZSCORE" [key; member])
    (λ r, Ok (if (rtype r =? REDIS_REPLY_STRING)%Z then atoi (reply_bytes r) else (-1)%Z)).

(** The strings copied to [values] and [get_num], which is left alone on an error. *)
Definition ZsetZrevrange (key : str) (from_pos end_pos get_num : Z) : M (Z * Z * list str) :=
  with_command_unchecked (-1, get_num, [])%Z
    (command "ZREVRANGE" [key; to_string from_pos; to_string end_pos])
    (λ r,
       if (rtype r =? REDIS_REPLY_ARRAY)%Z then
         let count := u64 (i32 (end_pos - from_pos + 1)) in
         let n := Z.min count (Z.of_nat (length (relements r))) in
         let vals := take (Z.to_nat n) (relements r) in
         if bool_decide (Forall (λ e, rstr e ≠ None) vals)
         then Ok (0%Z, i32 n, (λ e, c_str (take 1023 (reply_bytes e))) <$> vals)
         else Undef NullDeref
       else Ok ((-1)%Z, get_num, [])).

(** *** Streams *)

(** One entry of the reply to [XREVRANGE]: its id and the value of its first field. *)
Definition xrange_entry (e : redisReply) : result (option (str * str)) :=
  match relements e with
  | [e0; fields] =>
      if (rtype e =? REDIS_REPLY_ARRAY)%Z then
        let* id := reply_cstring e0 in
        match relements fields with
        | _ :: e1 :: _ =>
            if (rtype fields =? REDIS_REPLY_ARRAY)%Z then
              let* payload := reply_cstring e1 in Ok (Some (id, payload))
            else Ok None
        | _ => Ok None
        end
      else Ok None
  | _ => Ok None
  end.

Fixpoint xrange_collect (l : list redisReply) (msgs : list (str * str))
    : result (list (str * str)) :=
  match l with
  | [] => Ok msgs
  | e :: l' =>
      let* m := xrange_entry e in
      xrange_collect l' (match m with Some p => msgs ++ [p] | None => msgs end)
  end.

(** The arguments of the command, with their lengths (no C string). *)
Definition xrevrange_args (key start_id end_id : str) (count : Z) : list str :=
  ["XREVRANGE" : str; key; start_id; end_id] ++
  (if (0 <? count)%Z then ["COUNT" : str; to_string count] else []).

Definition GetXrevrange (key start_id end_id : str) (count : Z) (msgs : list (str * str))
    : M (bool * list (str * str)) :=
  do* i := Init in
  if negb (i =? 0)%Z then iret (false, msgs)
  else
    do* reply := via_redis (redis_argv (xrevrange_args key start_id end_id count)) in
    match reply with
    | None => λ s, (Ok (false, msgs),
                    if negb (redis_err s.2 =? 0)%Z then (set_context false s.1, s.2) else s)
    | Some r =>
        if (rtype r =? REDIS_REPLY_ARRAY)%Z then
          do* l := ilift (xrange_collect (relements r) msgs) in iret (true, l)
        else iret (false, msgs)
    end.

(** [id] is replaced by the id the server generated. *)
Definition Xadd (key id : str) (field_value_pairs : list (str * str)) : M (bool * str) :=
  with_command (false, id) (false, id)
    (redis_argv (["XADD" : str; key; id] ++ (field_value_pairs ≫= λ e, [e.1; e.2])))
    (λ r,
       if (rtype r =? REDIS_REPLY_ERROR)%Z then Ok (false, id)
       else match rstr r with
            | None => Undef NullDeref
            | Some s => Ok (true, c_str s)
            end).

Definition FlushDb : M bool :=
  with_command false false (command "FLUSHDB" [])
    (λ r, Ok ((rtype r =? REDIS_REPLY_STRING)%Z && starts_with "OK" (c_str (reply_bytes r)))).
End CacheConn.

(** ** [class CachePool] *)

Definition MIN_CACHE_CONN_CNT : Z := 2.
Definition CachePool_new (max_conn_cnt : Z) : pool := Pool_new MIN_CACHE_CONN_CNT max_conn_cnt.
(** [Init] returns 1 for any failure of a connection. *)
Definition CachePool_Init (rets : list Z) (p : pool) : Z * pool :=
  let (r, p) := Pool_Init (Z.to_nat (cur_conn_cnt_ p)) rets p in
  (if (r =? 0)%Z then 0%Z else 1%Z, p).
Definition GetCacheConn : Z → pool → get_outcome * pool := GetConn_enter.
Definition GetCacheConn_wake : bool → pool → get_outcome * pool := GetConn_wake.
Definition RelCacheConn : nat → pool → bool * pool := RelConn.
(** The destructor also resets the count. *)
Definition CachePool_delete (p : pool) : list nat * pool :=
  let (l, p) := Pool_destroy p in
  (l, MkPool (free_list_ p) 0 (max_conn_cnt_ p) (abort_request_ p) (next_obj p)).

(** ** Properties *)

Section Properties.
Context {W : Type} `{HR : HiRedis W}.

Lemma Init_connected (s : cache_conn * W) : context_ s.1 = true → Init s = (Ok 0%Z, s).
Proof. intros H. destruct s as [c w]. unfold Init, ibind, get_conn. cbn in *. by rewrite H. Qed.

Lemma select_db_context c (s s' : cache_conn * W) r :
  select_db c s = (Ok r, s') → s'.1 = s.1 ∧ (r = 0 ∨ r = 2)%Z.
Proof.
  destruct s as [c0 w]. unfold select_db, ibind, via_redis.
  destruct (redis_argv _ w) as [[reply|] w']; cbn; [|intros [= <- <-]; split; [done|lia]].
  destruct (_ && _); intros [= <- <-]; (split; [done|lia]).
Qed.

(** [Init] reports an authentication or database selection that failed, but keeps the
  context: the very next [Init] on that connection reports success without any
  exchange with the server.  After a connection failure, and only then, there is no
  context, and a later [Init] tries again. *)
Theorem Init_outcomes (s s' : cache_conn * W) r :
  Init s = (Ok r, s') →
  (r = 0 ∨ r = 1 ∨ r = 2 ∨ r = -1)%Z ∧
  (r = 1%Z → context_ s'.1 = false) ∧
  (r ≠ 1%Z → context_ s'.1 = true ∧ Init s' = (Ok 0%Z, s')).
Proof.
  destruct s as [c w]. intros H.
  enough ((r = 0 ∨ r = 1 ∨ r = 2 ∨ r = -1)%Z ∧ (r = 1%Z → context_ s'.1 = false) ∧
          (r ≠ 1%Z → context_ s'.1 = true)) as (? & ? & Hn)
    by (split_and!; [done|done|]; intros Hr; split; [by apply Hn|by apply Init_connected, Hn]).
  unfold Init, ibind at 1, get_conn in H. cbn [fst] in H.
  destruct (context_ c) eqn:Hc; [injection H as <- <-; by split_and!; auto; cbn|].
  apply ibind_inv in H as (t & s1 & Ht & H). unfold via_redis in Ht.
  destruct (unix_time w) as [t' w1]. injection Ht as -> <-.
  destruct (t <? _)%Z; [injection H as <- <-; split_and!; auto; done|].
  apply ibind_inv in H as (? & s2 & Hp & H). injection Hp as _ <-.
  apply ibind_inv in H as (o & s3 & Hcn & H). unfold via_redis in Hcn. cbn in Hcn.
  destruct (redis_connect _ _ _) as [o' w2]. injection Hcn as -> <-.
  destruct o as [err|]; [|injection H as <- <-; split_and!; auto; done].
  destruct (err =? 0)%Z; cbn [negb] in H; [|injection H as <- <-; split_and!; auto; done].
  apply ibind_inv in H as (? & s4 & Hp & H). injection Hp as _ <-. cbn [fst snd] in H.
  destruct (bool_decide _).
  - apply ibind_inv in H as (reply & s5 & Ha & H). unfold via_redis in Ha.
    destruct (redis_argv _ _) as [reply' w3]. injection Ha as -> <-.
    destruct reply as [rep|]; [|injection H as <- <-; split_and!; auto; done].
    destruct (_ =? _)%Z; [injection H as <- <-; split_and!; auto; done|].
    apply select_db_context in H as [H ?]. rewrite H. split_and!; [lia|lia|done].
  - apply select_db_context in H as [H ?]. rewrite H. split_and!; [lia|lia|done].
Qed.

(** The documented behaviour of [SETEX] (with a positive expiry time) and [GET] on a
  connection; [kv] is what the server stores and has not expired. *)
Class RedisStore : Type := {
  kv : W → gmap str str;
  setex_law k t v w : (0 < t)%Z → ∃ w',
    redis_argv ["SETEX" : str; k; to_string t; v] w =
      (Some (MkReply REDIS_REPLY_STATUS 0 (Some ("OK" : str)) []), w') ∧
    kv w' = <[k := v]> (kv w);
  get_law k w : ∃ w',
    redis_argv ["GET" : str; k] w =
      (Some (match kv w !! k with
             | Some v => MkReply REDIS_REPLY_STRING 0 (Some v) []
             | None => MkReply REDIS_REPLY_NIL 0 None []
             end), w') ∧
    kv w' = kv w
}.

Lemma Get_kv `{RedisStore} key (s : cache_conn * W) :
  context_ s.1 = true →
  ∃ w', Get key s = (Ok (default [] (kv s.2 !! c_str key)), (s.1, w')) ∧ kv w' = kv s.2.
Proof.
  intros Hc. destruct (get_law (c_str key) s.2) as (w' & Hg & Hk). exists w'. split; [|done].
  unfold Get, with_command. rewrite (ibind_Ok _ _ _ _ _ (Init_connected s Hc)).
  destruct s as [c w]. unfold ibind, via_redis, command. cbn -[kv lookup] in *. rewrite Hg.
  by destruct (kv w !! c_str key).
Qed.

(** On a connected [CacheConn], [SetEx] answers [OK], and then [Get] returns the
  stored value for that key (as a C string: up to its first NUL) and, for every other
  key, what it returned before. *)
Theorem SetEx_Get `{RedisStore} key timeout value j (s : cache_conn * W) :
  context_ s.1 = true → (0 < timeout)%Z →
  ∃ w1, SetEx key timeout value s = (Ok (cstr "OK"), (s.1, w1)) ∧
        (Get j (s.1, w1)).1 =
          Ok (if bool_decide (c_str j = c_str key) then c_str value
              else default [] (kv s.2 !! c_str j)).
Proof.
  intros Hc Ht. destruct (setex_law (c_str key) timeout (c_str value) s.2 Ht) as (w1 & Hs & Hk).
  exists w1. split.
  - unfold SetEx, with_command. rewrite (ibind_Ok _ _ _ _ _ (Init_connected s Hc)).
    destruct s as [c w]. unfold ibind, via_redis, command. cbn -[kv to_string] in *.
    assert (c_str (to_string timeout) = to_string timeout) as ->; [|by rewrite Hs].
    apply c_str_id. clear -Ht. unfold to_string.
    assert (Hd : ∀ fuel z acc, (0 ≤ z)%Z → Forall (λ c, c ≠ NUL) acc →
                               Forall (λ c, c ≠ NUL) (dec_digits fuel z acc)).
    { intros fuel. induction fuel as [|fuel IH]; intros z acc Hz Ha; cbn; [done|].
      assert (Hcons : Forall (λ c, c ≠ NUL) (chr (48 + z `mod` 10) :: acc)).
      { constructor; [|done]. pose proof (Z.mod_pos_bound z 10 ltac:(lia)).
        apply (digit_not_special _ (is_digit_chr _ ltac:(eassumption))). }
      destruct (z <? 10)%Z; [done|]. apply IH; [|done]. apply Z.div_pos; lia. }
    rewrite (proj2 (Z.ltb_ge _ _)) by lia. apply Hd; [lia|constructor].
  - destruct (Get_kv j (s.1, w1) Hc) as (w' & -> & _). cbn [fst snd]. rewrite Hk. f_equal.
    case_bool_decide as E; [by rewrite E, lookup_insert_eq|by rewrite lookup_insert_ne].
Qed.

(** An entry of a stream with one field, as Redis returns it. *)
Definition stream_entry (p : str * str) : redisReply :=
  MkReply REDIS_REPLY_ARRAY 0 None
    [MkReply REDIS_REPLY_STRING 0 (Some p.1) [];
     MkReply REDIS_REPLY_ARRAY 0 None
       [MkReply REDIS_REPLY_STRING 0 (Some ("payload" : str)) [];
        MkReply REDIS_REPLY_STRING 0 (Some p.2) []]].

Lemma xrange_collect_entries l msgs :
  xrange_collect (stream_entry <$> l) msgs = Ok (msgs ++ ((λ p, (c_str p.1, c_str p.2)) <$> l)).
Proof.
  revert msgs. induction l as [|p l IH]; intros msgs; cbn; [by rewrite app_nil_r|].
  by rewrite IH, <- app_assoc.
Qed.

Lemma GetXrevrange_entries (key start_id end_id : str) (count : Z)
    (msgs l : list (str * str)) (s : cache_conn * W) w' :
  context_ s.1 = true →
  redis_argv (xrevrange_args key start_id end_id count) s.2 =
    (Some (MkReply REDIS_REPLY_ARRAY 0 None (stream_entry <$> l)), w') →
  GetXrevrange key start_id end_id count msgs s =
    (Ok (true, msgs ++ ((λ p, (c_str p.1, c_str p.2)) <$> l)), (s.1, w')).
Proof.
  intros Hc Hr. unfold GetXrevrange. rewrite (ibind_Ok _ _ _ _ _ (Init_connected s Hc)).
  destruct s as [c w]. unfold ibind, via_redis, xrevrange_args. cbn -[xrange_collect] in *.
  rewrite Hr. cbn -[xrange_collect]. by rewrite xrange_collect_entries.
Qed.

Lemma Xadd_id (key id : str) (pairs : list (str * str)) (s : cache_conn * W) (new : str) w' :
  context_ s.1 = true →
  redis_argv (["XADD" : str; key; id] ++ (pairs ≫= λ e, [e.1; e.2])) s.2 =
    (Some (MkReply REDIS_REPLY_STRING 0 (Some new) []), w') →
  Xadd key id pairs s = (Ok (true, c_str new), (s.1, w')).
Proof.
  intros Hc Hr. unfold Xadd, with_command. rewrite (ibind_Ok _ _ _ _ _ (Init_connected s Hc)).
  destruct s as [c w]. unfold ibind, via_redis. cbn in *. by rewrite Hr.
Qed.

(** [GetXrevrange] sends one command, with the bounds in the order given and the
  count only when it is positive; on the reply of a stream it appends the id and the
  value of the first field of every entry, in the order of the reply; on an error
  reply it appends nothing and fails. *)
Theorem GetXrevrange_collects (key start_id end_id : str) (count : Z)
    (msgs l : list (str * str)) (s : cache_conn * W) w' :
  context_ s.1 = true →
  redis_argv (["XREVRANGE" : str; key; start_id; end_id] ++
              (if (0 <? count)%Z then ["COUNT" : str; to_string count] else [])) s.2 =
    (Some (MkReply REDIS_REPLY_ARRAY 0 None (stream_entry <$> l)), w') →
  GetXrevrange key start_id end_id count msgs s =
    (Ok (true, msgs ++ ((λ p, (c_str p.1, c_str p.2)) <$> l)), (s.1, w')).
Proof. apply GetXrevrange_entries. Qed.
End Properties.
Arguments RedisStore W {HR}.

(** ** A server for the witnesses: strings and one stream *)

Record demo_redis : Type := MkRedis {
  dr_strings : gmap str str;
  dr_stream : list (str * str);
  dr_select_ok : bool
}.

#[export] Instance demo_hiredis : HiRedis demo_redis := {|
  unix_time w := (1000%Z, w);
  redis_connect _ _ w := (Some 0%Z, w);
  redis_argv args w :=
    match args with
    | [c; k; _; v] =>
        if bool_decide (c = "SETEX")
        then (Some (MkReply REDIS_REPLY_STATUS 0 (Some ("OK" : str)) []),
              MkRedis (<[k := v]> (dr_strings w)) (dr_stream w) (dr_select_ok w))
        else (Some (MkReply REDIS_REPLY_ARRAY 0 None (stream_entry <$> dr_stream w)), w)
    | [c; k] =>
        if bool_decide (c = "GET") then
          (Some (match dr_strings w !! k with
                 | Some v => MkReply REDIS_REPLY_STRING 0 (Some v) []
                 | None => MkReply REDIS_REPLY_NIL 0 None []
                 end), w)
        else (Some (if dr_select_ok w then MkReply REDIS_REPLY_STATUS 0 (Some ("OK" : str)) []
                    else MkReply REDIS_REPLY_ERROR 0 (Some ("ERR" : str)) []), w)
    | _ => (Some (MkReply REDIS_REPLY_ERROR 0 (Some ("ERR" : str)) []), w)
    end;
  redis_format _ w := (None, w);
  redis_err _ := 0%Z
|}.

#[export] Instance demo_store : RedisStore demo_redis.
Proof.
  refine {| kv := dr_strings |}.
  - intros k t v w _. eexists. split; reflexivity.
  - intros k w. exists w. split; reflexivity.
Defined.

Definition demo_cache (connected : bool) : cache_conn :=
  MkCache "127.0.0.1" 6379 1 [] "token" connected 0.

Lemma Init_outcomes_witness :
  let s := (demo_cache false, MkRedis ∅ [] false) in
  (Init s).1 = Ok 2%Z ∧ (Init (Init s).2).1 = Ok 0%Z.
Proof.
  intros s. split; [reflexivity|].
  assert (E : Init s = (Ok 2%Z, (Init s).2)) by (vm_compute; reflexivity).
  destruct (Init_outcomes s (Init s).2 2 E) as (_ & _ & H).
  destruct (H ltac:(discriminate)) as [_ Hi]. rewrite Hi. reflexivity.
Defined.

Lemma SetEx_Get_witness :
  ∃ w1, SetEx "sid" 86400 "ann" (demo_cache true, MkRedis ∅ [] true) =
          (Ok (cstr "OK"), (demo_cache true, w1)) ∧
        (Get "sid" (demo_cache true, w1)).1 = Ok (cstr "ann").
Proof.
  apply (SetEx_Get "sid" 86400 "ann" "sid" (demo_cache true, MkRedis ∅ [] true)).
  - reflexivity.
  - lia.
Defined.

Lemma GetXrevrange_collects_witness :
  let w := MkRedis ∅ [("2-0" : str, "b" : str); ("1-0" : str, "a" : str)] true in
  GetXrevrange "room" "+" "-" 0 [] (demo_cache true, w) =
    (Ok (true, [("2-0" : str, "b" : str); ("1-0" : str, "a" : str)]), (demo_cache true, w)).
Proof.
  intros w. apply (GetXrevrange_collects "room" "+" "-" 0 []
    [("2-0" : str, "b" : str); ("1-0" : str, "a" : str)] (demo_cache true, w) w); reflexivity.
Defined.

(** The sorted-set operations use a missing reply as if it were there. *)
Lemma Zset_missing_reply {W} `{HiRedis W} (key member : str) (score : Z) (s : cache_conn * W) w' :
  context_ s.1 = true →
  command "ZADD" [key; to_string score; member] s.2 = (None, w') →
  ZsetAdd key score member s = (Undef NullDeref, (s.1, w')).
Proof.
  intros Hc Hr. unfold ZsetAdd, with_command_unchecked.
  rewrite (ibind_Ok _ _ _ _ _ (Init_connected s Hc)). destruct s as [c w].
  unfold ibind, via_redis. cbn -[command] in *. by rewrite Hr.
Qed.
