(* ===== verification/Sds.v ===== *)
(** [redis/sds.{h,c}] of the logic service: the string buffers of hiredis, as far as
    [redis/hiredis.c] and [redis/read.c] use them, and the variadic arguments they are
    formatted from.

    An allocation succeeds unless its size is not below [PTRDIFF_MAX], and strings are
    shorter than the address space.  The five header types differ in the width of the
    stored lengths only, and are chosen for the length: a string is its bytes and the
    allocated size.  [SDS_TYPE_5] never arises, since every string starts empty. *)

From S2P Require Import Prelude.

(** ** Strings *)

Record sds : Type := MkSds { sbuf : str; salloc : Z }.

Definition sdslen (s : sds) : Z := slen (sbuf s).
Definition sdsavail (s : sds) : Z := (salloc s - sdslen s)%Z.

Definition sdsempty : sds := MkSds [] 0.

Definition SDS_MAX_PREALLOC : Z := 1024 * 1024.

Definition sdsMakeRoomFor (s : sds) (addlen : Z) : sds :=
  if (addlen <=? sdsavail s)%Z then s
  else
    let newlen := u64 (sdslen s + addlen) in
    MkSds (sbuf s)
      (u64 (if (newlen <? SDS_MAX_PREALLOC)%Z then newlen * 2 else newlen + SDS_MAX_PREALLOC)).

(** [sdscatlen(s, t, len)] for the [len] bytes [t]. *)
Definition sdscatlen (s : sds) (t : str) : sds :=
  let s := sdsMakeRoomFor s (slen t) in MkSds (sbuf s ++ t) (salloc s).

(** [sdscat(s, t)]: a C string. *)
Definition sdscat (s : sds) (t : str) : sds := sdscatlen s (c_str t).

(** [sdsrange(s, start, end)] with its [int] bounds; [len + start] is computed as a
  [size_t] and stored in an [int]. *)
Definition sdsrange (s : sds) (start end_ : Z) : sds :=
  let len := sdslen s in
  if (len =? 0)%Z then s
  else
    let start := if (start <? 0)%Z then Z.max 0 (i32 (len + start)) else start in
    let end_ := if (end_ <? 0)%Z then Z.max 0 (i32 (len + end_)) else end_ in
    let newlen := (if end_ <? start then 0 else end_ - start + 1)%Z in
    let '(start, newlen) :=
      if negb (newlen =? 0)%Z then
        if (i32 len <=? start)%Z then (start, 0%Z)
        else if (i32 len <=? end_)%Z then
          let end_ := i32 (len - 1) in
          (start, if (end_ <? start)%Z then 0%Z else (end_ - start + 1)%Z)
        else (start, newlen)
      else (0%Z, newlen) in
    MkSds (take (Z.to_nat newlen) (drop (Z.to_nat start) (sbuf s))) (salloc s).

(** ** Numbers *)

(** [do { *p++ = '0' + v % 10; v /= 10; } while (v)]: least significant digit first. *)
Fixpoint ull_digits (fuel : nat) (v : Z) : str :=
  match fuel with
  | O => []
  | S fuel' =>
      chr (48 + v `mod` 10) ::
        (if (v / 10 =? 0)%Z then [] else ull_digits fuel' (v / 10))
  end.

(** The bytes of the result; the buffer has room for 21. *)
Definition sdsull2str (v : Z) : str := rev (ull_digits 20 v).
Definition sdsll2str (value : Z) : result str :=
  if (value =? - 2 ^ 63)%Z then Undef SignedOverflow
  else
    let v := Z.abs value in
    Ok (rev (ull_digits 20 v ++ (if (value <? 0)%Z then [chr 45] else []))).

(** ** Variadic arguments

    As x86-64 passes them: an [int] or an [unsigned] in the lower half of a slot whose
    upper half is indeterminate; a wider integer or a pointer in a whole slot; a [double]
    in a register of its own kind.  A pointer is the memory from its target on. *)

Inductive va : Type :=
  | VInt (z : Z)            (* int, unsigned int *)
  | VLong (z : Z)           (* long, long long, size_t *)
  | VStr (s : str)          (* char* *)
  | VDouble (text : str).   (* a double, as its printed form *)

Definition va_list : Type := list va.

Definition va_int (ap : va_list) : result (Z * va_list) :=
  match ap with
  | VInt z :: ap' | VLong z :: ap' => Ok (i32 z, ap')
  | _ => Undef UninitRead
  end.
Definition va_uint (ap : va_list) : result (Z * va_list) :=
  let* (z, ap) := va_int ap in Ok (u32 z, ap).
Definition va_llong (ap : va_list) : result (Z * va_list) :=
  match ap with
  | VLong z :: ap' => Ok (swrap 64 z, ap')
  | _ => Undef UninitRead
  end.
Definition va_size (ap : va_list) : result (Z * va_list) :=
  let* (z, ap) := va_llong ap in Ok (u64 z, ap).
Definition va_str (ap : va_list) : result (str * va_list) :=
  match ap with
  | VStr s :: ap' => Ok (s, ap')
  | _ => Undef UninitRead
  end.
Definition va_double (ap : va_list) : result (str * va_list) :=
  match ap with
  | VDouble t :: ap' => Ok (t, ap')
  | _ => Undef UninitRead
  end.

(** ** [sdscatfmt] *)

(** [memcpy(s + i, str, l); sdsinclen(s, l); i += l;] after making room: the [int] [i] is
  the length as long as it fits. *)
Definition sds_put (s : sds) (i : Z) (t : str) : result (sds * Z) :=
  let s := if (sdsavail s <? slen t)%Z then sdsMakeRoomFor s (slen t) else s in
  if (i =? sdslen s)%Z then Ok (MkSds (sbuf s ++ t) (salloc s), i32 (i + slen t))
  else Undef OutOfBounds.

Fixpoint sdscatfmt_loop (f : str) (ap : va_list) (s : sds) (i : Z) : result sds :=
  match f with
  | [] => Ok s
  | c :: f' =>
      let s := if (sdsavail s =? 0)%Z then sdsMakeRoomFor s 1 else s in
      if bool_decide (c = "%"%char) then
        match f' with
        | [] => Undef OutOfBounds      (* steps over the terminator *)
        | next :: f'' =>
            if bool_decide (next = "s"%char) then
              let* (t, ap) := va_str ap in
              let* (s, i) := sds_put s i (c_str t) in sdscatfmt_loop f'' ap s i
            else if bool_decide (next = "S"%char) then
              let* (t, ap) := va_str ap in
              let* (s, i) := sds_put s i t in sdscatfmt_loop f'' ap s i
            else if bool_decide (next = "i"%char) then
              let* (num, ap) := va_int ap in
              let* buf := sdsll2str num in
              let* (s, i) := sds_put s i buf in sdscatfmt_loop f'' ap s i
            else if bool_decide (next = "I"%char) then
              let* (num, ap) := va_llong ap in
              let* buf := sdsll2str num in
              let* (s, i) := sds_put s i buf in sdscatfmt_loop f'' ap s i
            else if bool_decide (next = "u"%char) then
              let* (unum, ap) := va_uint ap in
              let* (s, i) := sds_put s i (sdsull2str unum) in sdscatfmt_loop f'' ap s i
            else if bool_decide (next = "U"%char) then
              let* (unum, ap) := va_size ap in
              let* (s, i) := sds_put s i (sdsull2str unum) in sdscatfmt_loop f'' ap s i
            else
              let* (s, i) := sds_put s i [next] in sdscatfmt_loop f'' ap s i
        end
      else
        let* (s, i) := sds_put s i [c] in sdscatfmt_loop f' ap s i
  end.

Definition sdscatfmt (s : sds) (fmt : str) (ap : va_list) : result sds :=
  sdscatfmt_loop (c_str fmt) ap s (i32 (sdslen s)).

(** ** [printf] for one conversion, and [sdscatvprintf] *)

Definition pad (n : Z) (c : ascii) (s : str) : str :=
  replicate (Z.to_nat (n - slen s)) c ++ s.

(** The digits of [v] in base [b], most significant first. *)
Fixpoint base_digits (fuel : nat) (b v : Z) (upper : bool) (acc : str) : str :=
  match fuel with
  | O => acc
  | S fuel' =>
      let d := (v `mod` b)%Z in
      let c := chr (if (d <? 10)%Z then 48 + d else if upper then 55 + d else 87 + d) in
      if (v / b =? 0)%Z then c :: acc else base_digits fuel' b (v / b)%Z upper (c :: acc)
  end.

Record conversion : Type := MkConv {
  cflags : str;             (* among #0-+ and blank *)
  cwidth : Z;
  cprec : option Z;
  cbits : Z;                (* the width of the argument: 8, 16, 32 or 64 *)
  cconv : ascii             (* d i o u x X *)
}.

Definition has_flag (f : ascii) (c : conversion) : bool := bool_decide (f ∈ cflags c).

(** The text for an integer argument (C11, 7.21.6.1). *)
Definition printf_int (c : conversion) (v : Z) : str :=
  let k := cconv c in
  let signed := bool_decide (k = "d"%char ∨ k = "i"%char) in
  let x := if signed then swrap (cbits c) v else wrap (cbits c) v in
  let base := if bool_decide (k = "o"%char) then 8%Z
              else if bool_decide (k = "x"%char ∨ k = "X"%char) then 16%Z else 10%Z in
  let digits := if bool_decide (cprec c = Some 0%Z ∧ x = 0%Z) then []
                else base_digits 22 base (Z.abs x) (bool_decide (k = "X"%char)) [] in
  let digits := pad (default 1%Z (cprec c)) "0"%char digits in
  let digits := if has_flag "#" c && (base =? 8)%Z && negb (starts_with "0" digits)
                then "0"%char :: digits else digits in
  let sign : str :=
    if (x <? 0)%Z then "-"
    else if signed && has_flag "+" c then "+"
    else if signed && has_flag " " c then " "
    else if has_flag "#" c && (base =? 16)%Z && negb (x =? 0)%Z then ["0"%char; k] else [] in
  let body := sign ++ digits in
  if has_flag "-" c then body ++ replicate (Z.to_nat (cwidth c - slen body)) " "%char
  else if has_flag "0" c && bool_decide (cprec c = None)
  then sign ++ pad (cwidth c - slen sign) "0"%char digits
  else pad (cwidth c) " "%char body.

(** The [size_t buflen] of [sdscatvprintf] doubles until the byte before the last stays
  zero, that is, until the text leaves it free; [fuel] is the number of attempts. *)
Fixpoint grow_buffer (fuel : nat) (buflen textlen : Z) : option Z :=
  match fuel with
  | O => None
  | S fuel' =>
      if (textlen <=? buflen - 2)%Z then Some buflen
      else grow_buffer fuel' (buflen * 2) textlen
  end.

(** [sdscatvprintf(s, fmt, ap)], where [text] is what [vsnprintf] writes for [fmt] and
  [ap] when it has the room. *)
Definition sdscatvprintf (s : sds) (fmt text : str) : result sds :=
  let buflen := (slen (c_str fmt) * 2)%Z in
  match grow_buffer 64 (Z.max 1024 buflen) (slen text) with
  | Some n => Ok (sdscat s (take (Z.to_nat (n - 1)) text))
  | None => Undef OutOfBounds
  end.

(** ** Lemmas *)

Lemma sbuf_MakeRoomFor s n : sbuf (sdsMakeRoomFor s n) = sbuf s.
Proof. unfold sdsMakeRoomFor. by destruct (_ <=? _)%Z. Qed.

Lemma sbuf_catlen s t : sbuf (sdscatlen s t) = sbuf s ++ t.
Proof. unfold sdscatlen. cbn. by rewrite sbuf_MakeRoomFor. Qed.

(** The allocated size covers the string, as long as lengths are those of real memory. *)
Definition sds_ok (s : sds) : Prop := (sdslen s ≤ salloc s)%Z.

Lemma sds_ok_empty : sds_ok sdsempty.
Proof. unfold sds_ok, sdslen, slen. simpl. lia. Qed.

Lemma sds_ok_catlen s t :
  sds_ok s → (sdslen s + slen t < 2 ^ 62)%Z → sds_ok (sdscatlen s t).
Proof.
  unfold sds_ok, sdscatlen, sdsMakeRoomFor, sdsavail, sdslen. intros Hs Hl.
  pose proof (slen_nonneg (sbuf s)). pose proof (slen_nonneg t).
  destruct (Z.leb_spec (slen t) (salloc s - slen (sbuf s))); cbn; rewrite slen_app; [lia|].
  rewrite (wrap_small 64 (slen (sbuf s) + slen t)) by lia.
  destruct (Z.ltb_spec (slen (sbuf s) + slen t) SDS_MAX_PREALLOC); unfold SDS_MAX_PREALLOC in *;
    rewrite wrap_small by lia; lia.
Qed.

(** What callers use: the bytes up to [start] are dropped. *)
Lemma sdsrange_drop s start :
  (0 ≤ start ≤ sdslen s)%Z → (sdslen s < 2 ^ 31)%Z →
  sbuf (sdsrange s start (-1)) = drop (Z.to_nat start) (sbuf s).
Proof.
  intros Hs Hl. unfold sdsrange, sdslen in *. set (n := slen (sbuf s)) in *.
  assert (0 ≤ n)%Z by apply slen_nonneg.
  destruct (Z.eqb_spec n 0) as [E|NE].
  { assert (sbuf s = []) as -> by (apply length_zero_iff_nil; unfold n, slen in E; lia).
    by rewrite drop_nil. }
  rewrite (proj2 (Z.ltb_ge start 0)), (proj2 (Z.ltb_lt (-1) 0)) by lia.
  rewrite !swrap_small by lia. replace (Z.max 0 (n + -1))%Z with (n - 1)%Z by lia.
  destruct (Z.ltb_spec (n - 1) start).
  - cbn. rewrite (drop_ge _ (Z.to_nat start)); [done|]. unfold n, slen in *. lia.
  - destruct (Z.eqb_spec (n - 1 - start + 1) 0); [lia|]. cbn [negb].
    rewrite (proj2 (Z.leb_gt n start)), (proj2 (Z.leb_gt n (n - 1))) by lia. cbn [sbuf].
    apply take_ge. rewrite length_drop. unfold n, slen in *. lia.
Qed.

Lemma sds_ok_range s start :
  sds_ok s → (0 ≤ start ≤ sdslen s)%Z → (sdslen s < 2 ^ 31)%Z →
  sds_ok (sdsrange s start (-1)).
Proof.
  intros Hs Hst Hl. unfold sds_ok, sdslen in *. rewrite sdsrange_drop by done.
  assert (salloc (sdsrange s start (-1)) = salloc s) as ->.
  { unfold sdsrange. destruct (_ =? 0)%Z; [done|]. by repeat case_match. }
  unfold slen in *. rewrite length_drop. lia.
Qed.

(** *** Numbers *)

Lemma ull_digits_dec fuel v acc :
  (0 ≤ v)%Z → dec_digits fuel v acc = rev (ull_digits fuel v) ++ acc.
Proof.
  revert v acc. induction fuel as [|fuel IH]; intros v acc Hv; [done|]. cbn.
  destruct (Z.ltb_spec v 10).
  - rewrite Z.div_small by lia. done.
  - assert (v / 10 ≠ 0)%Z by zdiv. rewrite (proj2 (Z.eqb_neq _ _)) by done.
    rewrite IH by zdiv. by rewrite <- app_assoc.
Qed.

Lemma sdsull2str_to_string v : (0 ≤ v)%Z → sdsull2str v = to_string v.
Proof.
  intros. rewrite to_string_nonneg, ull_digits_dec by done. by rewrite app_nil_r.
Qed.

Lemma sdsll2str_to_string v : (- 2 ^ 63 < v)%Z → sdsll2str v = Ok (to_string v).
Proof.
  intros. unfold sdsll2str. rewrite (proj2 (Z.eqb_neq _ _)) by lia. f_equal.
  unfold to_string. destruct (Z.ltb_spec v 0); rewrite ull_digits_dec by lia.
  - rewrite rev_app_distr, app_nil_r, Z.abs_neq by lia. done.
  - rewrite !app_nil_r, Z.abs_eq by lia. done.
Qed.

Lemma base_digits_10 fuel v acc up :
  (0 ≤ v)%Z → base_digits fuel 10 v up acc = dec_digits fuel v acc.
Proof.
  revert v acc. induction fuel as [|fuel IH]; intros v acc Hv; [done|]. cbn.
  pose proof (Z.mod_pos_bound v 10 ltac:(lia)).
  rewrite (proj2 (Z.ltb_lt (v `mod` 10) 10)) by lia.
  destruct (Z.ltb_spec v 10).
  - by rewrite Z.div_small by lia.
  - assert (v / 10 ≠ 0)%Z by zdiv. rewrite (proj2 (Z.eqb_neq _ _)) by done.
    apply IH. zdiv.
Qed.

(** Enough fuel is enough. *)
Lemma dec_digits_fuel f g v acc :
  (0 ≤ v < 10 ^ Z.of_nat f)%Z → (0 < f ≤ g)%nat → dec_digits g v acc = dec_digits f v acc.
Proof.
  revert g v acc. induction f as [|f IH]; intros g v acc Hv Hf; [lia|].
  destruct g as [|g]; [lia|]. cbn [dec_digits]. destruct (Z.ltb_spec v 10); [done|].
  rewrite Nat2Z.inj_succ, Z.pow_succ_r in Hv by lia.
  destruct f as [|f]; [simpl in Hv; lia|]. apply IH; [|lia]. zdiv.
Qed.

Lemma to_string_nonempty v : (- 2 ^ 64 < v < 2 ^ 64)%Z → (0 < slen (to_string v))%Z.
Proof.
  intros Hv. unfold to_string. destruct (Z.ltb_spec v 0).
  - rewrite slen_cons. slia.
  - destruct (dec_digits_spec 20 v [] ltac:(lia) ltac:(lia)) as (d & ds & -> & _).
    rewrite slen_cons. slia.
Qed.

(** [%d], [%ld] and [%lld] print as [to_string]. *)
Lemma printf_int_decimal bits v :
  (bits = 32 ∨ bits = 64)%Z → (- 2 ^ (bits - 1) ≤ v < 2 ^ (bits - 1))%Z →
  printf_int (MkConv [] 0 None bits "d") v = to_string v.
Proof.
  intros Hb Hv. unfold printf_int. cbn [cconv cbits cflags cprec cwidth].
  rewrite (bool_decide_true ("d"%char = "d"%char ∨ _)) by by left.
  rewrite !(bool_decide_false (_ ∨ _)), (bool_decide_false (_ = "o"%char)),
    (bool_decide_false (_ ∧ _)) by naive_solver.
  rewrite swrap_small by (destruct Hb as [-> | ->]; lia).
  rewrite base_digits_10 by lia.
  assert (Z.abs v < 10 ^ 20)%Z by (destruct Hb as [-> | ->]; lia).
  rewrite (dec_digits_fuel 20) by lia.
  assert (∀ f, has_flag f (MkConv [] 0 None bits "d") = false) as Hf.
  { intros f. unfold has_flag. apply bool_decide_false. cbn. set_solver. }
  rewrite !Hf. cbn [andb negb default].
  destruct (dec_digits_spec 20 (Z.abs v) [] ltac:(lia) ltac:(lia)) as (d & ds & E & _).
  assert (∀ t n, (n ≤ slen t)%Z → pad n "0"%char t = t ∧ pad n " "%char t = t) as Hp.
  { intros t n Hn. unfold pad. replace (Z.to_nat (n - slen t)) with 0 by lia. done. }
  unfold to_string. destruct (Z.ltb_spec v 0).
  - rewrite (Z.abs_neq v) in * by lia. rewrite E.
    rewrite (proj1 (Hp (d :: ds ++ []) 1%Z ltac:(slia))).
    by rewrite (proj2 (Hp _ 0%Z (slen_nonneg _))).
  - rewrite (Z.abs_eq v) in * by lia. rewrite E.
    rewrite (proj1 (Hp (d :: ds ++ []) 1%Z ltac:(slia))).
    by rewrite (proj2 (Hp _ 0%Z (slen_nonneg _))).
Qed.

(** *** Formats *)

Lemma sds_put_ok s t :
  (sdslen s + slen t < 2 ^ 31)%Z →
  ∃ s', sds_put s (sdslen s) t = Ok (s', sdslen s') ∧ sbuf s' = sbuf s ++ t.
Proof.
  intros Hl. unfold sds_put, sdslen in *.
  set (s1 := if (_ <? _)%Z then _ else _).
  assert (sbuf s1 = sbuf s) as E by (unfold s1; destruct (_ <? _)%Z; [apply sbuf_MakeRoomFor|done]).
  pose proof (slen_nonneg (sbuf s)). pose proof (slen_nonneg t).
  rewrite E, Z.eqb_refl. exists (MkSds (sbuf s ++ t) (salloc s1)). split; [|done].
  cbn. rewrite slen_app, swrap_small by lia. done.
Qed.

Lemma grow_buffer_enough fuel buflen n :
  (0 < buflen)%Z → (n ≤ buflen * 2 ^ (Z.of_nat fuel - 1) - 2)%Z → (0 < fuel)%nat →
  ∃ b, grow_buffer fuel buflen n = Some b ∧ (n ≤ b - 2)%Z.
Proof.
  revert buflen. induction fuel as [|fuel IH]; intros buflen Hb Hn Hf; [lia|]. cbn [grow_buffer].
  destruct (Z.leb_spec n (buflen - 2)); [by eexists|].
  destruct fuel as [|fuel]; [cbn in Hn; lia|]. apply IH; [lia| |lia].
  replace (Z.of_nat (S (S fuel)) - 1)%Z with (Z.succ (Z.of_nat (S fuel) - 1))%Z in Hn by lia.
  rewrite Z.pow_succ_r in Hn by lia. lia.
Qed.

(** Whatever the size of the text, [sdscatvprintf] appends all of it. *)
Lemma sdscatvprintf_appends s fmt text :
  (slen text < 2 ^ 62)%Z → sdscatvprintf s fmt text = Ok (sdscat s text).
Proof.
  intros Hl. unfold sdscatvprintf.
  destruct (grow_buffer_enough 64 (Z.max 1024 (slen (c_str fmt) * 2)) (slen text))
    as (b & -> & Hb); [lia| |lia|].
  { cbn [Z.of_nat]. change (2 ^ (Z.of_nat 64 - 1))%Z with (2 ^ 63)%Z. nia. }
  rewrite take_ge; [done|]. unfold slen in *. lia.
Qed.

(** One step of [sdscatfmt]: a character, [%u] and [%i]. *)
Lemma sds_room s (s1 := if (sdsavail s =? 0)%Z then sdsMakeRoomFor s 1 else s) :
  sbuf s1 = sbuf s ∧ sdslen s1 = sdslen s.
Proof. unfold s1, sdslen. destruct (_ =? 0)%Z; by rewrite ?sbuf_MakeRoomFor. Qed.

Lemma sdscatfmt_char c f ap s :
  c ≠ "%"%char → (sdslen s + 1 < 2 ^ 31)%Z →
  ∃ s', sdscatfmt_loop (c :: f) ap s (sdslen s) = sdscatfmt_loop f ap s' (sdslen s') ∧
        sbuf s' = sbuf s ++ [c].
Proof.
  intros Hc Hl. cbn [sdscatfmt_loop]. rewrite bool_decide_false by done.
  destruct (sds_room s) as [E1 E2]. set (s1 := if (sdsavail s =? 0)%Z then sdsMakeRoomFor s 1 else s) in *. rewrite <- E2 in *.
  destruct (sds_put_ok s1 [c]) as (s' & -> & Hs'); [done|].
  exists s'. by rewrite Hs', E1.
Qed.

Lemma sdscatfmt_u n f ap s :
  (0 ≤ n < 2 ^ 32)%Z → (sdslen s + slen (to_string n) < 2 ^ 31)%Z →
  ∃ s', sdscatfmt_loop ("%u" ++ f) (VLong n :: ap) s (sdslen s) =
          sdscatfmt_loop f ap s' (sdslen s') ∧
        sbuf s' = sbuf s ++ to_string n.
Proof.
  intros Hn Hl. change ("%u" ++ f) with ("%"%char :: "u"%char :: f). cbn [sdscatfmt_loop].
  rewrite bool_decide_true by done. rewrite !(bool_decide_false (_ = _)) by done.
  rewrite bool_decide_true by done.
  destruct (sds_room s) as [E1 E2]. set (s1 := if (sdsavail s =? 0)%Z then sdsMakeRoomFor s 1 else s) in *. rewrite <- E2 in *.
  unfold va_uint, va_int. cbn [rbind]. rewrite wrap_swrap, wrap_small by done.
  rewrite sdsull2str_to_string by lia.
  destruct (sds_put_ok s1 (to_string n)) as (s' & -> & Hs'); [done|].
  exists s'. by rewrite Hs', E1.
Qed.

Lemma sdscatfmt_i n f ap s :
  (- 2 ^ 31 ≤ n < 2 ^ 31)%Z → (sdslen s + slen (to_string n) < 2 ^ 31)%Z →
  ∃ s', sdscatfmt_loop ("%i" ++ f) (VInt n :: ap) s (sdslen s) =
          sdscatfmt_loop f ap s' (sdslen s') ∧
        sbuf s' = sbuf s ++ to_string n.
Proof.
  intros Hn Hl. change ("%i" ++ f) with ("%"%char :: "i"%char :: f). cbn [sdscatfmt_loop].
  rewrite bool_decide_true by done. rewrite !(bool_decide_false (_ = _)) by done.
  rewrite bool_decide_true by done.
  destruct (sds_room s) as [E1 E2]. set (s1 := if (sdsavail s =? 0)%Z then sdsMakeRoomFor s 1 else s) in *. rewrite <- E2 in *.
  unfold va_int. cbn [rbind]. rewrite swrap_small by lia.
  rewrite sdsll2str_to_string by lia. cbn [rbind].
  destruct (sds_put_ok s1 (to_string n)) as (s' & -> & Hs'); [done|].
  exists s'. by rewrite Hs', E1.
Qed.

(** The two formats of [hiredis.c]: [head] is the character before the number. *)
Lemma sdscatfmt_header s head n :
  (sdslen s + 1 + slen (to_string n) + 2 < 2 ^ 31)%Z → head ≠ "%"%char → head ≠ NUL →
  ((0 ≤ n < 2 ^ 32)%Z →
   ∃ s', sdscatfmt s (head :: "%u" ++ CRLF) [VLong n] = Ok s' ∧
         sbuf s' = sbuf s ++ [head] ++ to_string n ++ CRLF) ∧
  ((- 2 ^ 31 ≤ n < 2 ^ 31)%Z →
   ∃ s', sdscatfmt s (head :: "%i" ++ CRLF) [VInt n] = Ok s' ∧
         sbuf s' = sbuf s ++ [head] ++ to_string n ++ CRLF).
Proof.
  intros Hl Hh Hz. pose proof (slen_nonneg (sbuf s)). pose proof (slen_nonneg (to_string n)).
  assert (i32 (sdslen s) = sdslen s) as Hi by (unfold sdslen in *; rewrite swrap_small; lia).
  assert (∀ s', sdslen s' = (sdslen s + 1 + slen (to_string n))%Z →
          ∃ s'', sdscatfmt_loop CRLF [] s' (sdslen s') = Ok s'' ∧ sbuf s'' = sbuf s' ++ CRLF)
    as Hcrlf.
  { intros s' Hs'. destruct (sdscatfmt_char CR [LF] [] s') as (s1 & E1 & H1); [done|lia|].
    destruct (sdscatfmt_char LF [] [] s1) as (s2 & E2 & H2);
      [done|unfold sdslen in *; rewrite H1, slen_app; change (slen [CR]) with 1%Z; lia|].
    exists s2. unfold CRLF. rewrite E1, E2. split; [done|]. by rewrite H2, H1, <- app_assoc. }
  split; intros Hn; unfold sdscatfmt; rewrite c_str_id
    by (unfold CRLF; repeat (constructor; [done|]); done); rewrite Hi.
  - destruct (sdscatfmt_char head ("%u" ++ CRLF) [VLong n] s) as (s1 & -> & H1); [done|lia|].
    destruct (sdscatfmt_u n CRLF [] s1) as (s2 & -> & H2); [lia| |].
    { unfold sdslen in *. rewrite H1, slen_app. change (slen [head]) with 1%Z. lia. }
    destruct (Hcrlf s2) as (s3 & -> & H3).
    { unfold sdslen in *. rewrite H2, H1. autorewrite with strs. lia. }
    exists s3. split; [done|]. by rewrite H3, H2, H1, <- !app_assoc.
  - destruct (sdscatfmt_char head ("%i" ++ CRLF) [VInt n] s) as (s1 & -> & H1); [done|lia|].
    destruct (sdscatfmt_i n CRLF [] s1) as (s2 & -> & H2); [lia| |].
    { unfold sdslen in *. rewrite H1, slen_app. change (slen [head]) with 1%Z. lia. }
    destruct (Hcrlf s2) as (s3 & -> & H3).
    { unfold sdslen in *. rewrite H2, H1. autorewrite with strs. lia. }
    exists s3. split; [done|]. by rewrite H3, H2, H1, <- !app_assoc.
Qed.
