(* ===== verification/RedisFormat.v ===== *)
(** [redis/hiredis.c] of the logic service, the part that formats commands:
    [redisvFormatCommand], [redisFormatCommandArgv], [redisFormatSdsCommandArgv].

    The command is the array of bulk strings of the Redis protocol ([encode_command]).  A
    C string is the memory from its first byte on, a terminator following. *)

From S2P Require Import Prelude Sds.

(** ** The protocol *)

Definition bulk (a : str) : str := "$" ++ to_string (slen a) ++ CRLF ++ a ++ CRLF.

Definition encode_command (args : list str) : str :=
  "*" ++ to_string (Z.of_nat (length args)) ++ CRLF ++ (args ≫= bulk).

(** ** Sizes *)

(** [for (;;)] with its four tests; [fuel] iterations. *)
Fixpoint countDigits_loop (fuel : nat) (v result : Z) : Z :=
  match fuel with
  | O => result
  | S fuel' =>
      if (v <? 10)%Z then result
      else if (v <? 100)%Z then result + 1
      else if (v <? 1000)%Z then result + 2
      else if (v <? 10000)%Z then result + 3
      else countDigits_loop fuel' (v / 10000) (result + 4)
  end.
Definition countDigits (v : Z) : Z := countDigits_loop 5 v 1.

Definition bulklen (len : Z) : Z := u64 (1 + countDigits len + 2 + len + 2).

(** ** Building the command *)

(** Writing [s], followed by [nul] terminating bytes, at the position [pos]: the length
  of what is there. *)
Definition cput (alloc : Z) (s : str) (nul : Z) (cmd : str) : result str :=
  if (slen cmd + slen s + nul <=? alloc)%Z then Ok (cmd ++ s) else Undef OutOfBounds.

Fixpoint put_args (alloc : Z) (args : list str) (cmd : str) : result str :=
  match args with
  | [] => Ok cmd
  | a :: args' =>
      let* cmd := cput alloc ("$" ++ to_string (slen a) ++ CRLF) 1 cmd in
      let* cmd := cput alloc a 0 cmd in
      let* cmd := cput alloc [CR] 0 cmd in
      let* cmd := cput alloc [LF] 0 cmd in
      put_args alloc args' cmd
  end.

(** The second half of [redisvFormatCommand] and [redisFormatCommandArgv], from
  [malloc(totlen + 1)] on: the value returned and [*target].  No allocation of half the
  address space succeeds. *)
Definition build_command (args : list str) (totlen : Z) : result (Z * str) :=
  if (totlen =? 2 ^ 31 - 1)%Z then Undef SignedOverflow
  else
    let alloc := u64 (totlen + 1) in
    if (2 ^ 63 <=? alloc)%Z then Ok ((-1)%Z, [])
    else
      let* cmd := cput alloc ("*" ++ to_string (Z.of_nat (length args)) ++ CRLF) 1 [] in
      let* cmd := put_args alloc args cmd in
      if negb (slen cmd =? totlen)%Z then Undef AssertFailed
      else let* _ := cput alloc [NUL] 0 cmd in Ok (totlen, cmd).

(** ** Argument vectors *)

(** The [len] bytes from a pointer. *)
Definition mem_bytes (s : str) (len : Z) : result str :=
  if (len <=? slen s + 1)%Z then Ok (take (Z.to_nat len) (s ++ [NUL])) else Undef OutOfBounds.

(** [argvlen ? argvlen[j] : strlen(argv[j])] and the bytes read. *)
Fixpoint argv_lens (argv : list str) (lens : list Z) : result (list str) :=
  match argv, lens with
  | [], _ => Ok []
  | a :: argv', n :: lens' =>
      let* b := mem_bytes a n in let* l := argv_lens argv' lens' in Ok (b :: l)
  | _ :: _, [] => Undef OutOfBounds
  end.
Definition argv_args (argv : list str) (argvlen : option (list Z)) : result (list str) :=
  match argvlen with
  | Some lens => argv_lens argv lens
  | None => Ok (c_str <$> argv)
  end.

(** [int totlen]: a sum of [size_t]s stored in an [int]. *)
Definition add_len (totlen : Z) (a : str) : Z := i32 (totlen + bulklen (slen a)).

Definition redisFormatCommandArgv (argv : list str) (argvlen : option (list Z))
    : result (Z * str) :=
  let* args := argv_args argv argvlen in
  let totlen := (1 + countDigits (Z.of_nat (length args)) + 2)%Z in
  build_command args (foldl add_len totlen args).

Fixpoint sds_args (args : list str) (cmd : sds) : result sds :=
  match args with
  | [] => Ok cmd
  | a :: args' =>
      let* cmd := sdscatfmt cmd ("$%u" ++ CRLF) [VLong (slen a)] in
      sds_args args' (sdscatlen (sdscatlen cmd a) CRLF)
  end.

(** The value returned is [totlen] as an [int]. *)
Definition redisFormatSdsCommandArgv (argv : list str) (argvlen : option (list Z))
    : result (Z * sds) :=
  let* args := argv_args argv argvlen in
  let totlen := foldl (λ t a, u64 (t + bulklen (slen a)))
                  (1 + countDigits (Z.of_nat (length args)) + 2)%Z args in
  let cmd := sdsMakeRoomFor sdsempty totlen in
  let* cmd := sdscatfmt cmd ("*%i" ++ CRLF) [VInt (Z.of_nat (length args))] in
  let* cmd := sds_args args cmd in
  if negb (sdslen cmd =? totlen)%Z then Undef AssertFailed else Ok (i32 totlen, cmd).

(** ** Formats *)

Record fmt_state : Type := MkFmt {
  touched : bool;
  curarg : sds;
  curargv : list sds;
  totlen : Z
}.

Definition add_arg (st : fmt_state) : fmt_state :=
  MkFmt false sdsempty (curargv st ++ [curarg st]) (add_len (totlen st) (sbuf (curarg st))).
Definition set_arg (newarg : sds) (st : fmt_state) : fmt_state :=
  MkFmt true newarg (curargv st) (totlen st).

Definition intfmts : str := "diouxX".
Definition dblfmts : str := "eEfFgGaA".
Definition fmtflags : str := "#0-+ ".

Fixpoint span (P : ascii → bool) (s : str) : str * str :=
  match s with
  | c :: s' => if P c then let (a, b) := span P s' in (c :: a, b) else ([], s)
  | [] => ([], [])
  end.

(** One of [intfmts] after a size modifier; [get] reads the argument of that size. *)
Definition sized_conversion (mk : Z → ascii → conversion) (bits : Z)
    (get : va_list → result (Z * va_list)) (q : str) (ap : va_list)
    : result (option (str * va_list * str)) :=
  match q with
  | k :: _ =>
      if bool_decide (k ∈ intfmts) then
        let* (v, ap) := get ap in Ok (Some (printf_int (mk bits k) v, ap, q))
      else Ok None
  | [] => Ok None
  end.

(** From [_p] after flags, width and precision to [fmt_valid] (the printed text, the
  arguments left, and [_p] at the conversion) or [fmt_invalid].  The first [strchr] also
  finds the terminator of the format: then [_p] is at the end and there is no conversion. *)
Definition printf_conversion (mk : Z → ascii → conversion) (p : str) (ap : va_list)
    : result (option (str * va_list * str)) :=
  match p with
  | [] => let* (_, ap) := va_int ap in Ok (Some ([], ap, []))
  | k :: q =>
      if bool_decide (k ∈ intfmts) then
        let* (v, ap) := va_int ap in Ok (Some (printf_int (mk 32%Z k) v, ap, p))
      else if bool_decide (k ∈ dblfmts) then
        let* (t, ap) := va_double ap in Ok (Some (t, ap, p))
      else if bool_decide (k = "h"%char) then
        if bool_decide (head q = Some "h"%char)
        then sized_conversion mk 8 va_int (tail q) ap
        else sized_conversion mk 16 va_int q ap
      else if bool_decide (k = "l"%char) then
        if bool_decide (head q = Some "l"%char)
        then sized_conversion mk 64 va_llong (tail q) ap
        else sized_conversion mk 64 va_llong q ap
      else Ok None
  end.

(** [c + 1] at a conversion that is not [%s], [%b] or [%%]: flags, width, precision. *)
Definition printf_prefix (p : str) : (Z → ascii → conversion) * str :=
  let (flags, p) := span (λ c, bool_decide (c ∈ fmtflags)) p in
  let (width, p) := span is_digit p in
  match p with
  | "."%char :: p' =>
      let (prec, p') := span is_digit p' in
      (MkConv flags (digits_value 0 width) (Some (digits_value 0 prec)), p')
  | _ => (MkConv flags (digits_value 0 width) None, p)
  end.

(** [while ( *c != '\0')].  [None]: [format_err]. *)
Fixpoint fmt_loop (fuel : nat) (c : str) (ap : va_list) (st : fmt_state)
    : result (option fmt_state) :=
  match fuel with
  | O => Undef OutOfBounds
  | S fuel' =>
      match c with
      | [] => Ok (Some st)
      | ch :: [] =>
          if bool_decide (ch = " "%char)
          then fmt_loop fuel' [] ap (if touched st then add_arg st else st)
          else fmt_loop fuel' [] ap (set_arg (sdscatlen (curarg st) [ch]) st)
      | ch :: (k :: c'') as c' =>
          if negb (bool_decide (ch = "%"%char)) then
            if bool_decide (ch = " "%char)
            then fmt_loop fuel' c' ap (if touched st then add_arg st else st)
            else fmt_loop fuel' c' ap (set_arg (sdscatlen (curarg st) [ch]) st)
          else if bool_decide (k = "s"%char) then
            let* (arg, ap) := va_str ap in
            let size := slen (c_str arg) in
            fmt_loop fuel' c'' ap
              (set_arg (if (0 <? size)%Z then sdscatlen (curarg st) (c_str arg)
                        else curarg st) st)
          else if bool_decide (k = "b"%char) then
            let* (arg, ap) := va_str ap in
            let* (size, ap) := va_size ap in
            let* bytes := mem_bytes arg size in
            fmt_loop fuel' c'' ap
              (set_arg (if (0 <? size)%Z then sdscatlen (curarg st) bytes else curarg st) st)
          else if bool_decide (k = "%"%char) then
            fmt_loop fuel' c'' ap (set_arg (sdscat (curarg st) "%") st)
          else
            let (mk, p) := printf_prefix c' in
            let* r := printf_conversion mk p ap in
            match r with
            | None => Ok None
            | Some (text, ap, p) =>
                let l := length c - length p + 1 in
                if Nat.ltb l 14 then
                  match p with
                  | [] => Undef OutOfBounds     (* no conversion; then past the terminator *)
                  | _ :: next =>
                      let* newarg := sdscatvprintf (curarg st) (take l c) text in
                      fmt_loop fuel' next ap (set_arg newarg st)
                  end
                else fmt_loop fuel' c'' ap (set_arg (curarg st) st)
            end
      end
  end.

Definition redisvFormatCommand (format : str) (ap : va_list) : result (Z * str) :=
  let c := c_str format in
  let* r := fmt_loop (S (length c)) c ap (MkFmt false sdsempty [] 0) in
  match r with
  | None => Ok ((-2)%Z, [])
  | Some st =>
      let st := if touched st then add_arg st else st in
      let args := sbuf <$> curargv st in
      build_command args
        (i32 (totlen st + (1 + countDigits (Z.of_nat (length args)) + 2)))
  end.

Definition redisFormatCommand (format : str) (ap : va_list) : result (Z * str) :=
  let* (len, cmd) := redisvFormatCommand format ap in
  Ok (if (len <? 0)%Z then (-1)%Z else len, cmd).

(** ** Lemmas on sizes *)

Lemma swrap_add_l z w a : (0 < w)%Z → swrap w (swrap w z + a) = swrap w (z + a).
Proof.
  intros Hw. unfold swrap. f_equal. set (h := (2 ^ (w - 1))%Z).
  replace ((z + h) `mod` 2 ^ w - h + a + h)%Z with ((z + h) `mod` 2 ^ w + a)%Z by lia.
  rewrite Zplus_mod_idemp_l. f_equal. lia.
Qed.

Lemma slen_to_string_step v :
  (0 ≤ v < 10 ^ 20)%Z →
  slen (to_string v) = if (v <? 10)%Z then 1%Z else (1 + slen (to_string (v / 10)))%Z.
Proof.
  intros Hv. rewrite !to_string_nonneg by zdiv.
  assert (∀ f, dec_digits (S f) v [] = if (v <? 10)%Z then [chr (48 + v `mod` 10)]
            else dec_digits f (v / 10) [chr (48 + v `mod` 10)]) as E by done.
  rewrite (E 19). destruct (Z.ltb_spec v 10) as [Hlt|Hge]; [done|].
  rewrite (dec_digits_fuel 19 20 (v / 10)) by zdiv. rewrite !ull_digits_dec by zdiv. slia.
Qed.

Lemma countDigits_loop_spec fuel v r :
  (0 ≤ v < 10 ^ (4 * Z.of_nat fuel))%Z → (v < 10 ^ 20)%Z →
  countDigits_loop fuel v r = (r - 1 + slen (to_string v))%Z.
Proof.
  revert v r. induction fuel as [|fuel IH]; intros v r Hv Hm.
  { cbn in Hv. assert (v = 0)%Z as -> by lia. change (slen (to_string 0)) with 1%Z. cbn. lia. }
  cbn [countDigits_loop].
  rewrite (slen_to_string_step v) by lia. destruct (Z.ltb_spec v 10); [lia|].
  rewrite (slen_to_string_step (v / 10)) by zdiv.
  destruct (Z.ltb_spec v 100); [rewrite (proj2 (Z.ltb_lt (v / 10) 10)) by zdiv; lia|].
  rewrite (proj2 (Z.ltb_ge (v / 10) 10)) by zdiv. rewrite Z.div_div by lia.
  rewrite (slen_to_string_step (v / _)) by zdiv.
  destruct (Z.ltb_spec v 1000); [rewrite (proj2 (Z.ltb_lt (v / _) 10)) by zdiv; lia|].
  rewrite (proj2 (Z.ltb_ge (v / (10 * 10)) 10)) by zdiv. rewrite Z.div_div by lia.
  rewrite (slen_to_string_step (v / _)) by zdiv.
  destruct (Z.ltb_spec v 10000); [rewrite (proj2 (Z.ltb_lt (v / _) 10)) by zdiv; lia|].
  rewrite (proj2 (Z.ltb_ge (v / _) 10)) by zdiv. rewrite Z.div_div by lia.
  change (10 * 10 * 10 * 10)%Z with 10000%Z. rewrite IH; [lia| |zdiv].
  replace (4 * Z.of_nat (S fuel))%Z with (4 * Z.of_nat fuel + 4)%Z in Hv by lia.
  rewrite Z.pow_add_r in Hv by lia. change (10 ^ 4)%Z with 10000%Z in Hv. zdiv.
Qed.

Lemma countDigits_correct v :
  (0 ≤ v < 10 ^ 20)%Z → countDigits v = slen (to_string v).
Proof. intros. unfold countDigits. rewrite countDigits_loop_spec by (cbn; lia). lia. Qed.

Lemma slen_to_string_bounds v :
  (0 ≤ v < 10 ^ 20)%Z → (1 ≤ slen (to_string v) ≤ 1 + v)%Z.
Proof.
  induction v as [v IH] using (well_founded_induction (Z.lt_wf 0)). intros Hv.
  rewrite slen_to_string_step by lia. destruct (Z.ltb_spec v 10); [lia|].
  specialize (IH (v / 10)%Z). assert (0 ≤ v / 10 < v)%Z by zdiv. lia.
Qed.

Lemma bulklen_correct a : (slen a < 2 ^ 62)%Z → bulklen (slen a) = slen (bulk a).
Proof.
  intros Ha. pose proof (slen_nonneg a). unfold bulklen, bulk.
  rewrite countDigits_correct by lia.
  pose proof (slen_to_string_bounds (slen a) ltac:(lia)).
  rewrite wrap_small by lia. unfold CRLF. change (cstr "$") with ["$"%char]. slia.
Qed.

(** Arguments of real memory. *)
Definition arg_sizes (args : list str) : Prop := Forall (λ a, (slen a < 2 ^ 62)%Z) args.

Lemma bind_snoc {A} (args : list A) a (f : A → str) : (args ++ [a]) ≫= f = (args ≫= f) ++ f a.
Proof. rewrite bind_app. cbn. by rewrite app_nil_r. Qed.

Lemma foldl_add_len t args :
  arg_sizes args → i32 (foldl add_len t args) = i32 (t + slen (args ≫= bulk)).
Proof.
  unfold arg_sizes. intros Ha. induction args as [|a args IH] using rev_ind.
  { change (slen ([] ≫= bulk)) with 0%Z. cbn [foldl]. f_equal. lia. }
  apply Forall_app in Ha as [Ha Hb]. apply Forall_cons in Hb as [Hb _].
  rewrite foldl_app. cbn [foldl]. unfold add_len at 1.
  rewrite bulklen_correct by exact Hb. rewrite bind_snoc, slen_app.
  transitivity (i32 (i32 (foldl add_len t args) + slen (bulk a))).
  { rewrite swrap_add_l by lia.
    pose proof (swrap_add_l (foldl add_len t args + slen (bulk a)) 32 0 ltac:(lia)) as E.
    by rewrite !Z.add_0_r in E. }
  rewrite IH by done. rewrite swrap_add_l by lia. f_equal. lia.
Qed.

Lemma slen_encode_command args :
  (Z.of_nat (length args) < 10 ^ 20)%Z →
  slen (encode_command args) =
    (1 + countDigits (Z.of_nat (length args)) + 2 + slen (args ≫= bulk))%Z.
Proof.
  intros Hn. unfold encode_command. rewrite countDigits_correct by lia.
  unfold CRLF. change (cstr "*") with ["*"%char]. slia.
Qed.

(** An array has fewer elements than its encoding has bytes. *)
Lemma length_args_le args : (Z.of_nat (length args) ≤ slen (args ≫= bulk))%Z.
Proof.
  induction args as [|a args IH]; [done|]. rewrite bind_cons, slen_app.
  assert (1 ≤ slen (bulk a))%Z
    by (unfold bulk; change (cstr "$") with ["$"%char]; slia).
  cbn [length]. lia.
Qed.

Lemma slen_bulk_le a args : a ∈ args → (slen a ≤ slen (args ≫= bulk))%Z.
Proof.
  induction args as [|b args IH]; [intros H%elem_of_nil; done|].
  rewrite bind_cons, slen_app. pose proof (slen_nonneg (bulk b)).
  intros [-> | Hin]%elem_of_cons; [|specialize (IH Hin); lia].
  pose proof (slen_nonneg (args ≫= bulk)). unfold bulk. slia.
Qed.

(** A command whose encoding is not larger than the memory has arguments that are not. *)
Lemma encode_command_sizes args :
  (slen (encode_command args) < 2 ^ 62)%Z →
  arg_sizes args ∧ (Z.of_nat (length args) < 2 ^ 62)%Z.
Proof.
  intros H. pose proof (length_args_le args).
  assert (slen (args ≫= bulk) < 2 ^ 62)%Z.
  { unfold encode_command in H. autorewrite with strs in H.
    pose proof (slen_nonneg (cstr "*")). pose proof (slen_nonneg CRLF).
    pose proof (slen_nonneg (to_string (Z.of_nat (length args)))). lia. }
  split; [|lia]. apply Forall_forall. intros a Ha. pose proof (slen_bulk_le a args Ha). lia.
Qed.

(** *** The second half *)

Lemma cput_ok alloc s nul cmd :
  (slen cmd + slen s + nul ≤ alloc)%Z → cput alloc s nul cmd = Ok (cmd ++ s).
Proof. intros H. unfold cput. by rewrite (proj2 (Z.leb_le _ _)). Qed.

Lemma put_args_ok alloc args cmd :
  (slen cmd + slen (args ≫= bulk) + 1 ≤ alloc)%Z →
  put_args alloc args cmd = Ok (cmd ++ (args ≫= bulk)).
Proof.
  revert cmd. induction args as [|a args IH]; intros cmd H; [by rewrite app_nil_r|].
  rewrite bind_cons in *. cbn [put_args].
  assert (bulk a = ("$" ++ to_string (slen a) ++ CRLF) ++ a ++ [CR] ++ [LF]) as Hb
    by (unfold bulk; by rewrite <- !app_assoc).
  rewrite Hb in *. set (hd := "$" ++ to_string (slen a) ++ CRLF) in *.
  change (slen [CR]) with 1%Z in *. change (slen [LF]) with 1%Z in *.
  autorewrite with strs in H.
  pose proof (slen_nonneg (args ≫= bulk)). pose proof (slen_nonneg a).
  do 4 (rewrite cput_ok by (autorewrite with strs; lia); cbn [rbind]).
  rewrite IH by (autorewrite with strs; lia). f_equal. by rewrite <- !app_assoc.
Qed.

Lemma build_command_ok args totlen :
  totlen = slen (encode_command args) → (totlen < 2 ^ 31 - 1)%Z →
  build_command args totlen = Ok (totlen, encode_command args).
Proof.
  intros Hl Hm. pose proof (slen_nonneg (encode_command args)).
  unfold build_command. rewrite (proj2 (Z.eqb_neq _ _)) by lia.
  rewrite wrap_small by lia. rewrite (proj2 (Z.leb_gt _ _)) by lia.
  unfold encode_command in *. autorewrite with strs in Hl.
  pose proof (slen_nonneg (args ≫= bulk)).
  rewrite cput_ok by (autorewrite with strs; lia). cbn [rbind app].
  rewrite put_args_ok by (autorewrite with strs; lia). cbn [rbind].
  rewrite (proj2 (Z.eqb_eq _ totlen)) by (autorewrite with strs; lia). cbn [negb].
  rewrite cput_ok
    by (autorewrite with strs; change (slen [NUL]) with 1%Z; lia).
  cbn [rbind]. by rewrite <- !app_assoc.
Qed.

(** *** Argument vectors *)

Lemma argv_lens_all argv : argv_lens argv (slen <$> argv) = Ok argv.
Proof.
  induction argv as [|a argv IH]; [done|]. rewrite fmap_cons. cbn [argv_lens].
  unfold mem_bytes. rewrite (proj2 (Z.leb_le _ _)) by lia. cbn [rbind].
  rewrite IH. cbn [rbind].
  rewrite take_app_le by (unfold slen; lia). rewrite take_ge by (unfold slen; lia). done.
Qed.

Lemma foldl_add_len_small t args :
  (0 ≤ t)%Z → (t + slen (args ≫= bulk) < 2 ^ 31)%Z →
  foldl add_len t args = (t + slen (args ≫= bulk))%Z.
Proof.
  revert t. induction args as [|a args IH]; intros t Ht Hl.
  { change (slen ([] ≫= bulk)) with 0%Z. cbn [foldl]. lia. }
  rewrite bind_cons, slen_app in *. cbn [foldl]. unfold add_len at 2.
  pose proof (slen_nonneg (args ≫= bulk)). pose proof (slen_nonneg (bulk a)).
  assert (slen a ≤ slen (bulk a))%Z by (unfold bulk; slia).
  rewrite bulklen_correct by lia. rewrite swrap_small by lia. rewrite IH; lia.
Qed.

Lemma foldl_u64_len t args :
  (0 ≤ t)%Z → (t + slen (args ≫= bulk) < 2 ^ 62)%Z →
  foldl (λ t a, u64 (t + bulklen (slen a))) t args = (t + slen (args ≫= bulk))%Z.
Proof.
  revert t. induction args as [|a args IH]; intros t Ht Hl.
  { change (slen ([] ≫= bulk)) with 0%Z. cbn [foldl]. lia. }
  rewrite bind_cons, slen_app in *. cbn [foldl].
  pose proof (slen_nonneg (args ≫= bulk)). pose proof (slen_nonneg (bulk a)).
  assert (slen a ≤ slen (bulk a))%Z by (unfold bulk; slia).
  rewrite bulklen_correct by lia. rewrite wrap_small by lia. rewrite IH; lia.
Qed.

Lemma sds_args_ok args cmd :
  (sdslen cmd + slen (args ≫= bulk) < 2 ^ 31)%Z →
  ∃ cmd', sds_args args cmd = Ok cmd' ∧ sbuf cmd' = sbuf cmd ++ (args ≫= bulk).
Proof.
  revert cmd. induction args as [|a args IH]; intros cmd Hl.
  { exists cmd. by rewrite app_nil_r. }
  rewrite bind_cons in *. cbn [sds_args].
  pose proof (slen_nonneg (args ≫= bulk)). pose proof (slen_nonneg a).
  pose proof (slen_nonneg (sbuf cmd)).
  assert (slen (bulk a) = 1 + slen (to_string (slen a)) + 2 + slen a + 2)%Z as Hb.
  { unfold bulk, CRLF. change (cstr "$") with ["$"%char]. slia. }
  rewrite slen_app in Hl. pose proof (slen_nonneg (to_string (slen a))).
  destruct (sdscatfmt_header cmd "$" (slen a)) as [Hu _]; [lia|done|done|].
  destruct Hu as (c1 & E & Hc1); [unfold sdslen in *; lia|].
  change ("$"%char :: "%u" ++ CRLF) with ("$%u" ++ CRLF) in E. rewrite E. cbn [rbind].
  destruct (IH (sdscatlen (sdscatlen c1 a) CRLF)) as (c2 & -> & Hc2).
  { unfold sdslen in *. rewrite !sbuf_catlen, Hc1. autorewrite with strs.
    change (slen CRLF) with 2%Z. change (slen [_]) with 1%Z. lia. }
  exists c2. split; [done|]. rewrite Hc2, !sbuf_catlen, Hc1.
  unfold bulk. by rewrite <- !app_assoc.
Qed.

(** Both ways of formatting an argument vector, with the lengths given or not, produce
  the array of bulk strings of the protocol whose elements are the bytes of the arguments,
  and return its length, when that length fits the [int] they compute it in: the storage
  is exactly what was asked for, no write leaves it and no assertion fails. *)
Lemma formatArgv_ok argv argvlen args :
  argv_args argv argvlen = Ok args →
  (slen (encode_command args) < 2 ^ 31 - 1)%Z →
  redisFormatCommandArgv argv argvlen =
    Ok (slen (encode_command args), encode_command args) ∧
  ∃ cmd, redisFormatSdsCommandArgv argv argvlen = Ok (slen (encode_command args), cmd) ∧
         sbuf cmd = encode_command args.
Proof.
  intros Ha Hl. destruct (encode_command_sizes args ltac:(lia)) as [Hs Hn].
  pose proof (slen_encode_command args ltac:(lia)) as He.
  pose proof (slen_nonneg (args ≫= bulk)).
  assert (0 < countDigits (Z.of_nat (length args)))%Z.
  { rewrite countDigits_correct by lia. apply to_string_nonempty. lia. }
  unfold redisFormatCommandArgv, redisFormatSdsCommandArgv. rewrite Ha. cbn [rbind]. split.
  - rewrite foldl_add_len_small by lia. rewrite <- He. by apply build_command_ok.
  - rewrite foldl_u64_len by lia.
    destruct (sdscatfmt_header (sdsMakeRoomFor sdsempty
      (1 + countDigits (Z.of_nat (length args)) + 2 + slen (args ≫= bulk))) "*"
      (Z.of_nat (length args))) as [_ Hi]; [|done|done|].
    { unfold sdslen. rewrite sbuf_MakeRoomFor. change (slen (sbuf sdsempty)) with 0%Z.
      rewrite <- countDigits_correct by lia. lia. }
    destruct Hi as (c1 & E & Hc1); [pose proof (length_args_le args); lia|].
    change ("*"%char :: "%i" ++ CRLF) with ("*%i" ++ CRLF) in E. rewrite E. cbn [rbind].
    rewrite sbuf_MakeRoomFor in Hc1. cbn [sbuf sdsempty app] in Hc1.
    destruct (sds_args_ok args c1) as (c2 & -> & Hc2).
    { unfold sdslen. rewrite Hc1. change (slen (["*"%char] ++ _)) with
        (slen ("*"%char :: to_string (Z.of_nat (length args)) ++ CRLF)).
      rewrite slen_cons, slen_app, <- countDigits_correct by lia. change (slen CRLF) with 2%Z. lia. }
    assert (sbuf c2 = encode_command args) as Hc3.
    { rewrite Hc2, Hc1. unfold encode_command. change (cstr "*") with ["*"%char].
      cbn [app]. by rewrite <- !app_assoc. }
    cbn [rbind]. unfold sdslen. rewrite Hc3, (proj2 (Z.eqb_eq _ _)) by lia. cbn [negb].
    exists c2. split; [|done]. do 2 f_equal. rewrite swrap_small by lia. lia.
Qed.

(** ** Formats as sequences of pieces, each with the argument it takes *)

Inductive piece : Type :=
  | PLit (c : ascii)       (* a character of a word *)
  | PBlank
  | PPct                   (* %% *)
  | PStr (s : str)         (* %s *)
  | PBin (s : str)         (* %b *)
  | PInt (z : Z)           (* %d *)
  | PLong (z : Z).         (* %ld *)

Definition pfmt (p : piece) : str :=
  match p with
  | PLit c => [c] | PBlank => " " | PPct => "%%" | PStr _ => "%s" | PBin _ => "%b"
  | PInt _ => "%d" | PLong _ => "%ld"
  end.

Definition pargs (p : piece) : va_list :=
  match p with
  | PStr s => [VStr s] | PBin s => [VStr s; VLong (slen s)]
  | PInt z => [VInt z] | PLong z => [VLong z]
  | _ => []
  end.

(** What a piece adds to the current word. *)
Definition ptext (p : piece) : str :=
  match p with
  | PLit c => [c] | PBlank => [] | PPct => "%" | PStr s => c_str s | PBin s => s
  | PInt z => to_string z | PLong z => to_string z
  end.

Definition piece_ok (p : piece) : Prop :=
  match p with
  | PLit c => c ≠ "%"%char ∧ c ≠ " "%char ∧ c ≠ NUL
  | PBin s => (slen s < 2 ^ 63)%Z
  | PInt z => (- 2 ^ 31 ≤ z < 2 ^ 31)%Z
  | PLong z => (- 2 ^ 63 ≤ z < 2 ^ 63)%Z
  | _ => True
  end.

(** The reference: the words of the format, at blanks of the format only.  A word is
  there as soon as a piece touches it, even with an empty text. *)
Fixpoint words (touched : bool) (cur : str) (l : list piece) : list str :=
  match l with
  | [] => if touched then [cur] else []
  | PBlank :: l' => if touched then cur :: words false [] l' else words false cur l'
  | p :: l' => words true (cur ++ ptext p) l'
  end.

Definition fmt_inv (st : fmt_state) : Prop :=
  totlen st = foldl add_len 0%Z (sbuf <$> curargv st) ∧
  (touched st = false → sbuf (curarg st) = []).

Definition fmt_words (st : fmt_state) (l : list piece) : list str :=
  (sbuf <$> curargv st) ++ words (touched st) (sbuf (curarg st)) l.

(** What happens to the state at one piece. *)
Definition fmt_step (st : fmt_state) (p : piece) (st' : fmt_state) : Prop :=
  match p with
  | PBlank => st' = if touched st then add_arg st else st
  | _ => ∃ a, st' = set_arg a st ∧ sbuf a = sbuf (curarg st) ++ ptext p
  end.

Lemma fmt_step_inv st p st' l :
  fmt_inv st → fmt_step st p st' → fmt_inv st' ∧ fmt_words st (p :: l) = fmt_words st' l.
Proof.
  intros [Ht Hc] Hs. unfold fmt_inv, fmt_words.
  destruct p; cbn [fmt_step words] in *; [destruct Hs as (a & -> & Ha)|
    |destruct Hs as (a & -> & Ha)..];
    try (cbn [touched curarg curargv totlen set_arg]; rewrite Ha; split; [split; [done|discriminate]|done]).
  subst st'. destruct (touched st) eqn:E.
  - cbn [touched curarg curargv totlen add_arg sbuf sdsempty]. split.
    + split; [|done]. rewrite Ht, fmap_app, foldl_app. done.
    + rewrite fmap_app, <- app_assoc. done.
  - rewrite E. auto.
Qed.

Lemma to_string_no_nul z : (- 2 ^ 64 < z < 2 ^ 64)%Z → c_str (to_string z) = to_string z.
Proof.
  intros Hz. apply c_str_id. unfold to_string.
  assert (∀ v, (0 ≤ v < 2 ^ 64)%Z → Forall (λ c, c ≠ NUL) (dec_digits 20 v [])) as Hd.
  { intros v Hv. destruct (dec_digits_spec 20 v []) as (d & ds & -> & Hd & _); [lia|lia|].
    rewrite app_nil_r. eapply Forall_impl; [exact Hd|]. intros c Hc. apply (digit_not_special c Hc). }
  destruct (Z.ltb_spec z 0); [constructor; [done|]|]; apply Hd; lia.
Qed.

Lemma slen_to_string_small z : (- 2 ^ 64 < z < 2 ^ 64)%Z → (slen (to_string z) < 2 ^ 62)%Z.
Proof.
  intros Hz. unfold to_string.
  assert (∀ f v, slen (ull_digits f v) ≤ Z.of_nat f)%Z as Hf.
  { induction f as [|f IH]; intros v; [done|]. cbn [ull_digits].
    specialize (IH (v / 10)%Z). destruct (_ =? 0)%Z; slia. }
  pose proof (Hf 20 z). pose proof (Hf 20 (- z)%Z). unfold slen in *.
  destruct (Z.ltb_spec z 0); rewrite ull_digits_dec, app_nil_r by lia;
    cbn [length]; rewrite length_rev; lia.
Qed.

(** One iteration of the loop, piece by piece. *)
Lemma fmt_loop_plain fuel c rest ap st :
  c ≠ "%"%char →
  fmt_loop (S fuel) (c :: rest) ap st =
    fmt_loop fuel rest ap
      (if bool_decide (c = " "%char) then if touched st then add_arg st else st
       else set_arg (sdscatlen (curarg st) [c]) st).
Proof.
  intros Hc. cbn [fmt_loop]. destruct rest as [|k rest].
  - by destruct (bool_decide _).
  - rewrite (bool_decide_false (c = "%"%char)) by done. cbn [negb]. by destruct (bool_decide _).
Qed.

Lemma printf_prefix_plain k rest :
  k ∉ (fmtflags : str) → is_digit k = false → k ≠ "."%char →
  printf_prefix (k :: rest) = (MkConv [] 0 None, k :: rest).
Proof.
  intros Hf Hd Hdot. unfold printf_prefix. cbn [span].
  rewrite bool_decide_false by done. cbn [span]. rewrite Hd.
  destruct k as [[] [] [] [] [] [] [] []]; try done; by destruct Hdot.
Qed.

Lemma sdscatvprintf_number s fmt z :
  (- 2 ^ 64 < z < 2 ^ 64)%Z →
  ∃ s', sdscatvprintf s fmt (to_string z) = Ok s' ∧ sbuf s' = sbuf s ++ to_string z.
Proof.
  intros Hz. rewrite sdscatvprintf_appends by by apply slen_to_string_small.
  eexists. split; [done|]. unfold sdscat. by rewrite sbuf_catlen, to_string_no_nul.
Qed.

Ltac not_listed := vm_compute; set_solver.

Lemma fmt_loop_number fuel p rest ap st :
  match p with PInt _ | PLong _ => piece_ok p | _ => False end →
  ∃ st', (∃ a, st' = set_arg a st ∧ sbuf a = sbuf (curarg st) ++ ptext p) ∧
    fmt_loop (S fuel) (pfmt p ++ rest) (pargs p ++ ap) st = fmt_loop fuel rest ap st'.
Proof.
  intros Hp. destruct p as [| | | | |z|z]; try done; cbn [piece_ok pfmt pargs ptext app] in *.
  - change (cstr "%d") with ["%"%char; "d"%char]. cbn [app].
    destruct (sdscatvprintf_number (curarg st) (take 2 ["%"%char; "d"%char]) z)
      as (s' & E & Hs'); [lia|].
    exists (set_arg s' st). split; [by exists s'|]. cbn [fmt_loop].
    rewrite (bool_decide_true ("%"%char = _)) by done. cbn [negb].
    rewrite !(bool_decide_false (_ = _)) by done.
    rewrite printf_prefix_plain by (done || not_listed).
    cbn [printf_conversion]. rewrite (bool_decide_true (_ ∈ intfmts)) by not_listed.
    cbn [va_int rbind]. rewrite swrap_small by lia. rewrite printf_int_decimal by lia.
    cbn [length]. replace (S (S (length rest)) - S (length rest) + 1) with 2 by lia.
    cbn [Nat.ltb Nat.leb]. cbn [take] in *. rewrite firstn_O. by rewrite E.
  - change (cstr "%ld") with ["%"%char; "l"%char; "d"%char]. cbn [app].
    destruct (sdscatvprintf_number (curarg st) (take 3 ["%"%char; "l"%char; "d"%char]) z)
      as (s' & E & Hs'); [lia|].
    exists (set_arg s' st). split; [by exists s'|]. cbn [fmt_loop].
    rewrite (bool_decide_true ("%"%char = _)) by done. cbn [negb].
    rewrite !(bool_decide_false (_ = _)) by done.
    rewrite printf_prefix_plain by (done || not_listed).
    cbn [printf_conversion]. rewrite !(bool_decide_false (_ ∈ _)) by not_listed.
    rewrite (bool_decide_false (_ = "h"%char)), (bool_decide_true (_ = "l"%char)) by done.
    cbn [head tail]. rewrite bool_decide_false by done. unfold sized_conversion.
    rewrite (bool_decide_true (_ ∈ intfmts)) by not_listed.
    cbn [va_llong rbind]. rewrite swrap_small by lia. rewrite printf_int_decimal by lia.
    cbn [length]. replace (S (S (S (length rest))) - S (length rest) + 1) with 3 by lia.
    cbn [Nat.ltb Nat.leb]. cbn [take] in *. rewrite firstn_O. by rewrite E.
Qed.

Lemma fmt_loop_piece fuel p rest ap st :
  piece_ok p →
  ∃ st', fmt_step st p st' ∧
    fmt_loop (S fuel) (pfmt p ++ rest) (pargs p ++ ap) st = fmt_loop fuel rest ap st'.
Proof.
  intros Hp. destruct p as [c| | |s|s|z|z]; cbn [piece_ok pfmt pargs app fmt_step ptext] in *.
  - destruct Hp as (? & ? & ?). rewrite fmt_loop_plain, bool_decide_false by done.
    eexists. split; [|done]. eexists. split; [done|]. apply sbuf_catlen.
  - change (cstr " ") with [" "%char]. cbn [app]. rewrite fmt_loop_plain, bool_decide_true by done.
    by eexists.
  - eexists. split; [|done]. eexists. split; [done|]. unfold sdscat. by rewrite sbuf_catlen.
  - eexists. split; [|done]. eexists. split; [done|].
    destruct (Z.ltb_spec 0 (slen (c_str s))); [apply sbuf_catlen|].
    assert (c_str s = []) as -> by (apply length_zero_iff_nil; unfold slen in *; lia).
    by rewrite app_nil_r.
  - pose proof (slen_nonneg s). change (cstr "%b") with ["%"%char; "b"%char].
    cbn [app fmt_loop]. rewrite (bool_decide_true ("%"%char = _)) by done. cbn [negb].
    rewrite (bool_decide_false (_ = "s"%char)), (bool_decide_true (_ = "b"%char)) by done.
    cbn [va_str rbind]. unfold va_size, va_llong. cbn [rbind].
    rewrite wrap_swrap, wrap_small by lia. unfold mem_bytes.
    rewrite (proj2 (Z.leb_le _ _)) by lia. cbn [rbind].
    eexists. split; [|done]. eexists. split; [done|].
    rewrite take_app_le, take_ge by (unfold slen; lia).
    destruct (Z.ltb_spec 0 (slen s)); [apply sbuf_catlen|].
    assert (s = []) as -> by (apply length_zero_iff_nil; unfold slen in *; lia).
    by rewrite app_nil_r.
  - by apply (fmt_loop_number fuel (PInt z)).
  - by apply (fmt_loop_number fuel (PLong z)).
Qed.

Lemma fmt_loop_pieces l fuel st :
  Forall piece_ok l → (length l < fuel)%nat → fmt_inv st →
  ∃ st', fmt_loop fuel (l ≫= pfmt) (l ≫= pargs) st = Ok (Some st') ∧ fmt_inv st' ∧
         fmt_words st' [] = fmt_words st l.
Proof.
  revert fuel st. induction l as [|p l IH]; intros fuel st Hl Hf Hi.
  { destruct fuel as [|fuel]; [lia|]. by exists st. }
  cbn [length] in Hf. destruct fuel as [|fuel]; [lia|]. apply Forall_cons in Hl as [Hp Hl].
  rewrite !bind_cons. destruct (fmt_loop_piece fuel p (l ≫= pfmt) (l ≫= pargs) st Hp)
    as (st1 & Hs & ->).
  destruct (fmt_step_inv _ _ _ l Hi Hs) as [Hi1 ->]. apply IH; [done|lia|done].
Qed.

Lemma format_no_nul l : Forall piece_ok l → c_str (l ≫= pfmt) = l ≫= pfmt.
Proof.
  intros Hl. apply c_str_id. induction Hl as [|p l Hp _ IH]; [constructor|].
  rewrite bind_cons. apply Forall_app. split; [|done].
  destruct p; cbn in *; repeat (constructor; try done). tauto.
Qed.

Lemma fmt_inv_start : fmt_inv (MkFmt false sdsempty [] 0).
Proof. done. Qed.

Lemma length_format l : (length l ≤ length (l ≫= pfmt))%nat.
Proof.
  induction l as [|p l IH]; [done|]. rewrite bind_cons, length_app. cbn [length].
  assert (1 ≤ length (pfmt p))%nat by (destruct p; cbn; lia). lia.
Qed.

Lemma format_words l (args := words false [] l) :
  Forall piece_ok l → (slen (encode_command args) < 2 ^ 31 - 1)%Z →
  redisvFormatCommand (l ≫= pfmt) (l ≫= pargs) =
    Ok (slen (encode_command args), encode_command args).
Proof.
  intros Hl Hs. unfold redisvFormatCommand. rewrite format_no_nul by done.
  pose proof (length_format l).
  destruct (fmt_loop_pieces l (S (length (l ≫= pfmt))) _ Hl ltac:(lia) fmt_inv_start)
    as (st & -> & [Ht Hc] & Hw). cbn [rbind].
  set (st' := if touched st then add_arg st else st).
  assert (sbuf <$> curargv st' = args ∧ totlen st' = foldl add_len 0%Z (sbuf <$> curargv st'))
    as [Ha Ht'].
  { unfold st'. unfold fmt_words in Hw. cbn in Hw. destruct (touched st); cbn.
    - rewrite fmap_app, foldl_app, <- Ht. done.
    - rewrite app_nil_r in Hw. done. }
  rewrite Ha, Ht', Ha. destruct (encode_command_sizes args ltac:(lia)) as [Hz Hn].
  pose proof (slen_encode_command args ltac:(lia)) as He.
  assert (0 ≤ countDigits (Z.of_nat (length args)))%Z
    by (rewrite countDigits_correct by lia; apply slen_nonneg).
  pose proof (slen_nonneg (args ≫= bulk)).
  rewrite foldl_add_len_small by lia. rewrite swrap_small by lia.
  replace (0 + _ + _)%Z with (slen (encode_command args)) by lia. by apply build_command_ok.
Qed.

(** *** Words separated by single blanks: the formats of [cache_pool.cc] *)

Fixpoint join_words (ws : list (list piece)) : list piece :=
  match ws with
  | [] => []
  | [w] => w
  | w :: ws' => w ++ PBlank :: join_words ws'
  end.

Definition is_word (w : list piece) : Prop := w ≠ [] ∧ Forall (λ p, p ≠ PBlank) w.

Lemma words_word b cur w l :
  Forall (λ p, p ≠ PBlank) w → (b = true ∨ w ≠ []) →
  words b cur (w ++ l) = words true (cur ++ (w ≫= ptext)) l.
Proof.
  revert b cur. induction w as [|p w IH]; intros b cur Hw Hb.
  { destruct Hb as [-> | []]; [|done]. cbn. by rewrite app_nil_r. }
  apply Forall_cons in Hw as [Hp Hw]. rewrite bind_cons. cbn [app].
  destruct p; cbn [words]; try done; rewrite IH by (try done; by left);
    by rewrite <- app_assoc.
Qed.

Lemma words_join ws : Forall is_word ws → words false [] (join_words ws) = (λ w, w ≫= ptext) <$> ws.
Proof.
  induction ws as [|w ws IH]; intros H; [done|]. apply Forall_cons in H as [[Hn Hw] H].
  rewrite fmap_cons, <- IH by done. destruct ws as [|w' ws].
  - cbn [join_words]. rewrite <- (app_nil_r w) at 1. rewrite words_word by auto. done.
  - cbn [join_words]. rewrite words_word by auto. done.
Qed.

(** A command name. *)
Definition plain (s : str) : Prop :=
  s ≠ [] ∧ Forall (λ c, c ≠ "%"%char ∧ c ≠ " "%char ∧ c ≠ NUL) s.

Definition lits (s : str) : list piece := PLit <$> s.

Lemma lits_word s : plain s → is_word (lits s) ∧ (lits s ≫= ptext) = s ∧
  (lits s ≫= pfmt) = s ∧ (lits s ≫= pargs) = [] ∧ Forall piece_ok (lits s).
Proof.
  intros [Hn Hs]. unfold is_word, lits. split_and!.
  - by destruct s.
  - by apply Forall_fmap, Forall_true.
  - clear. induction s as [|c s IH]; [done|]. rewrite fmap_cons, bind_cons, IH. done.
  - clear. induction s as [|c s IH]; [done|]. rewrite fmap_cons, bind_cons, IH. done.
  - clear. induction s as [|c s IH]; [done|]. rewrite fmap_cons, bind_cons, IH. done.
  - apply Forall_fmap. eapply Forall_impl; [exact Hs|]. done.
Qed.

Lemma join_words_ok ws : Forall (Forall piece_ok) ws → Forall piece_ok (join_words ws).
Proof.
  induction ws as [|w ws IH]; intros H; [constructor|]. apply Forall_cons in H as [Hw H].
  destruct ws as [|w' ws]; [done|]. apply Forall_app. split; [done|].
  constructor; [done|by apply IH].
Qed.

(** C24: A command formatted from words separated by single blanks, each made of characters
  and [%s], [%b], [%%], [%d] or [%ld], is exactly the command of the argument vector whose
  elements are the texts of the words: what is inserted, blanks, [CR LF] or percent signs
  included, never starts, ends or changes another argument.  All formats of [CacheConn] but
  that of [MGet] are of this form. *)
Theorem redisFormatCommand_words ws (args := (λ w, w ≫= ptext) <$> ws) :
  Forall is_word ws → Forall (Forall piece_ok) ws →
  (slen (encode_command args) < 2 ^ 31 - 1)%Z →
  redisFormatCommand (join_words ws ≫= pfmt) (join_words ws ≫= pargs) =
    Ok (slen (encode_command args), encode_command args).
Proof.
  intros Hw Ho Hl. unfold redisFormatCommand.
  rewrite format_words by (try apply join_words_ok; rewrite ?words_join by done; done).
  rewrite words_join by done. cbn [rbind]. fold args.
  by rewrite (proj2 (Z.ltb_ge (slen (encode_command args)) 0)) by apply slen_nonneg.
Qed.

Lemma redisFormatCommand_words_witness :
  redisFormatCommand "SETEX %s %d %s" [VStr "a b"; VInt 60; VStr (CRLF ++ "%s")] =
    Ok (42%Z, "*4" ++ CRLF ++ "$5" ++ CRLF ++ "SETEX" ++ CRLF ++ "$3" ++ CRLF ++ "a b" ++ CRLF ++
          "$2" ++ CRLF ++ "60" ++ CRLF ++ "$4" ++ CRLF ++ CRLF ++ "%s" ++ CRLF).
Proof.
  apply (redisFormatCommand_words
    [lits "SETEX"; [PStr "a b"]; [PInt 60]; [PStr (CRLF ++ "%s")]]).
  - repeat (constructor; [split; [done|repeat (constructor; try done)]|]). constructor.
  - repeat constructor; try done; lia.
  - vm_compute. done.
Defined.
