(* ===== verification/Resp.v ===== *)
(** [redis/read.c] of the logic service: the functions on bytes ([seekNewline],
    [string2ll], [chrtos]), and the protocol it reads as an abstract machine over values:
    what [RedisReader] implements with a task stack and pointers. *)

From S2P Require Import Prelude Sds CacheConn.

(** ** Bytes *)

(** [seekNewline(s, len)] for the [len] bytes [s]: the offset of the first [CR LF].
  [int _len = len - 1]. *)
Fixpoint seek_loop (s : str) (pos : nat) (lim : Z) : option nat :=
  match s with
  | [] => None
  | c :: s' =>
      if (Z.of_nat pos <? lim)%Z then
        if bool_decide (c = CR) && bool_decide (head s' = Some LF) then Some pos
        else seek_loop s' (S pos) lim
      else None
  end.
Definition seekNewline (s : str) : option nat := seek_loop s 0 (i32 (slen s - 1)).

(** The digits after the first, on an [unsigned long long]; [None]: overflow. *)
Fixpoint ll_digits (s : str) (v : Z) : option (Z * str) :=
  match s with
  | c :: s' =>
      if is_digit c then
        if ((2 ^ 64 - 1) / 10 <? v)%Z then None
        else
          let v := (v * 10)%Z in
          if (2 ^ 64 - 1 - (u8 c - 48) <? v)%Z then None
          else ll_digits s' (v + (u8 c - 48))
      else Some (v, s)
  | [] => Some (v, [])
  end.

(** [string2ll(s, slen, &value)]; [None]: [REDIS_ERR]. *)
Definition string2ll (s : str) : option Z :=
  if bool_decide (s = []) then None
  else if bool_decide (s = "0") then Some 0%Z
  else
    let negative := bool_decide (head s = Some "-"%char) in
    let p := if negative then tail s else s in
    match p with
    | [] => None
    | c :: p' =>
        if ((49 <=? u8 c) && (u8 c <=? 57))%Z then
          match ll_digits p' (u8 c - 48) with
          | None => None
          | Some (v, rest) =>
              if bool_decide (rest ≠ []) then None
              else if negative then
                if (2 ^ 63 <? v)%Z then None else Some (swrap 64 (u64 (- v)))
              else if (2 ^ 63 - 1 <? v)%Z then None
              else Some v
          end
        else if bool_decide (c = "0"%char) && (slen s =? 1)%Z then Some 0%Z
        else None
    end.

(** ** Numbers are read exactly *)

Lemma ll_digits_value s v :
  (0 ≤ v)%Z → Forall (λ c, is_digit c = true) s → (digits_value v s < 2 ^ 64)%Z →
  ll_digits s v = Some (digits_value v s, []).
Proof.
  revert v. induction s as [|c s IH]; intros v Hv Hs Hd; [done|].
  apply Forall_cons in Hs as [Hc Hs]. cbn [ll_digits digits_value] in *. rewrite Hc in *.
  unfold is_digit in Hc. apply andb_true_iff in Hc as [H1%Z.leb_le H2%Z.leb_le].
  pose proof (digits_value_ge s (v * 10 + (u8 c - 48)) Hs ltac:(lia)) as Hm.
  rewrite (proj2 (Z.ltb_ge _ v)) by zdiv. rewrite (proj2 (Z.ltb_ge _ (v * 10))) by lia.
  apply IH; [lia|done|done].
Qed.

Lemma ll_digits_inv s v v' :
  ll_digits s v = Some (v', []) → Forall (λ c, is_digit c = true) s ∧ v' = digits_value v s.
Proof.
  revert v. induction s as [|c s IH]; intros v H; [by injection H as <-|].
  cbn [ll_digits digits_value] in *. destruct (is_digit c) eqn:Hc; [|done].
  destruct (_ <? v)%Z; [done|]. destruct (_ <? _)%Z; [done|].
  apply IH in H as [Hs ->]. split; [by constructor|done].
Qed.

(** Digits without a leading zero are the decimal form of their value. *)
Lemma digits_value_pos s a :
  Forall (λ c, is_digit c = true) s → (0 < a)%Z → (a * 10 ^ slen s ≤ digits_value a s)%Z.
Proof.
  revert a. induction s as [|c s IH]; intros a H Ha.
  { change (slen []) with 0%Z. cbn [digits_value]. lia. }
  apply Forall_cons in H as [Hc H]. cbn [digits_value]. rewrite Hc, slen_cons.
  unfold is_digit in Hc. apply andb_true_iff in Hc as [H1%Z.leb_le H2%Z.leb_le].
  specialize (IH (a * 10 + (u8 c - 48))%Z H ltac:(lia)).
  rewrite Z.pow_add_r by (try apply slen_nonneg; lia).
  assert (0 < 10 ^ slen s)%Z by (apply Z.pow_pos_nonneg; [lia|apply slen_nonneg]). nia.
Qed.

Lemma chr_of_digit c : is_digit c = true → chr (48 + (u8 c - 48)) = c.
Proof. intros _. replace (48 + (u8 c - 48))%Z with (u8 c) by lia. apply chr_u8. Qed.

Lemma dec_digits_value fuel s c acc :
  is_digit c = true → (49 ≤ u8 c)%Z → Forall (λ c, is_digit c = true) s →
  (length s < fuel)%nat →
  dec_digits fuel (digits_value (u8 c - 48) s) acc = (c :: s) ++ acc.
Proof.
  intros Hc Hz. revert fuel acc. induction s as [|d s IH] using rev_ind; intros fuel acc Hs Hf.
  - destruct fuel as [|fuel]; [lia|]. cbn.
    unfold is_digit in Hc. apply andb_true_iff in Hc as Hc'. destruct Hc' as [H1%Z.leb_le H2%Z.leb_le].
    rewrite (proj2 (Z.ltb_lt _ _)), Z.mod_small by lia. by rewrite chr_of_digit.
  - apply Forall_app in Hs as [Hs Hd]. apply Forall_cons in Hd as [Hd _].
    rewrite length_app in Hf. cbn in Hf. destruct fuel as [|fuel]; [lia|].
    rewrite digits_value_app by done. cbn [digits_value]. rewrite Hd.
    pose proof Hd as Hd'. unfold is_digit in Hd'.
    apply andb_true_iff in Hd' as [H1%Z.leb_le H2%Z.leb_le].
    pose proof (digits_value_pos s (u8 c - 48) Hs ltac:(lia)) as Hp.
    assert (1 ≤ 10 ^ slen s)%Z.
    { assert (0 < 10 ^ slen s)%Z by (apply Z.pow_pos_nonneg; [lia|apply slen_nonneg]). lia. }
    set (x := digits_value (u8 c - 48) s) in *. assert (1 ≤ x)%Z by nia. cbn [dec_digits].
    rewrite (proj2 (Z.ltb_ge _ 10)) by lia.
    replace ((x * 10 + (u8 d - 48)) / 10)%Z with x by zdiv.
    replace ((x * 10 + (u8 d - 48)) `mod` 10)%Z with (u8 d - 48)%Z by zdiv.
    rewrite chr_of_digit by done. rewrite IH by (done || lia). cbn. by rewrite <- app_assoc.
Qed.

(** The first digit of a positive number is not zero. *)
Lemma to_string_positive v :
  (0 < v < 10 ^ 20)%Z →
  ∃ c s, to_string v = c :: s ∧ (49 ≤ u8 c ≤ 57)%Z ∧ Forall (λ c, is_digit c = true) s ∧
         digits_value (u8 c - 48) s = v ∧ (length s < 20)%nat.
Proof.
  intros Hv. rewrite to_string_nonneg by lia.
  assert (∀ f v, (0 < v < 10 ^ Z.of_nat f)%Z →
    ∃ c s, (∀ acc, dec_digits f v acc = (c :: s) ++ acc) ∧ (49 ≤ u8 c ≤ 57)%Z ∧
      Forall (λ c, is_digit c = true) s ∧ digits_value (u8 c - 48) s = v ∧ (length s < f)%nat)
    as Hf.
  { clear. induction f as [|f IH]; intros v Hv; [cbn in Hv; lia|]. cbn [dec_digits].
    destruct (Z.ltb_spec v 10).
    - exists (chr (48 + v)), []. rewrite Z.mod_small by lia. rewrite chr_digit by lia.
      split; [done|]. split; [lia|]. split; [by apply Forall_nil|]. cbn. split; lia.
    - rewrite Nat2Z.inj_succ, Z.pow_succ_r in Hv by lia.
      destruct (IH (v / 10)%Z) as (c & s & E & Hc & Hs & Hval & Hl); [zdiv|].
      assert (0 ≤ v `mod` 10 < 10)%Z by zdiv.
      exists c, (s ++ [chr (48 + v `mod` 10)]). split_and!.
      + intros acc. rewrite E. cbn. by rewrite <- app_assoc.
      + lia.
      + lia.
      + apply Forall_app. split; [done|]. constructor; [by apply is_digit_chr|constructor].
      + rewrite digits_value_app, Hval by done. cbn [digits_value].
        rewrite is_digit_chr, chr_digit by done. zdiv.
      + rewrite length_app. cbn. lia. }
  destruct (Hf 20 v ltac:(cbn; lia)) as (c & s & E & ?). exists c, s.
  by rewrite E, app_nil_r.
Qed.

(** The parsing of a positive number, with the bound it is then compared to. *)
Lemma first_digit_not c : (49 ≤ u8 c ≤ 57)%Z → c ≠ "-"%char ∧ is_digit c = true ∧
  ((49 <=? u8 c) && (u8 c <=? 57))%Z = true.
Proof.
  intros Hc. split_and!.
  - intros ->. change (u8 "-") with 45%Z in Hc. lia.
  - unfold is_digit. apply andb_true_iff. rewrite !Z.leb_le. lia.
  - apply andb_true_iff. rewrite !Z.leb_le. lia.
Qed.

Lemma string2ll_to_string z : (- 2 ^ 63 ≤ z < 2 ^ 63)%Z → string2ll (to_string z) = Some z.
Proof.
  intros Hz. destruct (Z.lt_trichotomy z 0) as [Hneg|[->|Hpos]]; [|reflexivity|].
  - destruct (to_string_positive (- z) ltac:(lia)) as (c & s & E & Hc & Hs & Hv & Hl).
    destruct (first_digit_not c Hc) as (Hm & Hd & Hb).
    assert (to_string z = "-"%char :: c :: s) as ->.
    { unfold to_string. rewrite (proj2 (Z.ltb_lt z 0)) by lia.
      rewrite to_string_nonneg in E by lia. by rewrite E. }
    unfold string2ll. rewrite !bool_decide_false by done. cbn [head tail].
    rewrite bool_decide_true, Hb by done. rewrite ll_digits_value by (lia || done).
    rewrite Hv, bool_decide_false by by intros []. rewrite (proj2 (Z.ltb_ge _ _)) by lia.
    f_equal. rewrite Z.opp_involutive. unfold wrap, swrap.
    rewrite Z.add_mod_idemp_l by lia. replace (z + 2 ^ (64 - 1))%Z with (z + 2 ^ 63)%Z by done.
    rewrite Z.mod_small by lia. change (2 ^ (64 - 1))%Z with (2 ^ 63)%Z. lia.
  - destruct (to_string_positive z ltac:(lia)) as (c & s & -> & Hc & Hs & Hv & Hl).
    destruct (first_digit_not c Hc) as (Hm & Hd & Hb).
    unfold string2ll. rewrite (bool_decide_false (_ = [])) by done.
    rewrite (bool_decide_false (c :: s = _)).
    2: { intros [= -> ->]. change (u8 "0") with 48%Z in Hc. lia. }
    cbn [head]. rewrite (bool_decide_false (Some c = _)) by congruence.
    rewrite Hb, ll_digits_value by (lia || done).
    rewrite Hv, bool_decide_false by by intros []. by rewrite (proj2 (Z.ltb_ge _ _)) by lia.
Qed.

Lemma string2ll_digits c s v :
  (49 ≤ u8 c ≤ 57)%Z → ll_digits s (u8 c - 48) = Some (v, []) → (v < 10 ^ 20)%Z →
  to_string v = c :: s ∧ (0 < v)%Z.
Proof.
  intros Hc H Hv. apply ll_digits_inv in H as [Hs ->].
  destruct (first_digit_not c Hc) as (_ & Hd & _).
  pose proof (digits_value_pos s (u8 c - 48) Hs ltac:(lia)) as Hp.
  assert (0 < 10 ^ slen s)%Z by (apply Z.pow_pos_nonneg; [lia|apply slen_nonneg]).
  assert (0 < digits_value (u8 c - 48) s)%Z by nia. split; [|done].
  rewrite to_string_nonneg by lia. rewrite dec_digits_value; [by rewrite app_nil_r|done|lia|done|].
  destruct (Nat.lt_ge_cases (length s) 20) as [|Hge]; [done|].
  assert (10 ^ 20 ≤ 10 ^ slen s)%Z by (apply Z.pow_le_mono_r; unfold slen; lia). nia.
Qed.

Lemma string2ll_inv s z :
  string2ll s = Some z → s = to_string z ∧ (- 2 ^ 63 ≤ z < 2 ^ 63)%Z.
Proof.
  unfold string2ll. destruct (bool_decide_reflect (s = [])) as [->|Hn]; [done|].
  destruct (bool_decide_reflect (s = "0")) as [->|H0].
  { intros [= <-]. split; [done|lia]. }
  destruct (bool_decide_reflect (head s = Some "-"%char)) as [Hm|Hm].
  - destruct s as [|m s]; [done|]. injection Hm as ->. cbn [tail].
    destruct s as [|c s]; [done|]. destruct (_ && _)%bool eqn:Hb.
    2: { rewrite (proj2 (Z.eqb_neq _ 1)), andb_false_r by slia. done. }
    apply andb_true_iff in Hb as [H1%Z.leb_le H2%Z.leb_le].
    destruct (ll_digits s _) as [[v rest]|] eqn:El; [|done].
    destruct (bool_decide_reflect (rest ≠ [])) as [|Hr]; [done|].
    apply dec_stable in Hr as ->. destruct (Z.ltb_spec (2 ^ 63) v); [done|]. intros [= <-].
    destruct (string2ll_digits c s v) as [E Hp]; [lia|done|lia|].
    assert (swrap 64 (u64 (- v)) = - v)%Z as ->.
    { unfold swrap, wrap. rewrite Z.add_mod_idemp_l by lia.
      change (2 ^ (64 - 1))%Z with (2 ^ 63)%Z. rewrite Z.mod_small by lia. lia. }
    split; [|lia]. rewrite to_string_nonneg in E by lia. unfold to_string.
    by rewrite (proj2 (Z.ltb_lt _ 0)), Z.opp_involutive, E by lia.
  - destruct s as [|c s]; [done|]. destruct (_ && _)%bool eqn:Hb.
    2: { destruct (bool_decide_reflect (c = "0"%char)) as [->|]; [|done]. cbn [andb].
         destruct (Z.eqb_spec (slen ("0"%char :: s)) 1) as [E|]; [|done].
         destruct s; [done|]. slia. }
    apply andb_true_iff in Hb as [H1%Z.leb_le H2%Z.leb_le].
    destruct (ll_digits s _) as [[v rest]|] eqn:El; [|done].
    destruct (bool_decide_reflect (rest ≠ [])) as [|Hr]; [done|].
    apply dec_stable in Hr as ->. destruct (Z.ltb_spec (2 ^ 63 - 1) v); [done|]. intros [= <-].
    destruct (string2ll_digits c s v) as [E Hp]; [lia|done|lia|]. split; [done|lia].
Qed.

(** [string2ll] succeeds exactly on the decimal forms of the values of a [long long],
  signs, zeros and both bounds included, and yields the value; on anything else, blanks,
  leading zeros, ["-0"] or a value that does not fit, it reports an error. *)
Theorem string2ll_exact s z :
  string2ll s = Some z ↔ s = to_string z ∧ (- 2 ^ 63 ≤ z < 2 ^ 63)%Z.
Proof.
  split; [apply string2ll_inv|]. intros [-> Hz]. by apply string2ll_to_string.
Qed.

(** ** Lines *)

(** The offset of the first [CR LF]. *)
Fixpoint crlf (s : str) : option nat :=
  match s with
  | [] => None
  | c :: s' =>
      if bool_decide (c = CR) && bool_decide (head s' = Some LF) then Some 0
      else S <$> crlf s'
  end.

Lemma seek_loop_crlf s pos lim :
  lim = (Z.of_nat pos + slen s - 1)%Z → seek_loop s pos lim = (λ k, pos + k) <$> crlf s.
Proof.
  revert pos. induction s as [|c s IH]; intros pos Hl; [done|]. rewrite slen_cons in Hl.
  cbn [seek_loop crlf]. destruct (Z.ltb_spec (Z.of_nat pos) lim).
  - destruct (_ && _); [cbn; f_equal; lia|]. rewrite IH by lia. destruct (crlf s); cbn; [f_equal; lia|done].
  - assert (s = []) as -> by (apply length_zero_iff_nil; unfold slen in *; lia).
    cbn. by rewrite andb_false_r.
Qed.

Lemma seekNewline_crlf s : (slen s ≤ 2 ^ 31)%Z → seekNewline s = crlf s.
Proof.
  intros Hs. pose proof (slen_nonneg s). unfold seekNewline. rewrite swrap_small by lia.
  rewrite seek_loop_crlf by lia. by destruct (crlf s).
Qed.

Lemma crlf_app s t k : crlf s = Some k → crlf (s ++ t) = Some k.
Proof.
  revert k. induction s as [|c s IH]; intros k H; [done|]. cbn [crlf app] in *.
  destruct (bool_decide (c = CR)); cbn [andb] in *.
  - destruct s as [|d s]; [done|]. cbn [head app] in *. destruct (bool_decide _); [done|].
    destruct (crlf (d :: s)) as [j|] eqn:E; [|done]. rewrite (IH j) by done. done.
  - destruct (crlf s) as [j|] eqn:E; [|done]. rewrite (IH j) by done. done.
Qed.

Lemma crlf_split s k : crlf s = Some k → s = take k s ++ CRLF ++ drop (k + 2) s.
Proof.
  revert k. induction s as [|c s IH]; intros k H; [done|]. cbn [crlf] in H.
  destruct (_ && _) eqn:Hb.
  - apply andb_true_iff in Hb as [->%bool_decide_eq_true Hh%bool_decide_eq_true].
    injection H as <-. destruct s as [|d s]; [done|]. by injection Hh as ->.
  - destruct (crlf s) as [j|] eqn:E; [|done]. injection H as <-.
    cbn [Nat.add take drop app]. f_equal. by apply IH.
Qed.

Lemma crlf_bound s k : crlf s = Some k → (k + 2 ≤ length s)%nat.
Proof.
  intros H. pose proof (crlf_split s k H) as E. apply (f_equal length) in E.
  revert E. rewrite !length_app, length_take, length_drop. change (length CRLF) with 2. lia.
Qed.

Lemma crlf_line line t : Forall (λ c, c ≠ CR) line → crlf (line ++ CRLF ++ t) = Some (length line).
Proof.
  induction line as [|c line IH]; intros H; [done|]. apply Forall_cons in H as [Hc H].
  cbn [app crlf]. rewrite bool_decide_false by done. cbn [andb]. by rewrite IH.
Qed.

(** ** The machine *)

(** The arrays being read, innermost first, each with its number of elements and those
  already there; the type of the item being read, once known; the bytes not yet read. *)
Record astate : Type := MkA {
  frames : list (Z * list redisReply);
  aty : option Z;
  unread : str
}.

Inductive astep_out : Type :=
  | ANeed                                  (* the item is not complete *)
  | AOverflow                              (* the length of a bulk string, plus 2 *)
  | AFail (e : str)
  | AMore (st : astate)
  | ADone (r : redisReply) (u : str).

Definition Nil : redisReply := MkReply REDIS_REPLY_NIL 0 None [].
Definition Int (v : Z) : redisReply := MkReply REDIS_REPLY_INTEGER v None [].
Definition Text (t : Z) (s : str) : redisReply := MkReply t 0 (Some s) [].
Definition Array (l : list redisReply) : redisReply := MkReply REDIS_REPLY_ARRAY 0 None l.

(** A finished item goes into the innermost array, which may finish it, and so on. *)
Fixpoint close (fs : list (Z * list redisReply)) (r : redisReply)
    : list (Z * list redisReply) + redisReply :=
  match fs with
  | [] => inr r
  | (n, l) :: fs' =>
      if (Z.of_nat (length l) + 1 =? n)%Z then close fs' (Array (l ++ [r]))
      else inl ((n, l ++ [r]) :: fs')
  end.

Definition afinish (fs : list (Z * list redisReply)) (r : redisReply) (u : str) : astep_out :=
  match close fs r with
  | inl fs' => AMore (MkA fs' None u)
  | inr r' => ADone r' u
  end.

Definition with_line (u : str) (k : str → str → astep_out) : astep_out :=
  match crlf u with
  | None => ANeed
  | Some n => k (take n u) (drop (n + 2) u)
  end.

Definition aline (fs : list (Z * list redisReply)) (t : Z) (u : str) : astep_out :=
  with_line u (λ line rest,
    if (t =? REDIS_REPLY_INTEGER)%Z then
      match string2ll line with
      | None => AFail "Bad integer value"
      | Some v => afinish fs (Int v) rest
      end
    else afinish fs (Text t line) rest).

Definition abulk (fs : list (Z * list redisReply)) (u : str) : astep_out :=
  with_line u (λ line rest,
    match string2ll line with
    | None => AFail "Bad bulk string length"
    | Some len =>
        if (len <? -1)%Z then AFail "Bulk string length out of range"
        else if (len =? -1)%Z then afinish fs Nil rest
        else if (2 ^ 63 - 3 <? len)%Z then AOverflow
        else if (len + 2 <=? slen rest)%Z then
          afinish fs (Text REDIS_REPLY_STRING (take (Z.to_nat len) rest))
            (drop (Z.to_nat (len + 2)) rest)
        else ANeed
    end).

Definition INT_MAX : Z := 2 ^ 31 - 1.

Definition amulti (fs : list (Z * list redisReply)) (u : str) : astep_out :=
  if Nat.eqb (length fs) 8
  then AFail "No support for nested multi bulk replies with depth > 7"
  else with_line u (λ line rest,
    match string2ll line with
    | None => AFail "Bad multi-bulk length"
    | Some n =>
        if ((n <? -1) || (INT_MAX <? n))%Z then AFail "Multi-bulk length out of range"
        else if (n =? -1)%Z then afinish fs Nil rest
        else if (n =? 0)%Z then afinish fs (Array []) rest
        else AMore (MkA ((n, []) :: fs) None rest)
    end).

Definition type_of_byte (c : ascii) : option Z :=
  if bool_decide (c = "-"%char) then Some REDIS_REPLY_ERROR
  else if bool_decide (c = "+"%char) then Some REDIS_REPLY_STATUS
  else if bool_decide (c = ":"%char) then Some REDIS_REPLY_INTEGER
  else if bool_decide (c = "$"%char) then Some REDIS_REPLY_STRING
  else if bool_decide (c = "*"%char) then Some REDIS_REPLY_ARRAY
  else None.

(** [chrtos]: a byte between double quotes, escaped. *)
Definition hex_digit (d : Z) : ascii := chr (if (d <? 10)%Z then 48 + d else 87 + d).
Definition chrtos (c : ascii) : str :=
  let q := chr 34 in
  let esc (x : ascii) : str := [q; "\"%char; x; q] in
  if bool_decide (c = "\"%char ∨ c = q) then esc c
  else if bool_decide (c = LF) then esc "n"%char
  else if bool_decide (c = CR) then esc "r"%char
  else if bool_decide (c = TAB) then esc "t"%char
  else if bool_decide (c = chr 7) then esc "a"%char
  else if bool_decide (c = chr 8) then esc "b"%char
  else if ((32 <=? u8 c) && (u8 c <=? 126))%Z then [q; c; q]
  else [q] ++ "\x" ++ [hex_digit (u8 c / 16); hex_digit (u8 c `mod` 16)] ++ [q].

Definition protocol_byte_error (c : ascii) : str :=
  "Protocol error, got " ++ chrtos c ++ " as reply type byte".

Definition astep (st : astate) : astep_out :=
  let fs := frames st in
  match aty st with
  | None =>
      match unread st with
      | [] => ANeed
      | c :: u =>
          match type_of_byte c with
          | Some t => AMore (MkA fs (Some t) u)
          | None => AFail (protocol_byte_error c)
          end
      end
  | Some t =>
      if (t =? REDIS_REPLY_STRING)%Z then abulk fs (unread st)
      else if (t =? REDIS_REPLY_ARRAY)%Z then amulti fs (unread st)
      else aline fs t (unread st)
  end.

(** Steps until the bytes do not suffice, a reply is complete or an error occurs; every
  step consumes a byte. *)
Inductive arun_out : Type :=
  | RNeed (st : astate)
  | ROverflow
  | RFail (e : str)
  | RDone (r : redisReply) (u : str).

Fixpoint arun_loop (fuel : nat) (st : astate) : arun_out :=
  match fuel with
  | O => RNeed st
  | S fuel' =>
      match astep st with
      | ANeed => RNeed st
      | AOverflow => ROverflow
      | AFail e => RFail e
      | AMore st' => arun_loop fuel' st'
      | ADone r u => RDone r u
      end
  end.
Definition arun (st : astate) : arun_out := arun_loop (S (length (unread st))) st.

(** ** Steps and further bytes *)

Definition app_st (st : astate) (v : str) : astate := MkA (frames st) (aty st) (unread st ++ v).

Definition app_out (o : astep_out) (v : str) : astep_out :=
  match o with
  | AMore st => AMore (app_st st v)
  | ADone r u => ADone r (u ++ v)
  | _ => o
  end.

Definition out_left (o : astep_out) : nat :=
  match o with AMore st => length (unread st) | ADone _ u => length u | _ => 0 end.

Lemma afinish_append fs r u v : afinish fs r (u ++ v) = app_out (afinish fs r u) v.
Proof. unfold afinish. by destruct (close fs r). Qed.

Lemma afinish_left fs r u : out_left (afinish fs r u) = length u.
Proof. unfold afinish. by destruct (close fs r). Qed.

Lemma with_line_append u v k :
  (∀ line rest, k line rest ≠ ANeed → k line (rest ++ v) = app_out (k line rest) v) →
  with_line u k ≠ ANeed → with_line (u ++ v) k = app_out (with_line u k) v.
Proof.
  intros Hk. unfold with_line. destruct (crlf u) as [n|] eqn:E; [|done]. intros Hn.
  rewrite (crlf_app _ _ _ E). pose proof (crlf_bound _ _ E).
  rewrite take_app_le, drop_app_le by lia. by apply Hk.
Qed.

Lemma with_line_left u k :
  (∀ line rest, out_left (k line rest) ≤ length rest)%nat → with_line u k ≠ ANeed →
  (out_left (with_line u k) < length u)%nat.
Proof.
  intros Hk. unfold with_line. destruct (crlf u) as [n|] eqn:E; [|done]. intros _.
  pose proof (crlf_bound _ _ E). pose proof (Hk (take n u) (drop (n + 2) u)) as Hl.
  rewrite length_drop in Hl. lia.
Qed.

(** What is done at the end of each item's line respects further bytes. *)
Ltac item_cases :=
  repeat match goal with
  | |- context [match string2ll ?l with _ => _ end] => destruct (string2ll l)
  | |- context [if ?b then _ else _] => destruct b eqn:?
  end; try done.

Lemma aline_append fs t u v : aline fs t u ≠ ANeed → aline fs t (u ++ v) = app_out (aline fs t u) v.
Proof.
  apply with_line_append. intros line rest. item_cases; intros _; apply afinish_append.
Qed.

Lemma amulti_append fs u v : amulti fs u ≠ ANeed → amulti fs (u ++ v) = app_out (amulti fs u) v.
Proof.
  unfold amulti. destruct (Nat.eqb _ _); [done|].
  apply with_line_append. intros line rest. item_cases; intros _; apply afinish_append.
Qed.

Lemma abulk_append fs u v : abulk fs u ≠ ANeed → abulk fs (u ++ v) = app_out (abulk fs u) v.
Proof.
  apply with_line_append. intros line rest. destruct (string2ll line) as [n|]; [|done].
  destruct (n <? -1)%Z eqn:E1; [done|]. apply Z.ltb_ge in E1.
  destruct (n =? -1)%Z eqn:E2; [intros _; apply afinish_append|]. apply Z.eqb_neq in E2.
  destruct (_ <? n)%Z; [done|]. destruct (Z.leb_spec (n + 2) (slen rest)); [|done]. intros _.
  rewrite (proj2 (Z.leb_le _ _)) by slia. unfold slen in *.
  rewrite take_app_le, drop_app_le by lia. apply afinish_append.
Qed.

Lemma astep_append st v : astep st ≠ ANeed → astep (app_st st v) = app_out (astep st) v.
Proof.
  unfold astep. cbn [frames aty unread app_st]. destruct (aty st) as [t|].
  - destruct (t =? _)%Z; [apply abulk_append|]. destruct (t =? _)%Z; [apply amulti_append|].
    apply aline_append.
  - destruct (unread st) as [|c u]; [done|]. cbn [app]. by destruct (type_of_byte c).
Qed.

Lemma astep_left st : astep st ≠ ANeed → (out_left (astep st) ≤ length (unread st) - 1)%nat.
Proof.
  assert (∀ k, (∀ line rest, out_left (k line rest) ≤ length rest)%nat →
    with_line (unread st) k ≠ ANeed →
    out_left (with_line (unread st) k) ≤ length (unread st) - 1)%nat as Hw.
  { intros k Hk Hn. pose proof (with_line_left _ _ Hk Hn). lia. }
  unfold astep. destruct (aty st) as [t|].
  - destruct (t =? _)%Z; [|destruct (t =? _)%Z; [unfold amulti; destruct (Nat.eqb _ _);
      [cbn [out_left]; lia|]|]]; apply Hw; intros line rest; item_cases; cbn [out_left unread];
      rewrite ?afinish_left, ?length_drop; lia.
  - destruct (unread st) as [|c u]; [done|]. intros _. cbn [length].
    destruct (type_of_byte c); cbn [out_left unread]; lia.
Qed.

(** [AMore] leaves fewer bytes. *)
Lemma astep_more st st' : astep st = AMore st' → (length (unread st') < length (unread st))%nat.
Proof.
  intros H. pose proof (astep_left st ltac:(rewrite H; discriminate)) as Hl.
  rewrite H in Hl. cbn [out_left] in Hl.
  destruct (unread st) as [|c u] eqn:E; [|cbn [length] in *; lia]. exfalso. revert H.
  unfold astep. rewrite E. destruct (aty st) as [t|]; [|done].
  destruct (t =? _)%Z; [done|]. destruct (t =? _)%Z; [|done].
  unfold amulti. by destruct (Nat.eqb _ _).
Qed.

Lemma arun_loop_fuel f g st :
  (length (unread st) < f)%nat → (length (unread st) < g)%nat → arun_loop f st = arun_loop g st.
Proof.
  revert g st. induction f as [|f IH]; intros g st Hf Hg; [lia|]. destruct g as [|g]; [lia|].
  cbn [arun_loop]. destruct (astep st) as [| | |st'|] eqn:E; try done.
  apply astep_more in E. apply IH; lia.
Qed.

(** The equation of [arun]. *)
Lemma arun_step st :
  arun st = match astep st with
            | ANeed => RNeed st
            | AOverflow => ROverflow
            | AFail e => RFail e
            | AMore st' => arun st'
            | ADone r u => RDone r u
            end.
Proof.
  unfold arun at 1. cbn [arun_loop]. destruct (astep st) as [| | |st'|] eqn:E; try done.
  apply astep_more in E. apply arun_loop_fuel; lia.
Qed.

Lemma arun_ind (P : astate → Prop) :
  (∀ st, (∀ st', astep st = AMore st' → P st') → P st) → ∀ st, P st.
Proof.
  intros HP st. induction st as [st IH] using
    (well_founded_induction (well_founded_ltof _ (λ st, length (unread st)))).
  apply HP. intros st' H. apply IH. by apply astep_more.
Qed.

(** A reader that ran out of bytes goes on as if all bytes had been there at once. *)
Lemma arun_append st v :
  arun (app_st st v) =
    match arun st with
    | RNeed st' => arun (app_st st' v)
    | RDone r u => RDone r (u ++ v)
    | o => o
    end.
Proof.
  induction st as [st IH] using arun_ind. rewrite (arun_step st).
  destruct (astep st) as [| | |st'|] eqn:E; [done|..];
    rewrite arun_step, astep_append by (rewrite E; discriminate); rewrite E; cbn [app_out];
    try done. by apply IH.
Qed.

Lemma arun_need_stuck st st' : arun st = RNeed st' → astep st' = ANeed.
Proof.
  induction st as [st IH] using arun_ind. rewrite arun_step.
  destruct (astep st) as [| | |st1|] eqn:E; try done; [by intros [= <-]|]. by apply IH.
Qed.

(** ** The encoding *)

(** Induction on replies. *)
Lemma redisReply_ind' (P : redisReply → Prop) :
  (∀ t n s l, Forall P l → P (MkReply t n s l)) → ∀ r, P r.
Proof.
  intros HP. fix IH 1. intros [t n s l]. apply HP.
  induction l as [|r l IHl]; constructor; [apply IH|exact IHl].
Qed.

Definition type_byte (t : Z) : ascii :=
  if (t =? REDIS_REPLY_ERROR)%Z then "-"%char
  else if (t =? REDIS_REPLY_STATUS)%Z then "+"%char
  else if (t =? REDIS_REPLY_INTEGER)%Z then ":"%char
  else if (t =? REDIS_REPLY_ARRAY)%Z then "*"%char
  else "$"%char.

(** What a server sends for a reply. *)
Fixpoint encode (r : redisReply) : str :=
  let '(MkReply t n s l) := r in
  type_byte t ::
    (if (t =? REDIS_REPLY_INTEGER)%Z then to_string n ++ CRLF
     else if (t =? REDIS_REPLY_ARRAY)%Z then
       to_string (Z.of_nat (length l)) ++ CRLF ++ concat (map encode l)
     else if (t =? REDIS_REPLY_NIL)%Z then "-1" ++ CRLF
     else if (t =? REDIS_REPLY_STRING)%Z then
       to_string (slen (default [] s)) ++ CRLF ++ default [] s ++ CRLF
     else default [] s ++ CRLF).

(** The replies a server can send and the reader accepts, [d] nested arrays deep: lines
  without [CR], integers of 64 bits, array lengths of an [int]. *)
Fixpoint wire (d : nat) (r : redisReply) {struct r} : bool :=
  let '(MkReply t n s l) := r in
  if (t =? REDIS_REPLY_INTEGER)%Z then
    (- 2 ^ 63 <=? n)%Z && (n <? 2 ^ 63)%Z && bool_decide (s = None) && bool_decide (l = [])
  else
    (n =? 0)%Z &&
    (if (t =? REDIS_REPLY_ARRAY)%Z then
       match d with
       | O => false
       | S d' => (Z.of_nat (length l) <=? INT_MAX)%Z && bool_decide (s = None) && forallb (wire d') l
       end
     else
       bool_decide (l = []) &&
       (if (t =? REDIS_REPLY_NIL)%Z then bool_decide (s = None)
        else match s with
             | None => false
             | Some x =>
                 if (t =? REDIS_REPLY_STRING)%Z then (slen x <=? 2 ^ 63 - 3)%Z
                 else ((t =? REDIS_REPLY_STATUS)%Z || (t =? REDIS_REPLY_ERROR)%Z) &&
                      forallb (λ c, negb (bool_decide (c = CR))) x
             end)).

(** The shapes of such a reply. *)
Inductive wire_shape (d : nat) : redisReply → Prop :=
  | shape_int v : (- 2 ^ 63 ≤ v < 2 ^ 63)%Z → wire_shape d (Int v)
  | shape_nil : wire_shape d Nil
  | shape_bulk x : (slen x ≤ 2 ^ 63 - 3)%Z → wire_shape d (Text REDIS_REPLY_STRING x)
  | shape_line t x :
      t = REDIS_REPLY_STATUS ∨ t = REDIS_REPLY_ERROR → Forall (λ c, c ≠ CR) x →
      wire_shape d (Text t x)
  | shape_array d' l :
      d = S d' → (Z.of_nat (length l) ≤ INT_MAX)%Z → Forall (wire d') l →
      wire_shape d (Array l).

Lemma wire_inv d r : wire d r = true → wire_shape d r.
Proof.
  destruct r as [t n s l]. cbn [wire]. destruct (Z.eqb_spec t REDIS_REPLY_INTEGER) as [->|].
  { rewrite !andb_true_iff, Z.leb_le, Z.ltb_lt, !bool_decide_eq_true.
    intros [[[? ?] ->] ->]. by apply shape_int. }
  rewrite andb_true_iff, Z.eqb_eq. intros [-> H].
  destruct (Z.eqb_spec t REDIS_REPLY_ARRAY) as [->|].
  { destruct d as [|d]; [done|].
    rewrite !andb_true_iff, Z.leb_le, bool_decide_eq_true, forallb_forall in H.
    destruct H as [[? ->] H]. eapply shape_array; [done|done|]. apply Forall_forall.
    intros x Hx%list_elem_of_In. by rewrite H. }
  rewrite andb_true_iff, bool_decide_eq_true in H. destruct H as [-> H].
  destruct (Z.eqb_spec t REDIS_REPLY_NIL) as [->|].
  { apply bool_decide_eq_true in H as ->. apply shape_nil. }
  destruct s as [x|]; [|done]. destruct (Z.eqb_spec t REDIS_REPLY_STRING) as [->|].
  { apply Z.leb_le in H. by apply shape_bulk. }
  rewrite andb_true_iff, orb_true_iff, !Z.eqb_eq, forallb_forall in H. destruct H as [Ht H].
  apply shape_line; [done|]. apply Forall_forall. intros c Hc%list_elem_of_In.
  specialize (H c Hc). by apply negb_true_iff, bool_decide_eq_false in H.
Qed.

(** *** Reading an encoding *)

Lemma to_string_no_CR z : (- 2 ^ 64 < z < 2 ^ 64)%Z → Forall (λ c, c ≠ CR) (to_string z).
Proof.
  intros Hz. unfold to_string.
  assert (∀ v, (0 ≤ v < 2 ^ 64)%Z → Forall (λ c, c ≠ CR) (dec_digits 20 v [])) as Hd.
  { intros v Hv. destruct (dec_digits_spec 20 v []) as (d & ds & -> & Hd & _); [lia|lia|].
    rewrite app_nil_r. eapply Forall_impl; [exact Hd|]. intros c Hc ->. discriminate. }
  destruct (Z.ltb_spec z 0); [constructor; [done|]|]; apply Hd; lia.
Qed.

Lemma with_line_line line t k :
  Forall (λ c, c ≠ CR) line → with_line (line ++ CRLF ++ t) k = k line t.
Proof.
  intros H. unfold with_line. rewrite crlf_line by done.
  rewrite take_app_length. f_equal. rewrite app_assoc.
  rewrite <- (length_app line CRLF : _ = length line + 2). apply drop_app_length.
Qed.

Lemma with_line_number z t k :
  (- 2 ^ 63 ≤ z < 2 ^ 63)%Z → with_line (to_string z ++ CRLF ++ t) k = k (to_string z) t.
Proof. intros. apply with_line_line, to_string_no_CR. lia. Qed.

(** What the machine does when an item has become complete. *)
Definition after (fs : list (Z * list redisReply)) (r : redisReply) (u : str) : arun_out :=
  match close fs r with
  | inl fs' => arun (MkA fs' None u)
  | inr r' => RDone r' u
  end.

Lemma arun_type fs t u :
  (t = REDIS_REPLY_INTEGER ∨ t = REDIS_REPLY_ARRAY ∨ t = REDIS_REPLY_STRING ∨
   t = REDIS_REPLY_STATUS ∨ t = REDIS_REPLY_ERROR) →
  arun (MkA fs None (type_byte t :: u)) = arun (MkA fs (Some t) u).
Proof. intros Ht. rewrite arun_step. by destruct Ht as [-> | [-> | [-> | [-> | ->]]]]. Qed.

Lemma arun_afinish st fs r u : astep st = afinish fs r u → arun st = after fs r u.
Proof. intros H. rewrite arun_step, H. unfold afinish, after. by destruct (close fs r). Qed.

Lemma arun_int fs v u :
  (- 2 ^ 63 ≤ v < 2 ^ 63)%Z → arun (MkA fs None (encode (Int v) ++ u)) = after fs (Int v) u.
Proof.
  intros Hv. change (encode (Int v)) with (type_byte REDIS_REPLY_INTEGER :: to_string v ++ CRLF).
  cbn [app]. rewrite arun_type by auto. apply arun_afinish.
  cbn [astep aty frames unread]. unfold aline. rewrite <- app_assoc, with_line_number by done.
  by rewrite string2ll_to_string.
Qed.

Lemma arun_nil fs u : arun (MkA fs None (encode Nil ++ u)) = after fs Nil u.
Proof.
  change (encode Nil) with (type_byte REDIS_REPLY_STRING :: "-1" ++ CRLF).
  cbn [app]. rewrite arun_type by auto. apply arun_afinish.
  cbn [astep aty frames unread]. unfold abulk.
  change (cstr "-1") with (to_string (-1)). rewrite <- app_assoc, with_line_number by lia. done.
Qed.

Lemma arun_line fs t x u :
  t = REDIS_REPLY_STATUS ∨ t = REDIS_REPLY_ERROR → Forall (λ c, c ≠ CR) x →
  arun (MkA fs None (encode (Text t x) ++ u)) = after fs (Text t x) u.
Proof.
  intros Ht Hx. assert (encode (Text t x) = type_byte t :: x ++ CRLF) as ->
    by by destruct Ht as [-> | ->].
  cbn [app]. rewrite arun_type by tauto. apply arun_afinish.
  unfold astep. cbn [aty frames unread]. rewrite <- app_assoc.
  destruct Ht as [-> | ->]; cbn [Z.eqb Pos.eqb]; unfold aline; by rewrite with_line_line.
Qed.

Lemma arun_bulk fs x u :
  (slen x ≤ 2 ^ 63 - 3)%Z →
  arun (MkA fs None (encode (Text REDIS_REPLY_STRING x) ++ u)) =
    after fs (Text REDIS_REPLY_STRING x) u.
Proof.
  intros Hx. pose proof (slen_nonneg x).
  change (encode (Text REDIS_REPLY_STRING x)) with
    (type_byte REDIS_REPLY_STRING :: to_string (slen x) ++ CRLF ++ x ++ CRLF).
  cbn [app]. rewrite arun_type by auto. apply arun_afinish.
  cbn [astep aty frames unread]. unfold abulk.
  rewrite <- !app_assoc, with_line_number, string2ll_to_string by lia.
  rewrite (proj2 (Z.ltb_ge _ (-1))), (proj2 (Z.eqb_neq _ (-1))) by lia.
  rewrite (proj2 (Z.ltb_ge _ (slen x))) by lia.
  rewrite (proj2 (Z.leb_le _ _))
    by (rewrite !slen_app; change (slen CRLF) with 2%Z; pose proof (slen_nonneg u); lia).
  f_equal.
  - f_equal. unfold slen. by rewrite Nat2Z.id, take_app_length.
  - rewrite (app_assoc x CRLF u).
    replace (Z.to_nat (slen x + 2)) with (length (x ++ CRLF)); [by rewrite drop_app_length|].
    rewrite length_app. change (length CRLF) with 2. unfold slen. lia.
Qed.

Lemma close_snoc fs n l r :
  (Z.of_nat (length l) + 1 < n)%Z → close ((n, l) :: fs) r = inl ((n, l ++ [r]) :: fs).
Proof. intros H. cbn [close]. by rewrite (proj2 (Z.eqb_neq _ _)) by lia. Qed.

Lemma close_last fs n l r :
  (Z.of_nat (length l) + 1 = n)%Z → close ((n, l) :: fs) r = close fs (Array (l ++ [r])).
Proof. intros H. cbn [close]. by rewrite (proj2 (Z.eqb_eq _ _)). Qed.

(** The elements of an array, once those of [dn] are there. *)
Lemma arun_elements fs n dn l u :
  Forall (λ r, ∀ dn u, arun (MkA ((n, dn) :: fs) None (encode r ++ u)) =
                       after ((n, dn) :: fs) r u) l →
  l ≠ [] → Z.of_nat (length dn + length l) = n →
  arun (MkA ((n, dn) :: fs) None (concat (map encode l) ++ u)) = after fs (Array (dn ++ l)) u.
Proof.
  revert dn. induction l as [|r l IH]; intros dn H Hne Hn; [done|].
  apply Forall_cons in H as [Hr H]. cbn [map concat]. rewrite <- app_assoc, Hr. cbn [length] in Hn.
  destruct l as [|r' l].
  - cbn [map concat app]. unfold after. by rewrite close_last by (cbn [length] in Hn; lia).
  - unfold after at 1. rewrite close_snoc by (cbn [length] in Hn; lia).
    rewrite IH; [by rewrite <- app_assoc|done|done|]. rewrite length_app. cbn [length] in *. lia.
Qed.

(** Decoding inverts encoding: whatever can be sent as a reply within the limits of
  the reader is read back as it was, from its first byte, and the bytes that follow it are
  left for the next reply. *)
Lemma arun_encode r d fs u :
  wire d r = true → (length fs + d ≤ 8)%nat →
  arun (MkA fs None (encode r ++ u)) = after fs r u.
Proof.
  revert d fs u. induction r as [t n s l IH] using redisReply_ind'. intros d fs u Hw Hd.
  remember (MkReply t n s l) as r0 eqn:Er.
  destruct (wire_inv _ _ Hw) as [v Hv| |x Hx|t' x Ht Hx|d' l' -> Hl Hf];
    [by apply arun_int|apply arun_nil|by apply arun_bulk|by apply arun_line|].
  assert (l' = l) as -> by by injection Er. clear Er.
  change (encode (Array l)) with
    (type_byte REDIS_REPLY_ARRAY :: to_string (Z.of_nat (length l)) ++ CRLF ++
       concat (map encode l)).
  cbn [app]. rewrite arun_type, arun_step by auto. cbn [astep aty frames unread].
  unfold INT_MAX in *. cbn [Z.eqb Pos.eqb REDIS_REPLY_ARRAY REDIS_REPLY_STRING].
  unfold amulti. rewrite (proj2 (Nat.eqb_neq _ _)) by lia.
  rewrite <- !app_assoc, with_line_number, string2ll_to_string by lia.
  rewrite (proj2 (Z.ltb_ge _ (-1))), (proj2 (Z.ltb_ge INT_MAX _)) by (unfold INT_MAX; lia).
  rewrite (proj2 (Z.eqb_neq _ (-1))) by lia. cbn [orb].
  destruct (Z.eqb_spec (Z.of_nat (length l)) 0) as [E|NE].
  - assert (l = []) as -> by (apply length_zero_iff_nil; lia).
    cbn [map concat app]. unfold afinish, after. by destruct (close fs (Array [])).
  - apply (arun_elements fs _ [] l u); [|by intros ->|done].
    rewrite Forall_forall in IH, Hf |- *. intros r Hr dn v.
    apply (IH r Hr d'); [by apply Is_true_true, Hf|cbn [length]; lia].
Qed.
