(* ===== verification/RedisReader.v ===== *)
(** [redis/read.{h,c}] of the logic service, and the reply objects of [redis/hiredis.c]
    that it builds: the task stack, the pointers between objects, errors and their cleanup.

    Objects live in a store of numbered cells, given out in order; [free] removes a cell,
    and using a removed one is undefined.  The functions of [redisReplyObjectFunctions] are
    those of [defaultFunctions], the only ones the program uses. *)

From S2P Require Import Prelude Sds CacheConn Resp.

(** ** Objects *)

(** [struct redisReply] in memory: [element] is null or an array of pointers. *)
Record obj : Type := MkObj {
  otype : Z;
  ointeger : Z;
  ostr : option str;
  oelements : Z;
  oelement : option (list (option nat))
}.

Record heap : Type := MkHeap { cells : gmap nat obj; hnext : nat }.

Definition hget (p : option nat) (h : heap) : result obj :=
  match p with
  | None => Undef NullDeref
  | Some p => match cells h !! p with Some o => Ok o | None => Undef OutOfBounds end
  end.

(** [createReplyObject] with its fields set. *)
Definition halloc (o : obj) (h : heap) : nat * heap :=
  (hnext h, MkHeap (<[hnext h := o]> (cells h)) (S (hnext h))).

Definition hdel (p : nat) (h : heap) : heap := MkHeap (delete p (cells h)) (hnext h).

(** [freeReplyObject]; an object is nested in objects of smaller numbers, so that the
  number of cells given out bounds the depth. *)
Fixpoint free_elements (free : option nat → heap → result heap) (l : list (option nat))
    (h : heap) : result heap :=
  match l with
  | [] => Ok h
  | p :: l' => let* h := free p h in free_elements free l' h
  end.

Fixpoint free_fuel (fuel : nat) (reply : option nat) (h : heap) : result heap :=
  match fuel with
  | O => Undef OutOfBounds
  | S fuel' =>
      match reply with
      | None => Ok h
      | Some p =>
          let* r := hget reply h in
          let* h :=
            (if (otype r =? REDIS_REPLY_ARRAY)%Z then
               match oelement r with
               | Some l =>
                   if (oelements r <=? Z.of_nat (length l))%Z
                   then free_elements (free_fuel fuel') (take (Z.to_nat (oelements r)) l) h
                   else Undef OutOfBounds
               | None => Ok h
               end
             else Ok h) in
          Ok (hdel p h)
      end
  end.
Definition freeReplyObject (reply : option nat) (h : heap) : result heap :=
  free_fuel (S (hnext h)) reply h.

(** ** The reader *)

Record redisReadTask : Type := MkTask {
  ttype : Z;
  telements : Z;
  tidx : Z;
  tobj : option nat;
  tparent : option nat       (* the parent's place in the stack *)
}.

Record redisReader : Type := MkReader {
  rerr : Z;
  errstr : str;
  rbuf : option sds;
  rpos : Z;
  rlen : Z;
  maxbuf : Z;
  rstack : list redisReadTask;
  ridx : Z;
  rreply : option nat
}.

Definition REDIS_OK : Z := 0.
Definition REDIS_ERR : Z := -1.
Definition REDIS_ERR_IO : Z := 1.
Definition REDIS_ERR_EOF : Z := 3.
Definition REDIS_ERR_PROTOCOL : Z := 4.
Definition REDIS_ERR_OOM : Z := 5.
Definition REDIS_ERR_OTHER : Z := 2.
Definition REDIS_READER_MAX_BUF : Z := 1024 * 16.

Definition blank_task : redisReadTask := MkTask 0 0 0 None None.

(** [redisReaderCreateWithFunctions] *)
Definition redisReaderCreate : redisReader :=
  MkReader 0 [] (Some sdsempty) 0 0 REDIS_READER_MAX_BUF (replicate 9 blank_task) (-1) None.

Definition set_pos (p : Z) (r : redisReader) : redisReader :=
  MkReader (rerr r) (errstr r) (rbuf r) p (rlen r) (maxbuf r) (rstack r) (ridx r) (rreply r).
Definition set_buf (b : sds) (p n : Z) (r : redisReader) : redisReader :=
  MkReader (rerr r) (errstr r) (Some b) p n (maxbuf r) (rstack r) (ridx r) (rreply r).
Definition set_ridx (i : Z) (r : redisReader) : redisReader :=
  MkReader (rerr r) (errstr r) (rbuf r) (rpos r) (rlen r) (maxbuf r) (rstack r) i (rreply r).
Definition set_reply (p : option nat) (r : redisReader) : redisReader :=
  MkReader (rerr r) (errstr r) (rbuf r) (rpos r) (rlen r) (maxbuf r) (rstack r) (ridx r) p.
Definition set_task (i : nat) (t : redisReadTask) (r : redisReader) : redisReader :=
  MkReader (rerr r) (errstr r) (rbuf r) (rpos r) (rlen r) (maxbuf r) (<[i := t]> (rstack r))
    (ridx r) (rreply r).

Definition get_task (i : Z) (r : redisReader) : result redisReadTask :=
  if (i <? 0)%Z then Undef OutOfBounds
  else match rstack r !! Z.to_nat i with Some t => Ok t | None => Undef OutOfBounds end.

(** A reader with the store of the objects it creates. *)
Definition rworld : Type := redisReader * heap.

(** [__redisReaderSetError]; the text is cut to the 127 bytes of [errstr]. *)
Definition setError (type : Z) (msg : str) (w : rworld) : result rworld :=
  let (r, h) := w in
  let* h := (match rreply r with Some _ => freeReplyObject (rreply r) h | None => Ok h end) in
  Ok (MkReader type (take 127 (c_str msg)) None 0 0 (maxbuf r) (rstack r) (-1) None, h).

Definition setErrorProtocolByte (c : ascii) (w : rworld) : result rworld :=
  setError REDIS_ERR_PROTOCOL (take 127 (protocol_byte_error c)) w.

(** The bytes from [r->buf + r->pos] on. *)
Definition rest (r : redisReader) : result str :=
  match rbuf r with
  | None => Undef NullDeref
  | Some b =>
      if ((0 <=? rpos r) && (rpos r <=? rlen r) && (rlen r <=? sdslen b))%Z
      then Ok (take (Z.to_nat (rlen r - rpos r)) (drop (Z.to_nat (rpos r)) (sbuf b)))
      else Undef OutOfBounds
  end.

(** [readBytes(r, 1)] *)
Definition readByte (r : redisReader) : result (option (ascii * redisReader)) :=
  if (1 <=? u64 (rlen r - rpos r))%Z then
    let* s := rest r in
    match s with
    | c :: _ => Ok (Some (c, set_pos (u64 (rpos r + 1)) r))
    | [] => Undef OutOfBounds
    end
  else Ok None.

Definition readLine (r : redisReader) : result (option (str * redisReader)) :=
  let* s := rest r in
  match seekNewline s with
  | None => Ok None
  | Some n => Ok (Some (take n s, set_pos (u64 (rpos r + (Z.of_nat n + 2))) r))
  end.

Fixpoint move_loop (fuel : nat) (r : redisReader) : result redisReader :=
  match fuel with
  | O => Undef OutOfBounds
  | S fuel' =>
      if (ridx r <? 0)%Z then Ok r
      else if (ridx r =? 0)%Z then Ok (set_ridx (-1) r)
      else
        let* cur := get_task (ridx r) r in
        let* prv := get_task (ridx r - 1) r in
        if negb (ttype prv =? REDIS_REPLY_ARRAY)%Z then Undef AssertFailed
        else if (tidx cur =? telements prv - 1)%Z then move_loop fuel' (set_ridx (ridx r - 1) r)
        else if negb (tidx cur <? telements prv)%Z then Undef AssertFailed
        else Ok (set_task (Z.to_nat (ridx r))
                   (MkTask (-1) (-1) (tidx cur + 1) (tobj cur) (tparent cur)) r)
  end.
(** The stack has nine places. *)
Definition moveToNextTask : redisReader → result redisReader := move_loop 10.

(** ** Creating objects *)

(** [if (task->parent) { ... parent->element[task->idx] = r; }] *)
Definition link (r : redisReader) (t : redisReadTask) (p : nat) (h : heap) : result heap :=
  match tparent t with
  | None => Ok h
  | Some i =>
      let* pt := get_task (Z.of_nat i) r in
      let* parent := hget (tobj pt) h in
      if negb (otype parent =? REDIS_REPLY_ARRAY)%Z then Undef AssertFailed
      else
        match oelement parent, tobj pt with
        | Some l, Some a =>
            if ((0 <=? tidx t) && (tidx t <? Z.of_nat (length l)))%Z then
              Ok (MkHeap (<[a := MkObj (otype parent) (ointeger parent) (ostr parent)
                                   (oelements parent)
                                   (Some (<[Z.to_nat (tidx t) := Some p]> l))]> (cells h))
                    (hnext h))
            else Undef OutOfBounds
        | _, _ => Undef NullDeref
        end
  end.

Definition create (r : redisReader) (t : redisReadTask) (o : obj) (h : heap)
    : result (nat * heap) :=
  let (p, h) := halloc o h in
  let* h := link r t p h in Ok (p, h).

Definition createStringObject (r : redisReader) (t : redisReadTask) (s : str) (h : heap)
    : result (nat * heap) :=
  if ((ttype t =? REDIS_REPLY_ERROR) || (ttype t =? REDIS_REPLY_STATUS) ||
      (ttype t =? REDIS_REPLY_STRING))%Z
  then create r t (MkObj (ttype t) 0 (Some s) 0 None) h
  else Undef AssertFailed.

Definition createArrayObject (r : redisReader) (t : redisReadTask) (elements : Z) (h : heap)
    : result (nat * heap) :=
  create r t
    (MkObj REDIS_REPLY_ARRAY 0 None elements
       (if (0 <? elements)%Z then Some (replicate (Z.to_nat elements) None) else None)) h.

Definition createIntegerObject (r : redisReader) (t : redisReadTask) (v : Z) (h : heap)
    : result (nat * heap) := create r t (MkObj REDIS_REPLY_INTEGER v None 0 None) h.

Definition createNilObject (r : redisReader) (t : redisReadTask) (h : heap)
    : result (nat * heap) := create r t (MkObj REDIS_REPLY_NIL 0 None 0 None) h.

(** ** Items *)

Definition fail (msg : str) (w : rworld) : result (Z * rworld) :=
  let* w := setError REDIS_ERR_PROTOCOL msg w in Ok (REDIS_ERR, w).

(** [if (r->ridx == 0) r->reply = obj; moveToNextTask(r); return REDIS_OK;] *)
Definition item_done (p : nat) (r : redisReader) (h : heap) : result (Z * rworld) :=
  let r := if (ridx r =? 0)%Z then set_reply (Some p) r else r in
  let* r := moveToNextTask r in Ok (REDIS_OK, (r, h)).

Definition processLineItem (w : rworld) : result (Z * rworld) :=
  let (r, h) := w in
  let* cur := get_task (ridx r) r in
  let* l := readLine r in
  match l with
  | None => Ok (REDIS_ERR, w)
  | Some (line, r) =>
      if (ttype cur =? REDIS_REPLY_INTEGER)%Z then
        match string2ll line with
        | None => fail "Bad integer value" (r, h)
        | Some v => let* (p, h) := createIntegerObject r cur v h in item_done p r h
        end
      else let* (p, h) := createStringObject r cur line h in item_done p r h
  end.

Definition processBulkItem (w : rworld) : result (Z * rworld) :=
  let (r, h) := w in
  let* cur := get_task (ridx r) r in
  let* s := rest r in
  match seekNewline s with
  | None => Ok (REDIS_ERR, w)
  | Some n =>
      let bytelen := (Z.of_nat n + 2)%Z in
      match string2ll (take n s) with
      | None => fail "Bad bulk string length" w
      | Some len =>
          if (len <? -1)%Z then fail "Bulk string length out of range" w
          else if (len =? -1)%Z then
            let* (p, h) := createNilObject r cur h in
            item_done p (set_pos (u64 (rpos r + bytelen)) r) h
          else if (2 ^ 63 - 1 <? len + 2)%Z then Undef SignedOverflow
          else
            let bytelen := u64 (bytelen + (len + 2)) in
            if (u64 (rpos r + bytelen) <=? rlen r)%Z then
              let* (p, h) := createStringObject r cur (take (Z.to_nat len) (drop (n + 2) s)) h in
              item_done p (set_pos (u64 (rpos r + bytelen)) r) h
            else Ok (REDIS_ERR, w)
      end
  end.

(** [cur->elements = elements; cur->obj = obj; r->ridx++] and the new task. *)
Definition push_task (cur : redisReadTask) (elements : Z) (p : nat) (r : redisReader)
    : redisReader :=
  let i := Z.to_nat (ridx r) in
  let r := set_task i (MkTask (ttype cur) elements (tidx cur) (Some p) (tparent cur)) r in
  set_ridx (ridx r + 1) (set_task (S i) (MkTask (-1) (-1) 0 None (Some i)) r).

Definition processMultiBulkItem (w : rworld) : result (Z * rworld) :=
  let (r, h) := w in
  let* cur := get_task (ridx r) r in
  if (ridx r =? 8)%Z then
    fail "No support for nested multi bulk replies with depth > 7" w
  else
    let* l := readLine r in
    match l with
    | None => Ok (REDIS_ERR, w)
    | Some (line, r) =>
        match string2ll line with
        | None => fail "Bad multi-bulk length" (r, h)
        | Some elements =>
            let root := (ridx r =? 0)%Z in
            if ((elements <? -1) || (INT_MAX <? elements))%Z
            then fail "Multi-bulk length out of range" (r, h)
            else
              let* (p, r, h) :=
                (if (elements =? -1)%Z then
                   let* (p, h) := createNilObject r cur h in
                   let* r := moveToNextTask r in Ok (p, r, h)
                 else
                   let* (p, h) := createArrayObject r cur elements h in
                   if (0 <? elements)%Z then Ok (p, push_task cur elements p r, h)
                   else let* r := moveToNextTask r in Ok (p, r, h)) in
              Ok (REDIS_OK, (if root then set_reply (Some p) r else r, h))
        end
    end.

Definition processItem (w : rworld) : result (Z * rworld) :=
  let (r, h) := w in
  let* cur := get_task (ridx r) r in
  let* w' :=
    (if (ttype cur <? 0)%Z then
       let* b := readByte r in
       match b with
       | None => Ok (inl w)                        (* could not consume 1 byte *)
       | Some (c, r) =>
           match type_of_byte c with
           | None => let* w := setErrorProtocolByte c (r, h) in Ok (inl w)
           | Some t =>
               let cur := MkTask t (telements cur) (tidx cur) (tobj cur) (tparent cur) in
               Ok (inr (t, (set_task (Z.to_nat (ridx r)) cur r, h)))
           end
       end
     else Ok (inr (ttype cur, w))) in
  match w' with
  | inl w => Ok (REDIS_ERR, w)
  | inr (t, w) =>
      if ((t =? REDIS_REPLY_ERROR) || (t =? REDIS_REPLY_STATUS) || (t =? REDIS_REPLY_INTEGER))%Z
      then processLineItem w
      else if (t =? REDIS_REPLY_STRING)%Z then processBulkItem w
      else if (t =? REDIS_REPLY_ARRAY)%Z then processMultiBulkItem w
      else Undef AssertFailed
  end.

(** ** The interface *)

Definition redisReaderFree (w : rworld) : result heap :=
  let (r, h) := w in
  match rreply r with Some _ => freeReplyObject (rreply r) h | None => Ok h end.

Definition redisReaderFeed (s : str) (r : redisReader) : result (Z * redisReader) :=
  if negb (rerr r =? 0)%Z then Ok (REDIS_ERR, r)
  else if (1 <=? slen s)%Z then
    match rbuf r with
    | None => Undef NullDeref
    | Some b =>
        let '(b, pos) :=
          if ((rlen r =? 0) && negb (maxbuf r =? 0) && (maxbuf r <? u64 (sdsavail b)))%Z
          then (sdsempty, 0%Z) else (b, rpos r) in
        let b := sdscatlen b s in
        Ok (REDIS_OK, set_buf b pos (sdslen b) r)
    end
  else Ok (REDIS_OK, r).

(** [while (r->ridx >= 0) if (processItem(r) != REDIS_OK) break;] *)
Fixpoint process_loop (fuel : nat) (w : rworld) : result rworld :=
  match fuel with
  | O => Undef OutOfBounds
  | S fuel' =>
      if (ridx w.1 <? 0)%Z then Ok w
      else
        let* (c, w) := processItem w in
        if (c =? REDIS_OK)%Z then process_loop fuel' w else Ok w
  end.

(** The value returned and [*reply].  Every item takes a byte, so that the bytes bound
  the iterations. *)
Definition redisReaderGetReply (w : rworld) : result (Z * option nat * rworld) :=
  let (r, h) := w in
  if negb (rerr r =? 0)%Z then Ok (REDIS_ERR, None, w)
  else if (rlen r =? 0)%Z then Ok (REDIS_OK, None, w)
  else
    let r := if (ridx r =? -1)%Z
             then set_ridx 0 (set_task 0 (MkTask (-1) (-1) (-1) None None) r) else r in
    let* (r, h) := process_loop (S (S (Z.to_nat (rlen r)))) (r, h) in
    if negb (rerr r =? 0)%Z then Ok (REDIS_ERR, None, (r, h))
    else
      let* r :=
        (if (1024 <=? rpos r)%Z then
           match rbuf r with
           | None => Undef NullDeref
           | Some b => let b := sdsrange b (i32 (rpos r)) (-1) in Ok (set_buf b 0 (sdslen b) r)
           end
         else Ok r) in
    if (ridx r =? -1)%Z then Ok (REDIS_OK, rreply r, (set_reply None r, h))
    else Ok (REDIS_OK, None, (r, h)).
