(* ===== verification/ReaderRefines.v ===== *)
(** The reader of [RedisReader] implements the machine of [Resp]: the objects of the reply
    being read lie in consecutive cells, the task stack describes the arrays that are open,
    every operation preserves this, and an error frees exactly what was built. *)

From S2P Require Import Prelude Sds CacheConn Resp RedisReader.

(** ** Objects in cells

    [rep m p r q]: the cells from [p] up to [q] hold exactly the reply [r], its root in [p];
    [reps m p l cps q]: they hold the replies [l], one after the other, rooted in [cps]. *)

Inductive rep (m : gmap nat obj) : nat → redisReply → nat → Prop :=
  | rep_leaf p t n s : m !! p = Some (MkObj t n s 0 None) → rep m p (MkReply t n s []) (S p)
  | rep_array p l cps q :
      l ≠ [] →
      m !! p = Some (MkObj REDIS_REPLY_ARRAY 0 None (Z.of_nat (length l)) (Some (Some <$> cps))) →
      reps m (S p) l cps q → rep m p (Array l) q
with reps (m : gmap nat obj) : nat → list redisReply → list nat → nat → Prop :=
  | reps_nil q : reps m q [] [] q
  | reps_cons p r q l cps q' : rep m p r q → reps m q l cps q' → reps m p (r :: l) (p :: cps) q'.

Scheme rep_mut := Minimality for rep Sort Prop
with reps_mut := Minimality for reps Sort Prop.
Combined Scheme rep_reps_ind from rep_mut, reps_mut.

(** Two stores agree between two cells. *)
Definition agree (m m' : gmap nat obj) (p q : nat) : Prop := ∀ a, p ≤ a < q → m' !! a = m !! a.

Lemma agree_sub m m' p q p' q' : agree m m' p q → p ≤ p' → q' ≤ q → agree m m' p' q'.
Proof. intros H ? ? a Ha. apply H. lia. Qed.

Lemma agree_insert m a o p q : (a < p ∨ q ≤ a) → agree m (<[a := o]> m) p q.
Proof. intros H b Hb. rewrite lookup_insert_ne by lia. done. Qed.

Lemma rep_bounds m :
  (∀ p r q, rep m p r q → p < q) ∧ (∀ p l cps q, reps m p l cps q → p ≤ q).
Proof. apply rep_reps_ind; intros; lia. Qed.

Lemma rep_lt m p r q : rep m p r q → p < q.
Proof. apply (proj1 (rep_bounds m)). Qed.

Lemma reps_le m p l cps q : reps m p l cps q → p ≤ q.
Proof. apply (proj2 (rep_bounds m)). Qed.

Lemma rep_reps_agree m m' :
  (∀ p r q, rep m p r q → agree m m' p q → rep m' p r q) ∧
  (∀ p l cps q, reps m p l cps q → agree m m' p q → reps m' p l cps q).
Proof.
  apply rep_reps_ind.
  - intros p t n s Hp Ha. apply rep_leaf. rewrite Ha by lia. done.
  - intros p l cps q Hl Hp Hr IH Ha. pose proof (reps_le _ _ _ _ _ Hr).
    eapply rep_array; [done| |apply IH; eapply agree_sub; [exact Ha|lia|lia]].
    rewrite Ha by lia. done.
  - intros q _. constructor.
  - intros p r q l cps q' Hr IHr Hl IHl Ha.
    pose proof (rep_lt _ _ _ _ Hr). pose proof (reps_le _ _ _ _ _ Hl).
    econstructor; [apply IHr|apply IHl]; (eapply agree_sub; [exact Ha|lia|lia]).
Qed.

Lemma rep_agree m m' p r q : rep m p r q → agree m m' p q → rep m' p r q.
Proof. apply (proj1 (rep_reps_agree m m')). Qed.

Lemma reps_agree m m' p l cps q : reps m p l cps q → agree m m' p q → reps m' p l cps q.
Proof. apply (proj2 (rep_reps_agree m m')). Qed.

Lemma reps_length m p l cps q : reps m p l cps q → length cps = length l.
Proof.
  revert p cps. induction l as [|r l IH]; intros p cps H; inversion H; subst; [done|].
  cbn [length]. f_equal. by eapply IH.
Qed.

Lemma reps_snoc m p l cps q r q' :
  reps m p l cps q → rep m q r q' → reps m p (l ++ [r]) (cps ++ [q]) q'.
Proof.
  revert p cps. induction l as [|x l IH]; intros p cps H Hr; inversion H; subst.
  - cbn. econstructor; [exact Hr|constructor].
  - cbn. econstructor; [done|]. by eapply IH.
Qed.

(** ** Freeing

    The shape that freeing needs, with pointers that may still be null: the cells from [p]
    up to [q] are an object and what it owns. *)

Inductive owned (m : gmap nat obj) : nat → nat → Prop :=
  | owned_leaf p o :
      m !! p = Some o → otype o ≠ REDIS_REPLY_ARRAY ∨ oelement o = None → owned m p (S p)
  | owned_array p o els q :
      m !! p = Some o → otype o = REDIS_REPLY_ARRAY → oelement o = Some els →
      oelements o = Z.of_nat (length els) →
      owneds m (S p) els q → owned m p q
with owneds (m : gmap nat obj) : nat → list (option nat) → nat → Prop :=
  | owneds_nil q : owneds m q [] q
  | owneds_null p els q : owneds m p els q → owneds m p (None :: els) q
  | owneds_cons p q els q' : owned m p q → owneds m q els q' → owneds m p (Some p :: els) q'.

Scheme owned_mut := Minimality for owned Sort Prop
with owneds_mut := Minimality for owneds Sort Prop.
Combined Scheme owned_owneds_ind from owned_mut, owneds_mut.

Lemma owned_bounds m :
  (∀ p q, owned m p q → p < q) ∧ (∀ p els q, owneds m p els q → p ≤ q).
Proof. apply owned_owneds_ind; intros; lia. Qed.

Lemma owned_lt m p q : owned m p q → p < q.
Proof. apply (proj1 (owned_bounds m)). Qed.

Lemma owneds_le m p els q : owneds m p els q → p ≤ q.
Proof. apply (proj2 (owned_bounds m)). Qed.

Lemma owned_owneds_agree m m' :
  (∀ p q, owned m p q → agree m m' p q → owned m' p q) ∧
  (∀ p els q, owneds m p els q → agree m m' p q → owneds m' p els q).
Proof.
  apply owned_owneds_ind.
  - intros p o Hp Ho Ha. eapply owned_leaf; [rewrite Ha by lia; exact Hp|done].
  - intros p o els q Hp Ht He Hn Hs IH Ha. pose proof (owneds_le _ _ _ _ Hs).
    eapply owned_array; [rewrite Ha by lia; exact Hp|done|done|done|].
    apply IH. eapply agree_sub; [exact Ha|lia|lia].
  - constructor.
  - intros p els q _ IH Ha. constructor. by apply IH.
  - intros p q els q' Hp IHp Hs IHs Ha.
    pose proof (owned_lt _ _ _ Hp). pose proof (owneds_le _ _ _ _ Hs).
    econstructor; [apply IHp|apply IHs]; (eapply agree_sub; [exact Ha|lia|lia]).
Qed.

Lemma owneds_agree m m' p els q : owneds m p els q → agree m m' p q → owneds m' p els q.
Proof. apply (proj2 (owned_owneds_agree m m')). Qed.

(** The store without the cells from [p] up to [q]. *)
Definition cleared (h : heap) (p q : nat) (h' : heap) : Prop :=
  hnext h' = hnext h ∧ ∀ a, cells h' !! a = if decide (p ≤ a < q) then None else cells h !! a.

Lemma cleared_refl h p : cleared h p p h.
Proof. split; [done|]. intros a. by rewrite decide_False by lia. Qed.

Lemma cleared_trans h p q r h1 h2 :
  p ≤ q → q ≤ r → cleared h p q h1 → cleared h1 q r h2 → cleared h p r h2.
Proof.
  intros ? ? [N1 H1] [N2 H2]. split; [congruence|]. intros a. rewrite H2, H1.
  repeat case_decide; try done; lia.
Qed.

Lemma cleared_agree h p q h' r : cleared h p q h' → agree (cells h) (cells h') q r.
Proof. intros [_ H] a Ha. rewrite H, decide_False by lia. done. Qed.

(** The root of what is freed goes last. *)
Lemma cleared_root h p q h' : cleared h (S p) q h' → p < q → cleared h p q (hdel p h').
Proof.
  intros [N H] Hpq. split; [done|]. intros a. cbn [cells hdel].
  destruct (decide (a = p)) as [->|]; [rewrite lookup_delete_eq, decide_True by lia; done|].
  rewrite lookup_delete_ne, H by done. repeat case_decide; try done; lia.
Qed.

Lemma free_owned_owneds m :
  (∀ p q, owned m p q → ∀ fuel h, agree m (cells h) p q → (q - p < fuel)%nat →
     ∃ h', free_fuel fuel (Some p) h = Ok h' ∧ cleared h p q h') ∧
  (∀ p els q, owneds m p els q → ∀ fuel h, agree m (cells h) p q → (q - p < fuel)%nat →
     ∃ h', free_elements (free_fuel fuel) els h = Ok h' ∧ cleared h p q h').
Proof.
  apply owned_owneds_ind.
  - intros p o Hp Ho fuel h Ha Hf. destruct fuel as [|fuel]; [lia|]. cbn [free_fuel hget].
    rewrite (Ha p), Hp by lia. cbn [rbind]. exists (hdel p h). split.
    + destruct (Z.eqb_spec (otype o) REDIS_REPLY_ARRAY); [|done].
      destruct Ho as [| ->]; done.
    + apply cleared_root; [apply cleared_refl|lia].
  - intros p o els q Hp Ht He Hn Hs IH fuel h Ha Hf. pose proof (owneds_le _ _ _ _ Hs).
    destruct fuel as [|fuel]; [lia|]. cbn [free_fuel hget].
    rewrite (Ha p), Hp by lia. cbn [rbind].
    rewrite Ht, Z.eqb_refl, He, Hn. rewrite (proj2 (Z.leb_le _ _)), Nat2Z.id, firstn_all by lia.
    destruct (IH fuel h) as (h' & -> & Hc); [eapply agree_sub; [exact Ha|lia|lia]|lia|].
    exists (hdel p h'). split; [done|]. by apply cleared_root; [|lia].
  - intros q fuel h _ _. exists h. split; [done|apply cleared_refl].
  - intros p els q Hs IH fuel h Ha Hf. destruct (IH fuel h Ha Hf) as (h' & Hh & Hc).
    exists h'. split; [|done]. cbn [free_elements]. destruct fuel as [|fuel]; [lia|]. exact Hh.
  - intros p q els q' Hp IHp Hs IHs fuel h Ha Hf.
    pose proof (owned_lt _ _ _ Hp). pose proof (owneds_le _ _ _ _ Hs).
    destruct (IHp fuel h) as (h1 & E1 & Hc1); [eapply agree_sub; [exact Ha|lia|lia]|lia|].
    destruct (IHs fuel h1) as (h2 & E2 & Hc2); [|lia|].
    { intros a Ha'. rewrite (cleared_agree h p q h1 q' Hc1) by lia. apply Ha. lia. }
    exists h2. cbn [free_elements]. rewrite E1. cbn [rbind]. split; [done|].
    eapply cleared_trans; [| |exact Hc1|exact Hc2]; lia.
Qed.

Lemma rep_reps_owned m :
  (∀ p r q, rep m p r q → owned m p q) ∧
  (∀ p l cps q, reps m p l cps q → owneds m p (Some <$> cps) q).
Proof.
  apply rep_reps_ind.
  - intros p t n s Hp. eapply owned_leaf; [done|by right].
  - intros p l cps q Hl Hp Hr IH. eapply owned_array; [done|done|done| |exact IH].
    cbn. by rewrite length_fmap, (reps_length _ _ _ _ _ Hr).
  - constructor.
  - intros p r q l cps q' _ Hp _ Hs. by econstructor.
Qed.

Lemma freeReplyObject_owned h p q :
  owned (cells h) p q → q ≤ hnext h →
  ∃ h', freeReplyObject (Some p) h = Ok h' ∧ cleared h p q h'.
Proof.
  intros Ho Hq. apply (proj1 (free_owned_owneds (cells h)) p q Ho); [done|].
  pose proof (owned_lt _ _ _ Ho). lia.
Qed.

(** ** The task stack

    [stk rs m lo fs x q]: the tasks [rs] below the current one and the cells from [lo] up to
    [q] are those of the open arrays [fs]; the element of the innermost one that is being
    read is [x]. *)

Abbreviation frame := (Z * list redisReply)%type.

Definition top_idx (fs : list frame) : Z :=
  match fs with [] => -1 | (_, l) :: _ => Z.of_nat (length l) end.
Definition top_parent (fs : list frame) : option nat :=
  match fs with [] => None | _ :: fs' => Some (length fs') end.

Definition arr (n : Z) (els : list (option nat)) : obj :=
  MkObj REDIS_REPLY_ARRAY 0 None n (Some els).

(** The pointers of an open array. *)
Definition slots (n : Z) (cps : list nat) (x : option nat) : list (option nat) :=
  (Some <$> cps) ++ x :: replicate (Z.to_nat n - length cps - 1) None.

Fixpoint stk (rs : list redisReadTask) (m : gmap nat obj) (lo : nat) (fs : list frame)
    (x : option nat) (q : nat) : Prop :=
  match fs with
  | [] => q = lo
  | (n, l) :: fs' => ∃ p cps t,
      stk rs m lo fs' (Some p) p ∧ reps m (S p) l cps q ∧ m !! p = Some (arr n (slots n cps x)) ∧
      (Z.of_nat (length l) < n ≤ INT_MAX)%Z ∧
      rs !! length fs' = Some t ∧ ttype t = REDIS_REPLY_ARRAY ∧ telements t = n ∧
      tobj t = Some p ∧ tidx t = top_idx fs' ∧ tparent t = top_parent fs'
  end.

Lemma stk_le rs m lo fs x q : stk rs m lo fs x q → lo ≤ q.
Proof.
  revert x q. induction fs as [|[n l] fs IH]; cbn [stk]; [lia|].
  intros x q (p & cps & t & Hs & Hr & _). apply IH in Hs. apply reps_le in Hr. lia.
Qed.

Lemma stk_agree rs m m' lo fs x q : stk rs m lo fs x q → agree m m' lo q → stk rs m' lo fs x q.
Proof.
  revert x q. induction fs as [|[n l] fs IH]; cbn [stk]; [done|].
  intros x q (p & cps & t & Hs & Hr & Hp & Ht) Ha.
  pose proof (stk_le _ _ _ _ _ _ Hs). pose proof (reps_le _ _ _ _ _ Hr).
  exists p, cps, t. split_and!; try apply Ht.
  - apply IH; [done|]. eapply agree_sub; [exact Ha|lia|lia].
  - eapply reps_agree; [exact Hr|]. eapply agree_sub; [exact Ha|lia|lia].
  - rewrite Ha by lia. done.
Qed.

Lemma stk_tasks rs rs' m lo fs x q :
  stk rs m lo fs x q → (∀ i, i < length fs → rs' !! i = rs !! i) → stk rs' m lo fs x q.
Proof.
  revert x q. induction fs as [|[n l] fs IH]; cbn [stk]; [done|].
  intros x q (p & cps & t & Hs & Hr & Hp & Hl & Ht & Hrest) Hi. cbn [length] in Hi.
  exists p, cps, t. split; [apply IH; [done|]; intros i ?; apply Hi; lia|].
  split; [done|]. split; [done|]. split; [done|]. split; [by rewrite Hi by lia|done].
Qed.

Lemma owneds_slots m p cps q x q' k :
  owneds m p (Some <$> cps) q → (x = None ∧ q' = q) ∨ (x = Some q ∧ owned m q q') →
  owneds m p ((Some <$> cps) ++ x :: replicate k None) q'.
Proof.
  intros Hs Hx.
  assert (∀ p, owneds m p (replicate k None) p) as Hk.
  { intros p'. induction k; cbn; by constructor. }
  revert p Hs. induction cps as [|c cps IH]; intros p Hs; inversion Hs; subst; cbn.
  - destruct Hx as [[-> ->]|[-> Ho]].
    + constructor. apply Hk.
    + econstructor; [exact Ho|apply Hk].
  - econstructor; [done|]. by apply IH.
Qed.

Lemma slots_length n cps x (l : list redisReply) :
  length cps = length l → (Z.of_nat (length l) < n)%Z → Z.of_nat (length (slots n cps x)) = n.
Proof.
  intros Hl Hn. unfold slots. rewrite length_app, length_fmap. cbn [length].
  rewrite length_replicate. lia.
Qed.

(** What is built so far can be freed from its root. *)
Lemma stk_owned rs m lo fs x q q' :
  stk rs m lo fs x q → (fs ≠ [] ∧ x = None ∧ q' = q) ∨ (x = Some q ∧ owned m q q') →
  owned m lo q'.
Proof.
  revert x q q'. induction fs as [|[n l] fs IH]; intros x q q' Hs Hx; cbn [stk] in Hs.
  { destruct Hx as [[]|[_ Ho]]; [done|]. by subst q. }
  destruct Hs as (p & cps & t & Hs & Hr & Hp & Hl & _).
  eapply IH; [exact Hs|]. right. split; [done|].
  eapply owned_array; [exact Hp|done|done| |].
  - cbn. by rewrite (slots_length n cps x l) by (done || by eapply reps_length || lia).
  - apply (owneds_slots _ _ _ q); [by apply (proj2 (rep_reps_owned m)) in Hr|].
    destruct Hx as [(_ & -> & ->)|[-> Ho]]; auto.
Qed.

(** The place in its array of the item being read. *)
Definition cur_ok (rs : list redisReadTask) (fs : list frame) (t : redisReadTask) : Prop :=
  rs !! length fs = Some t ∧ tidx t = top_idx fs ∧ tparent t = top_parent fs.

(** Creating an object for the item. *)
Lemma create_ok r t o h lo fs :
  stk (rstack r) (cells h) lo fs None (hnext h) → cur_ok (rstack r) fs t →
  let q := hnext h in
  ∃ m, create r t o h = Ok (q, MkHeap m (S q)) ∧ stk (rstack r) m lo fs (Some q) q ∧
    m !! q = Some o ∧ (∀ a, a < lo ∨ q < a → m !! a = cells h !! a).
Proof.
  intros Hs (Ht & Hi & Hp). set (q := hnext h). unfold create, halloc, link. fold q.
  assert (agree (cells h) (<[q := o]> (cells h)) lo q) as Ha by (apply agree_insert; lia).
  destruct fs as [|[n l] fs]; cbn [top_parent top_idx stk] in *.
  { rewrite Hp. cbn [rbind]. eexists. split; [done|]. split; [done|].
    split; [by rewrite lookup_insert_eq|].
    intros a Hne. rewrite lookup_insert_ne by lia. done. }
  destruct Hs as (p & cps & t' & Hs & Hr & Hm & Hl & Ht' & Hty & Hel & Hobj & Hrest).
  pose proof (stk_le _ _ _ _ _ _ Hs). pose proof (reps_le _ _ _ _ _ Hr).
  pose proof (reps_length _ _ _ _ _ Hr) as Hlen.
  rewrite Hp. unfold get_task. rewrite (proj2 (Z.ltb_ge _ 0)), Nat2Z.id, Ht' by lia. cbn [rbind].
  rewrite Hobj. cbn [hget cells]. rewrite lookup_insert_ne, Hm by lia. cbn [rbind].
  cbn [otype oelement oelements ointeger ostr arr]. rewrite Z.eqb_refl. cbn [negb].
  pose proof (slots_length n cps None l Hlen ltac:(lia)) as Hsl.
  rewrite Hi, (proj2 (Z.leb_le 0 _)), (proj2 (Z.ltb_lt _ _)) by lia. cbn [andb rbind hnext].
  assert (<[Z.to_nat (Z.of_nat (length l)) := Some q]> (slots n cps None) = slots n cps (Some q))
    as ->.
  { unfold slots. rewrite Nat2Z.id, insert_app_r_alt by (rewrite length_fmap; lia).
    rewrite length_fmap, Hlen, Nat.sub_diag. done. }
  eexists. split; [done|]. split; [|split].
  - exists p, cps, t'. split_and!; try done; try apply Hrest; try lia.
    + eapply stk_agree; [exact Hs|]. intros a Ha'. rewrite !lookup_insert_ne by lia. done.
    + eapply reps_agree; [exact Hr|]. intros a Ha'. rewrite !lookup_insert_ne by lia. done.
    + by rewrite lookup_insert_eq.
  - rewrite lookup_insert_ne, lookup_insert_eq by lia. done.
  - intros a Ha'. rewrite !lookup_insert_ne by lia. done.
Qed.

(** The reader with another stack. *)
Definition with_stack (rs : list redisReadTask) (i : Z) (r : redisReader) : redisReader :=
  MkReader (rerr r) (errstr r) (rbuf r) (rpos r) (rlen r) (maxbuf r) rs i (rreply r).

(** Finishing an item: the pointers are in place already, the tasks follow. *)
Lemma move_loop_close fuel r m lo fs rr q q' t :
  length fs < fuel → ridx r = Z.of_nat (length fs) →
  stk (rstack r) m lo fs (Some q) q → rep m q rr q' → cur_ok (rstack r) fs t →
  ∃ rs i, move_loop fuel r = Ok (with_stack rs i r) ∧ length rs = length (rstack r) ∧
    match close fs rr with
    | inr rr' => i = (-1)%Z ∧ rep m lo rr' q'
    | inl fs' =>
        i = Z.of_nat (length fs') ∧ length fs' ≤ length fs ∧ fs' ≠ [] ∧
        stk rs m lo fs' None q' ∧ ∃ t', cur_ok rs fs' t' ∧ ttype t' = (-1)%Z
    end.
Proof.
  revert fs r rr q t. induction fuel as [|fuel IH]; intros fs r rr q t Hf Hi Hs Hr Hc; [lia|].
  cbn [move_loop]. rewrite Hi, (proj2 (Z.ltb_ge _ 0)) by lia.
  destruct fs as [|[n l] fs].
  { cbn in Hs. subst q. exists (rstack r), (-1)%Z. cbn. auto. }
  rewrite (proj2 (Z.eqb_neq _ 0)) by (cbn [length]; lia).
  destruct Hc as (Ht & Hti & Htp). cbn [top_idx] in Hti.
  cbn [stk] in Hs. destruct Hs as (p & cps & t' & Hs & Hrs & Hm & Hl & Ht' & Hty & Hel & Hobj & Hc').
  unfold get_task. rewrite !(proj2 (Z.ltb_ge _ 0)) by (cbn [length]; lia).
  replace (Z.to_nat (Z.of_nat (length ((n, l) :: fs)) - 1)) with (length fs)
    by (cbn [length]; lia).
  rewrite Nat2Z.id, Ht, Ht'. cbn [rbind]. rewrite Hty, Z.eqb_refl, Hti, Hel. cbn [negb].
  pose proof (reps_length _ _ _ _ _ Hrs) as Hlen.
  destruct (Z.eqb_spec (Z.of_nat (length l)) (n - 1)) as [E|NE].
  - rewrite close_last by lia. cbn [length] in *.
    assert (rep m p (Array (l ++ [rr])) q') as Hrep.
    { eapply rep_array; [by destruct l| |by eapply reps_snoc].
      rewrite Hm. unfold arr. do 2 f_equal; [rewrite length_app; cbn; lia|].
      unfold slots. rewrite Hlen. replace (Z.to_nat n - length l - 1) with 0 by lia.
      by rewrite fmap_app. }
    destruct (IH fs (set_ridx (Z.of_nat (S (length fs)) - 1) r) (Array (l ++ [rr])) p t')
      as (rs & i & E' & Hlr & Hout); [lia|cbn; lia|done|done|by split|].
    exists rs, i. rewrite E'. split; [done|]. split; [done|].
    destruct (close fs _) as [fs'|rr']; [|done].
    destruct Hout as (? & ? & ?). split; [done|]. split; [lia|done].
  - rewrite close_snoc by lia. rewrite (proj2 (Z.ltb_lt _ n)) by lia. cbn [negb].
    pose proof (lookup_lt_Some _ _ _ Ht) as Hlt. cbn [length] in Hlt.
    exists (<[S (length fs) := MkTask (-1) (-1) (tidx t + 1) (tobj t) (tparent t)]> (rstack r)),
      (Z.of_nat (S (length fs))).
    split; [unfold set_task, with_stack; cbn [length]; by rewrite ?Hi, ?Nat2Z.id, ?Hti|].
    split; [by rewrite length_insert|]. cbn [length]. split; [done|]. split; [lia|].
    split; [done|]. split.
    + exists p, (cps ++ [q]), t'. split_and!; try apply Hc'; try done.
      * eapply stk_tasks; [exact Hs|]. intros j Hj. by rewrite list_lookup_insert_ne by lia.
      * by eapply reps_snoc.
      * rewrite Hm. unfold slots. rewrite length_app, fmap_app, Hlen, <- app_assoc. cbn [length].
        assert (∃ k, Z.to_nat n - length l - 1 = S k ∧ Z.to_nat n - (length l + 1) - 1 = k)
          as (k & -> & ->) by (exists (Z.to_nat n - length l - 2); lia).
        done.
      * rewrite length_app. cbn [length]. lia.
      * lia.
      * by rewrite list_lookup_insert_ne by lia.
    + exists (MkTask (-1) (-1) (tidx t + 1) (tobj t) (tparent t)). split; [|done].
      split; [by rewrite list_lookup_insert_eq by lia|]. cbn [tidx tparent top_idx]. rewrite Hti.
      split; [rewrite length_app; cbn [length]; lia|done].
Qed.

(** ** The relation with the machine *)

(** The bytes [u] are still to be read. *)
Definition buf_ok (r : redisReader) (u : str) : Prop :=
  ∃ b, rbuf r = Some b ∧ rlen r = sdslen b ∧ (0 ≤ rpos r ≤ rlen r)%Z ∧ (rlen r < 2 ^ 31)%Z ∧
       u = drop (Z.to_nat (rpos r)) (sbuf b).

(** The cells below [lo] are those of [m0], and there is nothing above [hi]. *)
Definition outside (m0 : gmap nat obj) (lo hi : nat) (m : gmap nat obj) : Prop :=
  (∀ a, a < lo → m !! a = m0 !! a) ∧ (∀ a, hi ≤ a → m !! a = None).

Definition is_type (t : Z) : Prop :=
  t = REDIS_REPLY_ERROR ∨ t = REDIS_REPLY_STATUS ∨ t = REDIS_REPLY_INTEGER ∨
  t = REDIS_REPLY_STRING ∨ t = REDIS_REPLY_ARRAY.

(** A reader in the middle of a reply whose objects start at [lo]. *)
Record rel (m0 : gmap nat obj) (lo : nat) (w : rworld) (st : astate) : Prop := Rel {
  rel_err : rerr w.1 = 0%Z;
  rel_buf : buf_ok w.1 (unread st);
  rel_len : length (rstack w.1) = 9;
  rel_depth : length (frames st) ≤ 8;
  rel_idx : ridx w.1 = Z.of_nat (length (frames st));
  rel_cur : ∃ t, cur_ok (rstack w.1) (frames st) t ∧ ttype t = default (-1)%Z (aty st);
  rel_ty : match aty st with Some t => is_type t | None => True end;
  rel_stk : stk (rstack w.1) (cells w.2) lo (frames st) None (hnext w.2);
  rel_reply : rreply w.1 = match frames st with [] => None | _ :: _ => Some lo end;
  rel_out : outside m0 lo (hnext w.2) (cells w.2)
}.

(** A reader between replies: what it has built is complete ([reply]) or nothing. *)
Record idle (m0 : gmap nat obj) (lo : nat) (reply : option redisReply) (w : rworld) (u : str)
    : Prop := Idle {
  idle_err : rerr w.1 = 0%Z;
  idle_buf : buf_ok w.1 u;
  idle_len : length (rstack w.1) = 9;
  idle_idx : ridx w.1 = (-1)%Z;
  idle_reply : match reply with
               | None => rreply w.1 = None ∧ hnext w.2 = lo
               | Some r => rreply w.1 = Some lo ∧ rep (cells w.2) lo r (hnext w.2)
               end;
  idle_out : outside m0 lo (hnext w.2) (cells w.2)
}.

(** A reader in an erroneous state: everything it had built is freed. *)
Record dead (m0 : gmap nat obj) (lo : nat) (e : str) (w : rworld) : Prop := Dead {
  dead_err : rerr w.1 = REDIS_ERR_PROTOCOL;
  dead_msg : errstr w.1 = take 127 (c_str e);
  dead_buf : rbuf w.1 = None;
  dead_reply : rreply w.1 = None;
  dead_out : outside m0 lo lo (cells w.2)
}.

Definition matches (m0 : gmap nat obj) (lo : nat) (o : astep_out) (w : rworld)
    (res : result (Z * rworld)) : Prop :=
  match o with
  | ANeed => res = Ok (REDIS_ERR, w)
  | AOverflow => res = Undef SignedOverflow
  | AFail e => ∃ w', res = Ok (REDIS_ERR, w') ∧ dead m0 lo e w'
  | AMore st' => ∃ w', res = Ok (REDIS_OK, w') ∧ rel m0 lo w' st'
  | ADone r u => ∃ w', res = Ok (REDIS_OK, w') ∧ idle m0 lo (Some r) w' u
  end.

(** *** Reading bytes *)

Lemma buf_ok_rest r u : buf_ok r u → rest r = Ok u.
Proof.
  intros (b & Hb & Hl & Hp & _ & ->). unfold rest. rewrite Hb, Hl in *.
  rewrite (proj2 (Z.leb_le 0 _)), !(proj2 (Z.leb_le _ (sdslen b))) by lia. cbn [andb]. f_equal.
  apply take_ge. rewrite length_drop. unfold sdslen, slen in *. lia.
Qed.

Lemma buf_ok_len r u : buf_ok r u → slen u = (rlen r - rpos r)%Z ∧ (0 ≤ rpos r)%Z ∧ (rlen r < 2 ^ 31)%Z.
Proof.
  intros (b & _ & Hl & Hp & Hm & ->). split; [|lia]. unfold sdslen, slen in *.
  rewrite length_drop. lia.
Qed.

Lemma buf_ok_advance r u n :
  buf_ok r u → n ≤ length u → buf_ok (set_pos (u64 (rpos r + Z.of_nat n)) r) (drop n u).
Proof.
  intros H Hn. pose proof (buf_ok_len _ _ H) as (Hu & _). destruct H as (b & Hb & Hl & Hp & Hm & ->).
  exists b. unfold slen in Hu. rewrite wrap_small by lia. cbn.
  split_and!; try done; [lia|lia|]. rewrite drop_drop. f_equal. lia.
Qed.

Lemma buf_ok_newline r u : buf_ok r u → seekNewline u = crlf u.
Proof. intros H. apply seekNewline_crlf. pose proof (buf_ok_len _ _ H). lia. Qed.

(** What does not concern the buffer. *)
Lemma buf_ok_stack r u rs i p : buf_ok r u → buf_ok (set_reply p (with_stack rs i r)) u.
Proof. done. Qed.

(** *** Errors *)

Lemma c_str_take n s : c_str (take n s) = take n (c_str s).
Proof.
  revert n. induction s as [|c s IH]; intros [|n]; try done. cbn.
  destruct (bool_decide _); [done|]. by rewrite IH.
Qed.

Lemma setError_dead m0 lo rs fs e r h :
  stk rs (cells h) lo fs None (hnext h) →
  rreply r = match fs with [] => None | _ :: _ => Some lo end →
  outside m0 lo (hnext h) (cells h) →
  ∃ w', setError REDIS_ERR_PROTOCOL e (r, h) = Ok w' ∧ dead m0 lo e w'.
Proof.
  intros Hs Hr [Hlo Hhi]. unfold setError. rewrite Hr. destruct fs as [|f fs].
  { cbn [rbind]. eexists. split; [done|]. cbn in Hs. split; try done. split; [done|]. intros a Ha. apply Hhi. lia. }
  pose proof (stk_owned _ _ _ _ _ _ (hnext h) Hs ltac:(by left)) as Ho.
  destruct (freeReplyObject_owned h lo (hnext h) Ho ltac:(lia)) as (h' & -> & _ & Hc).
  cbn [rbind]. eexists. split; [done|]. split; try done. cbn. split; intros a Ha; rewrite Hc.
  - rewrite decide_False by lia. by apply Hlo.
  - case_decide; [done|]. apply Hhi. lia.
Qed.

Lemma fail_dead m0 lo w st e r :
  rel m0 lo w st → rreply r = rreply w.1 →
  ∃ w', fail e (r, w.2) = Ok (REDIS_ERR, w') ∧ dead m0 lo e w'.
Proof.
  intros H Hr. destruct (setError_dead m0 lo (rstack w.1) (frames st) e r w.2)
    as (w' & E & Hd); [by apply H|by rewrite Hr; apply H|by apply H|].
  exists w'. unfold fail. by rewrite E.
Qed.

(** *** Complete items *)

Lemma item_done_ok m0 lo r h st t q m rr u p :
  rel m0 lo (r, h) st → cur_ok (rstack r) (frames st) t →
  stk (rstack r) m lo (frames st) (Some q) q → q = hnext h → rep m q rr (S q) →
  (∀ a, a < lo ∨ q < a → m !! a = cells h !! a) → buf_ok (set_pos p r) u → ∀ w,
  matches m0 lo (afinish (frames st) rr u) w (item_done q (set_pos p r) (MkHeap m (S q))).
Proof.
  intros H Ht Hs -> Hrep Hm Hb w. destruct H as [He _ Hlen Hd Hi _ _ Hst Hrp [Hlo Hhi]]; cbn in *.
  pose proof (stk_le _ _ _ _ _ _ Hst) as Hle.
  assert (outside m0 lo (S (hnext h)) m) as Ho.
  { split; intros a Ha; rewrite Hm by lia; [by apply Hlo|apply Hhi; lia]. }
  unfold item_done, moveToNextTask. cbn [ridx set_pos].
  set (r1 := if (ridx r =? 0)%Z then _ else _).
  assert (rstack r1 = rstack r ∧ ridx r1 = ridx r ∧ rerr r1 = rerr r ∧ buf_ok r1 u ∧
          rreply r1 = Some lo) as (E1 & E2 & E3 & E4 & E5).
  { unfold r1. destruct (Z.eqb_spec (ridx r) 0) as [E|E]; split_and!; try done.
    - destruct (frames st); [|cbn [length] in Hi; lia]. cbn in Hst. cbn. congruence.
    - cbn. rewrite Hrp. destruct (frames st); [cbn in Hi; lia|done]. }
  clearbody r1. rewrite <- E1 in Hs, Ht, Hlen. rewrite <- E2 in Hi.
  destruct (move_loop_close 10 r1 m lo (frames st) _ _ _ _ ltac:(lia) Hi Hs Hrep Ht)
    as (rs & i & -> & Hl & Hout).
  cbn [rbind]. unfold afinish. destruct (close (frames st) rr) as [fs'|rr'].
  - destruct Hout as (-> & Hlf & Hne & Hs' & t' & Ht' & Hty).
    exists (with_stack rs (Z.of_nat (length fs')) r1, MkHeap m (S (hnext h))). split; [done|].
    split; cbn; try done; try lia; [by eauto|]. rewrite E5. by destruct fs'.
  - destruct Hout as (-> & Hr').
    exists (with_stack rs (-1) r1, MkHeap m (S (hnext h))). split; [done|].
    split; cbn; try done; lia.
Qed.

Lemma leaf_done m0 lo r h st cur u p t n s w :
  rel m0 lo (r, h) st → cur_ok (rstack r) (frames st) cur → buf_ok (set_pos p r) u →
  matches m0 lo (afinish (frames st) (MkReply t n s []) u) w
    (let* (q, h) := create r cur (MkObj t n s 0 None) h in item_done q (set_pos p r) h).
Proof.
  intros H Hc Hb. destruct (create_ok r cur (MkObj t n s 0 None) h lo (frames st))
    as (m & -> & Hs & Hq & Hm); [by apply (rel_stk _ _ _ _ H)|done|]. cbn [rbind].
  eapply item_done_ok; [exact H|exact Hc|exact Hs|done|by apply rep_leaf|done|done].
Qed.

Lemma get_cur m0 lo r h st :
  rel m0 lo (r, h) st →
  ∃ cur, get_task (ridx r) r = Ok cur ∧ cur_ok (rstack r) (frames st) cur ∧
         ttype cur = default (-1)%Z (aty st).
Proof.
  intros H. destruct (rel_cur _ _ _ _ H) as (t & Ht & Hty). exists t. split; [|done].
  unfold get_task. pose proof (rel_idx _ _ _ _ H) as Hi. cbn in Hi.
  rewrite Hi, (proj2 (Z.ltb_ge _ 0)), Nat2Z.id by lia. by rewrite (proj1 Ht : rstack r !! _ = _).
Qed.

(** [readLine] takes the line and its end. *)
Lemma readLine_ok r u :
  buf_ok r u →
  readLine r = Ok (match crlf u with
                   | Some n => Some (take n u, set_pos (u64 (rpos r + Z.of_nat (n + 2))) r)
                   | None => None
                   end) ∧
  ∀ n, crlf u = Some n → buf_ok (set_pos (u64 (rpos r + Z.of_nat (n + 2))) r) (drop (n + 2) u).
Proof.
  intros H. unfold readLine. rewrite (buf_ok_rest _ _ H). cbn [rbind].
  rewrite (buf_ok_newline _ _ H). split.
  - destruct (crlf u) as [n|]; [|done]. do 4 f_equal. f_equal. lia.
  - intros n Hn. apply buf_ok_advance; [done|]. by apply crlf_bound.
Qed.

(** The same when the reader has already moved on. *)
Lemma leaf_done_pos m0 lo r h st cur u p t n s w :
  rel m0 lo (r, h) st → cur_ok (rstack r) (frames st) cur → buf_ok (set_pos p r) u →
  matches m0 lo (afinish (frames st) (MkReply t n s []) u) w
    (let* (q, h) := create (set_pos p r) cur (MkObj t n s 0 None) h in
     item_done q (set_pos p r) h).
Proof. exact (leaf_done m0 lo r h st cur u p t n s w). Qed.

Lemma processLineItem_ok m0 lo w st t :
  rel m0 lo w st → aty st = Some t → is_type t → t ≠ REDIS_REPLY_STRING → t ≠ REDIS_REPLY_ARRAY →
  matches m0 lo (aline (frames st) t (unread st)) w (processLineItem w).
Proof.
  destruct w as [r h]. intros H Ht Hty Hn1 Hn2.
  destruct (get_cur _ _ _ _ _ H) as (cur & E & Hc & Hct). rewrite Ht in Hct. cbn in Hct.
  unfold processLineItem, aline, with_line. rewrite E. cbn [rbind].
  destruct (readLine_ok r _ (rel_buf _ _ _ _ H)) as [-> Hb]. cbn [rbind fst] in *.
  destruct (crlf (unread st)) as [n|]; [|done]. specialize (Hb n eq_refl). rewrite Hct.
  destruct (Z.eqb_spec t REDIS_REPLY_INTEGER).
  - destruct (string2ll _) as [v|]; [by apply leaf_done_pos|].
    by apply (fail_dead m0 lo (r, h) st).
  - unfold createStringObject. rewrite Hct.
    assert (((t =? REDIS_REPLY_ERROR) || (t =? REDIS_REPLY_STATUS) ||
             (t =? REDIS_REPLY_STRING))%Z = true) as ->
      by (rewrite !orb_true_iff, !Z.eqb_eq; unfold is_type in Hty; tauto).
    by apply leaf_done_pos.
Qed.

Lemma processBulkItem_ok m0 lo w st :
  rel m0 lo w st → aty st = Some REDIS_REPLY_STRING →
  matches m0 lo (abulk (frames st) (unread st)) w (processBulkItem w).
Proof.
  destruct w as [r h]. intros H Ht.
  destruct (get_cur _ _ _ _ _ H) as (cur & E & Hc & Hct). rewrite Ht in Hct. cbn in Hct.
  pose proof (rel_buf _ _ _ _ H) as Hb. cbn in Hb.
  unfold processBulkItem, abulk, with_line. rewrite E. cbn [rbind].
  rewrite (buf_ok_rest _ _ Hb). cbn [rbind]. rewrite (buf_ok_newline _ _ Hb).
  destruct (crlf (unread st)) as [n|] eqn:En; [|done].
  pose proof (crlf_bound _ _ En) as Hn. pose proof (buf_ok_len _ _ Hb) as (Hu & Hp & Hm).
  destruct (string2ll _) as [len|] eqn:Es; [|by apply (fail_dead m0 lo (r, h) st)].
  apply string2ll_inv in Es as [_ Hlen].
  destruct (Z.ltb_spec len (-1)); [by apply (fail_dead m0 lo (r, h) st)|].
  destruct (Z.eqb_spec len (-1)) as [->|].
  { replace (Z.of_nat n + 2)%Z with (Z.of_nat (n + 2)) by lia.
    apply leaf_done; [done|done|]. by apply buf_ok_advance. }
  replace (2 ^ 63 - 1 <? len + 2)%Z with (2 ^ 63 - 3 <? len)%Z
    by (destruct (Z.ltb_spec (2 ^ 63 - 3) len), (Z.ltb_spec (2 ^ 63 - 1) (len + 2)); lia).
  destruct (Z.ltb_spec (2 ^ 63 - 3) len); [done|].
  unfold slen in Hu. rewrite (wrap_small 64 (Z.of_nat n + 2 + (len + 2))) by lia.
  rewrite (wrap_small 64 (rpos r + _)) by lia.
  replace (rpos r + (Z.of_nat n + 2 + (len + 2)) <=? rlen r)%Z
    with (len + 2 <=? slen (drop (n + 2) (unread st)))%Z.
  2: { unfold slen. rewrite length_drop.
       destruct (Z.leb_spec (len + 2) (Z.of_nat (length (unread st) - (n + 2)))),
         (Z.leb_spec (rpos r + (Z.of_nat n + 2 + (len + 2))) (rlen r)); lia. }
  destruct (Z.leb_spec (len + 2) (slen (drop (n + 2) (unread st)))) as [Hl|]; [|done].
  unfold createStringObject. rewrite Hct. cbn [orb Z.eqb Pos.eqb]. rewrite orb_true_r.
  unfold slen in Hl. rewrite length_drop in Hl. apply leaf_done; [done|done|].
  replace (rpos r + (Z.of_nat n + 2 + (len + 2)))%Z
    with (rpos r + Z.of_nat (n + 2 + Z.to_nat (len + 2)))%Z by lia.
  rewrite drop_drop. rewrite <- (wrap_small 64 (rpos r + _)) by lia.
  apply buf_ok_advance; [done|lia].
Qed.

(** [r->reply] may be set before or after the tasks move on. *)
Lemma move_loop_set_reply f x r :
  move_loop f (set_reply x r) = let* r' := move_loop f r in Ok (set_reply x r').
Proof.
  revert r. induction f as [|f IH]; intros r; [done|]. cbn [move_loop].
  change (ridx (set_reply x r)) with (ridx r).
  destruct (ridx r <? 0)%Z; [done|]. destruct (ridx r =? 0)%Z; [done|].
  change (get_task ?i (set_reply x r)) with (get_task i r).
  destruct (get_task (ridx r) r) as [cur| |]; [|done..].
  destruct (get_task (ridx r - 1) r) as [prv| |]; [|done..]. cbn [rbind].
  destruct (negb (ttype prv =? _)%Z); [done|]. destruct (tidx cur =? _)%Z; [|by destruct (negb _)].
  by rewrite <- IH.
Qed.

Lemma multi_done q r h :
  (let* (p, r', h) := (let* r' := moveToNextTask r in Ok (q, r', h)) in
   Ok (REDIS_OK, (if (ridx r =? 0)%Z then set_reply (Some p) r' else r', h))) = item_done q r h.
Proof.
  unfold item_done, moveToNextTask. destruct (ridx r =? 0)%Z.
  - rewrite move_loop_set_reply. by destruct (move_loop 10 r).
  - by destruct (move_loop 10 r).
Qed.

(** Opening an array. *)
Lemma push_ok m0 lo r h st cur n u p (q := hnext h) :
  rel m0 lo (r, h) st → cur_ok (rstack r) (frames st) cur → ttype cur = REDIS_REPLY_ARRAY →
  length (frames st) ≠ 8 → (0 < n ≤ INT_MAX)%Z → buf_ok (set_pos p r) u →
  ∃ m, create (set_pos p r) cur (arr n (replicate (Z.to_nat n) None)) h = Ok (q, MkHeap m (S q)) ∧
    let r' := push_task cur n q (set_pos p r) in
    rel m0 lo (if (ridx r =? 0)%Z then set_reply (Some q) r' else r', MkHeap m (S q))
      (MkA ((n, []) :: frames st) None u).
Proof.
  intros H Hc Hty H8 Hn Hb.
  destruct (create_ok (set_pos p r) cur (arr n (replicate (Z.to_nat n) None)) h lo (frames st))
    as (m & -> & Hs & Hq & Hm); [by apply (rel_stk _ _ _ _ H)|done|].
  exists m. split; [done|]. destruct H as [He _ Hlen Hd Hi _ _ Hst Hrp [Hlo Hhi]]; cbn in *.
  pose proof (stk_le _ _ _ _ _ _ Hst) as Hle. fold q in Hs, Hq, Hm, Hst |- *.
  destruct Hc as (Hcur & Hidx & Hpar).
  set (c := MkTask (ttype cur) n (tidx cur) (Some q) (tparent cur)).
  set (new := MkTask (-1) (-1) 0 None (Some (length (frames st)))).
  set (rs := <[S (length (frames st)) := new]> (<[length (frames st) := c]> (rstack r))).
  assert (push_task cur n q (set_pos p r) =
          with_stack rs (Z.of_nat (S (length (frames st)))) (set_pos p r)) as ->.
  { unfold push_task, set_ridx, set_task, with_stack, rs, c, new.
    cbn [set_pos rerr errstr rbuf rpos rlen maxbuf rstack ridx rreply].
    rewrite Hi, Nat2Z.id. replace (Z.of_nat (length (frames st)) + 1)%Z
      with (Z.of_nat (S (length (frames st)))) by lia. done. }
  assert (stk rs m lo ((n, []) :: frames st) None (S q)) as Hstk.
  { exists q, [], c. split_and!; try done; try lia.
    - eapply stk_tasks; [exact Hs|]. intros j Hj. unfold rs.
      by rewrite !list_lookup_insert_ne by lia.
    - constructor.
    - rewrite Hq. unfold arr, slots. cbn [fmap list_fmap app length].
      assert (∃ k, Z.to_nat n = S k) as [k ->] by (exists (Z.to_nat n - 1); lia).
      cbn [replicate Nat.sub]. by rewrite Nat.sub_0_r.
    - cbn. lia.
    - unfold rs. rewrite list_lookup_insert_ne, list_lookup_insert_eq by lia. done. }
  assert (outside m0 lo (S q) m) as Ho.
  { split; intros a Ha; rewrite Hm by lia; [by apply Hlo|apply Hhi; lia]. }
  split; cbn [fst snd frames aty unread]; try done.
  - by destruct (ridx r =? 0)%Z.
  - by destruct (ridx r =? 0)%Z.
  - destruct (ridx r =? 0)%Z; cbn; unfold rs; by rewrite !length_insert.
  - cbn [length]. lia.
  - by destruct (ridx r =? 0)%Z.
  - exists new. split; [|done]. split; [|done].
    destruct (ridx r =? 0)%Z; cbn [rstack set_reply with_stack length]; unfold rs;
      rewrite list_lookup_insert_eq; rewrite ?length_insert; (done || lia).
  - by destruct (ridx r =? 0)%Z.
  - destruct (Z.eqb_spec (ridx r) 0) as [E|E]; cbn.
    + destruct (frames st); [|cbn in *; lia]. cbn in Hst. congruence.
    + rewrite Hrp. destruct (frames st); [cbn in *; lia|done].
Qed.

Lemma processMultiBulkItem_ok m0 lo w st :
  rel m0 lo w st → aty st = Some REDIS_REPLY_ARRAY →
  matches m0 lo (amulti (frames st) (unread st)) w (processMultiBulkItem w).
Proof.
  destruct w as [r h]. intros H Ht.
  destruct (get_cur _ _ _ _ _ H) as (cur & E & Hc & Hct). rewrite Ht in Hct. cbn in Hct.
  pose proof (rel_idx _ _ _ _ H) as Hi. cbn in Hi.
  unfold processMultiBulkItem, amulti, with_line. rewrite E. cbn [rbind].
  replace (ridx r =? 8)%Z with (Nat.eqb (length (frames st)) 8)
    by (destruct (Nat.eqb_spec (length (frames st)) 8), (Z.eqb_spec (ridx r) 8); lia).
  destruct (Nat.eqb_spec (length (frames st)) 8); [by apply (fail_dead m0 lo (r, h) st)|].
  destruct (readLine_ok r _ (rel_buf _ _ _ _ H)) as [-> Hb]. cbn [rbind].
  destruct (crlf (unread st)) as [k|]; [|done]. specialize (Hb k eq_refl).
  destruct (string2ll _) as [v|]; [|by apply (fail_dead m0 lo (r, h) st)].
  destruct (_ || _) eqn:Hr; [by apply (fail_dead m0 lo (r, h) st)|].
  apply orb_false_iff in Hr as [Hr1%Z.ltb_ge Hr2%Z.ltb_ge].
  set (r1 := set_pos _ r) in *. set (q := hnext h).
  destruct (Z.eqb_spec v (-1)) as [->|].
  { pose proof (leaf_done_pos m0 lo r h st cur _ _ REDIS_REPLY_NIL 0 None (r, h) H Hc Hb) as Hd.
    fold r1 in Hd. unfold createNilObject. destruct (create r1 cur _ h) as [[q' h']| |];
      [|exact Hd..]. cbn [rbind] in *. rewrite multi_done. exact Hd. }
  destruct (Z.eqb_spec v 0) as [->|].
  { pose proof (leaf_done_pos m0 lo r h st cur _ _ REDIS_REPLY_ARRAY 0 None (r, h) H Hc Hb) as Hd.
    fold r1 in Hd. unfold createArrayObject. cbn [Z.ltb Z.compare].
    destruct (create r1 cur _ h) as [[q' h']| |]; [|exact Hd..].
    cbn [rbind] in *. rewrite multi_done. exact Hd. }
  destruct (push_ok m0 lo r h st cur v _ _ H Hc Hct ltac:(done) ltac:(lia) Hb)
    as (m & Em & Hrel). fold r1 q in Em, Hrel.
  unfold createArrayObject. rewrite (proj2 (Z.ltb_lt 0 v)) by lia.
  fold (arr v (replicate (Z.to_nat v) None)). rewrite Em. cbn [rbind].
  eexists. split; [done|]. exact Hrel.
Qed.

Lemma type_of_byte_is_type c t : type_of_byte c = Some t → is_type t ∧ (0 ≤ t)%Z.
Proof.
  unfold type_of_byte, is_type. intros H.
  repeat case_match; try done; injection H as <-; (split; [tauto|done]).
Qed.

(** The type byte. *)
Lemma readByte_ok r u :
  buf_ok r u →
  match u with
  | [] => readByte r = Ok None
  | c :: u' => ∃ r', readByte r = Ok (Some (c, r')) ∧ r' = set_pos (u64 (rpos r + 1)) r ∧
                     buf_ok r' u'
  end.
Proof.
  intros H. pose proof (buf_ok_len _ _ H) as (Hl & Hp & Hm). unfold readByte.
  rewrite wrap_small by (pose proof (slen_nonneg u); lia). rewrite <- Hl.
  destruct u as [|c u]; [done|]. rewrite (proj2 (Z.leb_le 1 _)) by slia.
  rewrite (buf_ok_rest _ _ H). cbn [rbind]. eexists. split_and!; [done|done|].
  apply (buf_ok_advance r (c :: u) 1 H). cbn. lia.
Qed.

Lemma rel_set_type m0 lo r h st cur t u p :
  rel m0 lo (r, h) st → cur_ok (rstack r) (frames st) cur → is_type t → buf_ok (set_pos p r) u →
  rel m0 lo (set_task (Z.to_nat (ridx r)) (MkTask t (telements cur) (tidx cur) (tobj cur)
               (tparent cur)) (set_pos p r), h) (MkA (frames st) (Some t) u).
Proof.
  intros H (Hc & Hci & Hcp) Ht Hb. destruct H as [He _ Hlen Hd Hi _ _ Hst Hrp Ho]; cbn in *.
  rewrite Hi, Nat2Z.id. split; cbn; try done.
  - by rewrite length_insert.
  - exists (MkTask t (telements cur) (tidx cur) (tobj cur) (tparent cur)). split; [|done]. split; [by rewrite list_lookup_insert_eq by lia|done].
  - eapply stk_tasks; [exact Hst|]. intros j Hj. by rewrite list_lookup_insert_ne by lia.
Qed.

(** [processItem] is one step of the machine, or two when it starts with the type. *)
Lemma processItem_ok m0 lo w st :
  rel m0 lo w st →
  ∃ st1 w1, (st1 = st ∨ astep st = AMore st1) ∧ rel m0 lo w1 st1 ∧
            matches m0 lo (astep st1) w1 (processItem w).
Proof.
  destruct w as [r h]. intros H. destruct (get_cur _ _ _ _ _ H) as (cur & E & Hc & Hct).
  unfold processItem. rewrite E. cbn [rbind]. rewrite Hct.
  assert (∀ t w1 st1, rel m0 lo w1 st1 → aty st1 = Some t → is_type t →
    matches m0 lo (astep st1) w1
      (if ((t =? REDIS_REPLY_ERROR) || (t =? REDIS_REPLY_STATUS) || (t =? REDIS_REPLY_INTEGER))%Z
       then processLineItem w1
       else if (t =? REDIS_REPLY_STRING)%Z then processBulkItem w1
       else if (t =? REDIS_REPLY_ARRAY)%Z then processMultiBulkItem w1
       else Undef AssertFailed)) as Htyped.
  { intros t w1 st1 H1 Ht1 Hty. unfold astep. rewrite Ht1.
    destruct Hty as [-> | [-> | [-> | [-> | ->]]]]; cbn [Z.eqb Pos.eqb orb];
      first [by apply processLineItem_ok; unfold is_type; auto
            |by apply processBulkItem_ok|by apply processMultiBulkItem_ok]. }
  destruct (aty st) as [t|] eqn:Ety; cbn [from_option]; unfold id.
  - pose proof (rel_ty _ _ _ _ H) as Hty. rewrite Ety in Hty.
    assert ((t <? 0)%Z = false) as Ht0
      by (apply Z.ltb_ge; destruct Hty as [-> | [-> | [-> | [-> | ->]]]]; done).
    exists st, (r, h). split; [by left|]. split; [done|]. rewrite Ht0. cbn [rbind].
    by apply Htyped.
  - pose proof (readByte_ok r _ (rel_buf _ _ _ _ H)) as Hb. cbn [Z.ltb Z.compare].
    destruct (unread st) as [|c u] eqn:Eu.
    { rewrite Hb. cbn [rbind]. exists st, (r, h). split; [by left|]. split; [done|].
      unfold astep. by rewrite Ety, Eu. }
    destruct Hb as (r' & -> & -> & Hb). cbn [rbind].
    destruct (type_of_byte c) as [t|] eqn:Et.
    + destruct (type_of_byte_is_type _ _ Et) as [Hty _].
      pose proof (rel_set_type m0 lo r h st cur t u _ H Hc Hty Hb) as Hrel.
      eexists (MkA (frames st) (Some t) u), _. split.
      { right. unfold astep. by rewrite Ety, Eu, Et. }
      cbn [rbind]. split; [exact Hrel|]. exact (Htyped t _ _ Hrel eq_refl Hty).
    + exists st, (r, h). split; [by left|]. split; [done|]. unfold astep. rewrite Ety, Eu, Et.
      destruct (setError_dead m0 lo (rstack r) (frames st) (take 127 (protocol_byte_error c))
        (set_pos (u64 (rpos r + 1)) r) h) as (w' & Ew & Hd);
        [apply (rel_stk _ _ _ _ H)|apply (rel_reply _ _ _ _ H)|apply (rel_out _ _ _ _ H)|].
      unfold setErrorProtocolByte. rewrite Ew. cbn [rbind]. exists w'. split; [done|].
      destruct Hd as [D1 D2 D3 D4 D5]. split; [exact D1| |exact D3|exact D4|exact D5].
      rewrite D2, c_str_take, take_take. change (127 `min` 127) with 127. reflexivity.
Qed.

(** Where the loop stops. *)
Definition run_matches (m0 : gmap nat obj) (lo : nat) (o : arun_out) (res : result rworld) : Prop :=
  match o with
  | RNeed st => ∃ w, res = Ok w ∧ rel m0 lo w st
  | ROverflow => res = Undef SignedOverflow
  | RFail e => ∃ w, res = Ok w ∧ dead m0 lo e w
  | RDone r u => ∃ w, res = Ok w ∧ idle m0 lo (Some r) w u
  end.

Lemma process_loop_ok m0 lo fuel w st :
  rel m0 lo w st → (S (length (unread st)) < fuel)%nat →
  run_matches m0 lo (arun st) (process_loop fuel w).
Proof.
  revert w st. induction fuel as [|fuel IH]; intros w st H Hf; [lia|]. cbn [process_loop].
  pose proof (rel_idx _ _ _ _ H) as Hi. rewrite Hi, (proj2 (Z.ltb_ge _ 0)) by lia.
  destruct (processItem_ok _ _ _ _ H) as (st1 & w1 & Hst1 & H1 & Hm).
  assert (arun st = arun st1 ∧ (length (unread st1) ≤ length (unread st))%nat) as [-> Hle].
  { destruct Hst1 as [-> | E]; [done|]. rewrite (arun_step st), E.
    apply astep_more in E. split; [done|lia]. }
  rewrite arun_step. destruct (astep st1) as [| |e|st2|rr u] eqn:E; cbn [matches] in Hm.
  - rewrite Hm. cbn. by eexists.
  - by rewrite Hm.
  - destruct Hm as (w' & -> & Hd). cbn. by eexists.
  - destruct Hm as (w' & -> & H2). cbn [rbind]. rewrite Z.eqb_refl.
    apply astep_more in E. apply IH; [done|lia].
  - destruct Hm as (w' & -> & Hd). cbn [rbind]. rewrite Z.eqb_refl.
    destruct fuel as [|fuel]; [lia|]. cbn [process_loop].
    rewrite (idle_idx _ _ _ _ _ Hd). cbn. by eexists.
Qed.

(** ** Between calls *)

(** A reader that waits for bytes, in the middle of a reply or between two. *)
Record waiting (m0 : gmap nat obj) (lo : nat) (w : rworld) (st : astate) : Prop := Waiting {
  waiting_state : rel m0 lo w st ∨ (frames st = [] ∧ aty st = None ∧ idle m0 lo None w (unread st));
  waiting_pos : (rpos w.1 < 1024)%Z;
  waiting_need : rlen w.1 = 0%Z → astep st = ANeed
}.

Lemma waiting_facts m0 lo w st :
  waiting m0 lo w st →
  rerr w.1 = 0%Z ∧ buf_ok w.1 (unread st) ∧ outside m0 lo (hnext w.2) (cells w.2).
Proof. intros [[H|(_ & _ & H)] _ _]; destruct H; done. Qed.

Definition heap_ok (h : heap) : Prop := ∀ a, hnext h ≤ a → cells h !! a = None.

Lemma waiting_start h :
  heap_ok h → waiting (cells h) (hnext h) (redisReaderCreate, h) (MkA [] None []).
Proof.
  intros Hh. split; [|done|done]. right. split; [done|]. split; [done|]. split; try done.
  exists sdsempty. done.
Qed.

(** *** [redisReaderFeed] *)

Lemma with_buf_waiting m0 lo r h st b p n s :
  rel m0 lo (r, h) st ∨ (frames st = [] ∧ aty st = None ∧ idle m0 lo None (r, h) (unread st)) →
  buf_ok (set_buf b p n r) (unread st ++ s) →
  rel m0 lo (set_buf b p n r, h) (app_st st s) ∨
  (frames (app_st st s) = [] ∧ aty (app_st st s) = None ∧
   idle m0 lo None (set_buf b p n r, h) (unread (app_st st s))).
Proof.
  intros [H|(Hf & Ha & H)] Hb.
  - left. destruct H. by split.
  - right. cbn. split; [done|]. split; [done|]. destruct H. by split.
Qed.

Lemma feed_ok m0 lo r h st s :
  waiting m0 lo (r, h) st → (slen (unread st) + slen s + 1024 < 2 ^ 31)%Z →
  ∃ r', redisReaderFeed s r = Ok (REDIS_OK, r') ∧ waiting m0 lo (r', h) (app_st st s).
Proof.
  intros H Hl. destruct (waiting_facts _ _ _ _ H) as (He & Hb & _). cbn in He, Hb.
  pose proof (waiting_pos _ _ _ _ H) as Hpos. cbn in Hpos.
  pose proof (buf_ok_len _ _ Hb) as (Hu & Hp & _). unfold redisReaderFeed. rewrite He.
  cbn [negb Z.eqb]. destruct (Z.leb_spec 1 (slen s)) as [Hs|Hs].
  2: { exists r. assert (s = []) as -> by (apply length_zero_iff_nil; unfold slen in *; lia).
       split; [done|]. unfold app_st. rewrite app_nil_r. by destruct st. }
  destruct Hb as (b & Hrb & Hrl & Hpl & Hm & Hun). rewrite Hrb.
  set (bp := if ((rlen r =? 0) && negb (maxbuf r =? 0) && (maxbuf r <? u64 (sdsavail b)))%Z
             then (sdsempty, 0%Z) else (b, rpos r)).
  assert (drop (Z.to_nat bp.2) (sbuf bp.1) = unread st ∧ (0 ≤ bp.2 ≤ sdslen bp.1)%Z ∧
          (bp.2 < 1024)%Z ∧ (sdslen bp.1 ≤ rlen r)%Z) as (H1 & H2 & H3 & H4).
  { unfold bp. destruct (_ && _) eqn:E; cbn [fst snd].
    - apply andb_true_iff in E as [E _]. apply andb_true_iff in E as [E%Z.eqb_eq _].
      assert (unread st = []) as -> by (apply length_zero_iff_nil; unfold slen in *; lia).
      change (sdslen sdsempty) with 0%Z. rewrite E. done.
    - rewrite <- Hrl, Hun. split; [done|lia]. }
  destruct bp as [b' p']. cbn [fst snd] in *.
  exists (set_buf (sdscatlen b' s) p' (sdslen (sdscatlen b' s)) r). split; [done|].
  assert (sdslen (sdscatlen b' s) = sdslen b' + slen s)%Z as Hlen
    by (unfold sdslen; by rewrite sbuf_catlen, slen_app).
  split; [|done|].
  - apply with_buf_waiting; [apply H|]. exists (sdscatlen b' s). cbn [rbuf rlen rpos set_buf]. rewrite Hlen.
    split_and!; try done; try lia. rewrite sbuf_catlen, drop_app_le by (unfold sdslen, slen in *; lia).
    by rewrite H1.
  - cbn [fst rlen set_buf]. rewrite Hlen. pose proof (slen_nonneg (sbuf b')).
    unfold sdslen. lia.
Qed.

(** *** [redisReaderGetReply] *)

(** The buffer is shortened when 1024 bytes were consumed. *)
Definition discard (r : redisReader) : result redisReader :=
  if (1024 <=? rpos r)%Z then
    match rbuf r with
    | None => Undef NullDeref
    | Some b => let b := sdsrange b (i32 (rpos r)) (-1) in Ok (set_buf b 0 (sdslen b) r)
    end
  else Ok r.

Lemma discard_ok r u :
  buf_ok r u →
  ∃ b p n, discard r = Ok (set_buf b p n r) ∧ buf_ok (set_buf b p n r) u ∧ (p < 1024)%Z ∧
           (n = 0 → u = [])%Z.
Proof.
  intros (b & Hb & Hl & Hp & Hm & ->). unfold discard. rewrite Hb.
  destruct (Z.leb_spec 1024 (rpos r)).
  - rewrite swrap_small by lia. set (b' := sdsrange b (rpos r) (-1)).
    assert (sbuf b' = drop (Z.to_nat (rpos r)) (sbuf b)) as E by (apply sdsrange_drop; lia).
    exists b', 0%Z, (sdslen b'). split; [done|]. split; [|split; [lia|]].
    + exists b'. cbn. split_and!; try done; unfold sdslen in *; rewrite ?E; unfold slen in *;
        rewrite ?length_drop; lia.
    + rewrite <- E. unfold sdslen, slen. intros. apply length_zero_iff_nil. lia.
  - exists b, (rpos r), (rlen r). assert (set_buf b (rpos r) (rlen r) r = r) as ->
      by (unfold set_buf; rewrite <- Hb; by destruct r).
    split; [done|]. split; [by exists b|]. split; [done|]. intros E. apply length_zero_iff_nil.
    rewrite length_drop. unfold sdslen, slen in *. lia.
Qed.

Definition reply_matches (m0 : gmap nat obj) (lo : nat) (o : arun_out)
    (res : result (Z * option nat * rworld)) : Prop :=
  match o with
  | RNeed st => ∃ w, res = Ok (REDIS_OK, None, w) ∧ waiting m0 lo w st
  | ROverflow => res = Undef SignedOverflow
  | RFail e => ∃ w, res = Ok (REDIS_ERR, None, w) ∧ dead m0 lo e w
  | RDone r u => ∃ w, res = Ok (REDIS_OK, Some lo, w) ∧ rep (cells w.2) lo r (hnext w.2) ∧
                      outside m0 lo (hnext w.2) (cells w.2) ∧
                      waiting (cells w.2) (hnext w.2) w (MkA [] None u)
  end.

Lemma rel_start m0 lo r h u :
  idle m0 lo None (r, h) u →
  rel m0 lo (set_ridx 0 (set_task 0 (MkTask (-1) (-1) (-1) None None) r), h) (MkA [] None u).
Proof.
  intros [He Hb Hl Hi [Hr Hh] Ho]. cbn in *. split; cbn; try done; [|lia|].
  - by rewrite length_insert.
  - exists (MkTask (-1) (-1) (-1) None None). split; [|done].
    split; [by rewrite list_lookup_insert_eq by (cbn; lia)|done].
Qed.

Lemma getReply_ok m0 lo w st :
  waiting m0 lo w st → reply_matches m0 lo (arun st) (redisReaderGetReply w).
Proof.
  destruct w as [r h]. intros H. destruct (waiting_facts _ _ _ _ H) as (He & Hb & _).
  cbn in He, Hb. pose proof (buf_ok_len _ _ Hb) as (Hu & Hp & Hm).
  unfold redisReaderGetReply. rewrite He. cbn [negb Z.eqb].
  destruct (Z.eqb_spec (rlen r) 0) as [E|E].
  { rewrite arun_step, (waiting_need _ _ _ _ H E). cbn. by eexists. }
  set (r1 := if (ridx r =? -1)%Z
             then set_ridx 0 (set_task 0 (MkTask (-1) (-1) (-1) None None) r) else r).
  assert (rel m0 lo (r1, h) st) as H1.
  { unfold r1. destruct (waiting_state _ _ _ _ H) as [Hr|(Hf & Ha & Hi)].
    - pose proof (rel_idx _ _ _ _ Hr) as Hi. cbn in Hi.
      by rewrite (proj2 (Z.eqb_neq _ _)) by lia.
    - pose proof (idle_idx _ _ _ _ _ Hi) as Hx. cbn in Hx. rewrite Hx. cbn [Z.eqb Pos.eqb].
      destruct st as [fs ty u]; cbn in *. subst. by apply rel_start. }
  clearbody r1. pose proof (process_loop_ok m0 lo (S (S (Z.to_nat (rlen r1)))) (r1, h) st H1) as Hr.
  pose proof (buf_ok_len _ _ (rel_buf _ _ _ _ H1)) as (Hu1 & Hp1 & _). cbn in Hu1, Hp1.
  specialize (Hr ltac:(unfold slen in Hu1; lia)).
  destruct (arun st) as [st'| |e|rr u] eqn:Ea; cbn [run_matches reply_matches] in *.
  - destruct Hr as ([r2 h2] & -> & H2). cbn [rbind].
    rewrite (rel_err _ _ _ _ H2 : rerr r2 = _). cbn [negb Z.eqb].
    fold (discard r2). destruct (discard_ok r2 _ (rel_buf _ _ _ _ H2)) as (b & p & n & -> & Hb2 & Hp2 & Hn).
    cbn [rbind set_buf ridx]. pose proof (rel_idx _ _ _ _ H2) as Hi. cbn in Hi.
    rewrite (proj2 (Z.eqb_neq (ridx r2) _)) by lia. eexists. split; [done|].
    split; [|done|intros _; by eapply arun_need_stuck].
    left. destruct H2. by split.
  - by rewrite Hr.
  - destruct Hr as ([r2 h2] & -> & H2). cbn [rbind].
    rewrite (dead_err _ _ _ _ H2 : rerr r2 = _). cbn. by eexists.
  - destruct Hr as ([r2 h2] & -> & H2). cbn [rbind].
    rewrite (idle_err _ _ _ _ _ H2 : rerr r2 = _). cbn [negb Z.eqb].
    fold (discard r2). destruct (discard_ok r2 _ (idle_buf _ _ _ _ _ H2)) as (b & p & n & -> & Hb2 & Hp2 & Hn).
    cbn [rbind set_buf ridx]. rewrite (idle_idx _ _ _ _ _ H2 : ridx r2 = _). cbn [Z.eqb Pos.eqb].
    destruct H2 as [E1 _ E3 E4 [E5 E6] E7]. cbn in *. eexists. split; [cbn; by rewrite E5|].
    split; [done|]. split; [done|]. split; cbn; [|done|intros Hz; by rewrite (Hn Hz)].
    right. split; [done|]. split; [done|]. split; cbn; try done. by destruct E7.
Qed.

(** ** Sequences of calls *)

Lemma arun_left st st' : arun st = RNeed st' → (length (unread st') ≤ length (unread st))%nat.
Proof.
  induction st as [st IH] using arun_ind. rewrite arun_step.
  destruct (astep st) as [| | |st1|] eqn:E; try done; [by intros [= <-]|].
  intros H. apply IH in H; [|done]. apply astep_more in E. lia.
Qed.

Lemma arun_done_left st r u : arun st = RDone r u → (length u ≤ length (unread st))%nat.
Proof.
  induction st as [st IH] using arun_ind. rewrite arun_step.
  destruct (astep st) as [| | |st1|] eqn:E; try done.
  - intros H. apply IH in H; [|done]. apply astep_more in E. lia.
  - intros [= -> ->]. pose proof (astep_left st ltac:(by rewrite E)) as Hl.
    rewrite E in Hl. cbn in Hl. lia.
Qed.

Lemma arun_stuck st st' : arun st = RNeed st' → arun st' = RNeed st'.
Proof. intros H. apply arun_need_stuck in H. by rewrite arun_step, H. Qed.

Lemma app_st_app st s t : app_st (app_st st s) t = app_st st (s ++ t).
Proof. unfold app_st. cbn. by rewrite app_assoc. Qed.

(** The bytes arrive in pieces; a reply is asked for after each, and the rest of the pieces
  is left when there is one. *)
Fixpoint read_chunks (chunks : list str) (w : rworld)
    : result (Z * option nat * list str * rworld) :=
  match chunks with
  | [] => Ok (REDIS_OK, None, [], w)
  | c :: cs =>
      let* (ok, r) := redisReaderFeed c w.1 in
      if negb (ok =? REDIS_OK)%Z then Ok (ok, None, cs, (r, w.2))
      else
        let* (ok, reply, w) := redisReaderGetReply (r, w.2) in
        match reply with
        | Some _ => Ok (ok, reply, cs, w)
        | None => if negb (ok =? REDIS_OK)%Z then Ok (ok, None, cs, w) else read_chunks cs w
        end
  end.

Lemma read_chunks_ok m0 lo w st chunks rr u :
  waiting m0 lo w st → (slen (unread st) + slen (concat chunks) + 1024 < 2 ^ 31)%Z →
  (∃ st', arun st = RNeed st') → arun (app_st st (concat chunks)) = RDone rr u →
  ∃ cs w' v, read_chunks chunks w = Ok (REDIS_OK, Some lo, cs, w') ∧
    rep (cells w'.2) lo rr (hnext w'.2) ∧ outside m0 lo (hnext w'.2) (cells w'.2) ∧
    waiting (cells w'.2) (hnext w'.2) w' (MkA [] None v) ∧ u = v ++ concat cs.
Proof.
  revert w st. induction chunks as [|c cs IH]; intros w st H Hl [st' Hst'] Hd.
  { unfold app_st in Hd. cbn [concat] in Hd. rewrite app_nil_r in Hd. destruct st. cbn in *.
    congruence. }
  cbn [concat read_chunks] in *. rewrite slen_app in Hl. pose proof (slen_nonneg (concat cs)).
  destruct w as [r h]. destruct (feed_ok _ _ _ _ _ c H) as (r' & E & H'); [lia|].
  cbn [fst snd]. rewrite E. cbn [rbind]. rewrite Z.eqb_refl. cbn [negb].
  pose proof (getReply_ok _ _ _ _ H') as Hg. rewrite <- app_st_app, arun_append in Hd.
  destruct (arun (app_st st c)) as [st2| |e|rr2 u2] eqn:Ea; try done; cbn [reply_matches] in Hg.
  - destruct Hg as (w2 & -> & H2). cbn [rbind]. rewrite Z.eqb_refl. cbn [negb].
    apply (IH w2 st2); [done| |exists st2; by eapply arun_stuck|done].
    apply arun_left in Ea. unfold slen in *. cbn [unread app_st] in Ea.
    rewrite length_app in Ea. lia.
  - injection Hd as -> <-. destruct Hg as (w2 & -> & Hrep & Ho & Hw). cbn [rbind].
    by exists cs, w2, u2.
Qed.

Lemma arun_empty : arun (MkA [] None []) = RNeed (MkA [] None []).
Proof. done. Qed.

Lemma arun_one rr u : wire 8 rr = true → arun (MkA [] None (encode rr ++ u)) = RDone rr u.
Proof. intros H. by rewrite (arun_encode rr 8) by (done || cbn; lia). Qed.

(** The reader refines the machine of the protocol: from any state between calls that
  corresponds to a state of the machine, feeding bytes and asking for a reply does what
  the machine does with these bytes: it waits in the corresponding state, reports the
  machine's error with everything it had built freed, or returns a pointer to objects
  that represent exactly the machine's reply, nothing else having been touched. *)
Theorem reader_refines m0 lo r h st s :
  waiting m0 lo (r, h) st → (slen (unread st) + slen s + 1024 < 2 ^ 31)%Z →
  ∃ r', redisReaderFeed s r = Ok (REDIS_OK, r') ∧
        reply_matches m0 lo (arun (app_st st s)) (redisReaderGetReply (r', h)).
Proof.
  intros H Hl. destruct (feed_ok _ _ _ _ _ s H Hl) as (r' & E & H').
  exists r'. split; [done|]. by apply getReply_ok.
Qed.

(** C14: Whatever a server can send as a reply, cut anywhere into pieces by the network, a
  new reader returns it once the last of its bytes has come: a pointer to objects in
  consecutive new cells that represent it, all others unchanged; and the bytes after the
  reply, in the reader or not yet read, are those the server sent after it. *)
Theorem reader_reads_any_cut h rr rest chunks :
  heap_ok h → wire 8 rr = true → concat chunks = encode rr ++ rest →
  (slen (encode rr ++ rest) + 1024 < 2 ^ 31)%Z →
  ∃ cs w v, read_chunks chunks (redisReaderCreate, h) = Ok (REDIS_OK, Some (hnext h), cs, w) ∧
    rep (cells w.2) (hnext h) rr (hnext w.2) ∧ (∀ a, a < hnext h → cells w.2 !! a = cells h !! a) ∧
    waiting (cells w.2) (hnext w.2) w (MkA [] None v) ∧ v ++ concat cs = rest.
Proof.
  intros Hh Hw Hc Hl.
  destruct (read_chunks_ok _ _ _ _ chunks rr rest (waiting_start h Hh)) as
    (cs & w & v & E & Hrep & [Ho _] & Hwait & ->).
  - rewrite Hc. change (slen (unread _)) with 0%Z. lia.
  - eexists. apply arun_empty.
  - unfold app_st. cbn [frames aty unread app]. rewrite Hc. by apply arun_one.
  - by exists cs, w, v.
Qed.

(** Any sequence of calls, with the replies returned. *)
Inductive rop : Type := OFeed (s : str) | OGet.

Fixpoint run_ops (ops : list rop) (w : rworld) : result (list nat * rworld) :=
  match ops with
  | [] => Ok ([], w)
  | OFeed s :: ops' =>
      let* (_, r) := redisReaderFeed s w.1 in run_ops ops' (r, w.2)
  | OGet :: ops' =>
      let* (_, reply, w) := redisReaderGetReply w in
      let* (l, w) := run_ops ops' w in
      Ok (match reply with Some p => p :: l | None => l end, w)
  end.

Definition fed (ops : list rop) : Z :=
  foldr (λ o n, match o with OFeed s => slen s + n | OGet => n end)%Z 0%Z ops.

(** What is left after some calls, [l] being the pointers returned: the replies lie one
  after the other from [start], nothing below has changed, and a reader that has failed
  owns nothing. *)
Definition calls_ok (m0 : gmap nat obj) (start : nat) (l : list nat) (w : rworld) : Prop :=
  ∃ vals lo, reps (cells w.2) start vals l lo ∧ (∀ a, a < start → cells w.2 !! a = m0 !! a) ∧
    ((rerr w.1 = 0%Z ∧ ∃ m st, waiting m lo w st) ∨
     (rerr w.1 = REDIS_ERR_PROTOCOL ∧ ∀ a, lo ≤ a → cells w.2 !! a = None)).

Lemma calls_ok_start m0 lo w st : waiting m0 lo w st → calls_ok m0 lo [] w.
Proof.
  intros H. destruct (waiting_facts _ _ _ _ H) as (He & _ & Ho & _).
  exists [], lo. split; [constructor|]. split; [done|]. left. split; [done|]. by exists m0, st.
Qed.

Lemma calls_ok_cons m0 lo p r q l w (m : gmap nat obj) :
  rep m lo r q → (∀ a, a < lo → m !! a = m0 !! a) → p = lo → calls_ok m q l w →
  calls_ok m0 lo (p :: l) w.
Proof.
  intros Hr Hm -> (vals & hi & Hs & Ho & Hst). pose proof (rep_lt _ _ _ _ Hr).
  exists (r :: vals), hi. split.
  - econstructor; [|exact Hs]. eapply rep_agree; [exact Hr|]. intros a Ha. apply Ho. lia.
  - split; [|done]. intros a Ha. rewrite Ho by lia. by apply Hm.
Qed.

(** A reader that has failed stays as it is. *)
Lemma run_ops_dead m0 lo e ops w :
  dead m0 lo e w → run_ops ops w = Ok ([], w).
Proof.
  intros H. destruct w as [r h]. pose proof (dead_err _ _ _ _ H : rerr r = _) as He.
  induction ops as [|[s|] ops IH]; [done|..]; cbn [run_ops fst snd];
    unfold redisReaderFeed, redisReaderGetReply; rewrite He;
    change (REDIS_ERR_PROTOCOL =? 0)%Z with false; cbn [negb rbind fst snd]; by rewrite IH.
Qed.

Lemma run_ops_waiting ops m0 lo w st :
  waiting m0 lo w st → (slen (unread st) + fed ops + 1024 < 2 ^ 31)%Z →
  run_ops ops w = Undef SignedOverflow ∨ ∃ l w', run_ops ops w = Ok (l, w') ∧ calls_ok m0 lo l w'.
Proof.
  assert (∀ ops, 0 ≤ fed ops)%Z as Hfed.
  { clear. induction ops as [|[s|] ops IH]; cbn [fed foldr] in *; [lia| |done].
    unfold fed in IH. pose proof (slen_nonneg s). lia. }
  revert m0 lo w st. induction ops as [|[s|] ops IH]; intros m0 lo w st H Hl.
  { right. eexists _, _. split; [done|]. by eapply calls_ok_start. }
  - destruct w as [r h]. change (fed (OFeed s :: ops)) with (slen s + fed ops)%Z in Hl.
    specialize (Hfed ops). destruct (feed_ok _ _ _ _ _ s H) as (r' & E & H'); [lia|].
    cbn [run_ops fst snd]. rewrite E. cbn [rbind]. eapply IH; [exact H'|].
    cbn [unread app_st]. rewrite slen_app. lia.
  - change (fed (OGet :: ops)) with (fed ops) in Hl. cbn [run_ops].
    pose proof (getReply_ok _ _ _ _ H) as Hg.
    destruct (arun st) as [st2| |e|rr u] eqn:Ea; cbn [reply_matches] in Hg.
    + destruct Hg as (w2 & -> & H2). cbn [rbind]. apply arun_left in Ea.
      destruct (IH m0 lo w2 st2 H2) as [->|(l & w' & -> & Hc)]; [unfold slen in *; lia|by left|].
      right. by exists l, w'.
    + left. by rewrite Hg.
    + destruct Hg as (w2 & -> & H2). cbn [rbind]. rewrite (run_ops_dead _ _ _ _ _ H2).
      right. exists [], w2. split; [done|]. destruct (dead_out _ _ _ _ H2) as [H3 H4].
      exists [], lo. split; [constructor|]. split; [done|]. right.
      split; [by eapply dead_err|done].
    + destruct Hg as (w2 & -> & Hr & [Ho _] & H2). cbn [rbind].
      pose proof (arun_done_left _ _ _ Ea) as Hu.
      destruct (IH _ _ _ _ H2) as [->|(l & w' & -> & Hc)]; [unfold slen in *; cbn [unread]; lia|by left|].
      right. exists (lo :: l), w'. split; [done|]. by eapply calls_ok_cons.
Qed.

(** C13: Memory safety of the reader: whatever bytes come in, in whatever pieces and with
  replies asked for at any time, as long as they stay below the [int] its offsets are kept
  in, no access leaves a buffer or an array, no null or freed object is used and no
  assertion fails; the only undefined behaviour is the overflow of a bulk string's
  announced length.  The replies returned are complete and stay unchanged, and after an
  error nothing else is left allocated. *)
Theorem reader_safe h ops :
  heap_ok h → (fed ops + 1024 < 2 ^ 31)%Z →
  run_ops ops (redisReaderCreate, h) = Undef SignedOverflow ∨
  ∃ l w, run_ops ops (redisReaderCreate, h) = Ok (l, w) ∧ calls_ok (cells h) (hnext h) l w.
Proof.
  intros Hh Hl. by apply (run_ops_waiting ops _ _ _ _ (waiting_start h Hh)).
Qed.

(** A bulk string announced with one of the two largest lengths makes the reader add 2
  to it, which overflows. *)
Theorem reader_length_overflow h n :
  heap_ok h → (n = 2 ^ 63 - 2 ∨ n = 2 ^ 63 - 1)%Z →
  run_ops [OFeed ("$" ++ to_string n ++ CRLF); OGet] (redisReaderCreate, h) =
    Undef SignedOverflow.
Proof.
  intros Hh Hn. cbn [run_ops fst snd].
  destruct (feed_ok _ _ _ _ _ ("$" ++ to_string n ++ CRLF) (waiting_start h Hh)) as (r' & E & H').
  { by destruct Hn as [-> | ->]. }
  rewrite E. cbn [rbind]. pose proof (getReply_ok _ _ _ _ H') as Hg.
  assert (arun (app_st (MkA [] None []) ("$" ++ to_string n ++ CRLF)) = ROverflow) as Ha
    by by destruct Hn as [-> | ->].
  rewrite Ha in Hg. cbn [reply_matches] in Hg. by rewrite Hg.
Qed.

(** ** Examples *)

Definition no_objects : heap := MkHeap ∅ 0.

Lemma no_objects_ok : heap_ok no_objects.
Proof. intros a _. apply lookup_empty. Qed.

Lemma reader_refines_witness :
  ∃ r' w, redisReaderFeed (":5" ++ CRLF) redisReaderCreate = Ok (REDIS_OK, r') ∧
    redisReaderGetReply (r', no_objects) = Ok (REDIS_OK, Some 0, w) ∧
    rep (cells w.2) 0 (Int 5) (hnext w.2).
Proof.
  destruct (reader_refines ∅ 0 redisReaderCreate no_objects (MkA [] None []) (":5" ++ CRLF)
    (waiting_start no_objects no_objects_ok) eq_refl) as (r' & E & H).
  assert (arun (app_st (MkA [] None []) (":5" ++ CRLF)) = RDone (Int 5) []) as Ha by reflexivity.
  rewrite Ha in H. destruct H as (w & Hw & Hr & _). exists r', w. exact (conj E (conj Hw Hr)).
Defined.

Lemma reader_reads_any_cut_witness :
  let chunks : list str :=
    ["*2" ++ CRLF ++ "$3" ++ CRLF ++ "ab"; "c" ++ CRLF ++ ":-7" ++ [CR]; LF :: "+O"; "K" ++ CRLF] in
  ∃ cs w v, read_chunks chunks (redisReaderCreate, no_objects) = Ok (REDIS_OK, Some 0, cs, w) ∧
    rep (cells w.2) 0 (Array [Text REDIS_REPLY_STRING "abc"; Int (-7)]) (hnext w.2) ∧
    v ++ concat cs = "+OK" ++ CRLF.
Proof.
  intros chunks.
  destruct (reader_reads_any_cut no_objects (Array [Text REDIS_REPLY_STRING "abc"; Int (-7)])
    ("+OK" ++ CRLF) chunks no_objects_ok eq_refl eq_refl eq_refl)
    as (cs & w & v & E & Hr & _ & _ & Hv).
  exists cs, w, v. exact (conj E (conj Hr Hv)).
Defined.

Lemma reader_safe_witness :
  let ops := [OFeed ("*2" ++ CRLF ++ ":1" ++ CRLF); OGet; OFeed "?"; OGet; OGet] in
  run_ops ops (redisReaderCreate, no_objects) = Undef SignedOverflow ∨
  ∃ l w, run_ops ops (redisReaderCreate, no_objects) = Ok (l, w) ∧ calls_ok ∅ 0 l w.
Proof. intros ops. exact (reader_safe no_objects ops no_objects_ok eq_refl). Defined.

Lemma reader_length_overflow_witness :
  run_ops [OFeed ("$9223372036854775806" ++ CRLF); OGet] (redisReaderCreate, no_objects) =
    Undef SignedOverflow.
Proof. exact (reader_length_overflow no_objects (2 ^ 63 - 2) no_objects_ok (or_introl eq_refl)). Defined.
