(* ===== verification/Hiredis.v ===== *)
(** [redis/hiredis.{h,c}] of the logic service: the connection context, its buffers and the
    blocking commands that [CacheConn] issues.

    The socket is a class.  A peer that speaks the protocol ([RedisPeer]) states what the
    theorems use of a Redis server behind a TCP connection: it answers each complete
    command, in order, and both directions may be cut anywhere and interrupted. *)

From S2P Require Import Prelude Sds CacheConn RedisFormat Resp RedisReader ReaderRefines.

(** ** The context *)

Class Socket (W : Type) : Type := {
  (* connect(2), with the value of [c->err] and [c->errstr] it leaves *)
  sock_connect : str → Z → W → (Z * str) * W;
  sock_close : W → W;
  (* read(2): the bytes, none at the end of the stream, or [errno] *)
  sock_read : nat → W → (str + Z) * W;
  (* write(2): how many bytes were taken, or [errno] *)
  sock_write : str → W → (Z + Z) * W;
  strerror : Z → str
}.

Record redisContext : Type := MkContext {
  cerr : Z;
  cerrstr : str;
  cblock : bool;              (* flags & REDIS_BLOCK *)
  obuf : sds;
  creader : redisReader
}.

Definition EINTR : Z := 4.
Definition EAGAIN : Z := 11.

Definition set_cerr (e : Z) (m : str) (c : redisContext) : redisContext :=
  MkContext e m (cblock c) (obuf c) (creader c).
Definition set_obuf (b : sds) (c : redisContext) : redisContext :=
  MkContext (cerr c) (cerrstr c) (cblock c) b (creader c).
Definition set_reader (r : redisReader) (c : redisContext) : redisContext :=
  MkContext (cerr c) (cerrstr c) (cblock c) (obuf c) r.

Definition redisContextInit : redisContext := MkContext 0 [] false sdsempty redisReaderCreate.

Section Hiredis.
Context {W : Type} `{SK : Socket W}.

(** A context, the store of its replies and the outside. *)
Definition hstate : Type := redisContext * heap * W.

(** [__redisSetError(c, type, str)]: [strlen] and the 127 bytes of [errstr]. *)
Definition redisSetError (type : Z) (msg : str) (s : hstate) : hstate :=
  let '(c, h, w) := s in (set_cerr type (take 127 (c_str msg)) c, h, w).
(** The same without a text: the one of [errno]. *)
Definition redisSetErrno (type err : Z) (s : hstate) : result hstate :=
  let '(c, h, w) := s in
  if negb (type =? REDIS_ERR_IO)%Z then Undef AssertFailed
  else Ok (set_cerr type (take 127 (strerror err)) c, h, w).

(** [redisConnectWithTimeout] *)
Definition redisConnectWithTimeout (ip : str) (port : Z) (h : heap) (w : W) : hstate :=
  let c := redisContextInit in
  let c := MkContext (cerr c) (cerrstr c) true (obuf c) (creader c) in
  let '((e, m), w) := sock_connect ip port w in
  (if (e =? 0)%Z then c else set_cerr e m c, h, w).

Definition redisFree (s : hstate) : result (heap * W) :=
  let '(c, h, w) := s in
  let* h := redisReaderFree (creader c, h) in Ok (h, sock_close w).

(** ** Buffers *)

Definition retry (c : redisContext) (err : Z) : bool :=
  ((err =? EAGAIN)%Z && negb (cblock c)) || (err =? EINTR)%Z.

Definition redisBufferRead (s : hstate) : result (Z * hstate) :=
  let '(c, h, w) := s in
  if negb (cerr c =? 0)%Z then Ok (REDIS_ERR, s)
  else
    let (res, w) := sock_read (1024 * 16) w in
    match res with
    | inr err =>
        if retry c err then Ok (REDIS_OK, (c, h, w))
        else let* s := redisSetErrno REDIS_ERR_IO err (c, h, w) in Ok (REDIS_ERR, s)
    | inl [] =>
        Ok (REDIS_ERR, redisSetError REDIS_ERR_EOF "Server closed the connection" (c, h, w))
    | inl buf =>
        let* (ok, r) := redisReaderFeed buf (creader c) in
        let s := (set_reader r c, h, w) in
        if negb (ok =? REDIS_OK)%Z
        then Ok (REDIS_ERR, redisSetError (rerr r) (errstr r) s)
        else Ok (REDIS_OK, s)
    end.

(** The value returned and [*done]. *)
Definition redisBufferWrite (s : hstate) : result (Z * bool * hstate) :=
  let '(c, h, w) := s in
  if negb (cerr c =? 0)%Z then Ok (REDIS_ERR, false, s)
  else
    let* (ok, s) :=
      (if (0 <? sdslen (obuf c))%Z then
         let (res, w) := sock_write (sbuf (obuf c)) w in
         match res with
         | inr err =>
             if retry c err then Ok (REDIS_OK, (c, h, w))
             else let* s := redisSetErrno REDIS_ERR_IO err (c, h, w) in Ok (REDIS_ERR, s)
         | inl n =>
             let nwritten := i32 n in
             if (0 <? nwritten)%Z then
               if (nwritten =? i32 (sdslen (obuf c)))%Z
               then Ok (REDIS_OK, (set_obuf sdsempty c, h, w))
               else Ok (REDIS_OK, (set_obuf (sdsrange (obuf c) nwritten (-1)) c, h, w))
             else Ok (REDIS_OK, (c, h, w))
         end
       else Ok (REDIS_OK, s)) in
    if negb (ok =? REDIS_OK)%Z then Ok (REDIS_ERR, false, s)
    else Ok (REDIS_OK, (sdslen (obuf s.1.1) =? 0)%Z, s).

(** ** Replies *)

Definition redisGetReplyFromReader (s : hstate) : result (Z * option nat * hstate) :=
  let '(c, h, w) := s in
  let* (ok, reply, (r, h)) := redisReaderGetReply (creader c, h) in
  let s := (set_reader r c, h, w) in
  if (ok =? REDIS_ERR)%Z then Ok (REDIS_ERR, None, redisSetError (rerr r) (errstr r) s)
  else Ok (REDIS_OK, reply, s).

(** [do ... while (!wdone)] and [do ... while (aux == NULL)], for so many iterations; they
  block as long as the peer does nothing. *)
Fixpoint write_loop (fuel : nat) (s : hstate) : result (Z * hstate) :=
  match fuel with
  | O => Undef OutOfBounds
  | S fuel' =>
      let* (ok, wdone, s) := redisBufferWrite s in
      if (ok =? REDIS_ERR)%Z then Ok (REDIS_ERR, s)
      else if wdone then Ok (REDIS_OK, s) else write_loop fuel' s
  end.

Fixpoint read_loop (fuel : nat) (s : hstate) : result (Z * option nat * hstate) :=
  match fuel with
  | O => Undef OutOfBounds
  | S fuel' =>
      let* (ok, s) := redisBufferRead s in
      if (ok =? REDIS_ERR)%Z then Ok (REDIS_ERR, None, s)
      else
        let* (ok, aux, s) := redisGetReplyFromReader s in
        if (ok =? REDIS_ERR)%Z then Ok (REDIS_ERR, None, s)
        else match aux with
             | Some _ => Ok (REDIS_OK, aux, s)
             | None => read_loop fuel' s
             end
  end.

Definition redisGetReply (fuel : nat) (s : hstate) : result (Z * option nat * hstate) :=
  let* (ok, aux, s) := redisGetReplyFromReader s in
  if (ok =? REDIS_ERR)%Z then Ok (REDIS_ERR, None, s)
  else
    match aux with
    | None =>
        if cblock s.1.1 then
          let* (ok, s) := write_loop fuel s in
          if (ok =? REDIS_ERR)%Z then Ok (REDIS_ERR, None, s) else read_loop fuel s
        else Ok (REDIS_OK, None, s)
    | Some _ => Ok (REDIS_OK, aux, s)
    end.

(** ** Commands *)

(** [__redisAppendCommand(c, cmd, len)]; [len] is an [int] given as a [size_t]. *)
Definition redisAppend (cmd : str) (len : Z) (s : hstate) : result (Z * hstate) :=
  let '(c, h, w) := s in
  let* bytes := mem_bytes cmd (u64 len) in
  Ok (REDIS_OK, (set_obuf (sdscatlen (obuf c) bytes) c, h, w)).

Definition redisvAppendCommand (format : str) (ap : va_list) (s : hstate) : result (Z * hstate) :=
  let* (len, cmd) := redisvFormatCommand format ap in
  if (len =? -1)%Z then Ok (REDIS_ERR, redisSetError REDIS_ERR_OOM "Out of memory" s)
  else if (len =? -2)%Z
  then Ok (REDIS_ERR, redisSetError REDIS_ERR_OTHER "Invalid format string" s)
  else redisAppend cmd len s.

Definition redisAppendCommandArgv (argv : list str) (argvlen : option (list Z)) (s : hstate)
    : result (Z * hstate) :=
  let* (len, cmd) := redisFormatSdsCommandArgv argv argvlen in
  if (len =? -1)%Z then Ok (REDIS_ERR, redisSetError REDIS_ERR_OOM "Out of memory" s)
  else redisAppend (sbuf cmd) len s.

(** [__redisBlockForReply] *)
Definition redisBlockForReply (fuel : nat) (s : hstate) : result (option nat * hstate) :=
  if cblock s.1.1 then
    let* (ok, reply, s) := redisGetReply fuel s in
    Ok (if (ok =? REDIS_OK)%Z then reply else None, s)
  else Ok (None, s).

Definition redisCommand (fuel : nat) (format : str) (ap : va_list) (s : hstate)
    : result (option nat * hstate) :=
  let* (ok, s) := redisvAppendCommand format ap s in
  if negb (ok =? REDIS_OK)%Z then Ok (None, s) else redisBlockForReply fuel s.

Definition redisCommandArgv (fuel : nat) (argv : list str) (argvlen : option (list Z))
    (s : hstate) : result (option nat * hstate) :=
  let* (ok, s) := redisAppendCommandArgv argv argvlen s in
  if negb (ok =? REDIS_OK)%Z then Ok (None, s) else redisBlockForReply fuel s.
End Hiredis.
Arguments hstate : clear implicits.

(** ** Using a reply: [CacheConn] reads it and frees it *)

Fixpoint replies_of (f : option nat → result redisReply) (l : list (option nat))
    : result (list redisReply) :=
  match l with
  | [] => Ok []
  | p :: l' => let* r := f p in let* rs := replies_of f l' in Ok (r :: rs)
  end.

Fixpoint reply_of_fuel (fuel : nat) (h : heap) (p : option nat) : result redisReply :=
  match fuel with
  | O => Undef OutOfBounds
  | S fuel' =>
      let* o := hget p h in
      let* l := replies_of (reply_of_fuel fuel' h) (default [] (oelement o)) in
      Ok (MkReply (otype o) (ointeger o) (ostr o) l)
  end.
Definition reply_of (h : heap) (p : option nat) : result redisReply :=
  reply_of_fuel (S (hnext h)) h p.

Section Call.
Context {W : Type} `{SK : Socket W}.

(** [reply = redisCommand(...); if (!reply) ...; ... freeReplyObject(reply);] *)
Definition use_reply (m : result (option nat * hstate W)) : result (option redisReply * hstate W) :=
  let* (p, s) := m in
  match p with
  | None => Ok (None, s)
  | Some _ =>
      let '(c, h, w) := s in
      let* r := reply_of h p in
      let* h := freeReplyObject p h in Ok (Some r, (c, h, w))
  end.

Definition call_argv (fuel : nat) (args : list str) (s : hstate W)
    : result (option redisReply * hstate W) :=
  use_reply (redisCommandArgv fuel args (Some (slen <$> args)) s).

Definition call_format (fuel : nat) (format : str) (ap : va_list) (s : hstate W)
    : result (option redisReply * hstate W) := use_reply (redisCommand fuel format ap s).
End Call.

(** ** A Redis server at the other end *)

(** [b] has arrived where [part] is the beginning of a command, in a state where replies
  [pend] wait and the data are [d]. *)
Definition received {D} (exec : list str → D → redisReply * D) (part b pend : str) (d : D)
    (part' pend' : str) (d' : D) : Prop :=
  ∀ args u, part ++ b ++ u = encode_command args →
    (slen (encode_command args) < 2 ^ 31)%Z →
    if bool_decide (u = []) then
      part' = [] ∧ pend' = pend ++ encode (exec args d).1 ∧ d' = (exec args d).2
    else part' = part ++ b ∧ pend' = pend ∧ d' = d.

(** [patience] bounds the number of interruptions that are still to come. *)
Class RedisPeer (W D : Type) `{Socket W} : Type := {
  exec : list str → D → redisReply * D;
  data : W → D;
  partial : W → str;
  pending : W → str;
  patience : W → nat;
  exec_wire args d : wire 8 (exec args d).1 = true;
  write_law s w : (0 < slen s < 2 ^ 31)%Z →
    match sock_write s w with
    | (inl n, w') =>
        (0 < n ≤ slen s)%Z ∧ patience w' ≤ patience w ∧
        received exec (partial w) (take (Z.to_nat n) s) (pending w) (data w)
          (partial w') (pending w') (data w')
    | (inr e, w') =>
        e = EINTR ∧ patience w' < patience w ∧ partial w' = partial w ∧
        pending w' = pending w ∧ data w' = data w
    end;
  read_law n w : 0 < n → pending w ≠ [] →
    match sock_read n w with
    | (inl b, w') =>
        b ≠ [] ∧ length b ≤ n ∧ patience w' ≤ patience w ∧ pending w = b ++ pending w' ∧
        partial w' = partial w ∧ data w' = data w
    | (inr e, w') =>
        e = EINTR ∧ patience w' < patience w ∧ partial w' = partial w ∧
        pending w' = pending w ∧ data w' = data w
    end
}.

Section Refinement.
Context {W D : Type} `{SK : Socket W} `{RP : !RedisPeer W D}.

(** Nothing is under way. *)
Record conn_idle (s : hstate W) : Prop := Conn {
  conn_err : cerr s.1.1 = 0%Z;
  conn_block : cblock s.1.1 = true;
  conn_obuf : sbuf (obuf s.1.1) = [];
  conn_reader : waiting (cells s.1.2) (hnext s.1.2) (creader s.1.1, s.1.2) (MkA [] None []);
  conn_partial : partial s.2 = [];
  conn_pending : pending s.2 = []
}.

(** *** Sending *)

Lemma sdslen_zero b : sdslen b = 0%Z ↔ sbuf b = [].
Proof.
  unfold sdslen, slen. split; [intros; apply length_zero_iff_nil; lia|by intros ->].
Qed.

(** One round of the loop sends some bytes, or is interrupted. *)
Lemma buffer_write_ok c h w args :
  cerr c = 0%Z → cblock c = true → sbuf (obuf c) ≠ [] → (sdslen (obuf c) < 2 ^ 31)%Z →
  (slen (encode_command args) < 2 ^ 31)%Z →
  pending w = [] → partial w ++ sbuf (obuf c) = encode_command args →
  ∃ b w', redisBufferWrite (c, h, w) = Ok (REDIS_OK, bool_decide (sbuf b = []), (set_obuf b c, h, w')) ∧
    (length (sbuf b) + patience w' < length (sbuf (obuf c)) + patience w)%nat ∧
    patience w' ≤ patience w ∧ (sdslen b ≤ sdslen (obuf c))%Z ∧
    if bool_decide (sbuf b = [])
    then partial w' = [] ∧ pending w' = encode (exec args (data w)).1 ∧
         data w' = (exec args (data w)).2
    else partial w' ++ sbuf b = encode_command args ∧ pending w' = [] ∧ data w' = data w.
Proof.
  intros He Hb Hne Hl Hsz Hp Hc. set (u := sbuf (obuf c)) in *.
  assert (0 < slen u)%Z as Hu by (destruct u; [done|slia]).
  unfold redisBufferWrite. rewrite He. cbn [negb Z.eqb].
  change (sdslen (obuf c)) with (slen u) in *. rewrite (proj2 (Z.ltb_lt 0 _)) by lia. fold u.
  pose proof (write_law u w ltac:(lia)) as Hw. destruct (sock_write u w) as [[n|e] w'].
  - destruct Hw as (Hn & Hpat & Hr). rewrite !swrap_small by lia.
    rewrite (proj2 (Z.ltb_lt 0 n)) by lia.
    specialize (Hr args (drop (Z.to_nat n) u)). rewrite take_drop in Hr. specialize (Hr Hc Hsz).
    destruct (Z.eqb_spec n (slen u)) as [E|NE].
    + rewrite drop_ge in Hr by (unfold slen in E; lia). cbn in Hr. rewrite Hp in Hr.
      exists sdsempty, w'. split; [done|]. cbn. unfold slen in *. split; [lia|].
      split; [done|]. split; [unfold sdslen, slen; cbn; lia|done].
    + rewrite bool_decide_false in Hr.
      2: { intros E. apply (f_equal length) in E. rewrite length_drop in E. cbn in E.
           unfold slen in *. lia. }
      assert (sbuf (sdsrange (obuf c) n (-1)) = drop (Z.to_nat n) u) as Hd
        by (apply sdsrange_drop; change (sdslen (obuf c)) with (slen u); lia).
      assert (drop (Z.to_nat n) u ≠ []) as Hdn.
      { intros E. apply (f_equal length) in E. rewrite length_drop in E. cbn in E.
        unfold slen in *. lia. }
      exists (sdsrange (obuf c) n (-1)), w'. cbn [rbind]. rewrite Hd, bool_decide_false by done.
      split.
      { cbn [negb Z.eqb REDIS_OK fst obuf set_obuf]. do 3 f_equal. apply Z.eqb_neq.
        intros E%sdslen_zero. congruence. }
      destruct Hr as (-> & -> & ->). rewrite length_drop. unfold slen in *.
      split; [lia|]. split; [done|]. split.
      { unfold sdslen, slen. rewrite Hd, length_drop. lia. }
      split; [|done]. rewrite <- Hc, <- app_assoc. by rewrite take_drop.
  - destruct Hw as (-> & Hpat & E1 & E2 & E3). unfold retry. rewrite orb_true_r.
    exists (obuf c), w'. cbn [rbind negb Z.eqb REDIS_OK fst]. fold u.
    rewrite bool_decide_false by done. split.
    { assert (set_obuf (obuf c) c = c) as -> by by destruct c. do 3 f_equal. apply Z.eqb_neq.
      change (sdslen (obuf c)) with (slen u). lia. }
    split; [lia|]. split; [lia|]. split; [done|]. rewrite E1, E2, E3. done.
Qed.

Lemma write_loop_ok fuel c h w args :
  cerr c = 0%Z → cblock c = true → sbuf (obuf c) ≠ [] → (sdslen (obuf c) < 2 ^ 31)%Z →
  (slen (encode_command args) < 2 ^ 31)%Z →
  pending w = [] → partial w ++ sbuf (obuf c) = encode_command args →
  (length (sbuf (obuf c)) + patience w < fuel)%nat →
  ∃ b w', write_loop fuel (c, h, w) = Ok (REDIS_OK, (set_obuf b c, h, w')) ∧ sbuf b = [] ∧
    patience w' ≤ patience w ∧ partial w' = [] ∧ pending w' = encode (exec args (data w)).1 ∧
    data w' = (exec args (data w)).2.
Proof.
  revert c w. induction fuel as [|fuel IH]; intros c w He Hb Hne Hl Hsz Hp Hc Hf; [lia|].
  cbn [write_loop].
  destruct (buffer_write_ok c h w args He Hb Hne Hl Hsz Hp Hc) as (b & w' & -> & Hm & Hpat & Hlb & Hx).
  cbn [rbind REDIS_OK REDIS_ERR Z.eqb]. destruct (bool_decide_reflect (sbuf b = [])) as [E|E].
  - exists b, w'. tauto.
  - destruct Hx as (Hx1 & Hx2 & Hx3).
    destruct (IH (set_obuf b c) w') as (b2 & w2 & -> & ? & ? & ? & ? & ?); try done; [cbn; lia|cbn; lia|].
    exists b2, w2. rewrite <- Hx3. split; [done|]. split; [done|]. split; [lia|done].
Qed.

(** *** Receiving *)

Lemma getFromReader_ok m0 lo c h (w : W) st :
  waiting m0 lo (creader c, h) st →
  match arun st with
  | RNeed st' => ∃ r' h', redisGetReplyFromReader (c, h, w) =
                            Ok (REDIS_OK, None, (set_reader r' c, h', w)) ∧
                          waiting m0 lo (r', h') st'
  | RDone rr u => ∃ r' h', redisGetReplyFromReader (c, h, w) =
                             Ok (REDIS_OK, Some lo, (set_reader r' c, h', w)) ∧
                           rep (cells h') lo rr (hnext h') ∧ outside m0 lo (hnext h') (cells h') ∧
                           waiting (cells h') (hnext h') (r', h') (MkA [] None u)
  | _ => True
  end.
Proof.
  intros H. pose proof (getReply_ok _ _ _ _ H) as Hg. unfold redisGetReplyFromReader.
  destruct (arun st) as [st'| | |rr u]; try done; cbn [reply_matches] in Hg.
  - destruct Hg as ([r' h'] & -> & Hw). by exists r', h'.
  - destruct Hg as ([r' h'] & -> & Hr & Ho & Hw). by exists r', h'.
Qed.

(** The loop ends with the reply that is on its way, when nothing follows it. *)
Lemma read_loop_ok fuel m0 lo c h w st rr :
  cerr c = 0%Z → cblock c = true → waiting m0 lo (creader c, h) st →
  (∃ st', arun st = RNeed st') → arun (app_st st (pending w)) = RDone rr [] →
  (slen (unread st) + slen (pending w) + 1024 < 2 ^ 31)%Z →
  (length (pending w) + patience w < fuel)%nat →
  ∃ r' h' w', read_loop fuel (c, h, w) = Ok (REDIS_OK, Some lo, (set_reader r' c, h', w')) ∧
    rep (cells h') lo rr (hnext h') ∧ outside m0 lo (hnext h') (cells h') ∧
    waiting (cells h') (hnext h') (r', h') (MkA [] None []) ∧
    pending w' = [] ∧ partial w' = partial w ∧ data w' = data w ∧ patience w' ≤ patience w.
Proof.
  revert c h w st. induction fuel as [|fuel IH]; intros c h w st He Hb Hw Hn Hd Hl Hf; [lia|].
  cbn [read_loop]. unfold redisBufferRead. rewrite He. cbn [negb Z.eqb].
  assert (pending w ≠ []) as Hp.
  { intros E. rewrite E in Hd. destruct Hn as [st' Hst']. unfold app_st in Hd.
    rewrite app_nil_r in Hd. destruct st; cbn in *; congruence. }
  pose proof (read_law (1024 * 16) w ltac:(lia) Hp) as Hr.
  destruct (sock_read (1024 * 16) w) as [[b|e] w1].
  2: { destruct Hr as (-> & Hpat & E1 & E2 & E3). unfold retry. rewrite orb_true_r. cbn [rbind].
       change (REDIS_OK =? REDIS_ERR)%Z with false. cbv iota.
       pose proof (getFromReader_ok m0 lo c h w1 st Hw) as Hg. destruct Hn as [st' Hst'].
       rewrite Hst' in Hg. destruct Hg as (r' & h' & -> & Hw'). cbn [rbind].
       change (REDIS_OK =? REDIS_ERR)%Z with false. cbv iota.
       destruct (IH (set_reader r' c) h' w1 st') as (r2 & h2 & w2 & E & ? & ? & ? & ? & ? & ? & ?);
         try done.
       - exists st'. by eapply arun_stuck.
       - rewrite E2. by rewrite arun_append, Hst' in Hd.
       - rewrite E2. apply arun_left in Hst'. unfold slen in *. lia.
       - rewrite E2. lia.
       - exists r2, h2, w2. rewrite E. split_and!; try done; [congruence|congruence|lia]. }
  destruct Hr as (Hbn & _ & Hpat & Hpe & Hpa & Hda). rewrite Hpe in Hd, Hl.
  rewrite slen_app in Hl. pose proof (slen_nonneg (pending w1)).
  destruct (feed_ok _ _ _ _ _ b Hw) as (r1 & E1 & Hw1); [lia|].
  destruct b as [|x b]; [done|]. rewrite E1. cbn [rbind].
  change (REDIS_OK =? REDIS_OK)%Z with true. cbn [negb rbind].
  change (REDIS_OK =? REDIS_ERR)%Z with false. cbv iota.
  pose proof (getFromReader_ok m0 lo (set_reader r1 c) h w1 _ Hw1) as Hg.
  rewrite <- app_st_app, arun_append in Hd.
  destruct (arun (app_st st (x :: b))) as [st2| | |rr2 u2] eqn:Ea; try done.
  - destruct Hg as (r' & h' & -> & Hw'). cbn [rbind].
    change (REDIS_OK =? REDIS_ERR)%Z with false. cbv iota.
    change (set_reader r' (set_reader r1 c)) with (set_reader r' c).
    assert (length (pending w) = S (length b) + length (pending w1))%nat as Hlen
      by (rewrite Hpe, length_app; done).
    destruct (IH (set_reader r' c) h' w1 st2) as (r2 & h2 & w2 & E & ? & ? & ? & ? & ? & ? & ?);
      try done.
    + exists st2. by eapply arun_stuck.
    + apply arun_left in Ea. cbn [unread app_st] in Ea. rewrite length_app in Ea.
      unfold slen in *. lia.
    + lia.
    + exists r2, h2, w2. rewrite E. split_and!; try done; [congruence|congruence|lia].
  - destruct Hg as (r' & h' & -> & Hrep & Ho & Hw'). cbn [rbind].
    change (REDIS_OK =? REDIS_ERR)%Z with false. cbv iota.
    injection Hd as -> Hu. apply app_eq_nil in Hu as [-> Hu].
    exists r', h', w1. split_and!; try done.
Qed.

(** *** A command *)

Lemma encode_command_nonempty args : encode_command args ≠ [].
Proof. done. Qed.

(** The reply is awaited once the command is in the output buffer. *)
Lemma blockForReply_ok fuel c h w args (rr := (exec args (data w)).1) :
  conn_idle (c, h, w) → ∀ b, sbuf b = encode_command args →
  (slen (encode_command args) < 2 ^ 31)%Z → (slen (encode rr) + 1024 < 2 ^ 31)%Z →
  (length (encode_command args) + length (encode rr) + patience w < fuel)%nat →
  ∃ c' h' w', redisBlockForReply fuel (set_obuf b c, h, w) = Ok (Some (hnext h), (c', h', w')) ∧
    conn_idle (c', h', w') ∧ rep (cells h') (hnext h) rr (hnext h') ∧
    (∀ a, a < hnext h → cells h' !! a = cells h !! a) ∧
    data w' = (exec args (data w)).2 ∧ patience w' ≤ patience w.
Proof.
  intros [He Hb Ho Hw Hpa Hpe] b Hbuf Hl Hlr Hf. cbn [fst snd] in *.
  unfold redisBlockForReply, redisGetReply. cbn [fst cblock set_obuf]. rewrite Hb.
  pose proof (getFromReader_ok _ _ (set_obuf b c) h w _ Hw) as Hg. rewrite arun_empty in Hg.
  destruct Hg as (r1 & h1 & -> & Hw1). cbn [rbind].
  change (REDIS_OK =? REDIS_ERR)%Z with false. cbn [fst cblock set_obuf set_reader]. rewrite Hb.
  destruct (write_loop_ok fuel (set_reader r1 (set_obuf b c)) h1 w args)
    as (b2 & w2 & -> & Hb2 & Hpat & Hpa2 & Hpe2 & Hda2);
    cbn [cerr cblock obuf set_reader set_obuf];
    rewrite ?Hbuf, ?Hpa; try done; [unfold sdslen; rewrite Hbuf; lia|lia|].
  cbn [rbind]. change (REDIS_OK =? REDIS_ERR)%Z with false. cbv iota.
  destruct (read_loop_ok fuel _ _ (set_obuf b2 (set_reader r1 (set_obuf b c))) h1 w2 _ rr
    He Hb Hw1) as (r3 & h3 & w3 & -> & Hrep & [Hlo Hhi] & Hw3 & Hpe3 & Hpa3 & Hda3 & Hpat3).
  - eexists. apply arun_empty.
  - unfold app_st. cbn [frames aty unread app]. rewrite Hpe2.
    rewrite <- (app_nil_r (encode _)). apply arun_one, exec_wire.
  - rewrite Hpe2. change (slen (unread _)) with 0%Z. fold rr. lia.
  - rewrite Hpe2. fold rr. lia.
  - cbn [rbind]. eexists _, h3, w3. split; [done|]. split; [|split; [done|]].
    + split; cbn; try done; congruence.
    + split; [done|]. split; [congruence|lia].
Qed.

(** *** Reading and freeing *)

Lemma reply_of_rep m :
  (∀ p r q, rep m p r q → ∀ fuel h, agree m (cells h) p q → (q - p < fuel)%nat →
     reply_of_fuel fuel h (Some p) = Ok r) ∧
  (∀ p l cps q, reps m p l cps q → ∀ fuel h, agree m (cells h) p q → (q - p < fuel)%nat →
     replies_of (reply_of_fuel fuel h) (Some <$> cps) = Ok l).
Proof.
  apply rep_reps_ind.
  - intros p t n x Hp fuel h Ha Hf. destruct fuel as [|fuel]; [lia|]. cbn [reply_of_fuel hget].
    by rewrite (Ha p), Hp by lia.
  - intros p l cps q Hl Hp Hr IH fuel h Ha Hf. pose proof (reps_le _ _ _ _ _ Hr).
    destruct fuel as [|fuel]; [lia|]. cbn [reply_of_fuel hget].
    rewrite (Ha p), Hp by lia. cbn [rbind oelement default from_option id].
    rewrite (IH fuel h); [done| |lia]. eapply agree_sub; [exact Ha|lia|lia].
  - done.
  - intros p r q l cps q' Hp IHp Hs IHs fuel h Ha Hf.
    pose proof (rep_lt _ _ _ _ Hp). pose proof (reps_le _ _ _ _ _ Hs).
    cbn [fmap list_fmap replies_of]. rewrite IHp; [|by eapply agree_sub; [exact Ha|lia|lia]|lia].
    cbn [rbind]. rewrite IHs; [done|by eapply agree_sub; [exact Ha|lia|lia]|lia].
Qed.

(** A reader between replies does not depend on the objects of others. *)
Lemma waiting_rebase m0 lo r h u h2 :
  waiting m0 lo (r, h) (MkA [] None u) → heap_ok h2 →
  waiting (cells h2) (hnext h2) (r, h2) (MkA [] None u).
Proof.
  intros [[H|(_ & _ & H)] Hp Hn] Hh; (split; [|done|done]).
  - left. destruct H. by split.
  - right. split; [done|]. split; [done|]. destruct H as [? ? ? ? [? _] _]. by split.
Qed.

(** The whole of a command: from the filled buffer to the reply, which is freed. *)
Lemma use_reply_ok fuel c h w args b (rr := (exec args (data w)).1) :
  conn_idle (c, h, w) → sbuf b = encode_command args →
  (slen (encode_command args) < 2 ^ 31)%Z → (slen (encode rr) + 1024 < 2 ^ 31)%Z →
  (length (encode_command args) + length (encode rr) + patience w < fuel)%nat →
  ∃ c' h' w', use_reply (redisBlockForReply fuel (set_obuf b c, h, w)) = Ok (Some rr, (c', h', w')) ∧
    conn_idle (c', h', w') ∧ (∀ a, cells h' !! a = cells h !! a) ∧
    data w' = (exec args (data w)).2 ∧ patience w' ≤ patience w.
Proof.
  intros Hi Hb Hl Hlr Hf.
  destruct (blockForReply_ok fuel c h w args Hi b Hb Hl Hlr Hf)
    as (c' & h' & w' & -> & [E1 E2 E3 E4 E5 E6] & Hrep & Hlo & Hd & Hp).
  cbn [use_reply rbind fst snd] in *. pose proof (rep_lt _ _ _ _ Hrep) as Hlt.
  unfold reply_of. rewrite (proj1 (reply_of_rep _) _ _ _ Hrep) by (done || lia). cbn [rbind].
  destruct (freeReplyObject_owned h' (hnext h) (hnext h')) as (h2 & -> & Hn & Hc);
    [by eapply rep_reps_owned|done|].
  pose proof (waiting_facts _ _ _ _ E4) as (_ & _ & _ & Hhi).
  destruct (waiting_facts _ _ _ _ (conn_reader _ Hi)) as (_ & _ & _ & Hhi0). cbn in Hhi, Hhi0.
  exists c', h2, w'. split; [done|]. split; [|split; [|done]].
  - split; try done. cbn. eapply waiting_rebase; [exact E4|]. intros a Ha. rewrite Hc.
    case_decide; [done|]. apply Hhi. lia.
  - intros a. rewrite Hc. case_decide; [by rewrite Hhi0 by lia|].
    destruct (decide (a < hnext h)); [by apply Hlo|]. rewrite Hhi, Hhi0 by lia. done.
Qed.

Lemma redisAppend_ok cmd c h (w : W) :
  (slen cmd < 2 ^ 31)%Z →
  redisAppend cmd (slen cmd) (c, h, w) = Ok (REDIS_OK, (set_obuf (sdscatlen (obuf c) cmd) c, h, w)).
Proof.
  intros Hl. pose proof (slen_nonneg cmd). unfold redisAppend, mem_bytes.
  rewrite wrap_small by lia. rewrite (proj2 (Z.leb_le _ _)) by lia. cbn [rbind].
  rewrite take_app_le, take_ge by (unfold slen; lia). done.
Qed.

(** *** Sequences of commands *)

(** A command as [CacheConn] issues it: an argument vector, or a format of words. *)
Inductive cmd : Type :=
  | CArgv (args : list str)
  | CFormat (ws : list (list piece)).

Definition cmd_args (k : cmd) : list str :=
  match k with CArgv args => args | CFormat ws => (λ w, w ≫= ptext) <$> ws end.

Definition cmd_ok (k : cmd) : Prop :=
  match k with CArgv _ => True | CFormat ws => Forall is_word ws ∧ Forall (Forall piece_ok) ws end.

Definition call (fuel : nat) (k : cmd) (s : hstate W) : result (option redisReply * hstate W) :=
  match k with
  | CArgv args => call_argv fuel args s
  | CFormat ws => call_format fuel (join_words ws ≫= pfmt) (join_words ws ≫= pargs) s
  end.

Fixpoint calls (fuel : nat) (ks : list cmd) (s : hstate W)
    : result (list (option redisReply) * hstate W) :=
  match ks with
  | [] => Ok ([], s)
  | k :: ks' =>
      let* (r, s) := call fuel k s in
      let* (rs, s) := calls fuel ks' s in Ok (r :: rs, s)
  end.

(** What the server makes of them. *)
Fixpoint server (ks : list cmd) (d : D) : list redisReply * D :=
  match ks with
  | [] => ([], d)
  | k :: ks' =>
      let (r, d) := exec (cmd_args k) d in
      let (rs, d) := server ks' d in (r :: rs, d)
  end.

(** The sizes stay in the range of the [int]s that hold them, and the loops have enough
  iterations for every byte to come alone. *)
Fixpoint fits (fuel : nat) (ks : list cmd) (d : D) (p : nat) : Prop :=
  match ks with
  | [] => True
  | k :: ks' =>
      let (r, d') := exec (cmd_args k) d in
      (slen (encode_command (cmd_args k)) < 2 ^ 31 - 1)%Z ∧ (slen (encode r) + 1024 < 2 ^ 31)%Z ∧
      (length (encode_command (cmd_args k)) + length (encode r) + p < fuel)%nat ∧
      fits fuel ks' d' p
  end.

Lemma call_ok fuel k c h w (rr := (exec (cmd_args k) (data w)).1) :
  conn_idle (c, h, w) → cmd_ok k → (slen (encode_command (cmd_args k)) < 2 ^ 31 - 1)%Z →
  (slen (encode rr) + 1024 < 2 ^ 31)%Z →
  (length (encode_command (cmd_args k)) + length (encode rr) + patience w < fuel)%nat →
  ∃ c' h' w', call fuel k (c, h, w) = Ok (Some rr, (c', h', w')) ∧
    conn_idle (c', h', w') ∧ (∀ a, cells h' !! a = cells h !! a) ∧
    data w' = (exec (cmd_args k) (data w)).2 ∧ patience w' ≤ patience w.
Proof.
  intros Hi Hk Hl Hlr Hf. pose proof (slen_nonneg (encode_command (cmd_args k))) as Hnn.
  assert (∀ cm, cm = encode_command (cmd_args k) →
    sbuf (sdscatlen (obuf c) cm) = encode_command (cmd_args k)) as Hb.
  { intros cm ->. rewrite sbuf_catlen. by rewrite (conn_obuf _ Hi : sbuf (obuf c) = []). }
  destruct (use_reply_ok fuel c h w (cmd_args k) _ Hi (Hb _ eq_refl) ltac:(lia) Hlr Hf)
    as (c' & h' & w' & E & Hrest).
  fold rr in E. exists c', h', w'. split; [|done]. rewrite <- E.
  destruct k as [args|ws]; cbn [call cmd_args] in *.
  - unfold call_argv, redisCommandArgv, redisAppendCommandArgv.
    destruct (formatArgv_ok args (Some (slen <$> args)) args (argv_lens_all args) Hl)
      as [_ (cm & -> & Hcm)]. cbn [rbind].
    rewrite (proj2 (Z.eqb_neq _ (-1))) by lia. rewrite Hcm, redisAppend_ok by lia. done.
  - unfold call_format, redisCommand, redisvAppendCommand. destruct Hk as [Hw Hp].
    rewrite format_words; [|by apply join_words_ok|by rewrite words_join].
    rewrite words_join by done. cbn [rbind].
    rewrite (proj2 (Z.eqb_neq _ (-1))), (proj2 (Z.eqb_neq _ (-2))) by lia.
    rewrite redisAppend_ok by lia. done.
Qed.

Lemma fits_patience fuel ks d p p' : p' ≤ p → fits fuel ks d p → fits fuel ks d p'.
Proof.
  intros Hp. revert d. induction ks as [|k ks IH]; intros d; [done|]. cbn [fits].
  destruct (exec (cmd_args k) d) as [r d']. intros (? & ? & ? & ?). split_and!; auto; lia.
Qed.

(** C10: The client refines the server.  Over a connection that cuts both streams anywhere
  and interrupts any call, a sequence of commands, formatted or given as vectors, returns
  exactly the replies of the server to these commands in this order, and leaves the
  connection ready for the next, the server's data as the commands made them, and no reply
  allocated. *)
Theorem calls_refine_server fuel ks c h w :
  conn_idle (c, h, w) → Forall cmd_ok ks → fits fuel ks (data w) (patience w) →
  ∃ c' h' w', calls fuel ks (c, h, w) = Ok (Some <$> (server ks (data w)).1, (c', h', w')) ∧
    conn_idle (c', h', w') ∧ data w' = (server ks (data w)).2 ∧
    ∀ a, cells h' !! a = cells h !! a.
Proof.
  revert c h w. induction ks as [|k ks IH]; intros c h w Hi Hk Hf.
  { by exists c, h, w. }
  apply Forall_cons in Hk as [Hk Hks]. cbn [fits calls server] in *.
  destruct (exec (cmd_args k) (data w)) as [r d'] eqn:Ee. destruct Hf as (H1 & H2 & H3 & H4).
  destruct (call_ok fuel k c h w Hi Hk) as (c1 & h1 & w1 & E & Hi1 & Hc1 & Hd1 & Hp1);
    rewrite ?Ee; try done.
  rewrite Ee in Hd1, E. cbn [fst snd] in *. rewrite E. cbn [rbind]. subst d'.
  destruct (IH c1 h1 w1 Hi1 Hks) as (c2 & h2 & w2 & -> & Hi2 & Hd2 & Hc2).
  { by eapply fits_patience. }
  destruct (server ks (data w1)) as [rs d2]. cbn [rbind].
  exists c2, h2, w2. split; [done|]. split; [done|]. split; [done|].
  intros a. by rewrite Hc2, Hc1.
Qed.
End Refinement.

(** ** Errors *)

Section Errors.
Context {W : Type} `{SK : Socket W}.

Lemma blockForReply_failed fuel c h (w : W) m0 lo :
  cerr c ≠ 0%Z → cblock c = true → waiting m0 lo (creader c, h) (MkA [] None []) → 0 < fuel →
  ∃ r' h', redisBlockForReply fuel (c, h, w) = Ok (None, (set_reader r' c, h', w)) ∧
           waiting m0 lo (r', h') (MkA [] None []).
Proof.
  intros He Hb Hw Hf. unfold redisBlockForReply, redisGetReply. cbn [fst]. rewrite Hb.
  pose proof (getFromReader_ok _ _ c h w _ Hw) as Hg. rewrite arun_empty in Hg.
  destruct Hg as (r' & h' & -> & Hw'). cbn [rbind]. change (REDIS_OK =? REDIS_ERR)%Z with false.
  cbn [fst cblock set_reader]. rewrite Hb. destruct fuel as [|fuel]; [lia|].
  cbn [write_loop redisBufferWrite]. cbn [cerr set_reader].
  rewrite (proj2 (Z.eqb_neq _ 0)) by done. cbn [negb rbind].
  change (REDIS_ERR =? REDIS_ERR)%Z with true. cbv iota. cbn [rbind].
  change (REDIS_ERR =? REDIS_ERR)%Z with true. cbv iota. cbn [rbind]. by exists r', h'.
Qed.

(** Once the context has an error, of the network, of the protocol or of a format, every
  further command returns null without touching the socket, and the error stays: only a
  new connection, which is what [CacheConn] then makes, gets out of it. *)
Theorem failed_context_stays fuel c h w m0 lo argv argvlen args :
  cerr c ≠ 0%Z → cblock c = true → waiting m0 lo (creader c, h) (MkA [] None []) → 0 < fuel →
  argv_args argv argvlen = Ok args → (slen (encode_command args) < 2 ^ 31 - 1)%Z →
  ∃ c' h', redisCommandArgv fuel argv argvlen (c, h, w) = Ok (None, (c', h', w)) ∧
    cerr c' = cerr c ∧ cerrstr c' = cerrstr c ∧ waiting m0 lo (creader c', h') (MkA [] None []).
Proof.
  intros He Hb Hw Hf Ha Hl. pose proof (slen_nonneg (encode_command args)).
  unfold redisCommandArgv, redisAppendCommandArgv.
  destruct (formatArgv_ok argv argvlen args Ha Hl) as [_ (cm & -> & Hcm)]. cbn [rbind].
  rewrite (proj2 (Z.eqb_neq _ (-1))) by lia. rewrite Hcm, redisAppend_ok by lia. cbn [rbind].
  change (REDIS_OK =? REDIS_OK)%Z with true. cbn [negb].
  destruct (blockForReply_failed fuel (set_obuf (sdscatlen (obuf c) (encode_command args)) c)
    h w m0 lo He Hb Hw Hf) as (r' & h' & -> & Hw').
  by eexists _, h'.
Qed.
End Errors.

(** ** The formats of [CacheConn]

    [command name args] of [CacheConn] is what the format ["name %s ... %s"] sends. *)

Lemma command_format name args (ws := lits name :: ((λ a, [PStr a]) <$> args)) :
  plain name →
  cmd_args (CFormat ws) = name :: (c_str <$> args) ∧ cmd_ok (CFormat ws).
Proof.
  intros Hn. destruct (lits_word name Hn) as (Hw & Ht & _ & _ & Ho). unfold ws. split.
  - cbn [cmd_args]. rewrite fmap_cons, Ht, <- list_fmap_compose. f_equal.
    apply list_fmap_ext. intros i a _. cbn. by rewrite app_nil_r.
  - cbn [cmd_ok]. split; (constructor; [done|]); apply Forall_fmap, Forall_true; intros a.
    + split; [done|]. by repeat constructor.
    + by repeat constructor.
Qed.

(** ** [CacheConn::MGet] gives its keys as the format *)

(** [strKey = "MGET " + ...] *)
Definition MGet_format (keys : list str) : str := "MGET " ++ join_spaces keys.

Lemma foldl_join (k : str) ks :
  foldl (λ a x, a ++ " " ++ x) k ks = k ++ concat (map (λ x, " "%char :: x) ks).
Proof.
  revert k. induction ks as [|x ks IH]; intros k; [by rewrite app_nil_r|].
  cbn [foldl map concat]. rewrite IH, <- app_assoc. done.
Qed.

Lemma join_words_cons w w' ws :
  join_words (w :: w' :: ws) = w ++ PBlank :: join_words (w' :: ws).
Proof. done. Qed.

Lemma join_words_lits k ks :
  join_words (lits <$> k :: ks) ≫= pfmt = k ++ concat (map (λ x, " "%char :: x) ks) ∧
  join_words (lits <$> k :: ks) ≫= pargs = [].
Proof.
  assert (∀ s, lits s ≫= pfmt = s ∧ lits s ≫= pargs = []) as Hs.
  { intros s. unfold lits. induction s as [|c s [IH1 IH2]]; [done|].
    rewrite fmap_cons, !bind_cons, IH1, IH2. done. }
  revert k. induction ks as [|x ks IH]; intros k.
  - destruct (Hs k) as [E1 E2]. cbn [fmap list_fmap join_words map concat].
    by rewrite E1, E2, app_nil_r.
  - destruct (Hs k) as [E1 E2]. destruct (IH x) as [E3 E4].
    rewrite !fmap_cons in *. rewrite join_words_cons, !bind_app, !bind_cons, E1, E2, E3, E4. done.
Qed.

Lemma lits_words args (l := join_words (lits <$> args)) :
  Forall plain args → words false [] l = args ∧ Forall piece_ok l.
Proof.
  intros H. unfold l. split.
  - rewrite words_join.
    + induction H as [|s args Hs _ IH]; [done|]. rewrite !fmap_cons, IH.
      by rewrite (proj1 (proj2 (lits_word s Hs))).
    + apply Forall_fmap. eapply Forall_impl; [exact H|]. intros s Hs. by apply (lits_word s Hs).
  - apply join_words_ok, Forall_fmap. eapply Forall_impl; [exact H|]. intros s Hs.
    by apply (lits_word s Hs).
Qed.

(** The characters of a word. *)
Lemma fmt_loop_literals s fuel c ap st :
  Forall (λ c, c ≠ "%"%char ∧ c ≠ NUL) s → (length s < fuel)%nat →
  ∃ st', fmt_loop fuel (s ++ c) ap st = fmt_loop (fuel - length s) c ap st'.
Proof.
  revert fuel st. induction s as [|x s IH]; intros fuel st Hs Hf.
  { exists st. cbn [length app]. by rewrite Nat.sub_0_r. }
  apply Forall_cons in Hs as [[Hx _] Hs]. destruct fuel as [|fuel]; [lia|]. cbn [app length].
  rewrite fmt_loop_plain by done. cbn [length] in Hf. apply IH; [done|lia].
Qed.

(** C37: With keys free of blanks and percent signs, the command of [MGet] is [MGET] and the
  keys.  But the keys are a format: a key with a conversion makes [MGet] read an argument
  that was never given, which is undefined. *)
Theorem MGet_keys_are_a_format k ks pre post (args := ("MGET" : str) :: k :: ks) :
  Forall plain (k :: ks) → (slen (encode_command args) < 2 ^ 31 - 1)%Z →
  Forall (λ c, c ≠ "%"%char ∧ c ≠ NUL) pre →
  redisFormatCommand (MGet_format (k :: ks)) [] =
    Ok (slen (encode_command args), encode_command args) ∧
  redisFormatCommand (MGet_format [pre ++ "%s" ++ post]) [] = Undef UninitRead.
Proof.
  intros Hk Hl Hpre. unfold redisFormatCommand. split.
  - assert (Forall plain args) as Hp by (constructor; [split; [done|repeat constructor; done]|done]).
    destruct (lits_words args Hp) as [Hw Ho].
    assert (MGet_format (k :: ks) = join_words (lits <$> args) ≫= pfmt) as ->.
    { unfold args. rewrite (proj1 (join_words_lits "MGET" (k :: ks))).
      unfold MGet_format, join_spaces. rewrite foldl_join. done. }
    rewrite <- (proj2 (join_words_lits "MGET" (k :: ks))). fold args.
    rewrite format_words; rewrite ?Hw; [|done|done]. cbn [rbind].
    by rewrite (proj2 (Z.ltb_ge _ 0)) by apply slen_nonneg.
  - unfold MGet_format. cbn [join_spaces foldl]. rewrite app_assoc. set (s := "MGET " ++ pre).
    assert (Forall (λ c, c ≠ "%"%char ∧ c ≠ NUL) s) as Hs
      by (apply Forall_app; split; [repeat constructor; done|done]).
    unfold redisvFormatCommand.
    assert (∀ s t, Forall (λ c, c ≠ "%"%char ∧ c ≠ NUL) s → c_str (s ++ t) = s ++ c_str t) as Hc.
    { clear. intros s t H. induction H as [|c s [_ Hc] _ IH]; [done|]. cbn.
      by rewrite bool_decide_false, IH. }
    rewrite Hc by done. change (c_str ("%s" ++ post)) with ("%"%char :: "s"%char :: c_str post).
    destruct (fmt_loop_literals s (S (length (s ++ "%"%char :: "s"%char :: c_str post)))
      ("%"%char :: "s"%char :: c_str post) [] (MkFmt false sdsempty [] 0)) as (st' & ->);
      [done|rewrite length_app; lia|].
    rewrite length_app. cbn [length].
    replace (S (length s + S (S (length (c_str post)))) - length s)
      with (S (S (S (length (c_str post))))) by lia.
    done.
Qed.

(** ** A server *)

Module Sample.
Record world : Type := MkWorld { wdata : gmap str str; wpart : str; wpend : str }.

Definition run (args : list str) (d : gmap str str) : redisReply * gmap str str :=
  match args with
  | [name; k; v] =>
      if bool_decide (name = "SET") then (Text REDIS_REPLY_STATUS "OK", <[k := v]> d)
      else (Text REDIS_REPLY_ERROR "ERR", d)
  | [name; k] =>
      if bool_decide (name = "GET") then
        (match d !! k with
         | Some v => if (slen v <=? 2 ^ 63 - 3)%Z then Text REDIS_REPLY_STRING v
                     else Text REDIS_REPLY_ERROR "ERR"
         | None => Nil
         end, d)
      else (Text REDIS_REPLY_ERROR "ERR", d)
  | _ => (Text REDIS_REPLY_ERROR "ERR", d)
  end.

(** The bytes that arrive are collected until they are a command. *)
Definition arrive (b : str) (w : world) : world :=
  let t := wpart w ++ b in
  match arun (MkA [] None t) with
  | RDone r [] =>
      let (reply, d) := run (reply_bytes <$> relements r) (wdata w) in
      MkWorld d [] (wpend w ++ encode reply)
  | _ => MkWorld (wdata w) t (wpend w)
  end.

(** Both directions carry half of what is there at a time. *)
Definition half (s : str) : nat := S (Nat.div2 (length s - 1)).

#[global] Instance socket : Socket world := {
  sock_connect _ _ w := ((0%Z, []), w);
  sock_close w := w;
  sock_read n w :=
    let k := Nat.min n (half (wpend w)) in
    (inl (take k (wpend w)), MkWorld (wdata w) (wpart w) (drop k (wpend w)));
  sock_write s w := (inl (Z.of_nat (half s)), arrive (take (half s) s) w);
  strerror _ := "error"
}.

Lemma run_wire args d : wire 8 (run args d).1 = true.
Proof.
  unfold run. repeat case_match; try done; cbn [fst]; try (by case_bool_decide).
Qed.

Lemma half_bounds s : s ≠ [] → 0 < half s ≤ length s.
Proof.
  intros H. unfold half. destruct s as [|c s]; [done|]. cbn [length].
  rewrite Nat.div2_div. pose proof (Nat.div_mod_eq (S (length s) - 1) 2). lia.
Qed.

(** A command is the encoding of an array of strings, so that a reader of replies reads its
  arguments. *)
Lemma encode_command_array args :
  encode_command args = encode (Array (Text REDIS_REPLY_STRING <$> args)).
Proof.
  unfold encode_command. cbn [encode Array]. rewrite length_fmap. cbn. do 3 f_equal.
  f_equal. f_equal. induction args as [|a args IH]; [done|].
  rewrite bind_cons, fmap_cons. cbn [map concat]. by rewrite IH.
Qed.

Lemma command_wire args :
  (slen (encode_command args) < 2 ^ 31)%Z → wire 8 (Array (Text REDIS_REPLY_STRING <$> args)) = true.
Proof.
  intros H. destruct (encode_command_sizes args ltac:(lia)) as [Hs _].
  pose proof (length_args_le args). cbn. rewrite length_fmap.
  assert (slen (args ≫= bulk) < 2 ^ 31 - 1)%Z.
  { unfold encode_command in H. rewrite !slen_app in H. change (slen "*") with 1%Z in H.
    pose proof (slen_nonneg (to_string (Z.of_nat (length args)))).
    change (slen CRLF) with 2%Z in H. lia. }
  rewrite (proj2 (Z.leb_le _ _)) by (unfold INT_MAX; lia). cbn.
  apply forallb_forall. intros x Hx%list_elem_of_In. apply list_elem_of_fmap in Hx as (a & -> & Ha).
  cbn. apply Z.leb_le. pose proof (slen_bulk_le a args Ha). lia.
Qed.

Lemma arrive_received b w :
  received run (wpart w) b (wpend w) (wdata w) (wpart (arrive b w)) (wpend (arrive b w))
    (wdata (arrive b w)).
Proof.
  intros args u Hc Hl. rewrite app_assoc in Hc. set (t := wpart w ++ b) in *.
  pose proof (arun_one _ [] (command_wire args Hl)) as Ha.
  rewrite <- encode_command_array, app_nil_r, <- Hc in Ha.
  pose proof (arun_append (MkA [] None t) u) as Hp. cbn [app_st frames aty unread] in Hp.
  unfold app_st in Hp. cbn [frames aty unread] in Hp. rewrite Ha in Hp.
  unfold arrive. fold t. case_bool_decide as Hu.
  - subst u. rewrite app_nil_r in Ha. rewrite Ha. cbn [relements Array].
    assert (reply_bytes <$> (Text REDIS_REPLY_STRING <$> args) = args) as ->.
    { rewrite <- list_fmap_compose. rewrite <- (list_fmap_id args) at 2. done. }
    by destruct (run args (wdata w)).
  - destruct (arun (MkA [] None t)) as [st'| |e|r u']; try done.
    injection Hp as <- Hp. by destruct u'.
Qed.

#[global] Instance peer : RedisPeer world (gmap str str).
Proof.
  refine {| exec := run; data := wdata; partial := wpart; pending := wpend;
            patience := λ _, 0; exec_wire := run_wire |}.
  - intros s w Hs. cbn. destruct (half_bounds s) as [H1 H2]; [intros ->; slia|].
    unfold slen in *. split; [lia|]. split; [done|]. rewrite Nat2Z.id. apply arrive_received.
  - intros n w Hn Hp. cbn. destruct (half_bounds (wpend w) Hp) as [H1 H2].
    split; [|split; [rewrite length_take; lia|split; [done|split; [cbn [wpend]; by rewrite take_drop|done]]]].
    intros E. apply (f_equal length) in E. rewrite length_take in E. cbn in E. lia.
Defined.
End Sample.

(** A value with blanks, [CR LF] and a conversion comes back as it was. *)
Lemma calls_refine_server_witness :
  let value : str := "a b" ++ CRLF ++ "%s" in
  let ks := [CFormat [lits "SET"; [PStr "k"]; [PStr value]]; CArgv ["GET" : str; "k" : str]] in
  ∃ s', calls 200 ks (redisConnectWithTimeout "127.0.0.1" 6379 (MkHeap ∅ 0) (Sample.MkWorld ∅ [] [])) =
        Ok ([Some (Text REDIS_REPLY_STATUS "OK"); Some (Text REDIS_REPLY_STRING value)], s').
Proof.
  intros value ks. cbn [redisConnectWithTimeout sock_connect Sample.socket Z.eqb].
  destruct (calls_refine_server (W := Sample.world) (RP := Sample.peer) 200 ks
    (MkContext 0 [] true sdsempty redisReaderCreate) (MkHeap ∅ 0) (Sample.MkWorld ∅ [] []))
    as (c' & h' & w' & E & _).
  - split; try reflexivity. apply waiting_start. intros a _. apply lookup_empty.
  - repeat constructor; try discriminate; done.
  - vm_compute. repeat split; lia.
  - exists (c', h', w'). refine (eq_trans E _). vm_compute. reflexivity.
Defined.

Lemma failed_context_stays_witness :
  ∃ c' h', redisCommandArgv (SK := Sample.socket) 1 ["PING" : str] None
    (MkContext REDIS_ERR_EOF "Server closed the connection" true sdsempty redisReaderCreate,
     no_objects, Sample.MkWorld ∅ [] []) = Ok (None, (c', h', Sample.MkWorld ∅ [] [])) ∧
    cerr c' = REDIS_ERR_EOF.
Proof.
  set (c := MkContext REDIS_ERR_EOF "Server closed the connection" true sdsempty redisReaderCreate).
  assert (cerr c ≠ 0%Z) as He by discriminate.
  destruct (failed_context_stays (SK := Sample.socket) 1 c no_objects (Sample.MkWorld ∅ [] []) ∅ 0
    ["PING" : str] None ["PING" : str] He eq_refl (waiting_start no_objects no_objects_ok)
    (le_n 1) eq_refl eq_refl) as (c' & h' & E & Hc & _).
  exists c', h'. exact (conj E Hc).
Defined.

Lemma MGet_keys_are_a_format_witness :
  redisFormatCommand "MGET a b" [] =
    Ok (slen (encode_command ["MGET" : str; "a" : str; "b" : str]),
        encode_command ["MGET" : str; "a" : str; "b" : str]) ∧
  redisFormatCommand "MGET x%s" [] = Undef UninitRead.
Proof.
  apply (MGet_keys_are_a_format "a" ["b" : str] "x" "").
  - repeat (constructor; [split; [discriminate|repeat constructor; discriminate]|]). constructor.
  - vm_compute. reflexivity.
  - repeat constructor; discriminate.
Defined.
