(* ===== verification/DbPool.v ===== *)
(** [mysql/db_pool.{h,cc}] of the logic service: [CResultSet] (the rows of a query),
    [CPrepareStatement], [CDBConn] (one connection to MySQL, with its check and
    reconnection) and [CDBPool], a use of the pool of [ConnPool].

    The MySQL client library is a class.  A [MYSQL] object is a number; a stored result and
    a prepared statement are of types of the library. *)

From S2P Require Import Prelude ConnPool.

(** ** The MySQL client library *)

(** The [MYSQL_BIND] of a parameter: all zero, the address of an [int] or [uint32_t] (a
    variable of the caller), or the bytes of a string. *)
Inductive mysql_bind : Type :=
  | bind_zero
  | bind_long (buffer : nat)
  | bind_string (buffer : str).

(** A row as an array of C strings; [None] is a null pointer, the SQL [NULL]. *)
Abbreviation mysql_row := (list (option str)).

Class MySql (W RES STMT : Type) : Type := {
  mysql_init : W → option nat * W;
  mysql_options_charset : nat → str → W → W;
  (* host, user, password, database, port; whether the connection was made *)
  mysql_real_connect : nat → str → str → str → str → Z → W → bool * W;
  mysql_close : nat → W → W;
  mysql_ping : nat → W → Z * W;
  mysql_real_query : nat → str → W → Z * W;
  mysql_store_result : nat → W → option RES * W;
  mysql_affected_rows : nat → W → Z;
  mysql_insert_id : nat → W → Z;
  (* a stored result; the field names in their order *)
  mysql_field_names : RES → list str;
  mysql_num_rows : RES → Z;
  mysql_fetch_row : RES → option mysql_row * RES;
  mysql_stmt_init : nat → W → option STMT * W;
  mysql_stmt_prepare : STMT → str → W → Z * W;
  mysql_stmt_param_count : STMT → W → Z;
  mysql_stmt_bind_param : STMT → list mysql_bind → W → Z * W;
  mysql_stmt_execute : STMT → W → Z * W;
  mysql_stmt_affected_rows : STMT → W → Z;
  mysql_stmt_insert_id : STMT → W → Z
}.

(** ** [class CResultSet] *)

(** [key_map_], a [std::map<string, int>] filled by [insert]: the first column with a name
    keeps the name. *)
Fixpoint field_map (i : Z) (names : list str) (key_map : gmap str Z) : gmap str Z :=
  match names with
  | [] => key_map
  | name :: names' =>
      field_map (i + 1) names'
        (match key_map !! c_str name with
         | Some _ => key_map
         | None => <[c_str name := i]> key_map
         end)
  end.

(** [row_]: [None] until the first [Next] (never assigned), [Some None] a null pointer. *)
Record CResultSet (RES : Type) : Type := MkResultSet {
  res_ : RES;
  row_ : option (option mysql_row);
  key_map_ : gmap str Z
}.
Arguments MkResultSet {RES} _ _ _.
Arguments res_ {RES} _.
Arguments row_ {RES} _.
Arguments key_map_ {RES} _.

Section CResultSet.
Context {W RES STMT : Type} `{MY : MySql W RES STMT}.

Definition CResultSet_new (res : RES) : CResultSet RES :=
  MkResultSet res None (field_map 0 (mysql_field_names res) ∅).

Definition Next (r : CResultSet RES) : bool * CResultSet RES :=
  let (row, res) := mysql_fetch_row (res_ r) in
  (match row with Some _ => true | None => false end,
   MkResultSet res (Some row) (key_map_ r)).

(** [_GetIndex] *)
Definition GetIndex (r : CResultSet RES) (key : str) : Z := default (-1)%Z (key_map_ r !! key).

(** [row_[idx]] *)
Definition row_at (r : CResultSet RES) (idx : Z) : result (option str) :=
  match row_ r with
  | None => Undef UninitRead
  | Some None => Undef NullDeref
  | Some (Some row) =>
      match row !! Z.to_nat idx with
      | Some v => Ok v
      | None => Undef OutOfBounds
      end
  end.

(** [atoi] of a null pointer is undefined. *)
Definition GetInt (r : CResultSet RES) (key : str) : result Z :=
  let idx := GetIndex r key in
  if (idx =? -1)%Z then Ok 0%Z
  else
    let* v := row_at r idx in
    match v with Some s => Ok (atoi s) | None => Undef NullDeref end.

Definition GetString (r : CResultSet RES) (key : str) : result (option str) :=
  let idx := GetIndex r key in
  if (idx =? -1)%Z then Ok None else row_at r idx.
End CResultSet.

(** [string s = result_set->GetString(key)]: throws on a null pointer. *)
Definition string_of_cstr (p : option str) : result str :=
  match p with Some s => Ok (c_str s) | None => Throw LogicErr end.

(** ** [class CPrepareStatement] *)

(** [param_bind_]: [None] is a null pointer. *)
Record CPrepareStatement (STMT : Type) : Type := MkPrepare {
  stmt_ : option STMT;
  param_bind_ : option (list mysql_bind);
  param_cnt_ : Z
}.
Arguments MkPrepare {STMT} _ _ _.
Arguments stmt_ {STMT} _.
Arguments param_bind_ {STMT} _.
Arguments param_cnt_ {STMT} _.

Definition CPrepareStatement_new {STMT} : CPrepareStatement STMT := MkPrepare None None 0.

(** The body that the four [SetParam] share. *)
Definition set_bind {STMT} (index : Z) (b : mysql_bind) (st : CPrepareStatement STMT)
    : result (CPrepareStatement STMT) :=
  if (param_cnt_ st <=? index)%Z then Ok st
  else match param_bind_ st with
       | None => Undef NullDeref
       | Some l =>
           if (Z.of_nat (length l) <=? index)%Z then Undef OutOfBounds
           else Ok (MkPrepare (stmt_ st) (Some (<[Z.to_nat index := b]> l)) (param_cnt_ st))
       end.

(** [SetParam(uint32_t, int&)] and [SetParam(uint32_t, uint32_t&)]: the variable is kept by
    its address. *)
Definition SetParam_int {STMT} (index : Z) (variable : nat) (st : CPrepareStatement STMT)
    : result (CPrepareStatement STMT) := set_bind (u32 index) (bind_long variable) st.
(** [SetParam(uint32_t, string&)] and [SetParam(uint32_t, const string&)]: the address of
    the bytes and their number. *)
Definition SetParam {STMT} (index : Z) (value : str) (st : CPrepareStatement STMT)
    : result (CPrepareStatement STMT) := set_bind (u32 index) (bind_string value) st.

Section CPrepareStatement.
Context {W RES STMT : Type} `{MY : MySql W RES STMT}.

Abbreviation PM := (io (CPrepareStatement STMT * W)).

(** A call of the library. *)
Definition via_mysql {S A} (f : W → A * W) : io (S * W) A := λ '(c, w),
  let (a, w) := f w in (Ok a, (c, w)).
Definition put_stmt (st : CPrepareStatement STMT) : PM unit := λ s, (Ok tt, (st, s.2)).

(** [CPrepareStatement::Init] *)
Definition CPrepareStatement_Init (mysql : option nat) (sql : str) : PM bool := λ s,
  match mysql with
  | None => (Undef NullDeref, s)
  | Some h =>
      (do* _ := via_mysql (mysql_ping h) in
       do* stmt := via_mysql (mysql_stmt_init h) in
       do* _ := (λ s, (Ok tt, (MkPrepare stmt (param_bind_ s.1) (param_cnt_ s.1), s.2))) in
       match stmt with
       | None => iret false
       | Some st =>
           do* failed := via_mysql (mysql_stmt_prepare st sql) in
           if negb (failed =? 0)%Z then iret false
           else λ s,
             let cnt := u32 (mysql_stmt_param_count st s.2) in
             (Ok true,
              (MkPrepare (stmt_ s.1)
                 (if (0 <? cnt)%Z then Some (replicate (Z.to_nat cnt) bind_zero)
                  else param_bind_ s.1) cnt, s.2))
       end) s
  end.

(** [CPrepareStatement::ExecuteUpdate] *)
Definition CPrepareStatement_ExecuteUpdate : PM bool := λ s,
  match stmt_ s.1 with
  | None => (Ok false, s)
  | Some st =>
      (do* failed := via_mysql (mysql_stmt_bind_param st (default [] (param_bind_ s.1))) in
       if negb (failed =? 0)%Z then iret false
       else
         do* failed := via_mysql (mysql_stmt_execute st) in
         if negb (failed =? 0)%Z then iret false
         else λ s, (Ok (negb (mysql_stmt_affected_rows st s.2 =? 0)%Z), s)) s
  end.

Definition CPrepareStatement_GetInsertId : PM Z := λ s,
  match stmt_ s.1 with
  | None => (Undef NullDeref, s)
  | Some st => (Ok (u32 (mysql_stmt_insert_id st s.2)), s)
  end.
End CPrepareStatement.

(** ** [class CDBConn] *)

(** What a [CDBPool] knows of its server. *)
Record db_server : Type := MkServer {
  pool_name_ : str;
  db_server_ip_ : str;
  db_server_port_ : Z;
  username_ : str;
  password_ : str;
  db_name_ : str
}.

Record CDBConn : Type := MkDBConn {
  row_num : Z;
  db_pool_ : db_server;
  mysql_ : option nat
}.

Definition CDBConn_new (pPool : db_server) : CDBConn := MkDBConn 0 pPool None.

(** [GetPoolName]: a C string. *)
Definition GetPoolName (c : CDBConn) : str := c_str (pool_name_ (db_pool_ c)).
Definition GetRowNum (c : CDBConn) : Z := row_num c.

Section CDBConn.
Context {W RES STMT : Type} `{MY : MySql W RES STMT}.

Abbreviation M := (io (CDBConn * W)).

Definition put_mysql (h : option nat) : M unit := λ '(c, w),
  (Ok tt, (MkDBConn (row_num c) (db_pool_ c) h, w)).
Definition put_row_num (n : Z) : M unit := λ '(c, w),
  (Ok tt, (MkDBConn n (db_pool_ c) (mysql_ c), w)).

(** [CDBConn::Init] *)
Definition CDBConn_Init : M Z :=
  do* h := via_mysql mysql_init in
  do* _ := put_mysql h in
  match h with
  | None => iret 1%Z
  | Some h => λ '(c, w),
      let p := db_pool_ c in
      let w := mysql_options_charset h "utf8mb4" w in
      let (connected, w) :=
        mysql_real_connect h (c_str (db_server_ip_ p)) (c_str (username_ p))
          (c_str (password_ p)) (c_str (db_name_ p)) (db_server_port_ p) w in
      (Ok (if connected then 0%Z else 2%Z), (c, w))
  end.

(** The [MYSQL] object of a connection, for a call of the library. *)
Definition handle : M nat := λ s,
  match mysql_ s.1 with
  | Some h => (Ok h, s)
  | None => (Undef NullDeref, s)
  end.

Definition CheckAndReconnect : M bool :=
  do* h := handle in
  do* lost := via_mysql (mysql_ping h) in
  if negb (lost =? 0)%Z then
    do* _ := via_mysql (λ w, (tt, mysql_close h w)) in
    do* _ := put_mysql None in
    do* ret := CDBConn_Init in
    iret (ret =? 0)%Z
  else iret true.

(** [CheckAndReconnect] and then [mysql_real_query]: whether both succeeded. *)
Definition checked_query (sql_query : str) : M bool :=
  do* ok := CheckAndReconnect in
  if negb ok then iret false
  else
    do* h := handle in
    do* failed := via_mysql (mysql_real_query h sql_query) in
    iret (failed =? 0)%Z.

Definition ExecuteCreate (sql_query : str) : M bool := checked_query (c_str sql_query).
Definition ExecutePassQuery (sql_query : str) : M bool := checked_query (c_str sql_query).
Definition ExecuteDrop (sql_query : str) : M bool := checked_query (c_str sql_query).

(** [None]: a null [CResultSet]. *)
Definition ExecuteQuery (sql_query : str) : M (option (CResultSet RES)) :=
  do* ok := CheckAndReconnect in
  if negb ok then iret None
  else
    do* _ := put_row_num 0 in
    do* h := handle in
    do* failed := via_mysql (mysql_real_query h (c_str sql_query)) in
    if negb (failed =? 0)%Z then iret None
    else
      do* res := via_mysql (mysql_store_result h) in
      match res with
      | None => iret None
      | Some res =>
          do* _ := put_row_num (i32 (mysql_num_rows res)) in
          iret (Some (CResultSet_new res))
      end.

(** [mysql_affected_rows] is unsigned: the error value [(my_ulonglong)-1] is positive. *)
Definition ExecuteUpdate (sql_query : str) (care_affected_rows : bool) : M bool :=
  do* ok := checked_query (c_str sql_query) in
  if negb ok then iret false
  else
    do* h := handle in
    λ s, (Ok ((0 <? u64 (mysql_affected_rows h s.2))%Z || negb care_affected_rows), s).

(** The queries are given with their length, which excludes the final line feed. *)
Definition StartTransaction : M bool := checked_query "start transaction".
Definition Rollback : M bool := checked_query "rollback".
Definition Commit : M bool := checked_query "commit".

Definition GetInsertId : M Z :=
  do* h := handle in λ s, (Ok (u32 (mysql_insert_id h s.2)), s).
End CDBConn.

(** ** [class CDBPool] *)

Definition MIN_DB_CONN_CNT : Z := 1.
Definition CDBPool_server (pool_name db_server_ip : str) (db_server_port : Z)
    (username password db_name : str) : db_server :=
  MkServer pool_name db_server_ip (u16 db_server_port) username password db_name.
Definition CDBPool_new (max_conn_cnt : Z) : pool := Pool_new MIN_DB_CONN_CNT max_conn_cnt.
(** [Init] returns the failure of the connection. *)
Definition CDBPool_Init (rets : list Z) (p : pool) : Z * pool :=
  Pool_Init (Z.to_nat (cur_conn_cnt_ p)) rets p.
Definition GetDBConn : Z → pool → get_outcome * pool := GetConn_enter.
Definition GetDBConn_wake : bool → pool → get_outcome * pool := GetConn_wake.
Definition RelDBConn : nat → pool → bool * pool := RelConn.
Definition CDBPool_delete : pool → list nat * pool := Pool_destroy.

(** ** Result sets *)

Lemma field_map_lookup key names i m :
  field_map i names m !! key =
    match m !! key with
    | Some j => Some j
    | None => (λ p, (i + Z.of_nat p.1)%Z) <$> list_find (λ n, c_str n = key) names
    end.
Proof.
  revert i m. induction names as [|n names IH]; intros i m; cbn [field_map list_find].
  - by destruct (m !! key).
  - rewrite IH. destruct (decide (c_str n = key)) as [<-|Hne].
    + destruct (m !! c_str n) eqn:E; [by rewrite E|].
      rewrite lookup_insert_eq. cbn. f_equal. lia.
    + assert ((match m !! c_str n with Some _ => m | None => <[c_str n:=i]> m end) !! key
              = m !! key) as ->.
      { destruct (m !! c_str n); [done|]. by rewrite lookup_insert_ne. }
      destruct (m !! key); [done|].
      destruct (list_find _ names) as [[k x]|]; cbn; [|done]. f_equal. lia.
Qed.

Section ResultSetProperties.
Context {W RES STMT : Type} `{MY : MySql W RES STMT}.

(** What [key] selects in a row of a result: the value in the first column of that
  name. *)
Definition column_value (names : list str) (row : mysql_row) (key : str) : option (option str) :=
  match list_find (λ n, c_str n = key) names with
  | Some (i, _) => row !! i
  | None => None
  end.

Lemma GetString_row (res : RES) (names : list str) (row : mysql_row) (key : str) :
  length row = length names →
  GetString (MkResultSet res (Some (Some row)) (field_map 0 names ∅)) key =
    Ok (default None (column_value names row key)).
Proof.
  intros Hlen.
  assert (Hidx : GetIndex (MkResultSet res (Some (Some row)) (field_map 0 names ∅)) key =
    match list_find (λ n, c_str n = key) names with
    | Some (i, _) => Z.of_nat i | None => (-1)%Z end).
  { unfold GetIndex. cbn [key_map_]. rewrite field_map_lookup, lookup_empty.
    by destruct (list_find _ names) as [[i x]|]. }
  unfold GetString, column_value. rewrite Hidx.
  destruct (list_find _ names) as [[i x]|] eqn:F; [|done].
  apply list_find_Some in F as (F & _ & _). apply lookup_lt_Some in F.
  destruct (Z.eqb_spec (Z.of_nat i) (-1)); [lia|]. unfold row_at. cbn [row_].
  rewrite Nat2Z.id. destruct (lookup_lt_is_Some_2 row i) as [v Hv]; [lia|]. by rewrite Hv.
Qed.

(** After a [Next] that found a row (with one value per field), [GetString] is the
  value of the first column with that name and null when there is no such column;
  [GetInt] is its decimal value and 0 when there is no such column, so that only a SQL
  [NULL] is undefined.  [Next] on the row after the last one returns false, and then
  every read of an existing column is a null dereference. *)
Theorem CResultSet_columns (res : RES) (key : str) :
  let names := mysql_field_names res in
  let r := (Next (CResultSet_new res)).2 in
  (Next (CResultSet_new res)).1 = bool_decide (is_Some (mysql_fetch_row res).1) ∧
  (∀ row, (mysql_fetch_row res).1 = Some row → length row = length names →
     GetString r key = Ok (default None (column_value names row key)) ∧
     GetInt r key = match column_value names row key with
                    | None => Ok 0%Z
                    | Some (Some s) => Ok (atoi s)
                    | Some None => Undef NullDeref
                    end) ∧
  ((mysql_fetch_row res).1 = None →
     GetString r key = match list_find (λ n, c_str n = key) names with
                       | Some _ => Undef NullDeref
                       | None => Ok None
                       end).
Proof.
  intros names r. unfold r, Next, CResultSet_new. cbn [res_].
  destruct (mysql_fetch_row res) as [o res'] eqn:E. cbn [fst snd].
  assert (Hidx : ∀ row, GetIndex (MkResultSet res' row (field_map 0 names ∅)) key =
    match list_find (λ n, c_str n = key) names with
    | Some (i, _) => Z.of_nat i | None => (-1)%Z end).
  { intros row. unfold GetIndex. cbn [key_map_]. rewrite field_map_lookup, lookup_empty.
    by destruct (list_find _ names) as [[i x]|]. }
  split_and!.
  - destruct o; symmetry; [apply bool_decide_eq_true|apply bool_decide_eq_false]; [eauto|].
    by intros [].
  - intros row -> Hlen. unfold GetString, GetInt, column_value. rewrite Hidx. fold names.
    destruct (list_find _ names) as [[i x]|] eqn:F; [|done].
    apply list_find_Some in F as (F & _ & _). apply lookup_lt_Some in F.
    destruct (Z.eqb_spec (Z.of_nat i) (-1)); [lia|]. unfold row_at. cbn [row_].
    rewrite Nat2Z.id. destruct (lookup_lt_is_Some_2 row i) as [v Hv]; [lia|].
    rewrite Hv. by destruct v.
  - intros ->. unfold GetString. rewrite Hidx. fold names.
    destruct (list_find _ names) as [[i x]|]; [|done].
    destruct (Z.eqb_spec (Z.of_nat i) (-1)); [lia|done].
Qed.
End ResultSetProperties.

(** ** Prepared statements *)

(** [SetParam(index++, v)] on the values in their order. *)
Fixpoint SetParams {STMT} (index : Z) (values : list str) (st : CPrepareStatement STMT)
    : result (CPrepareStatement STMT) :=
  match values with
  | [] => Ok st
  | v :: values' => let* st := SetParam index v st in SetParams (index + 1) values' st
  end.

Lemma set_bind_at {STMT} i b (s : option STMT) l :
  (0 ≤ i)%Z →
  set_bind i b (MkPrepare s (Some l) (Z.of_nat (length l))) =
    Ok (MkPrepare s (Some (<[Z.to_nat i := b]> l)) (Z.of_nat (length l))).
Proof.
  intros Hi. unfold set_bind. cbn. destruct (Z.leb_spec (Z.of_nat (length l)) i); [|done].
  rewrite list_insert_ge by lia. done.
Qed.

Lemma SetParams_at {STMT} values k (s : option STMT) l :
  (Z.of_nat (k + length values) < 2 ^ 32)%Z →
  SetParams (Z.of_nat k) values (MkPrepare s (Some l) (Z.of_nat (length l))) =
    Ok (MkPrepare s (Some (list_inserts k (bind_string <$> values) l)) (Z.of_nat (length l))).
Proof.
  revert k l. induction values as [|v values IH]; intros k l Hk; [done|]. cbn in Hk.
  cbn [SetParams list_inserts fmap list_fmap]. unfold SetParam.
  rewrite wrap_small, set_bind_at, Nat2Z.id by lia. cbn [rbind].
  rewrite <- (length_insert l k (bind_string v)).
  replace (Z.of_nat k + 1)%Z with (Z.of_nat (S k)) by lia.
  rewrite IH by lia. by rewrite <- list_insert_inserts_lt by lia.
Qed.

Lemma SetParams_no_bind {STMT} values k (st : CPrepareStatement STMT) :
  (0 ≤ k)%Z → param_cnt_ st = 0%Z → SetParams k values st = Ok st.
Proof.
  revert k. induction values as [|v values IH]; intros k Hk H0; [done|].
  cbn [SetParams]. unfold SetParam, set_bind. rewrite H0.
  rewrite (proj2 (Z.leb_le _ _)) by (apply wrap_range; lia). cbn. apply IH; [lia|done].
Qed.

Lemma list_inserts_0 {A} (k l : list A) :
  list_inserts 0 k l = take (length l) k ++ drop (length k) l.
Proof.
  destruct (decide (length k ≤ length l)).
  - rewrite take_ge by done. rewrite <- (take_drop (length k) l) at 1.
    apply list_inserts_0_r. rewrite length_take. lia.
  - rewrite (drop_ge l) by lia. rewrite app_nil_r. rewrite <- (take_drop (length l) k) at 1.
    apply list_inserts_0_l. rewrite length_take. lia.
Qed.

Section PrepareProperties.
Context {W RES STMT : Type} `{MY : MySql W RES STMT}.

(** The parameters a statement is executed with when [values] were set in order. *)
Definition bound_params (cnt : nat) (values : list str) : list mysql_bind :=
  take cnt (bind_string <$> values) ++ replicate (cnt - length values) bind_zero.

Lemma CPrepareStatement_Init_inv h sql (st : CPrepareStatement STMT) w w1 :
  CPrepareStatement_Init (Some h) sql (CPrepareStatement_new, w) = (Ok true, (st, w1)) →
  ∃ s cnt, cnt = u32 (mysql_stmt_param_count s w1) ∧
    st = MkPrepare (Some s)
           (if (0 <? cnt)%Z then Some (replicate (Z.to_nat cnt) bind_zero) else None) cnt.
Proof.
  unfold CPrepareStatement_Init. intros H.
  apply ibind_inv in H as (? & [? ?] & Hp & H). unfold via_mysql in Hp.
  destruct (mysql_ping h w) as [? wp]. injection Hp as _ <- <-.
  apply ibind_inv in H as (o & [? ?] & Hi & H). unfold via_mysql in Hi.
  destruct (mysql_stmt_init h wp) as [o' wi]. injection Hi as -> <- <-.
  apply ibind_inv in H as (? & [? ?] & Hs & H). injection Hs as _ <- <-.
  destruct o as [s|]; [|by injection H]. cbn in H.
  apply ibind_inv in H as (f & [? ?] & Hf & H). unfold via_mysql in Hf.
  destruct (mysql_stmt_prepare s sql wi) as [f' wf]. injection Hf as -> <- <-.
  destruct (f =? 0)%Z; [|by injection H]. cbn in H. injection H as <- <-. by eauto.
Qed.

(** A statement prepared by [Init] and given its values by [SetParam(index++, ...)] is
  executed with exactly these values in their order: a value beyond the number of
  placeholders is dropped and a placeholder without value keeps the zero binding.
  [ExecuteUpdate] returns true exactly when binding and execution succeed and rows
  were changed. *)
Theorem prepared_values_sent h sql (values : list str) (st : CPrepareStatement STMT) w w1 :
  CPrepareStatement_Init (Some h) sql (CPrepareStatement_new, w) = (Ok true, (st, w1)) →
  (Z.of_nat (length values) < 2 ^ 32)%Z →
  ∃ s st', SetParams 0 values st = Ok st' ∧ stmt_ st' = Some s ∧
    let params := bound_params (Z.to_nat (u32 (mysql_stmt_param_count s w1))) values in
    let bind := mysql_stmt_bind_param s params w1 in
    let run := mysql_stmt_execute s bind.2 in
    CPrepareStatement_ExecuteUpdate (st', w1) =
      if negb (bind.1 =? 0)%Z then (Ok false, (st', bind.2))
      else (Ok ((run.1 =? 0)%Z && negb (mysql_stmt_affected_rows s run.2 =? 0)%Z), (st', run.2)).
Proof.
  intros H Hlen. apply CPrepareStatement_Init_inv in H as (s & cnt & Ec & ->).
  assert (Hc : (0 ≤ cnt)%Z) by (rewrite Ec; apply wrap_range; lia).
  exists s. eexists. rewrite <- Ec.
  assert (Hset : SetParams 0 values
    (MkPrepare (Some s) (if (0 <? cnt)%Z then Some (replicate (Z.to_nat cnt) bind_zero) else None) cnt) =
    Ok (MkPrepare (Some s) (if (0 <? cnt)%Z then Some (bound_params (Z.to_nat cnt) values) else None) cnt)).
  { destruct (Z.ltb_spec 0 cnt).
    - pose proof (SetParams_at values 0 (Some s) (replicate (Z.to_nat cnt) bind_zero)) as E.
      rewrite length_replicate, Z2Nat.id in E by lia. change (Z.of_nat 0) with 0%Z in E.
      rewrite E by lia.
      rewrite list_inserts_0, length_replicate, drop_replicate, length_fmap. done.
    - apply SetParams_no_bind; [lia|cbn; lia]. }
  split; [exact Hset|]. split; [done|].
  assert (Hb : default [] (if (0 <? cnt)%Z then Some (bound_params (Z.to_nat cnt) values) else None)
               = bound_params (Z.to_nat cnt) values).
  { destruct (Z.ltb_spec 0 cnt); [done|]. replace (Z.to_nat cnt) with 0 by lia. done. }
  unfold CPrepareStatement_ExecuteUpdate, ibind, via_mysql. cbn -[bound_params]. rewrite Hb.
  destruct (mysql_stmt_bind_param s _ w1) as [e1 w2]. cbn [fst snd].
  destruct (e1 =? 0)%Z; [|done]. cbn.
  destruct (mysql_stmt_execute s w2) as [e2 w3]. cbn. by destruct (e2 =? 0)%Z.
Qed.
End PrepareProperties.

(** ** Connections *)

Section ConnProperties.
Context {W RES STMT : Type} `{MY : MySql W RES STMT}.

(** [h] is a connection of [c] ready for a statement in [w1]: it answered the ping, or it
  was just connected to the server of the pool. *)
Definition live (c : CDBConn) (w : W) (h : nat) (w1 : W) : Prop :=
  mysql_ c = Some h ∧ mysql_ping h w = (0%Z, w1) ∨
  ∃ w2, let p := db_pool_ c in
    mysql_real_connect h (c_str (db_server_ip_ p)) (c_str (username_ p))
      (c_str (password_ p)) (c_str (db_name_ p)) (db_server_port_ p) w2 = (true, w1).

Lemma CheckAndReconnect_inv c w b (s1 : CDBConn * W) :
  CheckAndReconnect (c, w) = (Ok b, s1) →
  db_pool_ s1.1 = db_pool_ c ∧ row_num s1.1 = row_num c ∧
  (b = true → ∃ h, mysql_ s1.1 = Some h ∧ live c w h s1.2).
Proof.
  unfold CheckAndReconnect. intros H. apply ibind_inv in H as (h & s & Hh & H).
  unfold handle in Hh. cbn in Hh. destruct (mysql_ c) as [h'|] eqn:Ec; [|done].
  injection Hh as -> <-. apply ibind_inv in H as (e & s & Hp & H). unfold via_mysql in Hp.
  destruct (mysql_ping h w) as [e' wp] eqn:Ep. injection Hp as -> <-.
  destruct (Z.eqb_spec e 0) as [->|]; cbn [negb] in H.
  - injection H as <- <-. split_and!; [done|done|]. intros _. exists h. split; [done|]. by left.
  - apply ibind_inv in H as (? & s & H1 & H). injection H1 as _ <-.
    apply ibind_inv in H as (? & s & H1 & H). injection H1 as _ <-.
    apply ibind_inv in H as (r & s & H1 & H). injection H as <- <-.
    unfold CDBConn_Init in H1. apply ibind_inv in H1 as (o & s2 & H1 & H).
    unfold via_mysql in H1. destruct (mysql_init _) as [o' wi]. injection H1 as -> <-.
    apply ibind_inv in H as (? & s2 & H1 & H). injection H1 as _ <-.
    destruct o as [h2|]; [|injection H as <- <-; by split_and!].
    cbn in H. destruct (mysql_real_connect _ _ _ _ _ _ _) as [[] wc] eqn:Er;
      injection H as <- <-; split_and!; [done|done| |done|done|done].
    intros _. exists h2. split; [done|]. right. eauto.
Qed.

Lemma checked_query_inv sql c w b (s1 : CDBConn * W) :
  checked_query sql (c, w) = (Ok b, s1) →
  db_pool_ s1.1 = db_pool_ c ∧ row_num s1.1 = row_num c ∧
  (b = true → ∃ h w1, mysql_ s1.1 = Some h ∧ live c w h w1 ∧
                      mysql_real_query h sql w1 = (0%Z, s1.2)).
Proof.
  unfold checked_query. intros H. apply ibind_inv in H as (ok & [c2 w2] & Hc & H).
  apply CheckAndReconnect_inv in Hc as (Hp & Hr & Hl). destruct ok; cbn [negb] in H.
  - destruct (Hl eq_refl) as (h & Hh & Hlive). cbn in Hh.
    apply ibind_inv in H as (h' & s & H1 & H). unfold handle in H1. cbn in H1.
    rewrite Hh in H1. injection H1 as <- <-.
    apply ibind_inv in H as (e & s & H1 & H). unfold via_mysql in H1.
    destruct (mysql_real_query h sql w2) as [e' w3] eqn:Eq. injection H1 as -> <-.
    injection H as <- <-. split_and!; [done|done|]. intros He%Z.eqb_eq. subst e.
    exists h, w2. by split_and!.
  - injection H as <- <-. by split_and!.
Qed.

(** A statement that [ExecuteUpdate] reports as executed was accepted by the server, on
  a connection that had just answered the ping or had just been made to the server of
  the pool, and (if the caller cares) has changed rows.  The connection stays bound to
  its pool, and the last statement sent is the caller's. *)
Theorem ExecuteUpdate_sound sql_query care (c : CDBConn) (w : W) b c' w' :
  ExecuteUpdate sql_query care (c, w) = (Ok b, (c', w')) →
  GetPoolName c' = GetPoolName c ∧
  (b = true → ∃ h w1, mysql_ c' = Some h ∧ live c w h w1 ∧
     mysql_real_query h (c_str sql_query) w1 = (0%Z, w') ∧
     (care = true → (0 < u64 (mysql_affected_rows h w'))%Z)).
Proof.
  unfold ExecuteUpdate. intros H. apply ibind_inv in H as (ok & [c2 w2] & Hc & H).
  apply checked_query_inv in Hc as (Hp & _ & Hl). unfold GetPoolName. cbn in Hp.
  destruct ok; cbn [negb] in H; [|injection H as <- <- <-; by rewrite Hp].
  destruct (Hl eq_refl) as (h & w1 & Hh & Hlive & Hq). cbn in Hh.
  apply ibind_inv in H as (h' & s & H1 & H). unfold handle in H1. cbn in H1.
  rewrite Hh in H1. injection H1 as <- <-. injection H as <- <- <-. split; [by rewrite Hp|].
  intros Hb. exists h, w1. split_and!; [done|done|done|]. intros ->.
  rewrite orb_false_r in Hb. by apply Z.ltb_lt.
Qed.

(** When the connection is lost and the client library cannot make a new [MYSQL]
  object, the operation fails but the connection keeps a null pointer: whatever the next
  operation is, it passes it to [mysql_ping]. *)
Theorem reconnect_leaves_null n p h sql care (w w1 w2 : W) e :
  mysql_ping h w = (e, w1) → e ≠ 0%Z → mysql_init (mysql_close h w1) = (None, w2) →
  let s := (MkDBConn n p None, w2) in
  ExecuteUpdate sql care (MkDBConn n p (Some h), w) = (Ok false, s) ∧
  (∀ sql' care', ExecuteUpdate sql' care' s = (Undef NullDeref, s)) ∧
  (∀ sql', ExecuteQuery sql' s = (Undef NullDeref, s)) ∧
  StartTransaction s = (Undef NullDeref, s).
Proof.
  intros Hp He Hi s. split_and!; [|done..].
  unfold ExecuteUpdate, checked_query, CheckAndReconnect, CDBConn_Init, ibind, handle, via_mysql.
  cbn. rewrite Hp. apply Z.eqb_neq in He. rewrite He. cbn. by rewrite Hi.
Qed.

(** The rows a query left to be read. *)
Lemma ExecuteQuery_inv sql_query (c : CDBConn) (w : W) r c' w' :
  ExecuteQuery sql_query (c, w) = (Ok (Some r), (c', w')) →
  ∃ h w1 w2 res, live c w h w1 ∧ mysql_real_query h (c_str sql_query) w1 = (0%Z, w2) ∧
    mysql_store_result h w2 = (Some res, w') ∧ r = CResultSet_new res ∧
    GetRowNum c' = i32 (mysql_num_rows res) ∧ db_pool_ c' = db_pool_ c.
Proof.
  unfold ExecuteQuery. intros H. apply ibind_inv in H as (ok & [c2 w2] & Hc & H).
  apply CheckAndReconnect_inv in Hc as (Hp & _ & Hl).
  destruct ok; cbn [negb] in H; [|by injection H]. destruct (Hl eq_refl) as (h & Hh & Hlive).
  cbn in Hh. apply ibind_inv in H as (? & s & H1 & H). injection H1 as _ <-.
  apply ibind_inv in H as (h' & s & H1 & H). unfold handle in H1. cbn in H1.
  rewrite Hh in H1. injection H1 as <- <-.
  apply ibind_inv in H as (e & s & H1 & H). unfold via_mysql in H1.
  destruct (mysql_real_query h _ w2) as [e' w3] eqn:Eq. injection H1 as -> <-.
  destruct (Z.eqb_spec e 0) as [->|]; cbn [negb] in H; [|by injection H].
  apply ibind_inv in H as (o & s & H1 & H). unfold via_mysql in H1.
  destruct (mysql_store_result h w3) as [o' w4] eqn:Es. injection H1 as -> <-.
  destruct o as [res|]; [|by injection H].
  apply ibind_inv in H as (? & s & H1 & H). injection H1 as _ <-. injection H as <- <- <-.
  exists h, w2, w3, res. by split_and!.
Qed.
End ConnProperties.

(** ** A server for the witnesses *)

(** One table, whose rows every query returns; a log of the statements with their
    parameters. *)
Record demo_mysql : Type := MkMysql {
  dm_up : bool;                 (* the connections answer *)
  dm_memory : bool;             (* [mysql_init] succeeds *)
  dm_log : list (str * list mysql_bind)
}.

Definition dm_add (sql : str) (l : list mysql_bind) (w : demo_mysql) : demo_mysql :=
  MkMysql (dm_up w) (dm_memory w) (dm_log w ++ [(sql, l)]).

Abbreviation demo_table := (list str * list mysql_row)%type.

#[export] Instance demo_mysql_ops : MySql demo_mysql demo_table str := {|
  mysql_init w := (if dm_memory w then Some 7 else None, w);
  mysql_options_charset _ _ w := w;
  mysql_real_connect _ _ _ _ _ _ w := (true, w);
  mysql_close _ w := w;
  mysql_ping _ w := (if dm_up w then 0%Z else 1%Z, w);
  mysql_real_query _ sql w := (0%Z, dm_add sql [] w);
  mysql_store_result _ w := (Some (["name" : str; "n" : str], [[Some ("ann" : str); Some ("12" : str)]]), w);
  mysql_affected_rows _ _ := 1%Z;
  mysql_insert_id _ _ := 1%Z;
  mysql_field_names := fst;
  mysql_num_rows t := Z.of_nat (length t.2);
  mysql_fetch_row t := match t.2 with [] => (None, t) | r :: l => (Some r, (t.1, l)) end;
  mysql_stmt_init _ w := (Some ("" : str), w);
  mysql_stmt_prepare _ _ w := (0%Z, w);
  mysql_stmt_param_count _ _ := 2%Z;
  mysql_stmt_bind_param s l w := (0%Z, dm_add s l w);
  mysql_stmt_execute _ w := (0%Z, w);
  mysql_stmt_affected_rows _ _ := 1%Z;
  mysql_stmt_insert_id _ _ := 1%Z
|}.

Definition demo_server : db_server := CDBPool_server "chatroom_slave" "127.0.0.1" 3306 "u" "p" "db".

Lemma CResultSet_columns_witness :
  let r := (Next (CResultSet_new (["name" : str; "n" : str],
                                   [[Some ("ann" : str); Some ("12" : str)]] : list mysql_row))).2 in
  GetString r "name" = Ok (Some ("ann" : str)) ∧ GetInt r "n" = Ok 12%Z ∧ GetInt r "m" = Ok 0%Z.
Proof.
  intros r.
  pose (t := (["name" : str; "n" : str], [[Some ("ann" : str); Some ("12" : str)]] : list mysql_row)).
  destruct (CResultSet_columns t "name") as (_ & H1 & _).
  destruct (CResultSet_columns t "n") as (_ & H2 & _).
  destruct (CResultSet_columns t "m") as (_ & H3 & _).
  split_and!.
  - exact (eq_trans (proj1 (H1 _ eq_refl eq_refl)) eq_refl).
  - exact (eq_trans (proj2 (H2 _ eq_refl eq_refl)) eq_refl).
  - exact (eq_trans (proj2 (H3 _ eq_refl eq_refl)) eq_refl).
Defined.

Lemma prepared_values_sent_witness :
  let w := MkMysql true true [] in
  let st := MkPrepare (Some ("" : str)) (Some [bind_zero; bind_zero]) 2 in
  ∃ st', SetParams 0 ["a" : str; "b" : str; "c" : str] st = Ok st' ∧
    (CPrepareStatement_ExecuteUpdate (st', w)).2.2 =
      MkMysql true true [("" : str, [bind_string "a"; bind_string "b"])].
Proof.
  intros w st.
  destruct (prepared_values_sent 7 "insert" ["a" : str; "b" : str; "c" : str] st w w)
    as (s & st' & H1 & H2 & H3); [reflexivity|reflexivity|].
  exists st'. split; [exact H1|]. cbn zeta in H3. rewrite H3.
  assert (s = []) as ->; [|reflexivity].
  injection H1 as <-. by injection H2.
Defined.

Lemma ExecuteUpdate_sound_witness :
  ∃ h w1, live (MkDBConn 0 demo_server (Some 3)) (MkMysql false true []) h w1 ∧
    mysql_real_query h "drop table t" w1 = (0%Z, MkMysql false true [("drop table t" : str, [])]).
Proof.
  destruct (ExecuteUpdate_sound "drop table t" true (MkDBConn 0 demo_server (Some 3))
    (MkMysql false true []) true (MkDBConn 0 demo_server (Some 7))
    (MkMysql false true [("drop table t" : str, [])])) as [_ H]; [reflexivity|].
  destruct (H eq_refl) as (h & w1 & _ & Hl & Hq & _). by exists h, w1.
Defined.

Lemma reconnect_leaves_null_witness :
  let w := MkMysql false false [] in
  ExecuteUpdate "delete" true (MkDBConn 0 demo_server (Some 3), w) =
    (Ok false, (MkDBConn 0 demo_server None, w)) ∧
  ExecuteQuery "select" (MkDBConn 0 demo_server None, w) =
    (Undef NullDeref, (MkDBConn 0 demo_server None, w)).
Proof.
  intros w.
  destruct (reconnect_leaves_null (MY:=demo_mysql_ops) 0 demo_server 3 "delete" true w w w 1 eq_refl ltac:(lia) eq_refl)
    as (H1 & _ & H2 & _).
  split; [exact H1|apply H2].
Defined.
