(* ===== verification/PoolManager.v ===== *)
(** [CDBManager] of [mysql/db_pool.cc] and [CacheManager] of [redis/cache_pool.cc]: the
    pools of the logic service by name, built from the configuration file.

    The two managers are the same code up to the settings of an instance and the kind of
    connection, so the pools and the manager are written once, over the interface
    [PoolConn] that a kind of connection implements. *)

From S2P Require Import Prelude Util ConfigReader ConnPool CacheConn DbPool.

(** ** The interface of a pooled connection

    [S]: what a pool knows of its server; [C]: the connection object. *)
Class PoolConn (S C W : Type) : Type := {
  conn_new : S → C;                        (* new CDBConn(this), new CacheConn(...) *)
  conn_init : io (C * W) Z;                (* its Init() *)
  conn_pool_name : S → str;                (* GetPoolName() of its connections *)
  min_conn_cnt : Z;
  (* what the pool's Init() returns for a failure of the connection *)
  init_error : Z → Z
}.

(** A pointer to a connection: the name its [GetPoolName()] returns, and the object. *)
Record conn_ptr : Type := MkPtr { ptr_pool : str; ptr_obj : nat }.

(** A pool together with its connection objects. *)
Record named_pool (S C : Type) : Type := MkNamed {
  np_server : S;
  np_pool : pool;
  np_conns : gmap nat C
}.
Arguments MkNamed {S C} _ _ _.
Arguments np_server {S C} _.
Arguments np_pool {S C} _.
Arguments np_conns {S C} _.

(** What a manager needs to know of an instance: its server and its maximal number of
    connections; [None] when a setting is missing. *)
Abbreviation instance_reader S := (CConfigFileReader → str → result (option (S * Z))).

Section Manager.
Context {S C W : Type} `{PC : PoolConn S C W}.

Definition NamedPool_new (s : S) (max_conn_cnt : Z) : named_pool S C :=
  MkNamed s (Pool_new min_conn_cnt max_conn_cnt) ∅.

(** A new connection and the result of its [Init]. *)
Definition open_conn (s : S) : io W (Z * C) := λ w,
  let '(r, (c, w)) := conn_init (conn_new s, w) in
  match r with
  | Ok ret => (Ok (ret, c), w)
  | Throw e => (Throw e, w)
  | Undef u => (Undef u, w)
  end.

(** The connections that the loop of the pool's [Init] makes: it stops at a failure. *)
Fixpoint open_conns (n : nat) (s : S) : io W (list (Z * C)) :=
  match n with
  | O => iret []
  | Datatypes.S n' =>
      do* r := open_conn s in
      if (r.1 =? 0)%Z then do* rest := open_conns n' s in iret (r :: rest) else iret [r]
  end.

(** The objects numbered from [i] that were made without failure. *)
Fixpoint store_conns (i : nat) (rs : list (Z * C)) (m : gmap nat C) : gmap nat C :=
  match rs with
  | [] => m
  | (ret, c) :: rs' =>
      store_conns (Datatypes.S i) rs' (if (ret =? 0)%Z then <[i := c]> m else m)
  end.

(** [CDBPool::Init] / [CachePool::Init] *)
Definition NamedPool_Init (p : named_pool S C) : io W (Z * named_pool S C) :=
  do* rs := open_conns (Z.to_nat (cur_conn_cnt_ (np_pool p))) (np_server p) in
  let (ret, q) := Pool_Init (Z.to_nat (cur_conn_cnt_ (np_pool p))) rs.*1 (np_pool p) in
  iret (if (ret =? 0)%Z then 0%Z else init_error ret,
        MkNamed (np_server p) q (store_conns (next_obj (np_pool p)) rs (np_conns p))).

(** Whether [GetDBConn] makes a new connection. *)
Definition grows (p : pool) : bool :=
  negb (abort_request_ p) && bool_decide (free_list_ p = []) &&
  (cur_conn_cnt_ p <? max_conn_cnt_ p)%Z.

(** [CDBPool::GetDBConn] / [CachePool::GetCacheConn] up to the wait. *)
Definition NamedPool_Get (p : named_pool S C) : io W (get_outcome * named_pool S C) :=
  if grows (np_pool p) then
    do* r := open_conn (np_server p) in
    let (o, q) := GetConn_enter r.1 (np_pool p) in
    iret (o, MkNamed (np_server p) q (store_conns (next_obj (np_pool p)) [r] (np_conns p)))
  else
    let (o, q) := GetConn_enter 0 (np_pool p) in
    iret (o, MkNamed (np_server p) q (np_conns p)).

(** ** The manager *)

(** [dbpool_map_] / [m_cache_pool_map]. *)
Abbreviation manager := (gmap str (named_pool S C)).

(** [insert] keeps the pool that already has the name. *)
Definition add_pool (name : str) (p : named_pool S C) (m : manager) : manager :=
  match m !! name with Some _ => m | None => <[name := p]> m end.

(** One iteration of the loop over the instances: 0 to go on. *)
Definition load_instance (read : instance_reader S) (config : CConfigFileReader)
    (instances : CStrExplode) (i : nat) (m : manager) : io W (Z * manager) :=
  do* pool_name := ilift (GetItem instances (Z.of_nat i)) in
  do* settings := ilift (read config pool_name) in
  match settings with
  | None => iret (2%Z, m)
  | Some (server, max_conn_cnt) =>
      do* r := NamedPool_Init (NamedPool_new server max_conn_cnt) in
      if negb (r.1 =? 0)%Z then iret (3%Z, m)
      else iret (0%Z, add_pool pool_name r.2 m)
  end.

Fixpoint load_instances (read : instance_reader S) (config : CConfigFileReader)
    (instances : CStrExplode) (idxs : list nat) (m : manager) : io W (Z * manager) :=
  match idxs with
  | [] => iret (0%Z, m)
  | i :: idxs' =>
      do* r := load_instance read config instances i m in
      if (r.1 =? 0)%Z then load_instances read config instances idxs' r.2 else iret r
  end.

(** [Init]: [key] is the setting that lists the instances, [content] the file; the
  destructor of the list runs on every return. *)
Definition Manager_Init (key : str) (read : instance_reader S) (conf_path : str)
    (content : option str) (m : manager) : io W (Z * manager) :=
  do* config := ilift (CConfigFileReader_new conf_path content) in
  do* db_instances := ilift (GetConfigName config key) in
  match db_instances with
  | None => iret (1%Z, m)
  | Some names =>
      let instances := CStrExplode_new names ","%char in
      do* r := load_instances read config instances
                 (seq 0 (Z.to_nat (GetItemCnt instances))) m in
      do* _ := ilift (CStrExplode_delete instances) in
      iret r
  end.

(** [getInstance]: the manager is made at the first call that succeeds. *)
Definition getInstance (key : str) (read : instance_reader S) (conf_path : str)
    (content : option str) (s_manager : option manager) : io W (option manager) :=
  match s_manager with
  | Some m => iret (Some m)
  | None =>
      do* r := Manager_Init key read conf_path content ∅ in
      iret (if (r.1 =? 0)%Z then Some r.2 else None)
  end.

Inductive manager_outcome : Type :=
  | GotConn (p : conn_ptr)
  | GotNullConn
  | ManagerWaits.

(** [GetDBConn(name)] / [GetCacheConn(name)], without time-out. *)
Definition Manager_Get (name : str) (m : manager) : io W (manager_outcome * manager) :=
  match m !! name with
  | None => iret (GotNullConn, m)
  | Some p =>
      do* r := NamedPool_Get p in
      let m' := <[name := r.2]> m in
      iret (match r.1 with
            | Got c => GotConn (MkPtr (conn_pool_name (np_server p)) c)
            | GotNull => GotNullConn
            | MustWait => ManagerWaits
            end, m')
  end.

(** [RelDBConn(conn)] / [RelCacheConn(conn)]; [None] is a null pointer. *)
Definition Manager_Rel (conn : option conn_ptr) (m : manager) : manager :=
  match conn with
  | None => m
  | Some ptr =>
      match m !! ptr_pool ptr with
      | None => m
      | Some p =>
          <[ptr_pool ptr :=
              MkNamed (np_server p) (RelConn (ptr_obj ptr) (np_pool p)).2 (np_conns p)]> m
      end
  end.
End Manager.

(** ** The two managers *)

(** [snprintf(buf, 64, "%s_host", pool_name)] and [GetConfigName(buf)]. *)
Definition instance_setting (config : CConfigFileReader) (pool_name suffix : str)
    : result (option str) :=
  GetConfigName config (snprintf_trunc 64 (c_str pool_name ++ suffix)).

Definition read_db_instance : instance_reader db_server := λ config pool_name,
  let* db_host := instance_setting config pool_name "_host" in
  let* str_db_port := instance_setting config pool_name "_port" in
  let* db_dbname := instance_setting config pool_name "_dbname" in
  let* db_username := instance_setting config pool_name "_username" in
  let* db_password := instance_setting config pool_name "_password" in
  let* str_maxconncnt := instance_setting config pool_name "_maxconncnt" in
  match db_host, str_db_port, db_dbname, db_username, db_password, str_maxconncnt with
  | Some host, Some port, Some dbname, Some username, Some password, Some maxconncnt =>
      Ok (Some (CDBPool_server pool_name host (atoi port) username password dbname,
                atoi maxconncnt))
  | _, _, _, _, _, _ => Ok None
  end.

(** What a [CachePool] knows of its server. *)
Record cache_server : Type := MkCacheServer {
  cs_pool_name : str;
  cs_server_ip : str;
  cs_server_port : Z;
  cs_db_index : Z;
  cs_password : str
}.

Definition read_cache_instance : instance_reader cache_server := λ config pool_name,
  let* cache_host := instance_setting config pool_name "_host" in
  let* str_cache_port := instance_setting config pool_name "_port" in
  let* str_cache_db := instance_setting config pool_name "_db" in
  let* str_max_conn_cnt := instance_setting config pool_name "_maxconncnt" in
  match cache_host, str_cache_port, str_cache_db, str_max_conn_cnt with
  | Some host, Some port, Some db, Some max_conn_cnt =>
      Ok (Some (MkCacheServer pool_name host (atoi port) (atoi db) [], atoi max_conn_cnt))
  | _, _, _, _ => Ok None
  end.

#[export] Instance db_pool_conn {W RES STMT} `{MySql W RES STMT} : PoolConn db_server CDBConn W := {|
  conn_new := CDBConn_new;
  conn_init := CDBConn_Init;
  conn_pool_name s := c_str (pool_name_ s);
  min_conn_cnt := MIN_DB_CONN_CNT;
  init_error ret := ret
|}.

#[export] Instance cache_pool_conn {W} `{HiRedis W} : PoolConn cache_server cache_conn W := {|
  conn_new s :=
    CacheConn_new (c_str (cs_server_ip s)) (cs_server_port s) (cs_db_index s)
      (c_str (cs_password s)) (c_str (cs_pool_name s));
  conn_init := Init;
  conn_pool_name s := c_str (cs_pool_name s);
  min_conn_cnt := MIN_CACHE_CONN_CNT;
  init_error _ := 1%Z
|}.

Definition CDBManager_Init {W RES STMT} `{MySql W RES STMT}
    : str → option str → gmap str (named_pool db_server CDBConn) → io W _ :=
  Manager_Init "DBInstances" read_db_instance.
Definition CacheManager_Init {W} `{HiRedis W}
    : str → option str → gmap str (named_pool cache_server cache_conn) → io W _ :=
  Manager_Init "CacheInstances" read_cache_instance.

Definition CDBManager_GetDBConn {W RES STMT} `{MySql W RES STMT}
    : str → gmap str (named_pool db_server CDBConn) → io W _ := Manager_Get.
Definition CacheManager_GetCacheConn {W} `{HiRedis W}
    : str → gmap str (named_pool cache_server cache_conn) → io W _ := Manager_Get.
Definition CDBManager_RelDBConn
    : option conn_ptr → gmap str (named_pool db_server CDBConn) → _ := Manager_Rel.
Definition CacheManager_RelCacheConn
    : option conn_ptr → gmap str (named_pool cache_server cache_conn) → _ := Manager_Rel.

(** ** Properties *)

(** What the manager relies on: a failed [Init] makes the pool's [Init] fail. *)
Class PoolConnLaws (S C W : Type) `{PC : PoolConn S C W} : Prop := {
  init_error_law ret : ret ≠ 0%Z → init_error ret ≠ 0%Z;
  min_conn_cnt_law : (0 ≤ min_conn_cnt)%Z
}.

#[export] Instance db_pool_laws {W RES STMT} `{MySql W RES STMT} :
  PoolConnLaws db_server CDBConn W.
Proof. by constructor. Qed.

#[export] Instance cache_pool_laws {W} `{HiRedis W} : PoolConnLaws cache_server cache_conn W.
Proof. by constructor. Qed.

Section Properties.
Context {S C W : Type} `{PL : PoolConnLaws S C W}.
Abbreviation manager := (gmap str (named_pool S C)).

(** A connection of [s] whose [Init] reported a failure. *)
Definition init_failed (s : S) : Prop :=
  ∃ (w w' : W) ret c, open_conn s w = (Ok (ret, c), w') ∧ ret ≠ 0%Z.

Lemma open_conns_spec n (s : S) (w w' : W) rs :
  open_conns n s w = (Ok rs, w') →
  length rs = n ∧ Forall (λ r, r.1 = 0%Z) rs ∨
  ∃ pre r, rs = pre ++ [r] ∧ Forall (λ r, r.1 = 0%Z) pre ∧ r.1 ≠ 0%Z ∧ length pre < n ∧
           init_failed s.
Proof.
  revert w rs. induction n as [|n IH]; intros w rs; cbn.
  - intros [= <- <-]. by left.
  - intros H. apply ibind_inv in H as ([ret c] & w1 & Ho & H). cbn in H.
    destruct (Z.eqb_spec ret 0) as [->|Hr].
    + apply ibind_inv in H as (rest & w2 & Hn & H). injection H as <- <-.
      apply IH in Hn as [[Hl Hz]|(pre & r & -> & Hz & Hr & Hl & Hf)].
      * left. cbn. split; [lia|]. by constructor.
      * right. exists ((0%Z, c) :: pre), r. cbn. split_and!; [done|by constructor|done|lia|done].
    + injection H as <- <-. right. exists [], (ret, c). split_and!; [done|done|done|cbn; lia|].
      by exists w, w1, ret, c.
Qed.

Lemma Pool_Init_zeros n : ∀ rets p, length rets = n → Forall (λ r, r = 0%Z) rets →
  (Pool_Init n rets p).1 = 0%Z.
Proof.
  induction n as [|n IH]; intros [|r rets] p Hl Hz; try done. apply Forall_cons in Hz as [-> Hz].
  cbn. apply IH; [by injection Hl|done].
Qed.

Lemma Pool_Init_fails n : ∀ pre r p, Forall (λ r, r = 0%Z) pre → r ≠ 0%Z → length pre < n →
  (Pool_Init n (pre ++ [r]) p).1 = r.
Proof.
  induction n as [|n IH]; intros pre r p Hz Hr Hl; [lia|].
  destruct pre as [|r0 pre]; cbn.
  - apply Z.eqb_neq in Hr. by rewrite Hr.
  - apply Forall_cons in Hz as [-> Hz]. cbn in Hl. apply IH; [done|done|lia].
Qed.

Lemma store_conns_dom i rs (m : gmap nat C) :
  Forall (λ r, r.1 = 0%Z) rs →
  dom (store_conns i rs m) = dom m ∪ list_to_set (seq i (length rs)).
Proof.
  revert i m. induction rs as [|[ret c] rs IH]; intros i m Hz; cbn; [set_solver|].
  apply Forall_cons in Hz as [Hret Hz]. cbn in Hret. subst ret. rewrite IH by done. cbn.
  rewrite dom_insert_L. set_solver.
Qed.

(** A pool that has just been made for [s]: its minimal connections, all free and open. *)
Definition fresh_pool (s : S) (max : Z) (p : named_pool S C) : Prop :=
  let n := Z.to_nat min_conn_cnt in
  np_server p = s ∧ np_pool p = MkPool (seq 0 n) min_conn_cnt max false n ∧
  dom (np_conns p) = list_to_set (seq 0 n).

Lemma NamedPool_Init_spec (s : S) max (w w' : W) r p :
  NamedPool_Init (NamedPool_new s max) w = (Ok (r, p), w') →
  r = 0%Z ∧ fresh_pool s max p ∨ r ≠ 0%Z ∧ init_failed s.
Proof.
  unfold NamedPool_Init. intros H. apply ibind_inv in H as (rs & w1 & Ho & H).
  cbn [NamedPool_new np_pool np_server np_conns Pool_new cur_conn_cnt_ next_obj] in *.
  destruct (Pool_Init _ _ _) as [ret q] eqn:Ei. injection H as <- <- _.
  apply open_conns_spec in Ho as [[Hl Hz]|(pre & r & -> & Hz & Hr & Hl & Hf)].
  - pose proof (Pool_Init_zeros (Z.to_nat min_conn_cnt) rs.*1 (Pool_new min_conn_cnt max)) as H0.
    rewrite Ei, length_fmap, Forall_fmap in H0. specialize (H0 Hl Hz).
    cbn in H0. subst ret. left. split; [done|]. apply Pool_Init_spec in Ei. subst q. cbn.
    unfold fresh_pool. cbn. split_and!; [done|done|]. rewrite store_conns_dom, Hl by done.
    set_solver.
  - rewrite fmap_app in Ei. cbn in Ei.
    pose proof (Pool_Init_fails (Z.to_nat min_conn_cnt) pre.*1 r.1 (Pool_new min_conn_cnt max)) as H0.
    rewrite Ei, length_fmap, Forall_fmap in H0. cbn in H0.
    specialize (H0 Hz Hr Hl). subst ret. right. split; [|done].
    destruct (Z.eqb_spec r.1 0); [done|]. by apply init_error_law.
Qed.

Section Loading.
Variable read : instance_reader S.
Variable config : CConfigFileReader.
Variable instances : CStrExplode.

Definition is_item (idxs : list nat) (name : str) : Prop :=
  ∃ i, i ∈ idxs ∧ GetItem instances (Z.of_nat i) = Ok name.

(** The pools of [m] are fresh pools of the items of [idxs], with their settings. *)
Definition loaded (idxs : list nat) (m : manager) : Prop :=
  (∀ name p, m !! name = Some p →
   ∃ server max, read config name = Ok (Some (server, max)) ∧ fresh_pool server max p) ∧
  (∀ name, is_Some (m !! name) ↔ is_item idxs name).

(** How loading the items of [idxs] can stop. *)
Definition load_outcome (idxs : list nat) (r : Z) : Prop :=
  r = 2%Z ∧ (∃ name, is_item idxs name ∧ read config name = Ok None) ∨
  r = 3%Z ∧ (∃ name server max, is_item idxs name ∧
             read config name = Ok (Some (server, max)) ∧ init_failed server).

Lemma loaded_add (idxs : list nat) (i : nat) (name : str) (server : S) (max : Z) (m : manager) p :
  loaded idxs m → GetItem instances (Z.of_nat i) = Ok name →
  read config name = Ok (Some (server, max)) → fresh_pool server max p →
  loaded (idxs ++ [i]) (add_pool name p m).
Proof.
  intros [H1 H2] Hi Hr Hf. unfold add_pool. destruct (m !! name) as [p0|] eqn:E.
  - split; [done|]. intros n. rewrite H2. split; intros (j & Hj & Hn).
  + exists j. set_solver.
  + apply elem_of_app in Hj as [Hj|Hj]; [by exists j|]. apply list_elem_of_singleton in Hj as ->.
    rewrite Hi in Hn. injection Hn as <-. apply H2. by rewrite E.
  - split.
  + intros n q. destruct (decide (n = name)) as [->|Hne].
    * rewrite lookup_insert_eq. intros [= <-]. eauto.
    * rewrite lookup_insert_ne by done. apply H1.
  + intros n. destruct (decide (n = name)) as [->|Hne].
    * rewrite lookup_insert_eq. split; [intros _; exists i; set_solver|done].
    * rewrite lookup_insert_ne, H2 by done. split; intros (j & Hj & Hn); exists j.
      -- set_solver.
      -- apply elem_of_app in Hj as [Hj|Hj]; [done|].
         apply list_elem_of_singleton in Hj as ->. congruence.
Qed.

Lemma load_instances_spec (rest idxs : list nat) (m m' : manager) (w w' : W) (r : Z) :
  loaded idxs m → load_instances read config instances rest m w = (Ok (r, m'), w') →
  r = 0%Z ∧ loaded (idxs ++ rest) m' ∨ load_outcome rest r.
Proof.
  revert idxs m w. induction rest as [|i rest IH]; intros idxs m w Hm H; cbn in H.
  - injection H as <- <- _. rewrite app_nil_r. by left.
  - apply ibind_inv in H as ([r1 m1] & w1 & Hl & H).
  assert (Hmono : ∀ r, load_outcome rest r → load_outcome (i :: rest) r).
  { intros x [[-> (name & (j & Hj & Hn) & Hx)]|[-> (name & s & mx & (j & Hj & Hn) & Hx)]];
      [left|right]; (split; [done|]).
    - exists name. split; [|done]. exists j. set_solver.
    - exists name, s, mx. split; [|done]. exists j. set_solver. }
  unfold load_instance in Hl. apply ibind_inv in Hl as (name & w2 & Hi & Hl).
  injection Hi as Hi _. apply ibind_inv in Hl as (o & w3 & Hs & Hl). injection Hs as Hs _.
  assert (Hitem : is_item (i :: rest) name) by (exists i; split; [set_solver|done]).
  destruct o as [[server max]|].
  + apply ibind_inv in Hl as ([r2 p] & w4 & Hp & Hl). cbn in Hl.
    apply NamedPool_Init_spec in Hp as [[-> Hf]|[Hr Hf]].
    * cbn in Hl. injection Hl as <- <- _. cbn in H.
      apply (IH (idxs ++ [i])) in H; [|by eapply loaded_add].
      rewrite <- app_assoc in H. destruct H as [?|?]; auto.
    * destruct (Z.eqb_spec r2 0); [done|]. cbn in Hl. injection Hl as <- <- _. cbn in H.
      injection H as <- <- _. right. right. split; [done|]. eauto 10.
  + injection Hl as <- <- _. cbn in H. injection H as <- <- _. right. left. eauto.
Qed.
End Loading.

(** The connections of a pool name the key the pool is stored under. *)
Definition manager_named (m : manager) : Prop :=
  ∀ name p, m !! name = Some p → conn_pool_name (np_server p) = name.

(** A reader gives the pool the name of the instance. *)
Definition reader_names (read : instance_reader S) : Prop :=
  ∀ config name server max, read config name = Ok (Some (server, max)) →
                            conn_pool_name server = c_str name.

Lemma loaded_named (read : instance_reader S) (config : CConfigFileReader) (names : str)
    (idxs : list nat) (m : manager) :
  reader_names read → loaded read config (CStrExplode_new names ","%char) idxs m →
  manager_named m.
Proof.
  intros Hr [H1 H2] name p Hp. destruct (H1 _ _ Hp) as (server & max & Hs & -> & _).
  rewrite (Hr _ _ _ _ Hs). destruct (H2 name) as [H _]. rewrite Hp in H.
  destruct (H ltac:(done)) as (i & _ & Hi). by eapply GetItem_c_str.
Qed.

(** The manager's [Init] returns 1 exactly when the list of instances is not configured;
  0 when every listed instance is configured and its connections could be made, and then
  there is exactly one pool per listed name, with that instance's server and maximum,
  its minimal number of open, free connections, and the pool named by
  its key; 2 only if a listed instance lacks a
  setting; 3 only if a connection of a listed instance failed. *)
Theorem Manager_Init_outcomes (key : str) (read : instance_reader S) (conf_path : str)
    (content : option str)
    (w w' : W) (r : Z) (m : manager) :
  reader_names read →
  Manager_Init key read conf_path content ∅ w = (Ok (r, m), w') →
  ∃ config o, CConfigFileReader_new conf_path content = Ok config ∧
    GetConfigName config key = Ok o ∧
    match o with
    | None => r = 1%Z ∧ m = ∅
    | Some names =>
        let instances := CStrExplode_new names ","%char in
        let items := seq 0 (Z.to_nat (GetItemCnt instances)) in
        r = 0%Z ∧ loaded read config instances items m ∧ manager_named m ∨
        load_outcome read config instances items r
    end.
Proof.
  unfold Manager_Init. intros Hr H. apply ibind_inv in H as (config & w1 & Hc & H).
  injection Hc as Hc _. apply ibind_inv in H as (o & w2 & Ho & H). injection Ho as Ho _.
  exists config, o. split_and!; [done|done|]. destruct o as [names|]; [|by injection H as <- <-].
  apply ibind_inv in H as ([r1 m1] & w3 & Hl & H). apply ibind_inv in H as (? & w4 & Hd & H).
  injection H as <- <- _. apply (load_instances_spec _ _ _ _ []) in Hl as [[-> Hl]|Hl]; [|by right|].
  { left. split_and!; [done|done|]. by eapply loaded_named. }
  split; [intros ? ?; by rewrite lookup_empty|]. intros name. rewrite lookup_empty.
  split; [by intros []|]. intros (i & Hi & _). by apply elem_of_nil in Hi.
Qed.

(** ** Lending by name *)

(** [l] are the lent connections of [p]: the counts are right and every connection, free or
  lent, is an open object. *)
Definition named_ok (bound : Z) (p : named_pool S C) (l : list nat) : Prop :=
  conns_ok bound (np_pool p) l ∧
  ∀ c, c ∈ free_list_ (np_pool p) ++ l → c ∈ dom (np_conns p).

Lemma fresh_pool_ok (s : S) (max : Z) (p : named_pool S C) :
  fresh_pool s max p → (max < 2 ^ 31)%Z → named_ok min_conn_cnt p [].
Proof.
  intros (_ & Hp & Hd) Hm. unfold named_ok, conns_ok. rewrite Hp. cbn. rewrite !app_nil_r.
  split_and!; [apply NoDup_seq| |rewrite length_seq; pose proof min_conn_cnt_law; lia|lia|done|done|].
  - apply Forall_forall. intros c Hc%elem_of_seq. lia.
  - intros c Hc. rewrite Hd. by apply elem_of_list_to_set.
Qed.

Lemma GetConn_enter_conns ret q o q' l c :
  GetConn_enter ret q = (o, q') → c ∈ free_list_ q' ++ outcome_conns o l →
  c ∈ free_list_ q ++ l ∨ grows q = true ∧ ret = 0%Z ∧ c = next_obj q.
Proof.
  unfold GetConn_enter, pop_front, grows. destruct (abort_request_ q) eqn:Ea;
    [intros [= <- <-]; by left|].
  destruct (free_list_ q) as [|d f] eqn:Ef.
  - rewrite bool_decide_true by done. destruct (Z.leb_spec (max_conn_cnt_ q) (cur_conn_cnt_ q));
      [intros [= <- <-]; rewrite Ef; by left|].
    rewrite (proj2 (Z.ltb_lt _ _)) by done.
    destruct (Z.eqb_spec ret 0); cbn; intros [= <- <-]; cbn.
    + rewrite elem_of_cons. tauto.
    + tauto.
  - intros [= <- <-] Hc. left. cbn in Hc. set_solver.
Qed.

Lemma NamedPool_Get_ok bound (p p1 : named_pool S C) (w w1 : W) o l :
  NamedPool_Get p w = (Ok (o, p1), w1) → named_ok bound p l →
  np_server p1 = np_server p ∧ named_ok bound p1 (outcome_conns o l) ∧
  ∃ ret, GetConn_enter ret (np_pool p) = (o, np_pool p1).
Proof.
  unfold NamedPool_Get. intros H [Hok Hdom]. destruct (grows (np_pool p)) eqn:Hg.
  - apply ibind_inv in H as ([ret c] & w2 & Ho & H). cbn in H.
    destruct (GetConn_enter ret (np_pool p)) as [o' q] eqn:E. injection H as <- <- _.
    split_and!; [done| |by exists ret]. split; [by eapply GetConn_enter_ok|].
    intros d Hd. cbn in Hd |- *. destruct (GetConn_enter_conns _ _ _ _ _ _ E Hd) as [H|(_ & -> & ->)].
    + apply Hdom in H. destruct (_ =? _)%Z; [|done]. rewrite dom_insert_L. set_solver.
    + cbn. rewrite dom_insert_L. set_solver.
  - destruct (GetConn_enter 0 (np_pool p)) as [o' q] eqn:E. injection H as <- <- _.
    split_and!; [done| |by exists 0%Z]. split; [by eapply GetConn_enter_ok|].
    intros d Hd. cbn in Hd |- *.
    destruct (GetConn_enter_conns _ _ _ _ _ _ E Hd) as [H|(Hg' & _)]; [by apply Hdom|congruence].
Qed.

(** In a manager whose pools are named by their keys, a connection lent by [GetDBConn]
  (or [GetCacheConn]) for [name] is an open connection of the pool of that name that
  nobody else holds, and [RelDBConn] gives it back to that very pool, as its last free
  connection; no other pool changes in either call. *)
Theorem Manager_Get_Rel (bound : Z) (name : str) (m m1 : manager) (p : named_pool S C) (l : list nat)
    (ptr : conn_ptr) (w w1 : W) :
  manager_named m → m !! name = Some p → named_ok bound p l →
  Manager_Get name m w = (Ok (GotConn ptr, m1), w1) →
  ptr_pool ptr = name ∧ (ptr_obj ptr ∉ l) ∧
  ∃ p1 p2, m1 = <[name := p1]> m ∧ named_ok bound p1 (ptr_obj ptr :: l) ∧
    Manager_Rel (Some ptr) m1 = <[name := p2]> m ∧ named_ok bound p2 l ∧
    last (free_list_ (np_pool p2)) = Some (ptr_obj ptr).
Proof.
  intros Hn Hp Hok H. unfold Manager_Get in H. rewrite Hp in H.
  apply ibind_inv in H as ([o p1] & w2 & Hg & H). cbn in H. injection H as Ho <- _.
  apply (NamedPool_Get_ok bound _ _ _ _ _ l) in Hg as (Hs & [Hok1 Hd1] & _); [|done].
  destruct o as [c| |]; try done. injection Ho as <-. cbn in Hok1, Hd1 |- *.
  rewrite (Hn _ _ Hp). destruct (RelConn c (np_pool p1)) as [b q] eqn:Er.
  pose proof (RelConn_ok _ _ _ _ _ _ Er Hok1) as (Hok2 & Hb & _).
  assert (Hq : free_list_ q = free_list_ (np_pool p1) ++ [c]).
  { unfold RelConn in Er. destruct (bool_decide _); [congruence|]. by injection Er as _ <-. }
  split_and!; [done| |].
  - destruct Hok1 as (Hnd & _). apply NoDup_app in Hnd as (_ & _ & Hnd).
    by apply NoDup_cons in Hnd as [? _].
  - exists p1, (MkNamed (np_server p1) q (np_conns p1)). rewrite lookup_insert_eq. cbn.
    split_and!; [done|by split| |split; [done|]|by rewrite Hq, last_snoc].
    + by rewrite insert_insert_eq, ?Er.
    + cbn. rewrite Hq. intros d Hd. apply Hd1. set_solver.
Qed.
End Properties.

Lemma read_db_instance_names {W RES STMT} `{MySql W RES STMT} :
  reader_names (C := CDBConn) (W := W) read_db_instance.
Proof.
  intros config name server max. unfold read_db_instance. intros H1.
  repeat (apply rbind_inv in H1 as (? & _ & H1)). by repeat case_match; simplify_eq.
Qed.

Lemma read_cache_instance_names {W} `{HiRedis W} :
  reader_names (C := cache_conn) (W := W) read_cache_instance.
Proof.
  intros config name server max. unfold read_cache_instance. intros H1.
  repeat (apply rbind_inv in H1 as (? & _ & H1)). by repeat case_match; simplify_eq.
Qed.

(** ** Witnesses *)

Definition demo_config : str :=
  "DBInstances=master" ++ [LF] ++ "master_host=10.0.0.1" ++ [LF] ++ "master_port=3306" ++ [LF] ++
  "master_dbname=chatroom" ++ [LF] ++ "master_username=root" ++ [LF] ++
  "master_password=pw" ++ [LF] ++ "master_maxconncnt=2" ++ [LF].

Definition demo_pool_of (name : str) : named_pool db_server CDBConn :=
  let s := CDBPool_server name "10.0.0.1" 3306 "root" "pw" "chatroom" in
  MkNamed s (MkPool [0] 1 2 false 1) {[ 0 := MkDBConn 0 s (Some 7) ]}.

Definition demo_world : demo_mysql := MkMysql true true [].

Lemma Manager_Init_outcomes_witness :
  CDBManager_Init "f" (Some demo_config) ∅ demo_world =
    (Ok (0%Z, {[ "master" : str := demo_pool_of "master" ]}), demo_world) ∧
  manager_named {[ "master" : str := demo_pool_of "master" ]}.
Proof.
  assert (E : CDBManager_Init "f" (Some demo_config) ∅ demo_world =
    (Ok (0%Z, {[ "master" : str := demo_pool_of "master" ]}), demo_world))
    by (vm_compute; reflexivity).
  split; [exact E|].
  destruct (Manager_Init_outcomes "DBInstances" read_db_instance "f" (Some demo_config) demo_world
    demo_world 0 {[ "master" : str := demo_pool_of "master" ]} read_db_instance_names E)
    as (config & [names|] & _ & _ & H).
  - destruct H as [(_ & _ & H)|[[H _]|[H _]]]; [exact H|discriminate H|discriminate H].
  - destruct H as [H _]. discriminate H.
Defined.

Lemma Manager_Get_Rel_witness :
  let m := {[ "master" : str := demo_pool_of "master" ]} in
  ∃ p1 p2, Manager_Get "master" m demo_world =
      (Ok (GotConn (MkPtr "master" 0), <["master" : str := p1]> m), demo_world) ∧
    Manager_Rel (Some (MkPtr "master" 0)) (<["master" : str := p1]> m) =
      <["master" : str := p2]> m ∧
    free_list_ (np_pool p2) = [0].
Proof.
  intros m.
  set (p1 := MkNamed (np_server (demo_pool_of "master")) (MkPool [] 1 2 false 1)
               (np_conns (demo_pool_of "master"))).
  assert (E : Manager_Get "master" m demo_world =
    (Ok (GotConn (MkPtr "master" 0), <["master" : str := p1]> m), demo_world))
    by (vm_compute; reflexivity).
  destruct (Manager_Get_Rel 1 "master" m (<["master" : str := p1]> m) (demo_pool_of "master") []
    (MkPtr "master" 0) demo_world demo_world) as (_ & _ & q1 & q2 & H1 & _ & H2 & _).
  - intros n q H. apply lookup_singleton_Some in H as [<- <-]. reflexivity.
  - reflexivity.
  - apply (fresh_pool_ok (PL := db_pool_laws (W := demo_mysql)) (np_server (demo_pool_of "master")) 2); [|reflexivity].
    split_and!; [reflexivity..|]. cbn. rewrite dom_singleton_L. set_solver.
  - exact E.
  - exists p1, q2. split_and!; [exact E|exact H2|].
    assert (q2 = MkNamed (np_server p1) (MkPool [0] 1 2 false 1) (np_conns p1)) as ->; [|reflexivity].
    apply (f_equal (λ m, m !! ("master" : str))) in H2. rewrite lookup_insert_eq in H2.
    injection H2 as <-. reflexivity.
Defined.
