(* ===== verification/LogicEnv.v ===== *)
(** The state that the logic service's functions share: the two manager singletons with
    their pools, and the outside world; how a function takes a connection, uses it, and
    how [AUTO_REL_DBCONN] / [AUTO_REL_CACHECONN] give it back when the scope ends. *)

From S2P Require Import Prelude ConfigReader ConnPool CacheConn DbPool PoolManager.

Record logic_env (W : Type) : Type := MkEnv {
  s_db_manager : option (gmap str (named_pool db_server CDBConn));
  s_cache_manager : option (gmap str (named_pool cache_server cache_conn));
  db_conf_path_ : str;
  cache_conf_path_ : str;
  world : W
}.
Arguments MkEnv {W} _ _ _ _ _.
Arguments s_db_manager {W} _.
Arguments s_cache_manager {W} _.
Arguments db_conf_path_ {W} _.
Arguments cache_conf_path_ {W} _.
Arguments world {W} _.

Definition set_world {W} (w : W) (e : logic_env W) : logic_env W :=
  MkEnv (s_db_manager e) (s_cache_manager e) (db_conf_path_ e) (cache_conf_path_ e) w.
(** [CDBManager::SetConfPath] and [CacheManager::SetConfPath] *)
Definition SetConfPath {W} (path : str) (e : logic_env W) : logic_env W :=
  MkEnv (s_db_manager e) (s_cache_manager e) path (cache_conf_path_ e) (world e).
Definition Cache_SetConfPath {W} (path : str) (e : logic_env W) : logic_env W :=
  MkEnv (s_db_manager e) (s_cache_manager e) (db_conf_path_ e) path (world e).

(** A call of the outside world. *)
Definition via_world {W A} (f : W → A * W) : io (logic_env W) A := λ e,
  let (a, w) := f (world e) in (Ok a, set_world w e).

(** ** A manager singleton in the environment *)

Record manager_kind (W S C : Type) : Type := MkKind {
  mk_get : logic_env W → option (gmap str (named_pool S C));
  mk_set : option (gmap str (named_pool S C)) → logic_env W → logic_env W;
  mk_path : logic_env W → str;
  mk_key : str;                            (* the setting that lists the instances *)
  mk_read : instance_reader S;
  mk_get_set e m : mk_get (mk_set m e) = m;
  mk_get_world e w : mk_get (set_world w e) = mk_get e;
  mk_set_get e : mk_set (mk_get e) e = e;
  mk_set_world m e : world (mk_set m e) = world e
}.
Arguments mk_get {W S C} _ _.
Arguments mk_set {W S C} _ _ _.
Arguments mk_path {W S C} _ _.
Arguments mk_key {W S C} _.
Arguments mk_read {W S C} _.
Arguments mk_get_set {W S C} _ _ _.
Arguments mk_get_world {W S C} _ _ _.
Arguments mk_set_get {W S C} _ _.
Arguments mk_set_world {W S C} _ _ _.

Definition db_kind {W} : manager_kind W db_server CDBConn.
Proof.
  refine (MkKind _ _ _ s_db_manager
    (λ m e, MkEnv m (s_cache_manager e) (db_conf_path_ e) (cache_conf_path_ e) (world e))
    db_conf_path_ "DBInstances" read_db_instance _ _ _ _); by try intros [].
Defined.

Definition cache_kind {W} : manager_kind W cache_server cache_conn.
Proof.
  refine (MkKind _ _ _ s_cache_manager
    (λ m e, MkEnv (s_db_manager e) m (db_conf_path_ e) (cache_conf_path_ e) (world e))
    cache_conf_path_ "CacheInstances" read_cache_instance _ _ _ _); by try intros [].
Defined.

Section Env.
Context {S C W : Type} `{PC : PoolConn S C W}.
(** The configuration files. *)
Variable files : str → option str.
(** What the other threads do while this one waits for a connection of a pool. *)
Variable others : str → logic_env W → logic_env W.
Variable k : manager_kind W S C.

(** [CDBManager::getInstance()] / [CacheManager::getInstance()] *)
Definition instance : io (logic_env W) (option (gmap str (named_pool S C))) := λ e,
  let (r, w) :=
    getInstance (mk_key k) (mk_read k) (mk_path k e) (files (mk_path k e)) (mk_get k e) (world e) in
  match r with
  | Ok o => (Ok o, set_world w (mk_set k o e))
  | Throw x => (Throw x, set_world w e)
  | Undef u => (Undef u, set_world w e)
  end.

(** The rest of [GetDBConn] when the wait for the pool [name] is over. *)
Definition wake (name : str) : io (logic_env W) (option conn_ptr) := λ e,
  match mk_get k e with
  | None => (Undef NullDeref, e)
  | Some m =>
      match m !! name with
      | None => (Undef NullDeref, e)
      | Some p =>
          let (o, q) := GetConn_wake false (np_pool p) in
          (Ok (match o with
               | Got c => Some (MkPtr (conn_pool_name (np_server p)) c)
               | _ => None
               end),
           mk_set k (Some (<[name := MkNamed (np_server p) q (np_conns p)]> m)) e)
      end
  end.

(** [manager->GetDBConn(name)] on the singleton [m] that [getInstance] returned. *)
Definition get_conn_of (name : str) (m : option (gmap str (named_pool S C)))
    : io (logic_env W) (option conn_ptr) := λ e,
  match m with
  | None => (Undef NullDeref, e)
  | Some m =>
      let (r, w) := Manager_Get name m (world e) in
      match r with
      | Ok (o, m) =>
          let e := set_world w (mk_set k (Some m) e) in
          match o with
          | GotConn p => (Ok (Some p), e)
          | GotNullConn => (Ok None, e)
          | ManagerWaits => wake name (others name e)
          end
      | Throw x => (Throw x, set_world w e)
      | Undef u => (Undef u, set_world w e)
      end
  end.

(** [manager->RelDBConn(conn)] *)
Definition release (conn : option conn_ptr) (e : logic_env W) : logic_env W :=
  mk_set k (Manager_Rel conn <$> mk_get k e) e.

(** The rest of a scope that holds [conn]: the destructor of [AutoRelDBCon] runs when it
  ends, also by an exception. *)
Definition auto_rel {A} (conn : option conn_ptr) (body : io (logic_env W) A)
    : io (logic_env W) A := λ e,
  match body e with
  | (Undef u, e) => (Undef u, e)
  | (r, e) => (r, release conn e)
  end.

(** [getInstance(); GetDBConn(name); AUTO_REL_DBCONN(...);] and the rest of the scope. *)
Definition with_conn {A} (name : str) (body : option conn_ptr → io (logic_env W) A)
    : io (logic_env W) A :=
  do* m := instance in
  do* conn := get_conn_of name m in
  auto_rel conn (body conn).

(** The same where the code tests the manager: [no_manager] when there is none. *)
Definition try_conn {A} (name : str) (no_manager : io (logic_env W) A)
    (body : option conn_ptr → io (logic_env W) A) : io (logic_env W) A :=
  do* m := instance in
  match m with
  | None => no_manager
  | Some m =>
      do* conn := get_conn_of name (Some m) in
      auto_rel conn (body conn)
  end.

(** A member function of the connection that a pointer designates. *)
Definition on_conn {A} (ptr : conn_ptr) (f : io (C * W) A) : io (logic_env W) A := λ e,
  match mk_get k e with
  | None => (Undef NullDeref, e)
  | Some m =>
      match m !! ptr_pool ptr with
      | None => (Undef NullDeref, e)
      | Some p =>
          match np_conns p !! ptr_obj ptr with
          | None => (Undef NullDeref, e)
          | Some c =>
              let '(r, (c, w)) := f (c, world e) in
              (r, set_world w (mk_set k (Some (<[ptr_pool ptr :=
                    MkNamed (np_server p) (np_pool p) (<[ptr_obj ptr := c]> (np_conns p))]> m)) e))
          end
      end
  end.
End Env.

(** A scope that returned: its body returned, or there was no manager. *)
Lemma try_conn_inv {S C W A : Type} `{PC : PoolConn S C W} (files : str → option str)
    (others : str → logic_env W → logic_env W) (k : manager_kind W S C) (name : str)
    (no_manager : io (logic_env W) A) (body : option conn_ptr → io (logic_env W) A) e a e' :
  try_conn files others k name no_manager body e = (Ok a, e') →
  (∃ e1, no_manager e1 = (Ok a, e')) ∨ ∃ conn e1 e2, body conn e1 = (Ok a, e2).
Proof.
  intros H. apply ibind_inv in H as ([m|] & e1 & _ & H); [|eauto].
  apply ibind_inv in H as (conn & e2 & _ & H). unfold auto_rel in H. right.
  destruct (body conn e2) as [[b|x|u] e3] eqn:E; simplify_eq; eauto.
Qed.

(** ** Connections are given back *)

(** [m] keeps [P] whatever it does, except for executions that are undefined. *)
Definition preserves {S A} (P : S → Prop) (m : io S A) : Prop :=
  ∀ e r e', P e → m e = (r, e') → (∀ u, r ≠ Undef u) → P e'.

Section Preserves.
Context {S : Type} (P : S → Prop).

Lemma preserves_ret {A} (a : A) : preserves P (iret a).
Proof. by intros e r e' HP [= <- <-]. Qed.
Lemma preserves_lift {A} (r : result A) : preserves P (ilift r).
Proof. by intros e r' e' HP [= <- <-]. Qed.
Lemma preserves_bind {A B} (m : io S A) (f : A → io S B) :
  preserves P m → (∀ a, preserves P (f a)) → preserves P (ibind m f).
Proof.
  intros Hm Hf e r e' HP H Hr. unfold ibind in H. destruct (m e) as [[a|x|u] e1] eqn:E.
  - eapply Hf; [|exact H|done]. by eapply Hm.
  - injection H as <- <-. by eapply Hm.
  - injection H as <- <-. by destruct (Hr u).
Qed.
Lemma preserves_catch {A} (m : io S A) (a : A) : preserves P m → preserves P (icatch m a).
Proof.
  intros Hm e r e' HP H Hr. unfold icatch in H. destruct (m e) as [[b|x|u] e1] eqn:E;
    injection H as <- <-; by eapply Hm.
Qed.
End Preserves.

Lemma preserves_world {W A} (P : logic_env W → Prop) (f : W → A * W) :
  (∀ e w, P e → P (set_world w e)) → preserves P (via_world f).
Proof.
  intros Hs e r e' HP H _. unfold via_world in H. destruct (f (world e)) as [a w].
  injection H as <- <-. by apply Hs.
Qed.

Section Lending.
Context {S C W : Type} `{PL : PoolConnLaws S C W}.
Variable files : str → option str.
Variable others : str → logic_env W → logic_env W.
Variable k : manager_kind W S C.

(** A pool from which a connection can be taken without waiting. *)
Definition can_serve (p : pool) : Prop :=
  free_list_ p ≠ [] ∨ (cur_conn_cnt_ p < max_conn_cnt_ p)%Z.

(** The singleton exists, exactly the connections [L] of its pools are lent, and the pools
  [ready] can serve. *)
Definition holds (L : str → list nat) (ready : gset str) (e : logic_env W) : Prop :=
  ∃ m, mk_get k e = Some m ∧ manager_named m ∧
    (∀ n p, m !! n = Some p → ∃ bound, named_ok bound p (L n)) ∧
    (∀ n, L n ≠ [] → is_Some (m !! n)) ∧
    (∀ n, n ∈ ready → ∃ p, m !! n = Some p ∧ can_serve (np_pool p)).

(** [L] with the connection that [conn] designates. *)
Definition lend (conn : option conn_ptr) (L : str → list nat) : str → list nat := λ n,
  match conn with
  | Some ptr => if decide (ptr_pool ptr = n) then ptr_obj ptr :: L n else L n
  | None => L n
  end.

Lemma holds_world (L : str → list nat) (ready : gset str) e w :
  holds L ready e → holds L ready (set_world w e).
Proof. intros (m & H). exists m. by rewrite mk_get_world. Qed.

Lemma GetConn_enter_serves bound ret q o q' l :
  GetConn_enter ret q = (o, q') → conns_ok bound q l → can_serve q →
  (∃ c, o = Got c) ∨ o = GotNull ∧ can_serve q'.
Proof.
  unfold GetConn_enter, pop_front. intros H (_ & _ & _ & _ & _ & Ha) Hc. rewrite Ha in H.
  destruct (free_list_ q) as [|d f] eqn:Ef; [|injection H as <- _; eauto].
  destruct Hc as [Hc|Hc]; [done|]. rewrite (proj2 (Z.leb_gt _ _)) in H by done.
  destruct (ret =? 0)%Z; cbn in H; injection H as <- <-; [eauto|].
  right. split; [done|]. by right.
Qed.

(** Taking a connection from a pool that can serve. *)
Lemma get_conn_holds (L : str → list nat) (ready : gset str) (name : str) e r e' :
  holds L ready e → name ∈ ready → get_conn_of others k name (mk_get k e) e = (r, e') →
  match r with
  | Ok conn => holds (lend conn L) (ready ∖ {[name]}) e' ∧
               (conn = None → holds L ready e') ∧
               (∀ ptr, conn = Some ptr → ptr_pool ptr = name)
  | _ => holds L ready e'
  end.
Proof.
  intros Hh Hin. pose proof Hh as (m & Hm & Hnamed & Hok & Hlent & Hready).
  destruct (Hready _ Hin) as (p & Hp & Hserve). destruct (Hok _ _ Hp) as (bound & Hb).
  unfold get_conn_of. rewrite Hm. unfold Manager_Get. rewrite Hp. unfold ibind.
  destruct (NamedPool_Get p (world e)) as [[[o p1]|x|u] w1] eqn:Eg;
    [|intros [= <- <-]; by apply holds_world..].
  apply (NamedPool_Get_ok bound _ _ _ _ _ (L name)) in Eg as (Hs & Hb1 & ret & Er); [|done].
  destruct (GetConn_enter_serves _ _ _ _ _ _ Er (proj1 Hb) Hserve) as [[c ->]|[-> Hserve1]]; cbn.
  - intros [= <- <-]. rewrite (Hnamed _ _ Hp). split_and!; [|done|by intros ptr [= <-]].
    exists (<[name := p1]> m). rewrite mk_get_world, mk_get_set. split_and!; [done| | | |].
    + intros n q. destruct (decide (n = name)) as [->|]; [|rewrite lookup_insert_ne by done; apply Hnamed].
      rewrite lookup_insert_eq. intros [= <-]. by rewrite Hs, (Hnamed _ _ Hp).
    + intros n q. unfold lend. cbn. destruct (decide (name = n)) as [<-|Hne].
      * rewrite lookup_insert_eq. intros [= <-]. by exists bound.
      * rewrite lookup_insert_ne by done. apply Hok.
    + intros n Hn. destruct (decide (name = n)) as [<-|Hne]; [by rewrite lookup_insert_eq|].
      rewrite lookup_insert_ne by done. apply Hlent. unfold lend in Hn. cbn in Hn.
      by rewrite decide_False in Hn.
    + intros n Hn. rewrite lookup_insert_ne by set_solver. apply Hready. set_solver.
  - intros [= <- <-].
    assert (H : holds L ready (set_world w1 (mk_set k (Some (<[name:=p1]> m)) e))).
    { exists (<[name := p1]> m). rewrite mk_get_world, mk_get_set. split_and!; [done| | | |].
      - intros n q. destruct (decide (n = name)) as [->|]; [|rewrite lookup_insert_ne by done; apply Hnamed].
        rewrite lookup_insert_eq. intros [= <-]. by rewrite Hs, (Hnamed _ _ Hp).
      - intros n q. destruct (decide (name = n)) as [<-|Hne].
        + rewrite lookup_insert_eq. intros [= <-]. by exists bound.
        + rewrite lookup_insert_ne by done. apply Hok.
      - intros n Hn. destruct (decide (name = n)) as [<-|Hne]; [by rewrite lookup_insert_eq|].
        rewrite lookup_insert_ne by done. by apply Hlent.
      - intros n Hn. destruct (decide (name = n)) as [<-|Hne].
        + rewrite lookup_insert_eq. eauto.
        + rewrite lookup_insert_ne by done. by apply Hready. }
    split_and!; [|done|done]. destruct H as (m' & H1 & H2 & H3 & H4 & H5). exists m'.
    split_and!; [done..|]. intros n Hn. apply H5. set_solver.
Qed.

(** Giving it back. *)
Lemma release_holds (L : str → list nat) (ready : gset str) (name : str) conn e :
  holds (lend conn L) (ready ∖ {[name]}) e → (conn = None → holds L ready e) →
  (∀ ptr, conn = Some ptr → ptr_pool ptr = name) → holds L ready (release k conn e).
Proof.
  intros Hl Hnone Hptr. unfold release. destruct conn as [ptr|]; cycle 1.
  { specialize (Hnone eq_refl) as (m & Hm & H). exists m.
    rewrite mk_get_set, Hm. by split. }
  specialize (Hptr _ eq_refl). destruct Hl as (m & Hm & Hnamed & Hok & Hlent & Hready).
  assert (HL : lend (Some ptr) L name = ptr_obj ptr :: L name)
    by (unfold lend; by rewrite decide_True).
  assert (HLn : ∀ n, name ≠ n → lend (Some ptr) L n = L n)
    by (intros n Hn; unfold lend; rewrite decide_False; [done|congruence]).
  destruct (Hlent name) as [p Hp]; [by rewrite HL|]. rewrite Hm. cbn. rewrite Hptr, Hp.
  destruct (Hok _ _ Hp) as (bound & Hb). rewrite HL in Hb.
  destruct (RelConn (ptr_obj ptr) (np_pool p)) as [b q] eqn:Er.
  pose proof (RelConn_ok _ _ _ _ _ _ Er (proj1 Hb)) as (Hq & -> & Hlen). cbn.
  eexists. rewrite mk_get_set. split_and!; [done| | | |].
  - intros n p'. destruct (decide (name = n)) as [<-|Hne].
    + rewrite lookup_insert_eq. intros [= <-]. exact (Hnamed _ _ Hp).
    + rewrite lookup_insert_ne by done. apply Hnamed.
  - intros n p'. destruct (decide (name = n)) as [<-|Hne].
    + rewrite lookup_insert_eq. intros [= <-]. exists bound. split; [done|]. cbn.
      intros c Hc. apply Hb. unfold RelConn in Er.
      destruct (bool_decide _); [done|]. injection Er as <-. cbn in Hc. set_solver.
    + rewrite lookup_insert_ne by done. rewrite <- HLn by done. apply Hok.
  - intros n Hn. destruct (decide (name = n)) as [<-|Hne]; [by rewrite lookup_insert_eq|].
    rewrite lookup_insert_ne by done. apply Hlent. by rewrite HLn.
  - intros n Hn. destruct (decide (name = n)) as [<-|Hne].
    + rewrite lookup_insert_eq. eexists. split; [done|]. left. cbn. by destruct (free_list_ q).
    + rewrite lookup_insert_ne by done. apply Hready. set_solver.
Qed.

(** A statement about the rest of the environment. *)
Definition frame (Q : logic_env W → Prop) : Prop :=
  (∀ e m, Q e → Q (mk_set k m e)) ∧ (∀ e w, Q e → Q (set_world w e)).

Lemma get_conn_frame (Q : logic_env W → Prop) (name : str) L ready e r e' :
  frame Q → holds L ready e → name ∈ ready →
  get_conn_of others k name (mk_get k e) e = (r, e') → Q e → Q e'.
Proof.
  intros [Hset Hworld] (m & Hm & Hnamed & Hok & _ & Hready) Hin H HQ.
  destruct (Hready _ Hin) as (p & Hp & Hserve). destruct (Hok _ _ Hp) as (bound & Hb).
  unfold get_conn_of in H. rewrite Hm in H. unfold Manager_Get, ibind in H. rewrite Hp in H.
  destruct (NamedPool_Get p (world e)) as [[[o p1]|x|u] w1] eqn:Eg;
    [|injection H as <- <-; by apply Hworld..].
  apply (NamedPool_Get_ok bound _ _ _ _ _ (L name)) in Eg as (_ & _ & ret & Er); [|done].
  destruct (GetConn_enter_serves _ _ _ _ _ _ Er (proj1 Hb) Hserve) as [[c ->]|[-> _]];
    cbn in H; injection H as <- <-; by apply Hworld, Hset.
Qed.

(** A scope that takes a connection of a ready pool leaves exactly the connections lent
  before it, whether it got one or not and whether its body returns or throws. *)
Lemma preserves_with_conn {A : Type} (L : str → list nat) (ready : gset str) (Q : logic_env W → Prop)
    (name : str) (body : option conn_ptr → io (logic_env W) A) :
  name ∈ ready → frame Q →
  (∀ conn L' ready', (∀ ptr, conn = Some ptr → ptr_pool ptr = name) →
     preserves (λ e, holds L' ready' e ∧ Q e) (body conn)) →
  preserves (λ e, holds L ready e ∧ Q e) (with_conn files others k name body).
Proof.
  intros Hin HF Hbody e r e' [Hh HQ] H Hr. pose proof HF as [Hset Hworld].
  pose proof Hh as (m & Hm & Hh').
  unfold with_conn, instance, ibind at 1 in H. rewrite Hm in H. unfold getInstance, iret in H.
  set (e1 := set_world (world e) (mk_set k (Some m) e)) in H.
  assert (Hm1 : mk_get k e1 = Some m) by (unfold e1; by rewrite mk_get_world, mk_get_set).
  assert (Hh1 : holds L ready e1) by by exists m.
  assert (HQ1 : Q e1) by by apply Hworld, Hset.
  rewrite <- Hm1 in H. clearbody e1. clear Hh HQ Hm Hh'.
  unfold ibind in H. destruct (get_conn_of others k name (mk_get k e1) e1) as [rc e2] eqn:Eg.
  pose proof (get_conn_frame Q _ _ _ _ _ _ HF Hh1 Hin Eg HQ1) as HQ2.
  apply (get_conn_holds L ready) in Eg; [|done..].
  destruct rc as [conn|x|u]; [|injection H as <- <-; by split|injection H as <- <-; by destruct (Hr u)].
  destruct Eg as (Hl & Hnone & Hptr). unfold auto_rel in H.
  destruct (body conn e2) as [rb e3] eqn:Eb.
  assert (Hrb : ∀ u, rb ≠ Undef u) by (intros u ->; injection H as <- _; by destruct (Hr u)).
  assert (He3 : e' = release k conn e3) by (destruct rb; [by injection H as _ <-..|by destruct (Hrb u)]).
  subst e'. destruct (Hbody conn (lend conn L) (ready ∖ {[name]}) Hptr e2 rb e3) as [Hl3 HQ3];
    [by split|done|done|].
  split; [|by apply Hset]. apply (release_holds L ready name); [done| |done].
  intros Hc. by apply (Hbody conn L ready Hptr e2 rb e3); [split; [apply Hnone|]|..].
Qed.

Lemma preserves_try_conn {A : Type} (L : str → list nat) (ready : gset str) (Q : logic_env W → Prop)
    (name : str) (no_manager : io (logic_env W) A) (body : option conn_ptr → io (logic_env W) A) :
  name ∈ ready → frame Q →
  (∀ conn L' ready', (∀ ptr, conn = Some ptr → ptr_pool ptr = name) →
     preserves (λ e, holds L' ready' e ∧ Q e) (body conn)) →
  preserves (λ e, holds L ready e ∧ Q e) (try_conn files others k name no_manager body).
Proof.
  intros Hin HF Hbody e r e' He H. pose proof He as [(m & Hm & _) _].
  apply (preserves_with_conn L ready Q name body Hin HF Hbody e r e' He).
  unfold try_conn, with_conn, instance, ibind in *. rewrite Hm in *. exact H.
Qed.

(** A member function of a connection lends nothing. *)
Lemma preserves_on_conn {A : Type} (L : str → list nat) (ready : gset str) (Q : logic_env W → Prop)
    ptr (f : io (C * W) A) :
  frame Q → preserves (λ e, holds L ready e ∧ Q e) (on_conn k ptr f).
Proof.
  intros [Hset Hworld] e r e' [(m & Hm & Hnamed & Hok & Hlent & Hready) HQ] H Hr.
  unfold on_conn in H. rewrite Hm in H.
  destruct (m !! ptr_pool ptr) as [p|] eqn:Hp; [|injection H as <- _; by destruct (Hr NullDeref)].
  destruct (np_conns p !! ptr_obj ptr) as [c|] eqn:Hc; [|injection H as <- _; by destruct (Hr NullDeref)].
  destruct (f (c, world e)) as [r' [c' w']]. injection H as <- <-.
  split; [|by apply Hworld, Hset]. set (p' := MkNamed _ _ _).
  exists (<[ptr_pool ptr := p']> m). rewrite mk_get_world, mk_get_set. split_and!; [done| | | |].
  - intros n q. destruct (decide (ptr_pool ptr = n)) as [<-|Hne].
    + rewrite lookup_insert_eq. intros [= <-]. by apply (Hnamed _ p).
    + rewrite lookup_insert_ne by done. apply Hnamed.
  - intros n q. destruct (decide (ptr_pool ptr = n)) as [<-|Hne].
    + rewrite lookup_insert_eq. intros [= <-]. destruct (Hok _ _ Hp) as (bound & Hb1 & Hb2).
      exists bound. split; [done|]. cbn. intros d Hd. rewrite dom_insert_L. apply Hb2 in Hd. set_solver.
    + rewrite lookup_insert_ne by done. apply Hok.
  - intros n Hn. destruct (decide (ptr_pool ptr = n)) as [<-|Hne]; [by rewrite lookup_insert_eq|].
    rewrite lookup_insert_ne by done. by apply Hlent.
  - intros n Hn. destruct (Hready _ Hn) as (q & Hq & Hs).
    destruct (decide (ptr_pool ptr = n)) as [<-|Hne].
    + rewrite lookup_insert_eq. eexists. split; [done|]. by simplify_eq.
    + rewrite lookup_insert_ne by done. eauto.
Qed.
End Lending.

(** ** A scope whose connection is free *)

Section Idle.
Context {S C W : Type} `{PC : PoolConn S C W}.
Variable files : str → option str.
Variable others : str → logic_env W → logic_env W.
Variable k : manager_kind W S C.

(** The pool [name] has free connections, all [good]. *)
Definition idle (name : str) (good : C → Prop) (e : logic_env W) : Prop :=
  ∃ m p, mk_get k e = Some m ∧ m !! name = Some p ∧ conn_pool_name (np_server p) = name ∧
    abort_request_ (np_pool p) = false ∧ free_list_ (np_pool p) ≠ [] ∧
    NoDup (free_list_ (np_pool p)) ∧
    Forall (λ c, ∃ conn, np_conns p !! c = Some conn ∧ good conn) (free_list_ (np_pool p)).

Definition designates (ptr : conn_ptr) (c : C) (e : logic_env W) : Prop :=
  ∃ m p, mk_get k e = Some m ∧ m !! ptr_pool ptr = Some p ∧ np_conns p !! ptr_obj ptr = Some c.

Lemma designates_world ptr c w e : designates ptr c e → designates ptr c (set_world w e).
Proof. intros (m & p & H). exists m, p. by rewrite mk_get_world. Qed.

(** A member function that leaves its object as it is changes the world only. *)
Lemma on_conn_same {A : Type} ptr (f : io (C * W) A) c r w' e :
  designates ptr c e → f (c, world e) = (r, (c, w')) → on_conn k ptr f e = (r, set_world w' e).
Proof.
  intros (m & p & Hm & Hp & Hc) Hf. unfold on_conn. rewrite Hm, Hp, Hc, Hf.
  rewrite (insert_id (np_conns p)) by done. destruct p as [s q cs]. cbn.
  by rewrite insert_id, <- Hm, mk_set_get.
Qed.

Lemma try_conn_idle {A : Type} (name : str) good (no_manager : io (logic_env W) A) body e :
  idle name good e →
  ∃ ptr c e1, designates ptr c e1 ∧ good c ∧ world e1 = world e ∧
    ∀ r w, body (Some ptr) e1 = (r, set_world w e1) → (∀ u, r ≠ Undef u) →
    ∃ e2, try_conn files others k name no_manager body e = (r, e2) ∧ world e2 = w ∧
          idle name good e2.
Proof.
  intros (m & p & Hm & Hp & Hn & Ha & Hfr & Hnd & Hg).
  destruct (free_list_ (np_pool p)) as [|c0 l] eqn:Ef; [done|].
  apply Forall_cons in Hg as [(c & Hc & Hgood) Hrest]. apply NoDup_cons in Hnd as [Hni Hnd].
  set (q := MkPool l (cur_conn_cnt_ (np_pool p)) (max_conn_cnt_ (np_pool p)) false (next_obj (np_pool p))).
  set (m1 := <[name := MkNamed (np_server p) q (np_conns p)]> m).
  set (e0 := set_world (world e) (mk_set k (Some m) e)).
  set (e1 := set_world (world e0) (mk_set k (Some m1) e0)).
  assert (Hget1 : mk_get k e1 = Some m1) by (unfold e1; by rewrite mk_get_world, mk_get_set).
  exists (MkPtr name c0), c, e1. split_and!; [|done|done|].
  { exists m1, (MkNamed (np_server p) q (np_conns p)). split_and!; [done| |done].
    apply lookup_insert_eq. }
  intros r w Hbody Hr.
  exists (release k (Some (MkPtr name c0)) (set_world w e1)).
  assert (Hrel : release k (Some (MkPtr name c0)) (set_world w e1) =
    mk_set k (Some (<[name := MkNamed (np_server p)
      (MkPool (l ++ [c0]) (cur_conn_cnt_ (np_pool p)) (max_conn_cnt_ (np_pool p)) false (next_obj (np_pool p)))
      (np_conns p)]> m1)) (set_world w e1)).
  { unfold release. rewrite mk_get_world, Hget1. cbn. unfold m1 at 1. rewrite lookup_insert_eq.
    unfold RelConn. cbn. by rewrite bool_decide_false. }
  split_and!.
  - unfold try_conn, instance, ibind. rewrite Hm. cbn [getInstance iret].
    fold e0. unfold get_conn_of, Manager_Get, ibind. rewrite Hp. unfold NamedPool_Get, grows.
    rewrite Ha, Ef. cbn -[GetConn_enter]. unfold GetConn_enter, pop_front, iret. rewrite Ha, Ef. cbn.
    rewrite Hn. unfold auto_rel.
    match goal with |- context [body (Some _) ?x] => change x with e1 end. rewrite Hbody. by destruct r as [a|x|u]; [..|destruct (Hr u)].
  - by rewrite Hrel, mk_set_world.
  - rewrite Hrel. eexists _, _. rewrite mk_get_set. split_and!; [done|apply lookup_insert_eq|done|done| | |].
    + cbn. by destruct l.
    + cbn. apply NoDup_app. split_and!; [done|set_solver|apply NoDup_singleton].
    + cbn. apply Forall_app. split; [done|]. apply Forall_singleton. eauto.
Qed.
End Idle.
