(* ===== verification/LogicApi.v ===== *)
(** [api/api_common.cc], [api_login.cc], [api_register.cc] and [api_auth.cc] of the logic
    service: the login, the registration and the verification of a session cookie.

    The UUID library and [rand] are parameters; the MD5 of a password is [Md5]'s, whose
    object gives it ([Digest.MD5_new_toString]). *)

From S2P Require Import Prelude Json Md5 ConfigReader ConnPool CacheConn DbPool PoolManager LogicEnv.

Class Host (W : Type) : Type := {
  uuid_generate : W → str * W;        (* uuid_generate_time_safe and uuid_unparse *)
  rand : W → Z * W
}.

Inductive api_error_id : Type :=
  | bad_request
  | login_failed
  | email_exists
  | username_exists.

Definition ApiErrorIdToString (input : api_error_id) : str :=
  match input with
  | login_failed => "LOGIN_FAILED"
  | username_exists => "USERNAME_EXISTS"
  | email_exists => "EMAIL_EXISTS"
  | bad_request => []
  end.

Record AuthResult : Type := MkAuthResult {
  ar_success : bool;
  ar_user_id : str;
  ar_username : str;
  ar_email : str;
  ar_error_message : str
}.

(** [FormatString("...'%s'...", s.c_str())] with one argument. *)
Definition FormatString1 (before arg after : str) : str := before ++ c_str arg ++ after.

Section Api.
Context {J W RES STMT : Type}.
Context `{JC : JsonCpp J} `{MY : MySql W RES STMT} `{HR : HiRedis W} `{HO : Host W}.
Variable files : str → option str.
Variable others : str → logic_env W → logic_env W.

Abbreviation M := (io (logic_env W)).
Definition with_db {A} : str → (option conn_ptr → M A) → M A := with_conn files others db_kind.
Definition with_cache {A} : str → (option conn_ptr → M A) → M A := with_conn files others cache_kind.
Definition on_db {A} (p : conn_ptr) : io (CDBConn * W) A → M A := on_conn db_kind p.
Definition on_cache {A} (p : conn_ptr) : io (cache_conn * W) A → M A := on_conn cache_kind p.

(** A method of the local statement object [st]. *)
Definition on_stmt {A} (st : CPrepareStatement STMT) (f : io (CPrepareStatement STMT * W) A)
    : M (A * CPrepareStatement STMT) := λ e,
  let '(r, (st, w)) := f (st, world e) in
  (let* a := r in Ok (a, st), set_world w e).

(** ** [api_common.cc] *)

Definition GenerateUUID : M str := via_world uuid_generate.

Fixpoint RandomString (len : nat) (s : str) : M str :=
  match len with
  | O => iret s
  | S len' => do* r := via_world rand in RandomString len' (s ++ [chr (97 + Z.rem r 26)])
  end.

(** 0 or -1, and the cookie. *)
Definition ApiSetCookie (email cookie : str) : M (Z * str) :=
  with_cache "token" (λ cache_conn,
    match cache_conn with
    | None => iret ((-1)%Z, cookie)
    | Some p =>
        do* cookie := GenerateUUID in
        do* ret := on_cache p (SetEx cookie 86400 email) in
        iret (if bool_decide (ret ≠ []) then 0%Z else (-1)%Z, cookie)
    end).

(** 0 with the user name and id of the row, or -1. *)
Definition GetUserNameAndUseridByEmail (email : str) : M (Z * (str * str)) :=
  with_db "chatroom_slave" (λ db_conn,
    match db_conn with
    | None => ilift (Undef NullDeref)
    | Some p =>
        do* result_set := on_db p (ExecuteQuery
          (FormatString1 "select user_id, username from user_infos where email='" email "'")) in
        match result_set with
        | None => iret ((-1)%Z, ([], []))
        | Some rs =>
            let (more, rs) := Next rs in
            if more : bool then
              do* u := ilift (GetString rs "username") in
              do* username := ilift (string_of_cstr u) in
              do* i := ilift (GetString rs "user_id") in
              do* userid := ilift (string_of_cstr i) in
              iret (0%Z, (username, userid))
            else iret ((-1)%Z, ([], []))
        end
    end).

(** 0 with user name, user id and email, or -1. *)
Definition ApiGetUsernameAndUseridByCookie (cookie : str) : M (Z * (str * str * str)) :=
  with_cache "token" (λ cache_conn,
    match cache_conn with
    | None => iret ((-1)%Z, ([], [], []))
    | Some p =>
        do* email := on_cache p (Get cookie) in
        match email with
        | [] => iret ((-1)%Z, ([], [], []))
        | _ =>
            do* r := GetUserNameAndUseridByEmail email in
            iret (r.1, (r.2.1, r.2.2, email))
        end
    end).

(** ** [api_login.cc] *)

(** [root[key]] when it is not null, as a string. *)
Definition required_string (root : J) (key : str) : result (option str) :=
  let* v := jget root key in
  if jisNull v then Ok None else let* s := jasString v in Ok (Some s).

(** [None]: -1. *)
Definition DecodeLoginJson (str_json : str) : result (option (str * str)) :=
  match jparse str_json with
  | None => Ok None
  | Some root =>
      let* e := required_string root "email" in
      match e with
      | None => Ok None
      | Some email =>
          let* p := required_string root "password" in
          Ok ((λ password, (email, password)) <$> p)
      end
  end.

(** [EncodeLoginJson] and [EncodeRegisterJson] *)
Definition EncodeLoginJson (input : api_error_id) (message : str) : result str :=
  let* root := jobj [("id" : str, jstring (ApiErrorIdToString input));
                     ("message" : str, jstring message)] in
  Ok (jwrite root).
Definition EncodeRegisterJson : api_error_id → str → result str := EncodeLoginJson.

Definition CheckUserAuthorization (db_conn : conn_ptr) (email : str) : M Z :=
  do* result_set := on_db db_conn (ExecuteQuery
    (FormatString1 "select is_enabled from authorized_users where email='" email "'")) in
  match result_set with
  | None => iret (-1)%Z
  | Some rs =>
      let (more, rs) := Next rs in
      if more : bool then
        do* is_enabled := ilift (GetInt rs "is_enabled") in
        iret (if (is_enabled =? 1)%Z then 0%Z else (-1)%Z)
      else iret (-1)%Z
  end.

Definition VerifyUserPassword (email password : str) : M Z :=
  with_db "chatroom_slave" (λ db_conn,
    match db_conn with
    | None => iret (-1)%Z
    | Some p =>
        do* authorized := CheckUserAuthorization p email in
        if negb (authorized =? 0)%Z then iret (-1)%Z
        else
          do* result_set := on_db p (ExecuteQuery (FormatString1
            "select user_id, username, password_hash, salt from user_infos where email='" email "'")) in
          match result_set with
          | None => iret (-1)%Z
          | Some rs =>
              let (more, rs) := Next rs in
              if more : bool then
                do* u := ilift (GetString rs "username") in
                do* _ := ilift (string_of_cstr u) in
                do* h := ilift (GetString rs "password_hash") in
                do* db_password_hash := ilift (string_of_cstr h) in
                do* s := ilift (GetString rs "salt") in
                do* salt := ilift (string_of_cstr s) in
                iret (if bool_decide (db_password_hash = Digest.md5 (password ++ salt))
                      then 0%Z else (-1)%Z)
              else iret (-1)%Z
          end
    end).

(** The result and [response_data], which is empty at the call. *)
Definition ApiLoginUser (post_data : str) : M (Z * str) :=
  do* d := ilift (DecodeLoginJson post_data) in
  match d with
  | None =>
      do* response_data := ilift (EncodeLoginJson bad_request "email or password no fill") in
      iret ((-1)%Z, response_data)
  | Some (email, password) =>
      do* ret := VerifyUserPassword email password in
      if (ret =? 0)%Z then
        do* c := ApiSetCookie email [] in iret (ret, c.2)
      else
        do* response_data := ilift (EncodeLoginJson login_failed "email password no match") in
        iret (ret, response_data)
  end.

(** ** [api_register.cc] *)

Definition DecodeRegisterJson (str_json : str) : result (option (str * str * str)) :=
  match jparse str_json with
  | None => Ok None
  | Some root =>
      let* u := required_string root "username" in
      match u with
      | None => Ok None
      | Some username =>
          let* e := required_string root "email" in
          match e with
          | None => Ok None
          | Some email =>
              let* p := required_string root "password" in
              Ok ((λ password, (username, email, password)) <$> p)
          end
      end
  end.

(** [result_set->GetString(key) == value], with a [std::string] on the right. *)
Definition cstr_equals (p : option str) (value : str) : result bool :=
  match p with Some s => Ok (bool_decide (c_str s = value)) | None => Undef NullDeref end.

(** The error for the first row of the query for the name and the email, if there is a
  row. *)
Definition user_taken (result_set : option (CResultSet RES)) (username email : str)
    (error_id : api_error_id) : result (option api_error_id) :=
  match result_set with
  | None => Ok None
  | Some rs =>
      let (more, rs) := Next rs in
      if more : bool then
        let* u := GetString rs "username" in
        let* same_name := cstr_equals u username in
        let* m := GetString rs "email" in
        let* same_email := cstr_equals m email in
        let error_id := if same_name : bool then username_exists else error_id in
        Ok (Some (if same_email : bool then email_exists else error_id))
      else Ok None
  end.

(** The insertion of a user on the connection [p]: 0, 1 or -1. *)
Definition insert_user (p : conn_ptr) (username email password : str) : M Z :=
  do* salt := RandomString 16 [] in
  let password_hash := Digest.md5 (password ++ salt) in
  do* user_id := GenerateUUID in
  do* mysql := on_db p (λ s, (Ok (mysql_ s.1), s)) in
  do* r := on_stmt CPrepareStatement_new (CPrepareStatement_Init mysql
    "insert into user_infos(`user_id`, `username`, `email`, `password_hash`, `salt`) values(?,?,?,?,?)") in
  let '(prepared, st) := r in
  if prepared : bool then
    do* st := ilift (let* st := SetParam 0 user_id st in
                     let* st := SetParam 1 username st in
                     let* st := SetParam 2 email st in
                     let* st := SetParam 3 password_hash st in SetParam 4 salt st) in
    do* r := on_stmt st CPrepareStatement_ExecuteUpdate in
    iret (if r.1 : bool then 0%Z else 1%Z)
  else iret (-1)%Z.

(** The result and [error_id]. *)
Definition RegisterUser (username email password : str) (error_id : api_error_id)
    : M (Z * api_error_id) :=
  with_db "chatroom_master" (λ db_conn,
    match db_conn with
    | None => iret ((-1)%Z, error_id)
    | Some p =>
        do* result_set := on_db p (ExecuteQuery
          ("select id, username, email from user_infos where username='" ++ c_str username ++
           "' or email = '" ++ c_str email ++ "' ")) in
        do* taken := ilift (user_taken result_set username email error_id) in
        match taken with
        | Some error_id => iret ((-1)%Z, error_id)
        | None =>
            do* ret := insert_user p username email password in iret (ret, error_id)
        end
    end).

Definition ApiRegisterUser (post_data : str) : M (Z * str) :=
  do* d := ilift (DecodeRegisterJson post_data) in
  match d with
  | None =>
      do* response_data :=
        ilift (EncodeRegisterJson bad_request "the parameter of request is not enough") in
      iret ((-1)%Z, response_data)
  | Some (username, email, password) =>
      do* r := RegisterUser username email password bad_request in
      let '(ret, error_id) := r in
      if (ret =? 0)%Z then
        do* c := ApiSetCookie email [] in iret (ret, c.2)
      else
        do* response_data := ilift (EncodeRegisterJson error_id (ApiErrorIdToString error_id)) in
        iret (ret, response_data)
  end.

(** ** [api_auth.cc] *)

Definition ApiVerifyUserByCookie (cookie : str) : M AuthResult :=
  match cookie with
  | [] => iret (MkAuthResult false [] [] [] "Cookie is empty")
  | _ =>
      do* r := ApiGetUsernameAndUseridByCookie cookie in
      let '(ret, (username, user_id, email)) := r in
      iret (if (ret =? 0)%Z then MkAuthResult true user_id username email []
            else MkAuthResult false [] [] [] "Invalid cookie or user not found")
  end.

Definition auth_document (result : AuthResult) : Prelude.result J :=
  jobj
    ([("success" : str, jbool (ar_success result))] ++
     (if ar_success result
      then [("user_id" : str, jstring (ar_user_id result));
            ("username" : str, jstring (ar_username result));
            ("email" : str, jstring (ar_email result))]
      else [("error" : str, jstring (ar_error_message result))])).
Definition EncodeAuthResultJson (result : AuthResult) : Prelude.result str :=
  let* root := auth_document result in Ok (jwrite root).

Definition DecodeAuthRequestJson (json_str : str) : result (option str) :=
  match jparse json_str with
  | None => Ok None
  | Some root => required_string root "cookie"
  end.

Definition ApiVerifyAuth (post_data : str) : M (Z * str) :=
  do* d := ilift (DecodeAuthRequestJson post_data) in
  match d with
  | None =>
      do* response_data := ilift (EncodeAuthResultJson
        (MkAuthResult false [] [] [] "Invalid request format")) in
      iret ((-1)%Z, response_data)
  | Some cookie =>
      do* result := ApiVerifyUserByCookie cookie in
      do* response_data := ilift (EncodeAuthResultJson result) in
      iret (if ar_success result then 0%Z else (-1)%Z, response_data)
  end.
End Api.

(** ** Who may log in *)

Section Login.
Context {J W RES STMT : Type}.
Context `{JC : JsonCpp J} `{MY : MySql W RES STMT} `{HR : HiRedis W} `{HO : Host W}.
Variable files : str → option str.
Variable others : str → logic_env W → logic_env W.


(** In [e] the manager gave the connection [p] of the pool [name], which left [e1]. *)
Definition db_taken (name : str) (e : logic_env W) (p : conn_ptr) (e1 : logic_env W) : Prop :=
  ∃ m e0, instance files db_kind e = (Ok m, e0) ∧
          get_conn_of others db_kind name m e0 = (Ok (Some p), e1).

(** A scope that returned: what its body got, did and returned, and its release. *)
Lemma with_db_inv {A : Type} (name : str) (body : option conn_ptr → io (logic_env W) A) e a e' :
  with_db files others name body e = (Ok a, e') →
  (∃ e1 e2, body None e1 = (Ok a, e2)) ∨
  ∃ p e1 e2, db_taken name e p e1 ∧ body (Some p) e1 = (Ok a, e2) ∧ e' = release db_kind (Some p) e2.
Proof.
  unfold with_db, with_conn. intros H. apply ibind_inv in H as (m & e0 & Hi & H).
  apply ibind_inv in H as ([p|] & e1 & Hg & H); unfold auto_rel in H.
  - destruct (body (Some p) e1) as [[b|?|?] e2] eqn:E; simplify_eq.
    right. exists p, e1, e2. split_and!; [by exists m, e0|done..].
  - destruct (body None e1) as [[b|?|?] e2] eqn:E; simplify_eq. left. eauto.
Qed.




End Login.

(** ** What a registration stores *)

Section Registration.
Context {J W RES STMT : Type}.
Context `{JC : JsonCpp J} `{MY : MySql W RES STMT} `{HR : HiRedis W} `{HO : Host W}.
Variable files : str → option str.
Variable others : str → logic_env W → logic_env W.
Hypothesis rand_nonneg : ∀ w, (0 ≤ (rand w).1)%Z.

Definition lower_letter (c : ascii) : Prop := (97 ≤ u8 c ≤ 122)%Z.

Lemma RandomString_letters (len : nat) (s t : str) (e e' : logic_env W) :
  RandomString len s e = (Ok t, e') →
  ∃ l, t = s ++ l ∧ length l = len ∧ Forall lower_letter l.
Proof.
  revert s e. induction len as [|len IH]; intros s e H; cbn in H.
  - injection H as <- <-. exists []. by rewrite app_nil_r.
  - apply ibind_inv in H as (r & e1 & Hr & H). apply IH in H as (l & -> & <- & Hl).
    exists (chr (97 + Z.rem r 26) :: l). rewrite <- app_assoc. split_and!; [done..|].
    constructor; [|done]. unfold via_world in Hr. pose proof (rand_nonneg (world e)) as Hpos.
    destruct (rand (world e)) as [r' w]. injection Hr as -> _. cbn in Hpos.
    pose proof (Z.rem_bound_pos r 26 Hpos ltac:(lia)).
    unfold lower_letter. rewrite u8_chr_small; lia.
Qed.

(** [on_stmt] runs a method of the statement on the world. *)
Lemma on_stmt_inv {A : Type} st (f : io (CPrepareStatement STMT * W) A) (e : logic_env W) a st' e' :
  on_stmt st f e = (Ok (a, st'), e') → f (st, world e) = (Ok a, (st', world e')).
Proof.
  unfold on_stmt. destruct (f _) as [[x|x|x] [st1 w]]; cbn; [|done..].
  by intros [= -> -> <-].
Qed.

(** The insertion executed on the connection [p], from [e] on: the salt and the id are made,
    then the statement is prepared on the handle of [p] and executed with the values. *)
Definition inserted (p : conn_ptr) (username email password : str) (e : logic_env W) : Prop :=
  ∃ salt e1 user_id e2 mysql e3 st st' w s,
    RandomString 16 [] e = (Ok salt, e1) ∧ GenerateUUID e1 = (Ok user_id, e2) ∧
    on_db p (λ s, (Ok (mysql_ s.1), s)) e2 = (Ok mysql, e3) ∧
    CPrepareStatement_Init mysql
      "insert into user_infos(`user_id`, `username`, `email`, `password_hash`, `salt`) values(?,?,?,?,?)"
      (CPrepareStatement_new, world e3) = (Ok true, (st, w)) ∧
    SetParams 0 [user_id; username; email; Digest.md5 (password ++ salt); salt] st = Ok st' ∧
    CPrepareStatement_ExecuteUpdate (st', w) = (Ok true, s) ∧
    length salt = 16 ∧ Forall lower_letter salt.

Lemma insert_user_inv p username email password (e e' : logic_env W) :
  insert_user p username email password e = (Ok 0%Z, e') → inserted p username email password e.
Proof.
  unfold insert_user. intros H.
  apply ibind_inv in H as (salt & e1 & Hsalt & H). pose proof Hsalt as Hs.
  apply RandomString_letters in Hs as (l & -> & Hl & Hf).
  apply ibind_inv in H as (user_id & e2 & Hu & H). apply ibind_inv in H as (mysql & e3 & Hm & H).
  apply ibind_inv in H as ([prepared st] & e4 & Hi & H). apply on_stmt_inv in Hi.
  destruct prepared; [|by injection H].
  apply ibind_inv in H as (st1 & e5 & Hp & H). injection Hp as Hp <-.
  apply ibind_inv in H as ([ok st2] & e6 & Hx & H). apply on_stmt_inv in Hx.
  destruct ok; [|by injection H].
  exists l, e1, user_id, e2, mysql, e3, st, st1, (world e4), (st2, world e6).
  split_and!; [done..| |done|done|done]. cbn [SetParams].
  change (0 + 1)%Z with 1%Z. change (1 + 1)%Z with 2%Z. change (2 + 1)%Z with 3%Z.
  change (3 + 1)%Z with 4%Z.
  do 4 (apply rbind_inv in Hp as (? & E & Hp); rewrite E; cbn [rbind]; clear E).
  by rewrite Hp.
Qed.

Lemma user_taken_None (o : option (CResultSet RES)) username email err :
  user_taken o username email err = Ok None → ∀ rs, o = Some rs → (Next rs).1 = false.
Proof.
  intros H rs ->. cbn in H. destruct (Next rs) as [[] rs1]; [|done].
  apply rbind_inv in H as (? & _ & H). apply rbind_inv in H as (? & _ & H).
  apply rbind_inv in H as (? & _ & H). by apply rbind_inv in H as (? & _ & H).
Qed.

(** C33: a registration succeeds only when, on the connection that the pool of the master
  database gave, the query for the user name or the email found no row, and then, on the same
  connection, the values executed by the prepared insertion are the generated id, the user
  name and email of the request, the MD5 of the password followed by the salt, and the salt,
  which is sixteen lower-case letters; the password itself is not stored. *)
Theorem registration_inserts (post_data cookie : str) (e e' : logic_env W) :
  ApiRegisterUser files others post_data e = (Ok (0%Z, cookie), e') →
  ∃ username email password,
    DecodeRegisterJson post_data = Ok (Some (username, email, password)) ∧
    ∃ p e1 e2 result_set,
      db_taken files others "chatroom_master" e p e1 ∧
      on_db p (ExecuteQuery
        ("select id, username, email from user_infos where username='" ++ c_str username ++
         "' or email = '" ++ c_str email ++ "' ")) e1 = (Ok result_set, e2) ∧
      (∀ rs, result_set = Some rs → (Next rs).1 = false) ∧
      inserted p username email password e2.
Proof.
  intros H. apply ibind_inv in H as (d & e1 & Hd & H). injection Hd as Hd <-.
  destruct d as [[[username email] password]|]; cycle 1.
  { io_inv. simplify_eq. }
  apply ibind_inv in H as ([ret err] & e2 & Hr & H).
  destruct (Z.eqb_spec ret 0) as [->|Hn]; [|io_inv; by simplify_eq]. clear H.
  exists username, email, password. split; [done|].
  apply with_db_inv in Hr as [(e3 & e4 & Hr)|(p & e3 & e4 & Ht & Hr & _)]; [by injection Hr|].
  apply ibind_inv in Hr as (rs0 & e5 & Hq & Hr). apply ibind_inv in Hr as (taken & e6 & Htk & Hr).
  injection Htk as Htk <-. destruct taken as [?|]; [by injection Hr|].
  apply ibind_inv in Hr as (ret & e7 & Hi & Hr). injection Hr as -> _ <-.
  exists p, e3, e5, rs0. split_and!; [done|done| |by eapply insert_user_inv].
  by eapply user_taken_None.
Qed.
End Registration.

(** ** Connections are given back *)

(** The connections lent are [Ld] and [Lc]; the pools of [ready_d] and [ready_c] can serve. *)
Definition lent_exactly {W STMT RES} `{MY : MySql W RES STMT} `{HR : HiRedis W}
    (Ld Lc : str → list nat) (ready_d ready_c : gset str) (e : logic_env W) : Prop :=
  holds (PC := db_pool_conn) db_kind Ld ready_d e ∧
  holds (PC := cache_pool_conn) cache_kind Lc ready_c e.

Section Leaks.
Context {W RES STMT : Type} `{MY : MySql W RES STMT} `{HR : HiRedis W}.
Variable files : str → option str.
Variable others : str → logic_env W → logic_env W.
Variable Lc Ld : str → list nat.
Variable ready_d ready_c : gset str.
Abbreviation P := (lent_exactly (MY := MY) Ld Lc ready_d ready_c).

Lemma holds_cache_frame :
  frame db_kind (holds (PC := cache_pool_conn) (cache_kind (W := W)) Lc ready_c).
Proof. split; intros e x (m & H); by exists m. Qed.
Lemma holds_db_frame :
  frame cache_kind (holds (PC := db_pool_conn (H := MY)) (db_kind (W := W)) Ld ready_d).
Proof. split; intros e x (m & H); by exists m. Qed.

Lemma with_db_lent {A : Type} (name : str) (body : option conn_ptr → io (logic_env W) A) :
  name ∈ ready_d →
  (∀ conn L ready, preserves (lent_exactly (MY := MY) L Lc ready ready_c) (body conn)) →
  preserves P (with_db files others name body).
Proof.
  intros Hn Hb. apply preserves_with_conn; [done|apply holds_cache_frame|].
  intros conn L ready _. apply Hb.
Qed.

Lemma with_cache_lent {A : Type} (name : str) (body : option conn_ptr → io (logic_env W) A) :
  name ∈ ready_c →
  (∀ conn L ready, preserves (lent_exactly (MY := MY) Ld L ready_d ready) (body conn)) →
  preserves P (with_cache files others name body).
Proof.
  intros Hn Hb e r e' [Hd Hc] H Hr.
  destruct (preserves_with_conn files others cache_kind Lc ready_c
    (holds (PC := db_pool_conn (H := MY)) db_kind Ld ready_d) name body) with e r e' as [? ?];
    [done|apply holds_db_frame| |done..|by split].
  intros conn L ready _ e1 r1 e1' [Hc1 Hd1] Hrun Hr1.
  by destruct (Hb conn L ready e1 r1 e1' ltac:(by split) Hrun Hr1).
Qed.

Lemma on_db_lent {A : Type} ptr (f : io (CDBConn * W) A) : preserves P (on_db ptr f).
Proof. apply preserves_on_conn, holds_cache_frame. Qed.

Lemma on_cache_lent {A : Type} ptr (f : io (cache_conn * W) A) : preserves P (on_cache ptr f).
Proof.
  intros e r e' [Hd Hc] H Hr.
  by destruct (preserves_on_conn cache_kind Lc ready_c
    (holds (PC := db_pool_conn (H := MY)) db_kind Ld ready_d) ptr f holds_db_frame e r e'
    ltac:(by split) H Hr).
Qed.

Lemma lent_world e w : P e → P (set_world w e).
Proof. intros [? ?]. split; by apply holds_world. Qed.

Lemma via_world_lent {A : Type} (f : W → A * W) : preserves P (via_world f).
Proof. apply preserves_world. intros e w. apply lent_world. Qed.

Lemma on_stmt_lent {A : Type} st (f : io (CPrepareStatement STMT * W) A) : preserves P (on_stmt st f).
Proof.
  intros e r e' HP H _. unfold on_stmt in H. destruct (f _) as [r' [st' w]].
  injection H as _ <-. by apply lent_world.
Qed.
End Leaks.

Create HintDb lent.

(** Decide [preserves] goals by the structure of the computation; the calls of other
    functions by the hints. *)
Ltac lent :=
  repeat first
    [ solve [eauto with lent nocore]
    | apply preserves_bind; [|intros ?]
    | apply preserves_ret | apply preserves_lift
    | apply on_db_lent | apply on_cache_lent | apply via_world_lent | apply on_stmt_lent
    | case_match ].

Section ApiLeaks.
Context {J W RES STMT : Type}.
Context `{JC : JsonCpp J} `{MY : MySql W RES STMT} `{HR : HiRedis W} `{HO : Host W}.
Variable files : str → option str.
Variable others : str → logic_env W → logic_env W.
Variable Lc Ld : str → list nat.
Variable ready_d ready_c : gset str.
Hypothesis Hslave : ("chatroom_slave" : str) ∈ ready_d.
Hypothesis Hmaster : ("chatroom_master" : str) ∈ ready_d.
Hypothesis Htoken : ("token" : str) ∈ ready_c.
Abbreviation P := (lent_exactly (MY := MY) Ld Lc ready_d ready_c).

Lemma ApiSetCookie_lent email cookie : preserves P (ApiSetCookie files others email cookie).
Proof. apply with_cache_lent; [done|]. intros conn L ready. unfold GenerateUUID. lent. Qed.

Lemma GetUser_lent Lc' ready_c' email :
  preserves (lent_exactly (MY := MY) Ld Lc' ready_d ready_c')
    (GetUserNameAndUseridByEmail files others email).
Proof. apply with_db_lent; [done|]. intros conn L ready. lent. Qed.

#[local] Hint Resolve GetUser_lent : lent.

Lemma VerifyUserPassword_lent email password :
  preserves P (VerifyUserPassword files others email password).
Proof.
  apply with_db_lent; [done|]. intros conn L ready. unfold CheckUserAuthorization. lent.
Qed.

Lemma RegisterUser_lent username email password err :
  preserves P (RegisterUser files others username email password err).
Proof.
  apply with_db_lent; [done|]. intros conn L ready. unfold insert_user, GenerateUUID. lent.
Qed.

Lemma GetByCookie_lent cookie :
  preserves P (ApiGetUsernameAndUseridByCookie files others cookie).
Proof.
  apply with_cache_lent; [done|]. intros conn L ready. lent.
Qed.

#[local] Hint Resolve ApiSetCookie_lent VerifyUserPassword_lent RegisterUser_lent
  GetByCookie_lent : lent.

Lemma ApiLoginUser_lent post_data : preserves P (ApiLoginUser files others post_data).
Proof. unfold ApiLoginUser. lent. Qed.
Lemma ApiRegisterUser_lent post_data : preserves P (ApiRegisterUser files others post_data).
Proof. unfold ApiRegisterUser. lent. Qed.
Lemma ApiVerifyAuth_lent post_data : preserves P (ApiVerifyAuth files others post_data).
Proof. unfold ApiVerifyAuth, ApiVerifyUserByCookie. lent. Qed.
End ApiLeaks.

(** ** Witnesses *)

(** A database with one user and one enabled email, and a Redis of strings. *)
Record demo_api : Type := MkDemoApi { da_sql : str; da_kv : gmap str str }.

(** The answer to a query, told by its first bytes. *)
Definition demo_answer (sql : str) : list str * list mysql_row :=
  if starts_with "select is_enabled" sql then (["is_enabled" : str], [[Some ("1" : str)]])
  else if starts_with "select user_id, username, password_hash" sql then
    (["user_id" : str; "username" : str; "password_hash" : str; "salt" : str],
     [[Some ("u1" : str); Some ("ann" : str); Some ("3faa321284bc59b777fc796ed74cc72b" : str); Some ("xy" : str)]])
  else if starts_with "select user_id, username from" sql then
    (["user_id" : str; "username" : str], [[Some ("u1" : str); Some ("ann" : str)]])
  else (["id" : str; "username" : str; "email" : str], []).

#[export] Instance demo_api_mysql : MySql demo_api (list str * list mysql_row) unit := {|
  mysql_init w := (Some 7, w);
  mysql_options_charset _ _ w := w;
  mysql_real_connect _ _ _ _ _ _ w := (true, w);
  mysql_close _ w := w;
  mysql_ping _ w := (0%Z, w);
  mysql_real_query _ sql w := (0%Z, MkDemoApi sql (da_kv w));
  mysql_store_result _ w := (Some (demo_answer (da_sql w)), w);
  mysql_affected_rows _ _ := 1%Z;
  mysql_insert_id _ _ := 1%Z;
  mysql_field_names := fst;
  mysql_num_rows t := Z.of_nat (length t.2);
  mysql_fetch_row t := match t.2 with [] => (None, t) | r :: l => (Some r, (t.1, l)) end;
  mysql_stmt_init _ w := (Some tt, w);
  mysql_stmt_prepare _ _ w := (0%Z, w);
  mysql_stmt_param_count _ _ := 5%Z;
  mysql_stmt_bind_param _ _ w := (0%Z, w);
  mysql_stmt_execute _ w := (0%Z, w);
  mysql_stmt_affected_rows _ _ := 1%Z;
  mysql_stmt_insert_id _ _ := 1%Z
|}.

#[export] Instance demo_api_redis : HiRedis demo_api := {|
  unix_time w := (1000%Z, w);
  redis_connect _ _ w := (Some 0%Z, w);
  redis_argv args w :=
    match args with
    | [_; k; _; v] => (Some (MkReply REDIS_REPLY_STATUS 0 (Some ("OK" : str)) []),
                       MkDemoApi (da_sql w) (<[k := v]> (da_kv w)))
    | [_; k] => (match da_kv w !! k with
                 | Some v => Some (MkReply REDIS_REPLY_STRING 0 (Some v) [])
                 | None => Some (MkReply REDIS_REPLY_NIL 0 None [])
                 end, w)
    | [_; _; _; _; _] => (Some (MkReply REDIS_REPLY_STRING 0 (Some ("1-0" : str)) []), w)
    | _ => (Some (MkReply REDIS_REPLY_NIL 0 None []), w)
    end;
  redis_format _ w := (None, w);
  redis_err _ := 0%Z
|}.

#[export] Instance demo_host : Host demo_api := {|
  uuid_generate w := ("id" : str, w);
  rand w := (30%Z, w)
|}.

Definition demo_db (name : str) : named_pool db_server CDBConn :=
  let s := CDBPool_server name "10.0.0.1" 3306 "root" "pw" "chatroom" in
  MkNamed s (MkPool [0] 1 2 false 1) {[ 0 := MkDBConn 0 s (Some 7) ]}.
Definition demo_session : cache_conn := MkCache "10.0.0.1" 6379 1 [] "token" true 0.
Definition demo_token : named_pool cache_server cache_conn :=
  MkNamed (MkCacheServer "token" "10.0.0.1" 6379 1 [])
    (MkPool [0; 1] 2 2 false 2)
    {[ 0 := demo_session; 1 := demo_session ]}.

Definition demo_env : logic_env demo_api :=
  MkEnv (Some {[ "chatroom_slave" : str := demo_db "chatroom_slave";
                 "chatroom_master" : str := demo_db "chatroom_master" ]})
    (Some {[ "token" : str := demo_token ]}) "f" "f" (MkDemoApi [] ∅).

Definition demo_files : str → option str := λ _, None.
Definition demo_others : str → logic_env demo_api → logic_env demo_api := λ _ e, e.
Definition demo_register : io (logic_env demo_api) (Z * str) :=
  ApiRegisterUser demo_files demo_others
    (Mini.write (Mini.JObj [("username" : str, Mini.JStr "bob"); ("email" : str, Mini.JStr "b@c");
                            ("password" : str, Mini.JStr "pw")])).


Lemma demo_rand_nonneg (w : demo_api) : (0 ≤ (rand w).1)%Z.
Proof. cbn. lia. Qed.

Lemma registration_inserts_witness :
  (demo_register demo_env).1 = Ok (0%Z, "id" : str) ∧
  ∃ p e1 e2, db_taken demo_files demo_others "chatroom_master" demo_env p e1 ∧
    inserted (MY := demo_api_mysql) p "bob" "b@c" "pw" e2.
Proof.
  assert (E : (demo_register demo_env).1 = Ok (0%Z, "id" : str)) by (vm_compute; reflexivity).
  split; [exact E|].
  destruct (demo_register demo_env) as [r e'] eqn:Er. cbn in E. subst r.
  destruct (registration_inserts demo_files demo_others demo_rand_nonneg _ _ _ _ Er)
    as (username & email & password & Hd & p & e1 & e2 & rs & Ht & _ & _ & H).
  vm_compute in Hd. injection Hd as <- <- <-. exists p, e1, e2. exact (conj Ht H).
Defined.
