(* ===== verification/MessageService.v ===== *)
(** [service/message_service.{h,cc}] of the logic service: the history of a room, kept as a
    Redis stream, and the table of messages.

    The manager's mutex is held by every operation, so each is one computation.  The clock
    is a parameter. *)

From S2P Require Import Prelude Json ApiTypes ConfigReader ConnPool CacheConn DbPool PoolManager.
From S2P Require Import LogicEnv LogicApi.

Class Clock (W : Type) : Type := {
  system_clock_ms : W → Z * W;      (* system_clock::now() since the epoch, in ms *)
  timestamp_us : W → Z * W          (* Timestamp::now().microSecondsSinceEpoch() *)
}.

Definition k_message_batch_size : Z := 10.

(** The members [initialized_] and [config_file_]. *)
Record MessageStorageManager : Type := MkStorage { initialized_ : bool; ms_config_file_ : str }.
Definition MessageStorageManager_new : MessageStorageManager := MkStorage false [].

Definition push_message (msg : Message) (b : MessageBatch) : MessageBatch :=
  MkBatch (messages b ++ [msg]) (has_more b).

Section MessageService.
Context {J W RES STMT : Type}.
Context `{JC : JsonCpp J} `{MY : MySql W RES STMT} `{HR : HiRedis W} `{HO : Host W} `{CL : Clock W}.
Variable files : str → option str.
Variable others : str → logic_env W → logic_env W.

Abbreviation M := (io (logic_env W)).

(** [init]: the managers are created, which reads the configuration file. *)
Definition storage_init (config_file : str) (s : MessageStorageManager) : M (bool * MessageStorageManager) :=
  if initialized_ s then iret (true, s)
  else
    icatch
      (do* _ := (λ e, (Ok tt, SetConfPath (c_str config_file) e)) in
       do* db_manager := instance (PC := db_pool_conn) files db_kind in
       match db_manager with
       | None => iret (false, MkStorage false config_file)
       | Some _ =>
           do* _ := (λ e, (Ok tt, Cache_SetConfPath (c_str config_file) e)) in
           do* cache_manager := instance (PC := cache_pool_conn) files cache_kind in
           match cache_manager with
           | None => iret (false, MkStorage false config_file)
           | Some _ => iret (true, MkStorage true config_file)
           end
       end)
      (false, MkStorage false config_file).

Definition generateMessageId : M str :=
  do* timestamp := via_world system_clock_ms in
  do* uuid_str := GenerateUUID in
  iret (to_string timestamp ++ "-" ++ uuid_str).

Definition message_json (msg : Message) : result J :=
  jobj [("content" : str, jstring (msg_content msg)); ("timestamp" : str, juint (msg_timestamp msg));
        ("user_id" : str, jstring (msg_user_id msg)); ("username" : str, jstring (msg_username msg))].
Definition serializeMessageToJson (msg : Message) : result str :=
  let* root := message_json msg in Ok (jwrite root).

(** [getDBConnection] and [getCacheConnection], with the guard that releases the
    connection at the end of the scope; [None] also when there is no manager. *)
Definition with_master {A} (body : option conn_ptr → M A) : M A :=
  try_conn files others db_kind "chatroom_master" (body None) body.
Definition with_msg_cache {A} (body : option conn_ptr → M A) : M A :=
  try_conn files others cache_kind "msg" (body None) body.

(** ** The history *)

(** The fields of a stored message; [None]: it is rejected. *)
Definition decode_message (id payload : str) : result (option Message) :=
  match jparse payload with
  | None => Ok None
  | Some root =>
      let* c := jget root "content" in
      if jisNull c then Ok None else
      let* u := jget root "user_id" in
      if jisNull u then Ok None else
      let* n := jget root "username" in
      if jisNull n then Ok None else
      let* t := jget root "timestamp" in
      if jisNull t then Ok None else
      let* content := jasString c in
      let* user_id := jasString u in
      let* username := jasString n in
      let* timestamp := jasInt64 t in
      Ok (Some (MkMessage id username content (u64 timestamp) user_id))
  end.

Definition set_history_id (id : str) (room : Room) : Room :=
  MkRoom (room_id room) (room_name room) (creator_id room) (create_time room) (update_time room) id.

(** The loop over the entries: whether all were accepted, with what [room] and
    [message_batch] then hold. *)
Fixpoint history_entries (msgs : list (str * str)) (room : Room) (batch : MessageBatch)
    : result (bool * Room * MessageBatch) :=
  match msgs with
  | [] => Ok (true, room, batch)
  | (id, payload) :: msgs' =>
      let room := set_history_id id room in
      let* m := decode_message id payload in
      match m with
      | None => Ok (false, room, batch)
      | Some msg => history_entries msgs' room (push_message msg batch)
      end
  end.

(** The part with the connection. *)
Definition read_history (p : conn_ptr) (room : Room) (batch : MessageBatch) (msg_count : Z)
    : M (Z * Room * MessageBatch) :=
  let start := history_last_message_id room in
  let stream_ref := match start with [] => "+" : str | _ => start end in
  do* r := on_cache p (GetXrevrange (room_id room) stream_ref "-" msg_count []) in
  let '(res, msgs) := r in
  if res : bool then
    do* h := ilift (history_entries (match start with [] => msgs | _ => tail msgs end) room batch) in
    let '(ok, room, batch) := h in
    if ok : bool then
      iret (0%Z, room, MkBatch (messages batch) (u64 msg_count <=? Z.of_nat (length msgs))%Z)
    else iret ((-1)%Z, room, batch)
  else iret ((-1)%Z, room, batch).

Definition getRoomHistory (s : MessageStorageManager) (room : Room) (batch : MessageBatch)
    (msg_count : Z) : M (Z * Room * MessageBatch) :=
  if negb (initialized_ s) then iret ((-1)%Z, room, batch)
  else
    with_msg_cache (λ conn,
      match conn with
      | None => iret ((-1)%Z, room, batch)
      | Some p => read_history p room batch msg_count
      end).

(** [Xadd(room_id, id, {{"payload", json}})] with [id = "*"]. *)
Definition append_entry (p : conn_ptr) (room_id json_msg : str) : M (bool * str) :=
  on_cache p (Xadd room_id "*" [("payload" : str, json_msg)]).

Definition storeMessageToCache (s : MessageStorageManager) (room_id : str) (msg : Message) : M bool :=
  if negb (initialized_ s) then iret false
  else
    icatch
      (with_msg_cache (λ conn,
         match conn with
         | None => iret false
         | Some p =>
             do* json_msg := ilift (serializeMessageToJson msg) in
             do* r := append_entry p room_id json_msg in iret r.1
         end)) false.

Definition set_msg_id (id : str) (m : Message) : Message :=
  MkMessage id (msg_username m) (msg_content m) (msg_timestamp m) (msg_user_id m).

(** The loop, with the messages as they then are. *)
Fixpoint append_entries (p : conn_ptr) (room_id : str) (msgs : list Message) : M (Z * list Message) :=
  match msgs with
  | [] => iret (0%Z, [])
  | msg :: msgs' =>
      do* json_msg := ilift (serializeMessageToJson msg) in
      do* r := append_entry p room_id json_msg in
      if r.1 then
        do* q := append_entries p room_id msgs' in iret (q.1, set_msg_id r.2 msg :: q.2)
      else iret ((-1)%Z, msg :: msgs')
  end.

Definition storeMessagesToCache (s : MessageStorageManager) (room_id : str) (msgs : list Message)
    : M (Z * list Message) :=
  if negb (initialized_ s) then iret ((-1)%Z, msgs)
  else
    with_msg_cache (λ conn,
      match conn with
      | None => iret ((-1)%Z, msgs)
      | Some p => append_entries p room_id msgs
      end).

(** ** The message table *)

(** [msg.id.empty() ? generateMessageId() : msg.id] *)
Definition stored_id (msg : Message) : M str :=
  match msg_id msg with [] => generateMessageId | id => iret id end.

Fixpoint stored_ids (msgs : list Message) : M (list str) :=
  match msgs with
  | [] => iret []
  | msg :: msgs' =>
      do* id := stored_id msg in do* ids := stored_ids msgs' in iret (id :: ids)
  end.

(** The values of one message, in the order of the placeholders. *)
Definition message_params (room_id id : str) (msg : Message) : list str :=
  [id; room_id; msg_user_id msg; msg_username msg; msg_content msg].

Definition storeMessageToDB (s : MessageStorageManager) (room_id : str) (msg : Message) : M bool :=
  if negb (initialized_ s) then iret false
  else
    icatch
      (with_master (λ conn,
         match conn with
         | None => iret false
         | Some p =>
             do* mysql := on_db p (λ s, (Ok (mysql_ s.1), s)) in
             do* r := on_stmt CPrepareStatement_new (CPrepareStatement_Init mysql
               ("INSERT INTO message_infos (`msg_id`, `room_id`, `user_id`, `username`, `msg_content`) " ++
                "VALUES (?, ?, ?, ?, ?)")) in
             let '(prepared, st) := r in
             if prepared : bool then
               do* msg_id := stored_id msg in
               do* st := ilift (SetParams 0 (message_params room_id msg_id msg) st) in
               do* r := on_stmt st CPrepareStatement_ExecuteUpdate in iret r.1
             else iret false
         end)) false.

(** [std::accumulate] of the groups of placeholders. *)
Definition value_parts (n : nat) : str :=
  foldl (λ a b, match a with [] => b | _ => a ++ ", " ++ b end) []
    (replicate n ("(?, ?, ?, ?, ?)" : str)).

Definition batch_sql (n : nat) : str :=
  "INSERT INTO message_infos (`msg_id`, `room_id`, `user_id`, `username`, `msg_content`) VALUES " ++
  value_parts n.

(** The values of all messages. *)
Definition batch_params (room_id : str) (ids : list str) (msgs : list Message) : list str :=
  zip ids msgs ≫= λ x, message_params room_id x.1 x.2.

Definition storeMessagesToDB (s : MessageStorageManager) (room_id : str) (messages : list Message) : M bool :=
  if negb (initialized_ s) then iret false
  else
    match messages with
    | [] => iret true
    | _ =>
        icatch
          (with_master (λ conn,
             match conn with
             | None => iret false
             | Some p =>
                 do* mysql := on_db p (λ s, (Ok (mysql_ s.1), s)) in
                 do* r := on_stmt CPrepareStatement_new
                   (CPrepareStatement_Init mysql (batch_sql (length messages))) in
                 let '(prepared, st) := r in
                 if prepared : bool then
                   do* msg_ids := stored_ids messages in
                   do* st := ilift (SetParams 0 (batch_params room_id msg_ids messages) st) in
                   do* r := on_stmt st CPrepareStatement_ExecuteUpdate in iret r.1
                 else iret false
             end)) false
    end.
End MessageService.

(** ** Properties of the history *)

(** Documented behaviour of [XADD key * payload v] and [XREVRANGE key start - COUNT n] with
    [start] either [+] or the id of an entry.  [stream] lists the entries of a key, the
    oldest first: their ids and their (only) values. *)
Definition from_ref (ref : str) (l : list (str * str)) : list (str * str) :=
  if bool_decide (ref = "+") then l
  else match list_find (λ e, e.1 = ref) l with Some (i, _) => drop i l | None => [] end.

Class RedisStreams (W : Type) `{HiRedis W} : Type := {
  stream : W → str → list (str * str);
  stream_ids (w : W) (key : str) :
    NoDup (stream w key).*1 ∧ Forall (λ e, e.1 ≠ [] ∧ e.1 ≠ "+" ∧ c_str e.1 = e.1) (stream w key);
  xrevrange_law (key ref : str) (n : Z) (w : W) :
    (0 < n < 2 ^ 31)%Z → ref = "+" ∨ (ref ∈ (stream w key).*1) →
    ∃ w', redis_argv (xrevrange_args key ref "-" n) w =
            (Some (MkReply REDIS_REPLY_ARRAY 0 None
               (stream_entry <$> take (Z.to_nat n) (from_ref ref (rev (stream w key))))), w') ∧
          ∀ key', stream w' key' = stream w key';
  xadd_law (key payload : str) (w : W) :
    ∃ (id : str) (w' : W), redis_argv ["XADD" : str; key; ("*" : str); ("payload" : str); payload] w =
               (Some (MkReply REDIS_REPLY_STRING 0 (Some id) []), w') ∧
             stream w' key = stream w key ++ [(id, payload)] ∧
             ∀ key', key' ≠ key → stream w' key' = stream w key'
}.

Section HistoryProperties.
Context {J W RES STMT : Type} `{JL : JsonLaws J} `{RS : RedisStreams W}.
Variable files : str → option str.
Variable others : str → logic_env W → logic_env W.

(** [msg] is stored as the entry [e]. *)
Definition entry_of (msg : Message) (e : str * str) : Prop :=
  ∃ v, message_json msg = Ok v ∧ parses_back v ∧ (0 ≤ msg_timestamp msg < 2 ^ 63)%Z ∧
       e = (msg_id msg, jwrite v).

(** The stream of the room holds the messages [ms], the newest first. *)
Definition room_history (room_id : str) (ms : list Message) (w : W) : Prop :=
  Forall2 entry_of ms (rev (stream w room_id)).

Lemma decode_message_json id msg v :
  message_json msg = Ok v → parses_back v → (0 ≤ msg_timestamp msg < 2 ^ 63)%Z →
  decode_message id (jwrite v) = Ok (Some (set_msg_id id msg)).
Proof.
  intros Hv [Hp _] Ht. unfold decode_message. rewrite Hp. unfold message_json in Hv.
  jget_in Hv. cbn.
  rewrite !jisNull_jstring, jisNull_juint, !jasString_jstring, jasInt64_juint by done. cbn.
  unfold set_msg_id. by rewrite (wrap_small 64) by lia.
Qed.

(** A message that [storeMessagesToCache] can store and read again. *)
Definition storable (msg : Message) : Prop :=
  ∃ v, message_json msg = Ok v ∧ parses_back v ∧ (0 ≤ msg_timestamp msg < 2 ^ 63)%Z.

(** The pool of the message cache has free connections, all connected. *)
Definition msg_idle : logic_env W → Prop :=
  idle (PC := cache_pool_conn) cache_kind "msg" (λ c, context_ c = true).

Lemma history_entries_all ms l room batch :
  Forall2 entry_of ms l →
  history_entries l room batch =
    Ok (true, set_history_id (default (history_last_message_id room) (msg_id <$> last ms)) room,
        MkBatch (messages batch ++ ms) (has_more batch)).
Proof.
  intros Hall. revert room batch. induction Hall as [|m e ms l He _ IH]; intros room batch.
  - cbn. rewrite app_nil_r. by destruct room, batch.
  - destruct He as (v & Hv & Hp & Ht & ->). cbn [history_entries].
    rewrite (decode_message_json (msg_id m) m v) by done. cbn [rbind]. rewrite IH.
    unfold push_message. cbn. rewrite <- app_assoc. destruct m as [i u c t x]. cbn.
    f_equal. f_equal. f_equal. destruct ms as [|m' ms]; [done|].
    rewrite last_cons_cons.
    destruct (last (m' :: ms)) eqn:El; [done|]. by apply last_None in El.
Qed.

(** The entries pass through C strings unchanged. *)
Lemma entries_c_str key ms w :
  room_history key ms w →
  (λ p, (c_str p.1, c_str p.2)) <$> rev (stream w key) = rev (stream w key).
Proof.
  intros Hh. destruct (stream_ids w key) as [_ Hids].
  rewrite <- (list_fmap_id (rev (stream w key))) at 2. apply Forall_fmap_ext_1, Forall_forall.
  intros e He. pose proof He as [i Hi]%list_elem_of_lookup.
  destruct (Forall2_lookup_r _ _ _ _ _ Hh Hi) as (m & _ & v & _ & [_ Hc] & _ & ->).
  cbn. rewrite Hc. f_equal. rewrite Forall_forall in Hids.
  apply (Hids (msg_id m, jwrite v)), list_elem_of_In, in_rev. by apply list_elem_of_In.
Qed.
(** [room] points after the first [i] messages of the history [ms]. *)
Definition cursor (i : nat) (ms : list Message) (room : Room) : Prop :=
  match i with
  | O => history_last_message_id room = []
  | S j => msg_id <$> ms !! j = Some (history_last_message_id room)
  end.

(** What Redis returns for a cursor. *)
Lemma from_ref_cursor i ms room w :
  room_history (room_id room) ms w → cursor i ms room →
  let start := history_last_message_id room in
  let ref := match start with [] => "+" : str | _ => start end in
  (ref = "+" ∨ (ref ∈ (stream w (room_id room)).*1)) ∧
  from_ref ref (rev (stream w (room_id room))) = drop (pred i) (rev (stream w (room_id room))) ∧
  (start = [] ↔ i = 0%nat).
Proof.
  intros Hh Hi start ref. destruct (stream_ids w (room_id room)) as [Hnd Hids].
  destruct i as [|j]; cbn in Hi; subst ref start.
  { rewrite Hi. split_and!; [by left|done|done]. }
  destruct (ms !! j) as [m|] eqn:Hj; [|done]. injection Hi as Hi.
  destruct (Forall2_lookup_l _ _ _ _ _ Hh Hj) as (e & He & v & _ & _ & _ & ->).
  assert (Hin : (msg_id m, jwrite v) ∈ stream w (room_id room))
    by (apply list_elem_of_In, in_rev, list_elem_of_In, list_elem_of_lookup; eauto).
  rewrite Forall_forall in Hids. destruct (Hids _ Hin) as (Hne & Hplus & _). cbn in Hne, Hplus.
  rewrite <- Hi. assert (Hm : match msg_id m with [] => "+" : str | _ => msg_id m end = msg_id m)
    by by destruct (msg_id m).
  rewrite Hm. split; [right; apply list_elem_of_fmap; by exists (msg_id m, jwrite v)|split; [|by split]].
  unfold from_ref. rewrite bool_decide_false by done.
  assert (Hf : list_find (λ e : str * str, e.1 = msg_id m) (rev (stream w (room_id room)))
               = Some (j, (msg_id m, jwrite v))); [|by rewrite Hf].
  apply list_find_Some. split_and!; [done|done|]. intros k e Hk Hlt Heq.
  assert (Hnd' : NoDup (rev (stream w (room_id room))).*1).
  { assert (Hp : (rev (stream w (room_id room))).*1 ≡ₚ (stream w (room_id room)).*1)
      by (apply fmap_Permutation; symmetry; apply Permutation_rev).
    by rewrite Hp. }
  assert (k = j); [|lia]. eapply (NoDup_lookup _ _ _ (msg_id m) Hnd').
  - rewrite list_lookup_fmap, Hk. cbn. by rewrite Heq.
  - by rewrite list_lookup_fmap, He.
Qed.

(** The messages a page adds. *)
Definition page_of {A : Type} (i n : nat) (ms : list A) : list A :=
  match i with O => take n ms | S _ => take (pred n) (drop i ms) end.

Lemma tail_take_drop {A : Type} (n j : nat) (l : list A) :
  tail (take n (drop j l)) = take (pred n) (drop (S j) l).
Proof.
  rewrite <- (drop_drop l j 1) || rewrite <- Nat.add_1_r, <- drop_drop.
  destruct (drop j l) as [|x l'], n; cbn; by rewrite ?take_nil, ?take_0, ?drop_0.
Qed.

Lemma cursor_page i (n : nat) ms room :
  cursor i ms room →
  cursor (i + length (page_of i n ms)) ms
    (set_history_id (default (history_last_message_id room) (msg_id <$> last (page_of i n ms))) room).
Proof.
  intros Hi. set (k := match i with O => n | S _ => pred n end).
  assert (page_of i n ms = take k (drop i ms)) as -> by by destruct i.
  destruct (last (take k (drop i ms))) as [m|] eqn:El; cbn [fmap option_fmap option_map default].
  - rewrite last_lookup in El. pose proof El as Hlt%lookup_lt_Some.
    rewrite lookup_take_lt, lookup_drop in El by (rewrite length_take in *; lia).
    destruct (length (take k (drop i ms))) as [|l] eqn:E; [lia|].
    rewrite Nat.add_succ_r. cbn. cbn in El. by rewrite El.
  - apply last_None in El. rewrite El. cbn [length]. rewrite Nat.add_0_r. by destruct i, room.
Qed.

Lemma read_history_page p c room batch (n : Z) i ms (e : logic_env W) :
  designates cache_kind p c e → context_ c = true → (0 < n < 2 ^ 31)%Z →
  room_history (room_id room) ms (world e) → cursor i ms room →
  let page := page_of i (Z.to_nat n) ms in
  ∃ w',
    read_history p room batch n e =
      (Ok (0%Z, set_history_id (default (history_last_message_id room) (msg_id <$> last page)) room,
           MkBatch (messages batch ++ page)
             (n <=? Z.of_nat (length (take (Z.to_nat n) (drop (pred i) ms))))%Z),
       set_world w' e) ∧
    room_history (room_id room) ms w'.
Proof.
  intros Hp Hc Hn Hh Hi page. pose proof (from_ref_cursor _ _ _ _ Hh Hi) as (Href & Hfrom & Hstart).
  cbn zeta in Href, Hfrom. unfold read_history. set (start := history_last_message_id room) in *.
  set (ref := match start with [] => "+" : str | _ => start end) in *.
  set (L := rev (stream (world e) (room_id room))) in *.
  destruct (xrevrange_law (room_id room) ref n (world e)) as (w' & Hx & Hs); [lia|done|].
  fold L in Hx. rewrite Hfrom in Hx.
  pose proof (GetXrevrange_entries (room_id room) ref "-" n [] _ (c, world e) w' Hc Hx) as Hget.
  rewrite fmap_take, fmap_drop in Hget. unfold L in Hget. rewrite (entries_c_str _ _ _ Hh) in Hget.
  fold L in Hget. cbn [app fst] in Hget. exists w'. split.
  - rewrite (ibind_Ok _ _ _ _ _ (on_conn_same cache_kind _ _ _ _ _ _ Hp Hget)).
    assert (Hl : Forall2 entry_of page
      (match start with [] => take (Z.to_nat n) (drop (pred i) L) | _ => tail (take (Z.to_nat n) (drop (pred i) L)) end)).
    { destruct i as [|j]; cbn [pred] in *.
      - rewrite (proj2 Hstart eq_refl), drop_0. by apply Forall2_take.
      - destruct start; [discriminate (proj1 Hstart eq_refl)|]. rewrite tail_take_drop.
        unfold page, page_of. by apply Forall2_take, Forall2_drop. }
    rewrite (ibind_lift _ _ _ (history_entries_all _ _ room batch Hl)). cbn [has_more messages].
    rewrite (wrap_small 64) by lia. unfold iret. do 5 f_equal.
    rewrite !length_take, !length_drop. by rewrite (Forall2_length _ _ _ Hh).
  - unfold room_history. by rewrite Hs.
Qed.

(** C26: paging through the history of a room: a call of [getRoomHistory] with a cursor
    after the first [i] messages appends the next messages, the newest first, without a
    gap or a repetition, and leaves the cursor after them.  The first page has up to
    [n] messages, each later one up to [n - 1]: the entry of the cursor is read again and
    skipped.  [has_more] says that [n] entries were read. *)
Theorem getRoomHistory_page (s : MessageStorageManager) (room : Room) (batch : MessageBatch)
    (n : Z) (i : nat) (ms : list Message) (e : logic_env W) :
  initialized_ s = true → msg_idle e → (0 < n < 2 ^ 31)%Z →
  room_history (room_id room) ms (world e) → cursor i ms room →
  let read := take (Z.to_nat n) (drop (pred i) ms) in
  let page := page_of i (Z.to_nat n) ms in
  ∃ room' e',
    getRoomHistory files others s room batch n e =
      (Ok (0%Z, room', MkBatch (messages batch ++ page) (n <=? Z.of_nat (length read))%Z), e') ∧
    cursor (i + length page) ms room' ∧ room_id room' = room_id room ∧
    msg_idle e' ∧ room_history (room_id room) ms (world e').
Proof.
  intros Hs Hidle Hn Hh Hi read page. unfold getRoomHistory. rewrite Hs. cbn [negb].
  destruct (try_conn_idle files others cache_kind "msg" _
    (iret ((-1)%Z, room, batch))
    (λ conn, match conn with
             | None => iret ((-1)%Z, room, batch)
             | Some p => read_history p room batch n
             end) e Hidle) as (p & c & e1 & Hp & Hc & Hw & Hrun).
  rewrite <- Hw in Hh.
  destruct (read_history_page p c room batch n i ms e1 Hp Hc Hn Hh Hi) as (w' & Hr & Hh').
  destruct (Hrun _ _ Hr) as (e2 & He2 & Hw2 & Hidle2); [done|].
  eexists _, e2. split; [exact He2|]. rewrite Hw2. split_and!; [|done..].
  by apply cursor_page.
Qed.
(** One entry more. *)
Lemma append_entry_history p c (room_id : str) (msg : Message) v (e : logic_env W) :
  designates cache_kind p c e → context_ c = true →
  message_json msg = Ok v → parses_back v → (0 ≤ msg_timestamp msg < 2 ^ 63)%Z →
  ∃ id w',
    append_entry p room_id (jwrite v) e = (Ok (true, id), set_world w' e) ∧
    (∀ ms, room_history room_id ms (world e) → room_history room_id (set_msg_id id msg :: ms) w').
Proof.
  intros Hp Hc Hv Hb Ht. destruct (xadd_law room_id (jwrite v) (world e)) as (id & w' & Hx & Hs & _).
  exists id, w'. destruct (stream_ids w' room_id) as [_ Hids]. rewrite Hs in Hids.
  apply Forall_app in Hids as [_ [(_ & _ & Hid) _]%Forall_cons]. cbn in Hid. split.
  - apply (on_conn_same cache_kind p _ c); [done|]. rewrite <- Hid.
    by apply (Xadd_id room_id "*" [("payload" : str, jwrite v)] (c, world e)).
  - intros ms Hms. unfold room_history. rewrite Hs, rev_app_distr. cbn. constructor; [|done].
    exists v. by destruct msg.
Qed.

Lemma append_entries_history p c (room_id : str) (msgs : list Message) (e : logic_env W) :
  designates cache_kind p c e → context_ c = true → Forall storable msgs →
  ∃ msgs' w',
    append_entries p room_id msgs e = (Ok (0%Z, msgs'), set_world w' e) ∧
    Forall2 (λ m m', m' = set_msg_id (msg_id m') m) msgs msgs' ∧
    (∀ ms, room_history room_id ms (world e) → room_history room_id (rev msgs' ++ ms) w').
Proof.
  intros Hp Hc Hall. revert e Hp. induction Hall as [|m msgs (v & Hv & Hb & Ht) _ IH]; intros e Hp.
  - exists [], (world e). split_and!; [by destruct e|constructor|done].
  - destruct (append_entry_history p c room_id m v e Hp Hc Hv Hb Ht) as (id & w1 & Ha & H1).
    destruct (IH (set_world w1 e)) as (msgs' & w' & Hm & Hf & H2); [by apply designates_world|].
    exists (set_msg_id id m :: msgs'), w'. split_and!.
    + cbn [append_entries]. unfold serializeMessageToJson. rewrite Hv. cbn [rbind].
      rewrite (ibind_lift _ _ (jwrite v)) by done. rewrite (ibind_Ok _ _ _ _ _ Ha). cbn [fst snd].
      by rewrite (ibind_Ok _ _ _ _ _ Hm).
    + by constructor.
    + intros ms Hms. cbn. rewrite <- app_assoc. by apply H2, H1.
Qed.

(** C11: storing messages in the cache appends them to the history of the room, in their
    order, and returns them with the ids that Redis gave; nothing else of a message
    changes.  Reading the history then gives them, the newest first. *)
Theorem storeMessagesToCache_history (s : MessageStorageManager) (room_id : str)
    (msgs ms : list Message) (e : logic_env W) :
  initialized_ s = true → msg_idle e → Forall storable msgs → room_history room_id ms (world e) →
  ∃ msgs' e',
    storeMessagesToCache files others s room_id msgs e = (Ok (0%Z, msgs'), e') ∧
    Forall2 (λ m m', m' = set_msg_id (msg_id m') m) msgs msgs' ∧
    msg_idle e' ∧ room_history room_id (rev msgs' ++ ms) (world e').
Proof.
  intros Hs Hidle Hall Hh. unfold storeMessagesToCache. rewrite Hs. cbn [negb].
  destruct (try_conn_idle files others cache_kind "msg" _
    (iret ((-1)%Z, msgs))
    (λ conn, match conn with
             | None => iret ((-1)%Z, msgs)
             | Some p => append_entries p room_id msgs
             end) e Hidle) as (p & c & e1 & Hp & Hc & Hw & Hrun).
  destruct (append_entries_history p c room_id msgs e1 Hp Hc Hall) as (msgs' & w' & Hr & Hf & H2).
  destruct (Hrun _ _ Hr) as (e2 & He2 & Hw2 & Hidle2); [done|].
  exists msgs', e2. split_and!; [exact He2|done|done|]. rewrite Hw2. apply H2. by rewrite Hw.
Qed.
End HistoryProperties.

(** ** Properties of the message table *)

Definition placeholders (sql : str) : nat := length (filter (λ c, c = "?"%char) sql).

Lemma placeholders_app s t : placeholders (s ++ t) = (placeholders s + placeholders t)%nat.
Proof. unfold placeholders. by rewrite filter_app, length_app. Qed.

Lemma value_parts_placeholders n : placeholders (value_parts n) = (5 * n)%nat.
Proof.
  unfold value_parts. set (g := λ a b : str, _).
  enough (H : ∀ a, placeholders (foldl g a (replicate n ("(?, ?, ?, ?, ?)" : str))) =
                   (placeholders a + 5 * n)%nat) by by rewrite H.
  induction n as [|n IH]; intros a; cbn [replicate foldl]; [lia|]. rewrite IH.
  assert (placeholders (g a "(?, ?, ?, ?, ?)") = (placeholders a + 5)%nat); [|lia].
  unfold g. destruct a; [done|]. by rewrite !placeholders_app.
Qed.

Lemma batch_sql_placeholders n : placeholders (batch_sql n) = (5 * n)%nat.
Proof. unfold batch_sql. by rewrite placeholders_app, value_parts_placeholders. Qed.

Lemma batch_params_length room_id ids msgs :
  length ids = length msgs → length (batch_params room_id ids msgs) = (5 * length msgs)%nat.
Proof.
  unfold batch_params. revert ids. induction msgs as [|m msgs IH]; intros [|i ids]; cbn; try done.
  intros [= Hl]. rewrite IH by done. lia.
Qed.

Section TableProperties.
Context {W RES STMT : Type}.
Context `{MY : MySql W RES STMT} `{HR : HiRedis W} `{HO : Host W} `{CL : Clock W}.
Variable files : str → option str.
Variable others : str → logic_env W → logic_env W.

Lemma stored_ids_spec (msgs : list Message) (e : logic_env W) ids e' :
  stored_ids msgs e = (Ok ids, e') →
  Forall2 (λ m id, msg_id m ≠ [] → id = msg_id m) msgs ids.
Proof.
  revert e ids. induction msgs as [|m msgs IH]; intros e ids H; cbn [stored_ids] in H.
  - injection H as <- <-. constructor.
  - apply ibind_inv in H as (id & e1 & Hid & H). apply ibind_inv in H as (ids' & e2 & Hr & H).
    injection H as <- <-. constructor; [|by eapply IH]. intros Hne. unfold stored_id in Hid.
    destruct (msg_id m); [done|]. by injection Hid as <- _.
Qed.

Lemma icatch_true {A} (m : io A bool) e e' : icatch m false e = (Ok true, e') → m e = (Ok true, e').
Proof. unfold icatch. by destruct (m e) as [[a|x|u] e1]; intros [= -> ->] || intros [=]. Qed.

(** [storeMessagesToDB] returns true for a non-empty batch only when one prepared
    insertion with five placeholders per message was executed with exactly the values of
    the messages, in their order: the id of the message (a generated one if it has none),
    the room, and the message's user id, user name and content. *)
Theorem storeMessagesToDB_inserts (s : MessageStorageManager) (room_id : str)
    (msgs : list Message) (e e' : logic_env W) :
  storeMessagesToDB files others s room_id msgs e = (Ok true, e') → msgs ≠ [] →
  initialized_ s = true ∧
  ∃ mysql st st' w w1 w2 ids x,
    CPrepareStatement_Init mysql (batch_sql (length msgs)) (CPrepareStatement_new, w) =
      (Ok true, (st, w1)) ∧
    Forall2 (λ m id, msg_id m ≠ [] → id = msg_id m) msgs ids ∧
    placeholders (batch_sql (length msgs)) = length (batch_params room_id ids msgs) ∧
    SetParams 0 (batch_params room_id ids msgs) st = Ok st' ∧
    CPrepareStatement_ExecuteUpdate (st', w2) = (Ok true, x).
Proof.
  unfold storeMessagesToDB. destruct (initialized_ s); cbn [negb]; [|done].
  intros H Hne. split; [done|]. destruct msgs as [|m0 msgs0] eqn:Em; [done|]. rewrite <- Em in *.
  clear Em Hne. apply icatch_true in H.
  apply try_conn_inv in H as [(e1 & H)|([p|] & e1 & e2 & Eb)]; [by injection H| |by injection Eb].
  apply ibind_inv in Eb as (mysql & e4 & _ & Eb).
  apply ibind_inv in Eb as ([prepared st] & e5 & Hi & Eb). apply on_stmt_inv in Hi.
  destruct prepared; [|by injection Eb].
  apply ibind_inv in Eb as (ids & e6 & Hids & Eb). apply stored_ids_spec in Hids.
  apply ibind_inv in Eb as (st1 & e7 & Hp & Eb). injection Hp as Hp <-.
  apply ibind_inv in Eb as ([ok st2] & e8 & Hx & Eb). apply on_stmt_inv in Hx.
  injection Eb as -> _.
  exists mysql, st, st1, (world e4), (world e5), (world e6), ids, (st2, world e8).
  split_and!; [done|done| |done|done].
  rewrite batch_sql_placeholders, batch_params_length; [done|].
  symmetry. by eapply Forall2_length.
Qed.
End TableProperties.

(** ** Connections are given back *)

Section StorageLeaks.
Context {J W RES STMT : Type}.
Context `{JC : JsonCpp J} `{MY : MySql W RES STMT} `{HR : HiRedis W} `{HO : Host W} `{CL : Clock W}.
Variable files : str → option str.
Variable others : str → logic_env W → logic_env W.
Variable Lc Ld : str → list nat.
Variable ready_d ready_c : gset str.
Hypothesis Hmaster : ("chatroom_master" : str) ∈ ready_d.
Hypothesis Hmsg : ("msg" : str) ∈ ready_c.
Abbreviation P := (lent_exactly (MY := MY) Ld Lc ready_d ready_c).

Lemma with_master_lent {A : Type} (body : option conn_ptr → io (logic_env W) A) :
  (∀ conn L ready, preserves (lent_exactly (MY := MY) L Lc ready ready_c) (body conn)) →
  preserves P (with_master files others body).
Proof.
  intros Hb. apply preserves_try_conn; [done|apply holds_cache_frame|].
  intros conn L ready _. apply Hb.
Qed.

Lemma with_msg_cache_lent {A : Type} (body : option conn_ptr → io (logic_env W) A) :
  (∀ conn L ready, preserves (lent_exactly (MY := MY) Ld L ready_d ready) (body conn)) →
  preserves P (with_msg_cache files others body).
Proof.
  intros Hb e r e' [Hd Hc] H Hr.
  destruct (preserves_try_conn files others cache_kind Lc ready_c
    (holds (PC := db_pool_conn (H := MY)) db_kind Ld ready_d) "msg" (body None) body) with e r e'
    as [? ?]; [done|apply holds_db_frame| |done..|by split].
  intros conn L ready _ e1 r1 e1' [Hc1 Hd1] Hrun Hr1.
  by destruct (Hb conn L ready e1 r1 e1' ltac:(by split) Hrun Hr1).
Qed.

Lemma append_entry_lent p room_id json_msg : preserves P (append_entry p room_id json_msg).
Proof. apply on_cache_lent. Qed.

Lemma append_entries_lent p room_id msgs : preserves P (append_entries p room_id msgs).
Proof.
  induction msgs as [|m msgs IH]; cbn [append_entries]; [apply preserves_ret|].
  unfold append_entry. lent.
Qed.

Lemma stored_id_lent msg : preserves P (stored_id msg).
Proof. unfold stored_id, generateMessageId, GenerateUUID. lent. Qed.

Lemma stored_ids_lent msgs : preserves P (stored_ids msgs).
Proof.
  induction msgs as [|m msgs IH]; cbn [stored_ids]; [apply preserves_ret|].
  apply preserves_bind; [apply stored_id_lent|intros id].
  apply preserves_bind; [exact IH|intros ids; apply preserves_ret].
Qed.
End StorageLeaks.

Section StorageOperationLeaks.
Context {J W RES STMT : Type}.
Context `{JC : JsonCpp J} `{MY : MySql W RES STMT} `{HR : HiRedis W} `{HO : Host W} `{CL : Clock W}.
Variable files : str → option str.
Variable others : str → logic_env W → logic_env W.
Variable Lc Ld : str → list nat.
Variable ready_d ready_c : gset str.
Hypothesis Hmaster : ("chatroom_master" : str) ∈ ready_d.
Hypothesis Hmsg : ("msg" : str) ∈ ready_c.
Abbreviation P := (lent_exactly (MY := MY) Ld Lc ready_d ready_c).
#[local] Hint Resolve append_entries_lent stored_ids_lent stored_id_lent : lent.

Lemma getRoomHistory_lent s room batch count :
  preserves P (getRoomHistory files others s room batch count).
Proof.
  unfold getRoomHistory. case_match; [apply preserves_ret|].
  apply with_msg_cache_lent; [done|]. intros conn L ready. unfold read_history. lent.
Qed.

Lemma storeMessagesToCache_lent s room_id msgs :
  preserves P (storeMessagesToCache files others s room_id msgs).
Proof.
  unfold storeMessagesToCache. case_match; [apply preserves_ret|].
  apply with_msg_cache_lent; [done|]. intros conn L ready. lent.
Qed.

Lemma storeMessagesToDB_lent s room_id msgs :
  preserves P (storeMessagesToDB files others s room_id msgs).
Proof.
  unfold storeMessagesToDB. case_match; [apply preserves_ret|]. destruct msgs; [apply preserves_ret|].
  apply preserves_catch, with_master_lent; [done|]. intros conn L ready. lent.
Qed.
End StorageOperationLeaks.

(** ** Witnesses *)

(** A Redis of streams: the payloads of a key, the oldest first; the id of an entry is as
    long as its position. *)
Record demo_streams : Type := MkStreams { ds_payloads : gmap str (list str) }.

Definition demo_id (i : nat) : str := replicate (S i) "a"%char.
Definition demo_stream (w : demo_streams) (key : str) : list (str * str) :=
  imap (λ i p, (demo_id i, p)) (default [] (ds_payloads w !! key)).

#[export] Instance demo_streams_redis : HiRedis demo_streams := {|
  unix_time w := (1000%Z, w);
  redis_connect _ _ w := (Some 0%Z, w);
  redis_argv args w :=
    match args with
    | [_; key; _; _; v] =>
        let l := default [] (ds_payloads w !! key) in
        (Some (MkReply REDIS_REPLY_STRING 0 (Some (demo_id (length l))) []),
         MkStreams (<[key := l ++ [v]]> (ds_payloads w)))
    | [_; key; ref; _; _; n] =>
        (Some (MkReply REDIS_REPLY_ARRAY 0 None
           (stream_entry <$> take (Z.to_nat (atoi n)) (from_ref ref (rev (demo_stream w key))))), w)
    | _ => (None, w)
    end;
  redis_format _ w := (None, w);
  redis_err _ := 0%Z
|}.

Lemma demo_id_c_str i : c_str (demo_id i) = demo_id i.
Proof.
  apply c_str_id. unfold demo_id. apply Forall_forall. intros c Hc%elem_of_replicate_inv.
  by subst c.
Qed.

#[export] Instance demo_streams_laws : RedisStreams demo_streams.
Proof.
  refine {| stream := demo_stream |}.
  - intros w key. unfold demo_stream. set (l := default [] _). split.
    + rewrite fmap_imap. apply NoDup_alt. intros i j x Hi Hj.
      rewrite list_lookup_imap in Hi, Hj.
      destruct (l !! i); [|done]. destruct (l !! j); [|done]. cbn in Hi, Hj.
      apply (inj Some), (f_equal length) in Hi. apply (inj Some), (f_equal length) in Hj.
      rewrite <- Hj in Hi. cbn in Hi. rewrite !length_replicate in Hi. lia.
    + apply Forall_forall. intros e (i & He)%list_elem_of_lookup. rewrite list_lookup_imap in He.
      destruct (l !! i); [|done]. cbn in He. injection He as <-. cbn.
      split_and!; [done|by destruct i|apply demo_id_c_str].
  - intros key ref n w Hn _. exists w. split; [|done]. unfold xrevrange_args.
    rewrite (proj2 (Z.ltb_lt _ _)) by lia. cbn -[atoi to_string Z.pow]. rewrite atoi_to_string by lia.
    by rewrite swrap_small by lia.
  - intros key payload w. exists (demo_id (length (default [] (ds_payloads w !! key)))).
    eexists. split; [reflexivity|]. unfold demo_stream. cbn [ds_payloads]. split.
    + rewrite lookup_insert_eq. cbn [from_option id]. rewrite imap_app. cbn. by rewrite Nat.add_0_r.
    + intros key' Hk. by rewrite lookup_insert_ne.
Defined.

Definition demo_msg_pool : named_pool cache_server cache_conn :=
  MkNamed (MkCacheServer "msg" "10.0.0.1" 6379 1 []) (MkPool [0] 1 2 false 1)
    {[ 0 := MkCache "10.0.0.1" 6379 1 [] "msg" true 0 ]}.

Definition demo_storage_env : logic_env demo_streams :=
  MkEnv None (Some {[ "msg" : str := demo_msg_pool ]}) "f" "f" (MkStreams ∅).

Lemma demo_storage_idle : msg_idle demo_storage_env.
Proof.
  exists {[ "msg" : str := demo_msg_pool ]}, demo_msg_pool.
  split_and!; [reflexivity..|done|apply NoDup_singleton|].
  apply Forall_singleton. eexists. by split.
Qed.

Definition demo_message (id content : str) : Message := MkMessage id "ann" content 1700000000000 "u1".

Lemma demo_storable id content :
  parses_back (Mini.JObj [("content" : str, Mini.JStr content); ("timestamp" : str, Mini.JInt 1700000000000);
    ("user_id" : str, Mini.JStr "u1"); ("username" : str, Mini.JStr "ann")]) →
  storable (J := Mini.jv) (demo_message id content).
Proof. intros Hp. eexists. split_and!; [reflexivity|exact Hp|cbn; lia|cbn; lia]. Qed.

Lemma storeMessagesToCache_history_witness :
  ∃ msgs' e',
    storeMessagesToCache (J := Mini.jv) (λ _, None) (λ _ e, e) (MkStorage true []) "r"
      [demo_message "1-0" "hi"; demo_message "1-1" "you"] demo_storage_env = (Ok (0%Z, msgs'), e') ∧
    room_history (J := Mini.jv) "r" (rev msgs') (world e').
Proof.
  destruct (storeMessagesToCache_history (J := Mini.jv) (λ _, None) (λ _ e, e) (MkStorage true []) "r"
    [demo_message "1-0" "hi"; demo_message "1-1" "you"] [] demo_storage_env)
    as (msgs' & e' & H1 & _ & _ & H2).
  - reflexivity.
  - exact demo_storage_idle.
  - repeat constructor; apply demo_storable; split; vm_compute; reflexivity.
  - constructor.
  - exists msgs', e'. split; [exact H1|]. by rewrite app_nil_r in H2.
Defined.

Definition demo_stored (l : list Message) : logic_env demo_streams :=
  (storeMessagesToCache (J := Mini.jv) (λ _, None) (λ _ e, e) (MkStorage true []) "r" l demo_storage_env).2.

Lemma getRoomHistory_page_witness :
  let m1 := demo_message "a" "hi" in let m2 := demo_message "aa" "you" in
  ∃ room' e',
    getRoomHistory (J := Mini.jv) (λ _, None) (λ _ e, e) (MkStorage true [])
      (MkRoom "r" [] [] [] [] "aa") MessageBatch_new 10 (demo_stored [m1; m2]) =
      (Ok (0%Z, room', MkBatch [m1] false), e') ∧ history_last_message_id room' = "a".
Proof.
  intros m1 m2.
  destruct (getRoomHistory_page (J := Mini.jv) (λ _, None) (λ _ e, e) (MkStorage true [])
    (MkRoom "r" [] [] [] [] "aa") MessageBatch_new 10 1 [m2; m1] (demo_stored [m1; m2]))
    as (room' & e' & H1 & H2 & _).
  - reflexivity.
  - eexists _, _. split_and!; [vm_compute; reflexivity|reflexivity|reflexivity|reflexivity|done|apply NoDup_singleton|].
    apply Forall_singleton. eexists. split; [reflexivity|done].
  - lia.
  - unfold room_history. constructor; [|constructor; [|constructor]];
      (eexists; split_and!; [reflexivity|split; vm_compute; reflexivity|cbn; lia|cbn; lia|vm_compute; reflexivity]).
  - reflexivity.
  - exists room', e'. split; [exact H1|]. by injection H2.
Defined.

#[export] Instance demo_clock : Clock demo_api := {|
  system_clock_ms w := (1700000000000%Z, w);
  timestamp_us w := (1700000000000000%Z, w)
|}.

Definition demo_store : io (logic_env demo_api) bool :=
  storeMessagesToDB demo_files demo_others (MkStorage true []) "r"
    [demo_message "1-0" "hi"; demo_message [] "you"].

Lemma storeMessagesToDB_inserts_witness :
  (demo_store demo_env).1 = Ok true ∧
  ∃ ids, Forall2 (λ m id, msg_id m ≠ [] → id = msg_id m)
           [demo_message "1-0" "hi"; demo_message [] "you"] ids ∧
    placeholders (batch_sql 2) = length (batch_params "r" ids
      [demo_message "1-0" "hi"; demo_message [] "you"]).
Proof.
  assert (E : (demo_store demo_env).1 = Ok true) by (vm_compute; reflexivity).
  split; [exact E|]. destruct (demo_store demo_env) as [r e'] eqn:Er. cbn in E. subst r.
  destruct (storeMessagesToDB_inserts demo_files demo_others _ _ _ _ _ Er)
    as (_ & mysql & st & st' & w & w1 & w2 & ids & x & _ & H2 & H3 & _); [discriminate|].
  exists ids. split; [exact H2|exact H3].
Defined.
