(* ===== verification/RoomService.v ===== *)
(** [service/room_service.{h,cc}] of the logic service: the rooms, in the table
    [room_infos] and in the list in memory.

    [m_room_list_mtx] is held by the operations that change the list, so each is one
    computation from a list to a list. *)

From S2P Require Import Prelude Json ApiTypes ConfigReader ConnPool CacheConn DbPool PoolManager.
From S2P Require Import LogicEnv LogicApi.

Definition default_room (id name : str) : Room := MkRoom id name "1" [] [] [].
Definition m_default_rooms : list Room :=
  [default_room "0001" "Linux Study Group"; default_room "0002" "C++ Study Group";
   default_room "0003" "ThreadPool Study Group"; default_room "0004" "Database Study Group";
   default_room "0005" "Network Study Group"; default_room "0006" "Redis Study Group";
   default_room "0007" "Nginx Study Group"; default_room "0008" "Git Study Group"].

(** [addRoomToList]: 0 or -1, and [m_room_list]. *)
Definition addRoomToList (room : Room) (m_room_list : list Room) : Z * list Room :=
  if existsb (λ r, bool_decide (room_id r = room_id room)) m_room_list
  then ((-1)%Z, m_room_list) else (0%Z, m_room_list ++ [room]).

Definition getRoomList (m_room_list : list Room) : list Room := m_room_list.

Definition roomExistByName (name : str) (m_room_list : list Room) : bool :=
  existsb (λ r, bool_decide (room_name r = name)) m_room_list.

Section RoomService.
Context {W RES STMT : Type}.
Context `{MY : MySql W RES STMT} `{HO : Host W}.
Variable files : str → option str.
Variable others : str → logic_env W → logic_env W.

Abbreviation M := (io (logic_env W)).

(** The beginning of the three database operations: a connection of the pool [name], or
    what is returned, with the text for [error_msg], when there is none. *)
Definition with_room_db {A} (name : str) (failed : str → A) (body : conn_ptr → M A) : M A :=
  try_conn files others db_kind name (iret (failed "Database manager not initialized"))
    (λ conn, match conn with
             | None => iret (failed "Failed to get database connection")
             | Some p => body p
             end).

Definition insert_room_sql (room_id room_name creator_id : str) : str :=
  "INSERT INTO room_infos (room_id, room_name, creator_id) VALUES ('" ++ room_id ++ "', '" ++
  room_name ++ "', '" ++ creator_id ++ "')".

(** The result and [error_msg]. *)
Definition dbCreateRoom (room_id room_name creator_id error_msg : str) : M (bool * str) :=
  with_room_db "chatroom_master" (λ err, (false, err)) (λ p,
    do* ok := on_db p (ExecuteUpdate (insert_room_sql room_id room_name creator_id) true) in
    iret (if ok : bool then (true, error_msg)
          else (false, "Failed to execute room creation SQL" : str))).

(** [string s = result_set->GetString(key)] *)
Definition column (rs : CResultSet RES) (key : str) : M str :=
  do* p := ilift (GetString rs key) in ilift (string_of_cstr p).

(** The room found (name, creator and times in a [Room]), and [error_msg]. *)
Definition dbGetRoomInfo (room_id error_msg : str) : M (option Room * str) :=
  with_room_db "chatroom_slave" (λ err, (None, err)) (λ p,
    do* res_set := on_db p (ExecuteQuery
      ("SELECT room_name, creator_id, create_time, update_time FROM room_infos WHERE room_id = '" ++
       room_id ++ "'")) in
    match res_set with
    | None => iret (None, "Failed to execute room query SQL" : str)
    | Some rs =>
        let (more, rs) := Next rs in
        if more : bool then
          do* room_name := column rs "room_name" in
          do* creator_id := column rs "creator_id" in
          do* create_time := column rs "create_time" in
          do* update_time := column rs "update_time" in
          iret (Some (MkRoom room_id room_name creator_id create_time update_time []), error_msg)
        else iret (None, "Room not found" : str)
    end).

(** The loop over the rows; [fuel] bounds their number. *)
Fixpoint fetch_rooms (fuel : nat) (rs : CResultSet RES) (rooms : list Room) : M (list Room) :=
  match fuel with
  | O => iret rooms
  | S fuel =>
      let (more, rs) := Next rs in
      if more : bool then
        do* room_id := column rs "room_id" in
        do* room_name := column rs "room_name" in
        do* creator_id := column rs "creator_id" in
        do* create_time := column rs "create_time" in
        do* update_time := column rs "update_time" in
        fetch_rooms fuel rs
          (rooms ++ [MkRoom room_id room_name creator_id create_time update_time []])
      else iret rooms
  end.

(** The result, the rooms and [error_msg].  The fuel is one more than the rows of the
    result. *)
Definition dbGetAllRooms (rooms : list Room) (error_msg order_by : str)
    : M (bool * list Room * str) :=
  with_room_db "chatroom_slave" (λ err, (false, rooms, err)) (λ p,
    do* res_set := on_db p (ExecuteQuery
      ("SELECT room_id, room_name, creator_id, create_time, update_time FROM room_infos ORDER BY " ++
       order_by)) in
    match res_set with
    | None => iret (false, rooms, "Failed to execute rooms query SQL" : str)
    | Some rs =>
        do* rooms := fetch_rooms (S (Z.to_nat (mysql_num_rows (res_ rs)))) rs [] in
        iret (true, rooms, error_msg)
    end).

Definition getRoomInfoFromDB : str → str → M (option Room * str) := dbGetRoomInfo.
Definition getAllRoomsFromDB : list Room → str → str → M (bool * list Room * str) := dbGetAllRooms.

Definition refreshRoomList (m_room_list : list Room) : M (Z * list Room) :=
  do* r := dbGetAllRooms [] [] "update_time DESC" in
  let '(ok, all_rooms, _) := r in
  iret (if ok : bool then (0%Z, all_rooms) else ((-1)%Z, m_room_list)).

(** The loop of [initialize] over the default rooms; the failures are only logged. *)
Fixpoint create_defaults (rooms : list Room) (err_msg : str) : M unit :=
  match rooms with
  | [] => iret tt
  | room :: rooms' =>
      do* found := dbGetRoomInfo (room_id room) err_msg in
      match found with
      | (Some _, err_msg) => create_defaults rooms' err_msg
      | (None, err_msg) =>
          do* r := dbCreateRoom (room_id room) (room_name room) "1" err_msg in
          create_defaults rooms' r.2
      end
  end.

Definition room_initialize (m_room_list : list Room) : M (Z * list Room) :=
  do* _ := create_defaults m_default_rooms [] in
  do* r := refreshRoomList m_room_list in
  let '(ret, l) := r in
  iret (if (ret <? 0)%Z then ((-1)%Z, l) else (0%Z, l)).

(** [createRoom]: the result, [room_id], [error_msg] and the list. *)
Definition createRoom (room_name creator_id creator_username error_msg : str)
    (m_room_list : list Room) : M (Z * str * str * list Room) :=
  do* room_id := GenerateUUID in
  do* r := dbCreateRoom room_id room_name creator_id error_msg in
  let '(ok, error_msg) := r in
  if ok : bool then
    iret (0%Z, room_id, error_msg,
          (addRoomToList (MkRoom room_id room_name creator_id [] [] []) m_room_list).2)
  else iret ((-1)%Z, room_id, error_msg, m_room_list).
End RoomService.

(** ** Properties *)

Lemma addRoomToList_ids room l :
  NoDup (room_id <$> l) → NoDup (room_id <$> (addRoomToList room l).2).
Proof.
  intros Hnd. unfold addRoomToList. destruct (existsb _ _) eqn:E; cbn; [done|].
  rewrite fmap_app. apply NoDup_app. split_and!; [done| |apply NoDup_singleton].
  intros i (r & Hi & Hr)%list_elem_of_fmap Hj%list_elem_of_singleton.
  assert (existsb (λ r, bool_decide (room_id r = room_id room)) l = true); [|congruence].
  apply existsb_exists. exists r. split; [by apply list_elem_of_In|].
  apply bool_decide_eq_true. cbn in Hj. congruence.
Qed.

(** Documented behaviour of a stored result: its rows, one value per field, fetched in
    order. *)
Class MySqlRows {W RES STMT : Type} (MY : MySql W RES STMT) : Type := {
  result_rows : RES → list mysql_row;
  fetch_law res :
    match result_rows res with
    | [] => (mysql_fetch_row res).1 = None
    | row :: rows => (mysql_fetch_row res).1 = Some row ∧ result_rows (mysql_fetch_row res).2 = rows
    end;
  num_rows_law res : (Z.of_nat (length (result_rows res)) ≤ mysql_num_rows res)%Z;
  row_width res : Forall (λ row, length row = length (mysql_field_names res)) (result_rows res)
}.

Lemma addRoomToList_prefix room l : l `prefix_of` (addRoomToList room l).2.
Proof. unfold addRoomToList. destruct (existsb _ _); [done|by exists [room]]. Qed.

(** The room is the last of the list, unless its id is known. *)
Lemma addRoomToList_last room l :
  (addRoomToList room l).2 = if bool_decide (room_id room ∈ room_id <$> l) then l else l ++ [room].
Proof.
  unfold addRoomToList. destruct (existsb _ l) eqn:E.
  - apply existsb_exists in E as (r & Hr & Hid%bool_decide_eq_true).
    rewrite bool_decide_true; [done|]. apply list_elem_of_fmap. exists r.
    split; [done|by apply list_elem_of_In].
  - rewrite bool_decide_false; [done|]. intros (r & Hid & Hr)%list_elem_of_fmap.
    assert (existsb (λ r0, bool_decide (room_id r0 = room_id room)) l = true); [|congruence].
    apply existsb_exists. exists r. split; [by apply list_elem_of_In|by apply bool_decide_eq_true].
Qed.

Section RoomProperties.
Context {W RES STMT : Type}.
Context `{MY : MySql W RES STMT} `{HO : Host W} {MR : MySqlRows MY}.
Variable files : str → option str.
Variable others : str → logic_env W → logic_env W.

(** The room that a row of a result with the fields [names] describes. *)
Definition room_of_row (names : list str) (row : mysql_row) (room : Room) : Prop :=
  let value key := string_of_cstr (default None (column_value names row key)) in
  value "room_id" = Ok (room_id room) ∧ value "room_name" = Ok (room_name room) ∧
  value "creator_id" = Ok (creator_id room) ∧ value "create_time" = Ok (create_time room) ∧
  value "update_time" = Ok (update_time room) ∧ history_last_message_id room = [].

Lemma column_row (res : RES) names row (key : str) (e : logic_env W) s e' :
  length row = length names →
  column (MkResultSet res (Some (Some row)) (field_map 0 names ∅)) key e = (Ok s, e') →
  string_of_cstr (default None (column_value names row key)) = Ok s ∧ e' = e.
Proof.
  intros Hl H. apply ibind_inv in H as (p & e1 & Hp & H). injection Hp as Hp <-.
  injection H as H <-. by rewrite (GetString_row _ _ _ _ Hl) in Hp; injection Hp as <-.
Qed.

Lemma fetch_rooms_all fuel (res : RES) row names rooms (e : logic_env W) l e' :
  (length (result_rows res) < fuel)%nat →
  Forall (λ row, length row = length names) (result_rows res) →
  fetch_rooms fuel (MkResultSet res row (field_map 0 names ∅)) rooms e = (Ok l, e') →
  ∃ l', l = rooms ++ l' ∧ Forall2 (room_of_row names) (result_rows res) l'.
Proof.
  revert res row rooms e. induction fuel as [|fuel IH]; intros res row rooms e Hf Hw H; [lia|].
  cbn [fetch_rooms] in H. unfold Next in H. cbn [res_ key_map_] in H. pose proof (fetch_law res) as Hlaw.
  destruct (mysql_fetch_row res) as [o res'] eqn:Ef. cbn in Hlaw.
  destruct (result_rows res) as [|r rows] eqn:Er.
  - subst o. injection H as <- <-. exists []. by rewrite app_nil_r.
  - destruct Hlaw as [-> Hrows]. apply Forall_cons in Hw as [Hr Hw].
    apply ibind_inv in H as (i & e1 & Hi & H). apply column_row in Hi as [Hi ->]; [|done].
    apply ibind_inv in H as (n & e1 & Hn & H). apply column_row in Hn as [Hn ->]; [|done].
    apply ibind_inv in H as (c & e1 & Hc & H). apply column_row in Hc as [Hc ->]; [|done].
    apply ibind_inv in H as (t & e1 & Ht & H). apply column_row in Ht as [Ht ->]; [|done].
    apply ibind_inv in H as (u & e1 & Hu & H). apply column_row in Hu as [Hu ->]; [|done].
    apply IH in H as (l' & -> & Hl').
    + eexists. rewrite <- app_assoc. split; [done|]. rewrite Hrows in Hl'. by constructor.
    + rewrite Hrows. cbn in Hf. lia.
    + by rewrite Hrows.
Qed.

Lemma with_room_db_inv {A : Type} (name : str) (failed : str → A) body (e : logic_env W) a e' :
  with_room_db files others name failed body e = (Ok a, e') →
  (∃ err, a = failed err) ∨ ∃ p e1 e2, body p e1 = (Ok a, e2).
Proof.
  intros H. apply try_conn_inv in H as [(e1 & H)|([p|] & e1 & e2 & H)].
  - injection H as <- _. eauto.
  - right. eauto.
  - injection H as <- _. eauto.
Qed.

Lemma on_db_inv {A : Type} p (f : io (CDBConn * W) A) (e : logic_env W) a e' :
  on_db p f e = (Ok a, e') → ∃ c w c' w', f (c, w) = (Ok a, (c', w')).
Proof.
  unfold on_db, on_conn. destruct (mk_get db_kind e) as [m|]; [|done].
  destruct (m !! ptr_pool p) as [q|]; [|done]. destruct (np_conns q !! ptr_obj p) as [c|]; [|done].
  destruct (f (c, world e)) as [r [c' w']] eqn:E. intros H. injection H as -> _. eauto.
Qed.

(** When [getAllRoomsFromDB] succeeds, the rooms are exactly those that the rows of one
    query of the slave describe, all of them and in the order of the rows (none of the
    old contents is left); the loop over the rows always has enough fuel.  It fails only
    without a connection or a result, and then leaves the rooms as they were. *)
Theorem getAllRoomsFromDB_reads (rooms : list Room) (error_msg order_by : str)
    (e : logic_env W) ok l err e' :
  getAllRoomsFromDB files others rooms error_msg order_by e = (Ok (ok, l, err), e') →
  (ok = false ∧ l = rooms) ∨
  (ok = true ∧ ∃ p e1 e2 res,
     on_db p (ExecuteQuery
       ("SELECT room_id, room_name, creator_id, create_time, update_time FROM room_infos ORDER BY " ++
        order_by)) e1 = (Ok (Some (CResultSet_new res)), e2) ∧
     Forall2 (room_of_row (mysql_field_names res)) (result_rows res) l).
Proof.
  intros H. apply with_room_db_inv in H as [[err' H]|(p & e1 & e2 & H)].
  { injection H as -> -> _. by left. }
  apply ibind_inv in H as ([rs|] & e3 & Hq & H); [|injection H as <- <- _ _; by left].
  apply ibind_inv in H as (l1 & e4 & Hf & H). injection H as <- <- _ _. right. split; [done|].
  pose proof (on_db_inv _ _ _ _ _ Hq) as (c & w & c' & w' & Hx).
  apply ExecuteQuery_inv in Hx as (_ & _ & _ & res & _ & _ & _ & -> & _).
  exists p, e1, e3, res. split; [done|].
  apply fetch_rooms_all in Hf as (l' & -> & Hf); [done| |apply row_width].
  cbn [res_ CResultSet_new]. pose proof (num_rows_law res). lia.
Qed.

(** The room was inserted on a connection of the pool of the master, which was given back. *)
Definition room_inserted (rid name creator : str) (e e' : logic_env W) : Prop :=
  ∃ p e1 e2, db_taken files others "chatroom_master" e p e1 ∧
    on_db p (ExecuteUpdate (insert_room_sql rid name creator) true) e1 = (Ok true, e2) ∧
    e' = release db_kind (Some p) e2.

(** It was not: there was no connection, or the statement failed on the one there was. *)
Definition room_not_inserted (rid name creator : str) (e : logic_env W) (err : str) : Prop :=
  ((err = cstr "Database manager not initialized" ∨ err = cstr "Failed to get database connection") ∧
   ∀ p e1, ¬ db_taken files others "chatroom_master" e p e1) ∨
  (err = cstr "Failed to execute room creation SQL" ∧
   ∃ p e1 e2, db_taken files others "chatroom_master" e p e1 ∧
     on_db p (ExecuteUpdate (insert_room_sql rid name creator) true) e1 = (Ok false, e2)).

Lemma dbCreateRoom_cases (rid name creator error_msg : str) (e : logic_env W) ok err e' :
  dbCreateRoom files others rid name creator error_msg e = (Ok (ok, err), e') →
  if ok : bool then err = error_msg ∧ room_inserted rid name creator e e'
  else room_not_inserted rid name creator e err.
Proof.
  unfold dbCreateRoom, with_room_db, try_conn. intros H.
  apply ibind_inv in H as ([m|] & e0 & Hi & H); cycle 1.
  { injection H as <- <- <-. left. split; [by left|]. intros p e1 (m & e2 & Hi' & Hg).
    rewrite Hi in Hi'. by injection Hi' as <- <-. }
  apply ibind_inv in H as ([p|] & e1 & Hg & H); unfold auto_rel in H; cycle 1.
  { cbn in H. injection H as <- <- <-. left. split; [by right|]. intros p e2 (m' & e3 & Hi' & Hg').
    rewrite Hi in Hi'. injection Hi' as <- <-. congruence. }
  assert (Ht : db_taken files others "chatroom_master" e p e1) by (by exists (Some m), e0).
  unfold ibind in H. destruct (on_db p _ e1) as [[b|x|u] e2] eqn:Ex; [|done..].
  destruct b; cbn in H; injection H as <- <- <-.
  - split; [done|]. by exists p, e1, e2.
  - right. split; [done|]. by exists p, e1, e2.
Qed.

(** The outcomes of [createRoom] that return. *)
Lemma createRoom_cases (name creator creator_username error_msg : str) (l : list Room)
    (e : logic_env W) ret rid err l' e' :
  createRoom files others name creator creator_username error_msg l e = (Ok (ret, rid, err, l'), e') →
  ∃ e1, GenerateUUID e = (Ok rid, e1) ∧
    ((ret = 0%Z ∧ room_inserted rid name creator e1 e' ∧
      l' = (addRoomToList (MkRoom rid name creator [] [] []) l).2) ∨
     (ret = (-1)%Z ∧ room_not_inserted rid name creator e1 err ∧ l' = l)).
Proof.
  intros H. apply ibind_inv in H as (id & e1 & Hg & H). apply ibind_inv in H as ([ok er] & e2 & Hd & H).
  apply dbCreateRoom_cases in Hd. destruct ok; injection H as <- <- <- <- <-; exists e1; (split; [done|]).
  - destruct Hd as [_ Hd]. by left.
  - by right.
Qed.

Lemma createRoom_list (name creator creator_username error_msg : str) (l : list Room)
    (e : logic_env W) ret rid err l' e' :
  createRoom files others name creator creator_username error_msg l e =
    (Ok (ret, rid, err, l'), e') →
  l' = l ∨ ∃ room, l' = (addRoomToList room l).2.
Proof.
  intros H. apply ibind_inv in H as (id & e1 & _ & H). apply ibind_inv in H as ([ok er] & e2 & _ & H).
  destruct ok; injection H as <- <- <- <- <-; eauto.
Qed.

(** [createRoom] returns 0 only after the insertion of the new room was executed on the
    master and changed a row; then the room with its fresh id is the last of the list,
    unless the list has that id already.  Otherwise the list is unchanged.  Ids in the list
    stay distinct. *)
Theorem createRoom_records (name creator creator_username error_msg : str) (l : list Room)
    (e : logic_env W) ret (rid : str) err l' e' :
  createRoom files others name creator creator_username error_msg l e =
    (Ok (ret, rid, err, l'), e') →
  (NoDup (room_id <$> l) → NoDup (room_id <$> l')) ∧
  ((ret = 0%Z ∧
    (∃ p e1 e2, on_db p (ExecuteUpdate (insert_room_sql rid name creator) true) e1 = (Ok true, e2)) ∧
    l' = if bool_decide (rid ∈ room_id <$> l) then l else l ++ [MkRoom rid name creator [] [] []]) ∨
   (ret = (-1)%Z ∧ l' = l)).
Proof.
  intros H. apply ibind_inv in H as (id & e1 & _ & H). apply ibind_inv in H as ([ok er] & e2 & Hd & H).
  destruct ok; injection H as <- <- <- <- <-; [|split; [done|by right]].
  split; [apply addRoomToList_ids|]. left. split; [done|]. split.
  - apply with_room_db_inv in Hd as [[? [=]]|(p & e3 & e4 & Hd)].
    apply ibind_inv in Hd as (ok & e5 & Hx & Hd). destruct ok; [|by injection Hd]. eauto.
  - apply addRoomToList_last.
Qed.
End RoomProperties.

(** ** Connections are given back *)

Section RoomLeaks.
Context {W RES STMT : Type}.
Context `{MY : MySql W RES STMT} `{HR : HiRedis W} `{HO : Host W}.
Variable files : str → option str.
Variable others : str → logic_env W → logic_env W.
Variable Lc Ld : str → list nat.
Variable ready_d ready_c : gset str.
Hypothesis Hmaster : ("chatroom_master" : str) ∈ ready_d.
Abbreviation P := (lent_exactly (MY := MY) Ld Lc ready_d ready_c).

Lemma dbCreateRoom_lent rid name creator err :
  preserves P (dbCreateRoom files others rid name creator err).
Proof.
  apply preserves_try_conn; [done|apply holds_cache_frame|]. intros conn L ready _. lent.
Qed.

Lemma createRoom_lent name creator creator_username err l :
  preserves P (createRoom files others name creator creator_username err l).
Proof.
  unfold createRoom, GenerateUUID. apply preserves_bind; [apply via_world_lent|intros id].
  apply preserves_bind; [apply dbCreateRoom_lent|intros r]. lent.
Qed.
End RoomLeaks.

(** ** Witnesses *)

(** A database with two rooms; a row shorter than the list of fields is filled up. *)
Abbreviation demo_result := (list str * list mysql_row)%type.
Definition demo_fill (names : list str) (row : mysql_row) : mysql_row :=
  resize (length names) None row.
Definition demo_room_rows : demo_result :=
  (["room_id" : str; "room_name" : str; "creator_id" : str; "create_time" : str; "update_time" : str],
   [[Some ("0001" : str); Some ("Linux" : str); Some ("1" : str); Some ("t" : str); Some ("u" : str)];
    [Some ("0002" : str); Some ("Git" : str); Some ("1" : str); Some ("t" : str); Some ("u" : str)]]).

#[export] Instance demo_rooms_mysql : MySql unit demo_result unit := {|
  mysql_init w := (Some 7, w);
  mysql_options_charset _ _ w := w;
  mysql_real_connect _ _ _ _ _ _ w := (true, w);
  mysql_close _ w := w;
  mysql_ping _ w := (0%Z, w);
  mysql_real_query _ _ w := (0%Z, w);
  mysql_store_result _ w := (Some demo_room_rows, w);
  mysql_affected_rows _ _ := 1%Z;
  mysql_insert_id _ _ := 1%Z;
  mysql_field_names := fst;
  mysql_num_rows t := Z.of_nat (length t.2);
  mysql_fetch_row t := match t.2 with [] => (None, t) | r :: l => (Some (demo_fill t.1 r), (t.1, l)) end;
  mysql_stmt_init _ w := (Some tt, w);
  mysql_stmt_prepare _ _ w := (0%Z, w);
  mysql_stmt_param_count _ _ := 0%Z;
  mysql_stmt_bind_param _ _ w := (0%Z, w);
  mysql_stmt_execute _ w := (0%Z, w);
  mysql_stmt_affected_rows _ _ := 1%Z;
  mysql_stmt_insert_id _ _ := 1%Z
|}.

#[export] Instance demo_rooms_laws : MySqlRows demo_rooms_mysql.
Proof.
  refine {| result_rows := λ t, demo_fill t.1 <$> t.2 |}.
  - intros [names [|r l]]; cbn; [done|]. by split.
  - intros [names l]. cbn. rewrite length_fmap. lia.
  - intros [names l]. cbn. apply Forall_fmap, Forall_true. intros r. apply length_resize.
Defined.

Definition demo_rooms_env : logic_env unit :=
  MkEnv (Some {[ "chatroom_slave" : str := demo_db "chatroom_slave" ]}) None "f" "f" tt.

Definition demo_read : io (logic_env unit) (bool * list Room * str) :=
  getAllRoomsFromDB (λ _, None) (λ _ e, e) [] [] "update_time DESC".

Lemma getAllRoomsFromDB_reads_witness :
  (demo_read demo_rooms_env).1 =
    Ok (true, [MkRoom "0001" "Linux" "1" "t" "u" []; MkRoom "0002" "Git" "1" "t" "u" []], [] : str) ∧
  ∃ res : demo_result, Forall2 (room_of_row (mysql_field_names res)) (result_rows res)
    [MkRoom "0001" "Linux" "1" "t" "u" []; MkRoom "0002" "Git" "1" "t" "u" []].
Proof.
  assert (E : (demo_read demo_rooms_env).1 =
    Ok (true, [MkRoom "0001" "Linux" "1" "t" "u" []; MkRoom "0002" "Git" "1" "t" "u" []], [] : str))
    by (vm_compute; reflexivity).
  split; [exact E|]. destruct (demo_read demo_rooms_env) as [r e'] eqn:Er. cbn in E. subst r.
  destruct (getAllRoomsFromDB_reads (λ _, None) (λ _ e, e) _ _ _ _ _ _ _ _ Er)
    as [[H _]|[_ (p & e1 & e2 & res & _ & H)]]; [discriminate H|].
  exists res. exact H.
Defined.

Definition demo_create : io (logic_env demo_api) (Z * str * str * list Room) :=
  createRoom demo_files demo_others "Rocq" "u1" "ann" [] [].

Lemma createRoom_records_witness :
  (demo_create demo_env).1 = Ok (0%Z, "id" : str, [] : str, [MkRoom "id" "Rocq" "u1" [] [] []]) ∧
  ∃ p e1 e2, on_db p (ExecuteUpdate (MY := demo_api_mysql) (insert_room_sql "id" "Rocq" "u1") true) e1 =
    (Ok true, e2).
Proof.
  assert (E : (demo_create demo_env).1 =
    Ok (0%Z, "id" : str, [] : str, [MkRoom "id" "Rocq" "u1" [] [] []])) by (vm_compute; reflexivity).
  split; [exact E|]. destruct (demo_create demo_env) as [r e'] eqn:Er. cbn in E. subst r.
  destruct (createRoom_records demo_files demo_others "Rocq" "u1" "ann" [] [] demo_env _ _ _ _ _ Er)
    as [_ [(_ & H & _)|[H _]]]; [exact H|discriminate H].
Defined.
