(* ===== verification/Kafka.v ===== *)
(** The message that the logic service gives to the job through Kafka
    ([proto/ChatRoom.Job.proto]), [KafkaProducer] ([logic/service/kafka_producer.{h,cpp}])
    and [KafkaConsumer] ([job/service/kafka_consumer.{h,cc}]).

    librdkafka and the code generated from the protobuf file are classes. *)

From S2P Require Import Prelude.

(** ** [message PushMsg], with the fields that the services set or read *)

Definition PushMsg_Type_PUSH : Z := 0.
Definition PushMsg_Type_ROOM : Z := 1.
Definition PushMsg_Type_BROADCAST : Z := 2.

Record PushMsg : Type := MkPushMsg {
  pm_type : Z;
  pm_operation : Z;
  pm_room : str;
  pm_msg : str
}.

Class PushMsgCodec : Type := {
  SerializeToString : PushMsg → option str;
  ParseFromString : str → option PushMsg
}.

(** UTF-8 (RFC 3629, 4): no overlong forms, no surrogates, nothing above U+10FFFF. *)
Definition byte_in (lo hi : Z) (c : ascii) : bool := (lo <=? u8 c)%Z && (u8 c <=? hi)%Z.
Definition utf8_tail : ascii → bool := byte_in 0x80 0xBF.
Fixpoint is_utf8 (s : str) : bool :=
  match s with
  | [] => true
  | a :: s1 =>
      if byte_in 0x00 0x7F a then is_utf8 s1
      else
        match s1 with
        | [] => false
        | b :: s2 =>
            if byte_in 0xC2 0xDF a then utf8_tail b && is_utf8 s2
            else
              match s2 with
              | [] => false
              | c :: s3 =>
                  if byte_in 0xE0 0xEF a then
                    byte_in (if byte_in 0xE0 0xE0 a then 0xA0 else 0x80)
                            (if byte_in 0xED 0xED a then 0x9F else 0xBF) b &&
                    utf8_tail c && is_utf8 s3
                  else
                    match s3 with
                    | [] => false
                    | d :: s4 =>
                        byte_in 0xF0 0xF4 a &&
                        byte_in (if byte_in 0xF0 0xF0 a then 0x90 else 0x80)
                                (if byte_in 0xF4 0xF4 a then 0x8F else 0xBF) b &&
                        utf8_tail c && utf8_tail d && is_utf8 s4
                    end
              end
        end
  end.

(** The type and the operation are values of an [int32]. *)
Definition pm_typed (m : PushMsg) : Prop :=
  (- 2 ^ 31 ≤ pm_type m < 2 ^ 31)%Z ∧ (- 2 ^ 31 ≤ pm_operation m < 2 ^ 31)%Z.

(** A message whose room is UTF-8, as proto3 requires of a [string], is parsed back; one whose
    room is not is still serialized (with a log entry), but then refused by the parser; the
    text of a message with an operation other than the default is not empty. *)
Class PushMsgLaws `{PushMsgCodec} : Prop := {
  parse_serialize m s :
    pm_typed m → is_utf8 (pm_room m) = true →
    SerializeToString m = Some s → ParseFromString s = Some m;
  parse_not_utf8 m s :
    pm_typed m → is_utf8 (pm_room m) = false →
    SerializeToString m = Some s → ParseFromString s = None;
  serialize_nonempty m s :
    pm_typed m → pm_operation m ≠ 0%Z → SerializeToString m = Some s → s ≠ []
}.

(** ** librdkafka *)

Class RdKafka (W : Type) : Type := {
  conf_set : str → str → W → bool * W;          (* Conf::set == CONF_OK *)
  producer_create : W → bool * W;               (* not null *)
  topic_create : str → W → bool * W;
  produce : str → str → W → Z * W;              (* topic and payload; 0: ERR_NO_ERROR *)
  poll : Z → W → W;
  outq_len : W → Z;
  consumer_create : W → bool * W;
  consumer_subscribe : list str → W → Z * W;
  (* the error, and the payload with its length, if not null *)
  consumer_consume : Z → W → (Z * option str) * W
}.

Definition ERR_NO_ERROR : Z := 0.

(** ** [class KafkaProducer] *)

Record KafkaProducer : Type := MkProducer {
  topic_name_ : str;
  producer_ : bool;             (* not null *)
  topic_ : bool;
  is_initialized_ : bool
}.
Definition KafkaProducer_new : KafkaProducer := MkProducer [] false false false.

Section Kafka.
Context {W : Type} `{RK : RdKafka W}.

Definition producer_init (brokers topic : str) (k : KafkaProducer) : io W (bool * KafkaProducer) :=
  if is_initialized_ k then iret (true, k)
  else
    do* conf_ok := (λ w, let (b, w) := conf_set "bootstrap.servers" brokers w in (Ok b, w)) in
    if negb conf_ok then iret (false, k)
    else
      do* created := (λ w, let (b, w) := producer_create w in (Ok b, w)) in
      if negb created then iret (false, MkProducer (topic_name_ k) false (topic_ k) false)
      else
        do* topic_ok := (λ w, let (b, w) := topic_create topic w in (Ok b, w)) in
        iret (if topic_ok : bool then (true, MkProducer topic true true true)
              else (false, MkProducer (topic_name_ k) false false false)).

Definition sendMessage (message : str) (k : KafkaProducer) : io W bool :=
  if negb (is_initialized_ k) then iret false
  else
    do* resp := (λ w, let (e, w) := produce (topic_name_ k) message w in (Ok e, w)) in
    if negb (resp =? ERR_NO_ERROR)%Z then iret false
    else λ w, (Ok true, poll 0 w).

(** The loop of [close]; [None]: more than [fuel] polls. *)
Fixpoint drain (fuel : nat) (w : W) : option W :=
  if (0 <? outq_len w)%Z then
    match fuel with O => None | S fuel => drain fuel (poll 100 w) end
  else Some w.
Definition producer_close (fuel : nat) (k : KafkaProducer) (w : W) : option (KafkaProducer * W) :=
  let k' := MkProducer (topic_name_ k) false false false in
  if producer_ k then (λ w, (k', w)) <$> drain fuel w else Some (k', w).

(** [close] ends when every poll of a non-empty queue shortens it. *)
Lemma drain_ends (w : W) :
  (∀ w, (0 < outq_len w)%Z → (outq_len (poll 100 w) < outq_len w)%Z) →
  ∃ w', drain (Z.to_nat (outq_len w)) w = Some w' ∧ (outq_len w' ≤ 0)%Z.
Proof.
  intros Hpoll. assert (Hn : (outq_len w ≤ Z.of_nat (Z.to_nat (outq_len w)))%Z) by lia.
  revert Hn. generalize (Z.to_nat (outq_len w)) as fuel. intros fuel. revert w.
  induction fuel as [|fuel IH]; intros w0 Hw; cbn; destruct (Z.ltb_spec 0 (outq_len w0)).
  - lia.
  - eauto.
  - apply IH. specialize (Hpoll w0 ltac:(lia)). lia.
  - eauto.
Qed.

(** ** [class KafkaConsumer] *)

Record KafkaConsumer : Type := MkConsumer {
  brokers_ : str;
  kc_topic_ : str;
  group_id_ : str;
  kc_initialized_ : bool
}.
Definition KafkaConsumer_new (brokers topic : str) : KafkaConsumer :=
  MkConsumer brokers topic "my_consumer_group" false.

(** [conf_->set(...) != CONF_OK || ...], negated. *)
Fixpoint conf_set_all (l : list (str * str)) : io W bool :=
  match l with
  | [] => iret true
  | (k, v) :: l' =>
      do* ok := (λ w, let (b, w) := conf_set k v w in (Ok b, w)) in
      if ok : bool then conf_set_all l' else iret false
  end.

Definition consumer_init (c : KafkaConsumer) : io W (bool * KafkaConsumer) :=
  if kc_initialized_ c then iret (true, c)
  else
    do* conf_ok := conf_set_all [("bootstrap.servers" : str, brokers_ c);
                                 ("group.id" : str, group_id_ c);
                                 ("auto.offset.reset" : str, "earliest" : str)] in
    if negb conf_ok then iret (false, c)
    else
      do* created := (λ w, let (b, w) := consumer_create w in (Ok b, w)) in
      iret (created, MkConsumer (brokers_ c) (kc_topic_ c) (group_id_ c) created).

Definition subscribe (c : KafkaConsumer) : io W bool :=
  if negb (kc_initialized_ c) then iret false
  else
    do* err := (λ w, let (e, w) := consumer_subscribe [kc_topic_ c] w in (Ok e, w)) in
    iret (err =? ERR_NO_ERROR)%Z.

(** The payload; empty for any error. *)
Definition consume (timeout_ms : Z) : io W str := λ w,
  let '((err, payload), w) := consumer_consume timeout_ms w in
  (Ok (if (err =? ERR_NO_ERROR)%Z then default [] payload else []), w).
End Kafka.

(** ** A codec *)

(** The type and the operation as bytes, the length of the room in unary, the room and the
    text. *)
Definition demo_serialize (m : PushMsg) : option str :=
  if bool_decide (0 ≤ pm_type m < 256 ∧ 0 ≤ pm_operation m < 256)%Z
  then Some (chr (pm_type m) :: chr (pm_operation m) ::
             replicate (length (pm_room m)) "1"%char ++ "0"%char :: pm_room m ++ pm_msg m)
  else None.

Fixpoint demo_unary (s : str) : option (nat * str) :=
  match s with
  | [] => None
  | c :: s' => if bool_decide (c = "1"%char) then (λ p, (S p.1, p.2)) <$> demo_unary s' else Some (0, s')
  end.
Definition demo_parse (s : str) : option PushMsg :=
  match s with
  | t :: o :: s' =>
      p ← demo_unary s';
      if is_utf8 (take p.1 p.2) then Some (MkPushMsg (u8 t) (u8 o) (take p.1 p.2) (drop p.1 p.2)) else None
  | _ => None
  end.

#[export] Instance demo_codec : PushMsgCodec :=
  {| SerializeToString := demo_serialize; ParseFromString := demo_parse |}.

Lemma demo_unary_replicate n s : demo_unary (replicate n "1"%char ++ "0"%char :: s) = Some (n, s).
Proof. induction n as [|n IH]; [done|]. cbn [replicate app demo_unary]. by rewrite IH. Qed.

Lemma demo_parse_serialize m s :
  demo_serialize m = Some s → demo_parse s = if is_utf8 (pm_room m) then Some m else None.
Proof.
  destruct m as [t o room msg]. unfold demo_serialize. cbn -[chr app is_utf8].
  case_bool_decide as Hb; [|done]. intros [= <-]. unfold demo_parse. rewrite demo_unary_replicate.
  cbn -[chr is_utf8]. rewrite take_app_length, drop_app_length, !u8_chr, !Z.mod_small by lia. done.
Qed.

#[export] Instance demo_codec_laws : PushMsgLaws.
Proof.
  split.
  - intros m s _ Hu Hs. cbn. by rewrite (demo_parse_serialize m s Hs), Hu.
  - intros m s _ Hu Hs. cbn. by rewrite (demo_parse_serialize m s Hs), Hu.
  - intros m s _ _. cbn. unfold demo_serialize. case_bool_decide; [|done]. by intros [= <-].
Qed.
