(* ===== verification/LogicMain.v ===== *)
(** [logic/main.cc] and [service/http_parser.h]: the HTTP server of the logic service.

    A handler returns the texts given to [conn->send].  [getRoomList] returns the list
    itself, which a handler reads while it runs.  Not modelled: [parseRoomHistoryParams],
    which nothing calls, and the start of the event loop. *)

From S2P Require Import Prelude Json ApiTypes ConfigReader ConnPool CacheConn DbPool PoolManager.
From S2P Require Import LogicEnv LogicApi MessageService RoomService Kafka.

(** ** [struct ServerConfig] *)

Record ServerConfig : Type := MkServerConfig {
  bind_ip : str;
  http_port : Z;
  num_event_loops : Z;
  num_threads : Z;
  timeout_ms : Z;
  log_level : Z;
  kafka_brokers : str;
  kafka_topic : str
}.
Definition ServerConfig_default : ServerConfig :=
  MkServerConfig "0.0.0.0" 8090 1 0 1000 2 "localhost:9092" "my-topic".

(** [loadFromFile]; the reader throws nothing. *)
Definition loadFromFile (c : ServerConfig) (config_path : str) (content : option str)
    : result (bool * ServerConfig) :=
  let* r := CConfigFileReader_new config_path content in
  let* ip := config_field r "http_bind_ip" id (bind_ip c) in
  let* port := config_field r "http_bind_port" (λ s, u16 (atoi s)) (http_port c) in
  let* loops := config_field r "num_event_loops" atoi (num_event_loops c) in
  let* threads := config_field r "num_threads" atoi (num_threads c) in
  let* timeout := config_field r "timeout_ms" atoi (timeout_ms c) in
  let* level := config_level r (log_level c) in
  let* brokers := config_field r "kafka_brokers" id (kafka_brokers c) in
  let* topic := config_field r "kafka_topic" id (kafka_topic c) in
  Ok (true, MkServerConfig ip port loops threads timeout level brokers topic).

(** The fields are values of their C++ types. *)
Definition int_range (z : Z) : Prop := (- 2 ^ 31 ≤ z < 2 ^ 31)%Z.
Definition config_typed (c : ServerConfig) : Prop :=
  (0 ≤ http_port c < 2 ^ 16)%Z ∧
  Forall int_range [num_event_loops c; num_threads c; timeout_ms c] ∧
  LogLevel_value (log_level c) = true.

(** ** HTTP *)

(** [HttpParser::parseHttpRequest]: method, path and body ([body] is empty at the call). *)
Definition parseHttpRequest (request : str) : result (option (str * str * str)) :=
  let methodEnd := sfind request " " 0 in
  if (methodEnd =? npos)%Z then Ok None
  else
    let* method := substr request 0 methodEnd in
    let pathEnd := sfind request " " (methodEnd + 1) in
    if (pathEnd =? npos)%Z then Ok None
    else
      let* path := substr request (methodEnd + 1) (pathEnd - methodEnd - 1) in
      let bodyStart := sfind request (CRLF ++ CRLF) 0 in
      let* body := (if (bodyStart =? npos)%Z then Ok []
                    else substr_from request (bodyStart + 4)) in
      Ok (Some (method, path, body)).

Definition wrapJsonInHttpResponse (jsonContent : str) : str :=
  "HTTP/1.1 200 OK" ++ CRLF ++ "Content-Type: application/json" ++ CRLF ++
  "Content-Length: " ++ to_string (slen jsonContent) ++ CRLF ++ CRLF ++ jsonContent.

(** The answers of the handlers: the status line, a header line or none, and the body. *)
Definition json_response (status header body : str) : str :=
  "HTTP/1.1 " ++ status ++ CRLF ++ "Content-Type: application/json" ++ CRLF ++ header ++
  "Content-Length: " ++ to_string (slen body) ++ CRLF ++
  "Access-Control-Allow-Origin: *" ++ CRLF ++ CRLF ++ body.

Definition sid_cookie (sid : str) : str :=
  "Set-Cookie: sid=" ++ sid ++ "; HttpOnly; Max-Age=86400; SameSite=Strict" ++ CRLF.

(** [sendErrorResponse] *)
Definition error_response (code : Z) (message : str) : str :=
  "HTTP/1.1 " ++ to_string code ++ " " ++ message ++ CRLF ++
  "Content-Type: application/json" ++ CRLF ++ "Content-Length: 0" ++ CRLF ++
  "Access-Control-Allow-Origin: *" ++ CRLF ++ CRLF.

(** The answer to a message that could not be given to Kafka. *)
Definition send_failed_response : str :=
  "HTTP/1.1 500 Internal Server Error" ++ CRLF ++ "Content-Type: application/json" ++ CRLF ++
  "Content-Length: 31" ++ CRLF ++ CRLF ++ dq "{'status': 'send failed'}" ++ CRLF.

Definition not_found_response : str :=
  "HTTP/1.1 404 Not Found" ++ CRLF ++ "Content-Length: 0" ++ CRLF ++ CRLF.

(** ** The service *)

Record logic_state (W : Type) : Type := MkLogic {
  l_env : logic_env W;
  l_storage : MessageStorageManager;
  m_room_list : list Room;
  l_producer : KafkaProducer
}.
Arguments MkLogic {W} _ _ _ _.
Arguments l_env {W} _.
Arguments l_storage {W} _.
Arguments m_room_list {W} _.
Arguments l_producer {W} _.

Section Server.
Context {J W RES STMT : Type}.
Context `{JC : JsonCpp J} `{MY : MySql W RES STMT} `{HR : HiRedis W} `{HO : Host W} `{CL : Clock W}.
Context `{RK : RdKafka W} `{PB : PushMsgCodec}.
Variable files : str → option str.
Variable others : str → logic_env W → logic_env W.

Abbreviation M := (io (logic_state W)).

(** A computation on the databases. *)
Definition in_env {A} (m : io (logic_env W) A) : M A := λ s,
  let (r, e) := m (l_env s) in (r, MkLogic e (l_storage s) (m_room_list s) (l_producer s)).
Definition get_state : M (logic_state W) := λ s, (Ok s, s).
Definition put_rooms (l : list Room) : M unit := λ s,
  (Ok tt, MkLogic (l_env s) (l_storage s) l (l_producer s)).
Definition put_storage (m : MessageStorageManager) : M unit := λ s,
  (Ok tt, MkLogic (l_env s) m (m_room_list s) (l_producer s)).
Definition put_producer (k : KafkaProducer) : M unit := λ s,
  (Ok tt, MkLogic (l_env s) (l_storage s) (m_room_list s) k).

(** A call of librdkafka. *)
Definition in_world {A} (m : io W A) : io (logic_env W) A := λ e,
  let (r, w) := m (world e) in (r, set_world w e).

(** The answer to a request that is not HTTP. *)
Definition on_request (request : str) (bad : list str) (handle : str → M (list str)) : M (list str) :=
  do* r := ilift (parseHttpRequest request) in
  match r with
  | None => iret bad
  | Some (_, _, body) => handle body
  end.

Definition on_json (body : str) (bad : list str) (handle : J → M (list str)) : M (list str) :=
  match jread body with
  | None => iret bad
  | Some json => handle json
  end.

Definition bad_http : list str := [error_response 400 "Bad Request"].
Definition bad_json : list str := [error_response 400 "Invalid JSON"].

(** [!v.isMember(k1) || !v.isMember(k2) || ...], negated. *)
Fixpoint has_members (v : J) (keys : list str) : result bool :=
  match keys with
  | [] => Ok true
  | k :: keys' => let* m := jisMember v k in if m then has_members v keys' else Ok false
  end.

(** [v[key].asString()] *)
Definition string_at (v : J) (key : str) : result str := let* x := jget v key in jasString x.

Definition handleLogin (request : str) : M (list str) :=
  on_request request bad_http (λ body,
    do* r := in_env (ApiLoginUser files others body) in
    let '(ret, response_data) := r in
    iret [if (ret =? 0)%Z then json_response "200 OK" (sid_cookie response_data) response_data
          else json_response "400 Bad Request" [] response_data]).

Definition handleRegister (request : str) : M (list str) :=
  on_request request bad_http (λ body,
    do* r := in_env (ApiRegisterUser files others body) in
    let '(ret, response_data) := r in
    iret [if (ret =? 0)%Z then json_response "200 OK" (sid_cookie response_data) response_data
          else json_response "400 Bad Request" [] response_data]).

Definition handleVerifyAuth (request : str) : M (list str) :=
  on_request request bad_http (λ body,
    do* r := in_env (ApiVerifyAuth files others body) in
    let '(ret, response_data) := r in
    iret [if (ret =? 0)%Z then json_response "200 OK" [] response_data
          else json_response "401 Unauthorized" [] response_data]).

(** A message in the answer to hello and in what is pushed. *)
Definition message_obj (msg : Message) : result J :=
  let* user := jobj [("id" : str, jstring (msg_user_id msg));
                     ("username" : str, jstring (msg_username msg))] in
  jobj [("id" : str, jstring (msg_id msg)); ("content" : str, jstring (msg_content msg));
        ("user" : str, user); ("timestamp" : str, juint (msg_timestamp msg))].

(** [messages[j] = message; ...] from the index [j]. *)
Fixpoint set_messages (j : nat) (msgs : list Message) (arr : J) : result J :=
  match msgs with
  | [] => Ok arr
  | msg :: msgs' =>
      let* m := message_obj msg in
      let* arr := jset_idx arr j m in set_messages (S j) msgs' arr
  end.

Definition hello_room (room : Room) (b : MessageBatch) : result J :=
  let* msgs := set_messages 0 (messages b) jnull in
  jobj [("id" : str, jstring (room_id room)); ("name" : str, jstring (room_name room));
        ("creator_id" : str, jstring (creator_id room));
        ("hasMoreMessages" : str, jbool (has_more b));
        ("messages" : str, match messages b with [] => jarray | _ => msgs end)].

(** The loop over the rooms; a room without history is left out. *)
Fixpoint hello_rooms (rooms : list Room) (it_index : nat) (arr : J) : M J :=
  match rooms with
  | [] => iret arr
  | room :: rooms' =>
      do* s := get_state in
      do* r := in_env (getRoomHistory files others (l_storage s) room MessageBatch_new
                         k_message_batch_size) in
      let '(ret, _, batch) := r in
      if (ret <? 0)%Z then hello_rooms rooms' it_index arr
      else
        do* v := ilift (hello_room room batch) in
        do* arr := ilift (jset_idx arr it_index v) in
        hello_rooms rooms' (S it_index) arr
  end.

Definition handleHello (request : str) : M (list str) :=
  on_request request bad_http (λ body, on_json body bad_json (λ json,
    do* ok := ilift (has_members json ["userId" : str; "username" : str]) in
    if negb ok then iret [error_response 400 "Missing user info"]
    else
      do* user_id := ilift (string_at json "userId") in
      do* username := ilift (string_at json "username") in
      do* me := ilift (jobj [("id" : str, jstring user_id); ("username" : str, jstring username)]) in
      do* s := get_state in
      do* rooms := hello_rooms (getRoomList (m_room_list s)) 0 jnull in
      do* payload := ilift (jobj [("me" : str, me); ("rooms" : str, rooms)]) in
      do* root := ilift (jobj [("type" : str, jstring "hello"); ("payload" : str, payload)]) in
      iret [json_response "200 OK" [] (jwrite root)])).

Fixpoint room_objs (rooms : list Room) : result (list J) :=
  match rooms with
  | [] => Ok []
  | r :: rooms' =>
      let* v := jobj [("id" : str, jstring (room_id r)); ("name" : str, jstring (room_name r));
                      ("creator_id" : str, jstring (creator_id r));
                      ("create_time" : str, jstring (create_time r));
                      ("update_time" : str, jstring (update_time r))] in
      let* l := room_objs rooms' in Ok (v :: l)
  end.

Definition rooms_document (rooms : list Room) : result J :=
  let* objs := room_objs rooms in
  let* rooms_array := jappend_all jarray objs in
  jobj [("rooms" : str, rooms_array); ("status" : str, jstring "success")].

Definition handleGetAllRooms (request : str) : M (list str) :=
  on_request request bad_http (λ _,
    do* s := get_state in
    do* root := ilift (rooms_document (getRoomList (m_room_list s))) in
    iret [json_response "200 OK" [] (jwrite root)]).

(** ** Sending *)

(** The loop of [handleSend] over the elements of [json["messages"]]: the messages to store
    and their objects, in order.  [messageIndex] counts the accepted ones. *)
Fixpoint read_messages (json : J) (elems : list J) (messageIndex : nat) : M (list Message * list J) :=
  match elems with
  | [] => iret ([], [])
  | message :: elems' =>
      do* m := ilift (jisMember message "content") in
      if negb m then read_messages json elems' messageIndex
      else
        do* us := in_env (via_world timestamp_us) in
        let timestamp := u64 (us ÷ 1000) in
        let messageId := to_string timestamp ++ "-" ++ to_string (Z.of_nat messageIndex) in
        do* content := ilift (string_at message "content") in
        do* user_id := ilift (string_at json "userId") in
        do* username := ilift (string_at json "username") in
        let msg := MkMessage messageId username content timestamp user_id in
        do* obj := ilift (message_obj msg) in
        do* r := read_messages json elems' (S messageIndex) in
        iret (msg :: r.1, obj :: r.2)
  end.

(** What is stored, in Redis and then, with the ids of Redis, in MySQL. *)
Definition store_messages (room_id : str) (msgs : list Message) : M unit :=
  match msgs with
  | [] => iret tt
  | _ =>
      do* s := get_state in
      do* r := in_env (storeMessagesToCache files others (l_storage s) room_id msgs) in
      do* _ := in_env (storeMessagesToDB files others (l_storage s) room_id r.2) in
      iret tt
  end.

(** The document pushed to the members of the room. *)
Definition server_messages (room_id : str) (objs : list J) : result J :=
  let* arr := jappend_all jarray objs in
  let* payload := jobj [("roomId" : str, jstring room_id); ("messages" : str, arr)] in
  jobj [("type" : str, jstring "serverMessages"); ("payload" : str, payload)].

(** [producer_.sendMessage] of the serialized message. *)
Definition push (m : PushMsg) : M bool :=
  match SerializeToString m with
  | None => iret false
  | Some serialized_msg =>
      do* s := get_state in in_env (in_world (sendMessage serialized_msg (l_producer s)))
  end.

Definition handleSend (request : str) : M (list str) :=
  on_request request [] (λ body, on_json body [] (λ json,
    do* ok := ilift (has_members json ["roomId" : str; "userId" : str; "username" : str; "messages" : str]) in
    if negb ok then iret []
    else
      do* room := ilift (string_at json "roomId") in
      do* elems := ilift (jget json "messages") in
      do* r := read_messages json (jelems elems) 0 in
      let '(msgs_to_store, objs) := r in
      do* _ := store_messages room msgs_to_store in
      do* messageWrapper := ilift (server_messages room objs) in
      do* sent := push (MkPushMsg PushMsg_Type_PUSH 4 room (jwrite messageWrapper)) in
      iret [if sent : bool then wrapJsonInHttpResponse (dq "{'status': 'success'}")
            else send_failed_response])).

(** ** History and room creation *)

(** A message in the answer to a request for history: the members are set in another
    order. *)
Definition history_obj (msg : Message) : result J :=
  let* user := jobj [("id" : str, jstring (msg_user_id msg));
                     ("username" : str, jstring (msg_username msg))] in
  jobj [("id" : str, jstring (msg_id msg)); ("content" : str, jstring (msg_content msg));
        ("timestamp" : str, juint (msg_timestamp msg)); ("user" : str, user)].
Fixpoint history_objs (msgs : list Message) : result (list J) :=
  match msgs with
  | [] => Ok []
  | m :: msgs' => let* v := history_obj m in let* l := history_objs msgs' in Ok (v :: l)
  end.

Definition history_document (room_id : str) (b : MessageBatch) : result J :=
  let* objs := history_objs (messages b) in
  let* arr := jappend_all jarray objs in
  let* payload := jobj [("roomId" : str, jstring room_id); ("name" : str, jstring []);
                        ("hasMoreMessages" : str, jbool (has_more b)); ("messages" : str, arr)] in
  jobj [("type" : str, jstring "serverRoomHistory"); ("payload" : str, payload)].

Definition handleRoomHistory (request : str) : M (list str) :=
  on_request request bad_http (λ body, on_json body bad_json (λ json,
    do* ok := ilift (has_members json ["type" : str; "payload" : str]) in
    if negb ok then iret [error_response 400 "Missing required fields"]
    else
      do* type := ilift (string_at json "type") in
      do* payload := ilift (jget json "payload") in
      if bool_decide (type = "requestRoomHistory") then
        do* ok := ilift (has_members payload ["roomId" : str; "userId" : str; "username" : str]) in
        if negb ok then iret [error_response 400 "Missing required fields"]
        else
          do* room_id := ilift (string_at payload "roomId") in
          do* f := ilift (jget_default payload "firstMessageId" (jstring [])) in
          do* first_message_id := ilift (jasString f) in
          do* c := ilift (jget_default payload "count" (jint 10)) in
          do* count := ilift (jasInt c) in
          do* _ := ilift (string_at payload "userId") in
          do* _ := ilift (string_at payload "username") in
          do* s := get_state in
          do* r := in_env (getRoomHistory files others (l_storage s)
            (MkRoom room_id [] [] [] [] first_message_id) MessageBatch_new count) in
          let '(ret, _, batch) := r in
          if (ret =? 0)%Z then
            do* root := ilift (history_document room_id batch) in
            iret [json_response "200 OK" [] (jwrite root)]
          else iret [error_response 500 "Failed to get room history"]
      else iret [error_response 400 "Unsupported message type"])).

(** The document that announces a room; all fields are empty when the name is taken. *)
Definition server_create_room (room_id room_name creator_id creator_username : str) : result J :=
  let* payload := jobj [("roomId" : str, jstring room_id); ("roomName" : str, jstring room_name);
                        ("creatorId" : str, jstring creator_id);
                        ("creatorUsername" : str, jstring creator_username)] in
  jobj [("type" : str, jstring "serverCreateRoom"); ("payload" : str, payload)].

Definition create_room (room_name creator_id creator_username : str) : M (list str) :=
  do* s := get_state in
  if roomExistByName room_name (m_room_list s) then
    do* failed := ilift (server_create_room [] [] [] []) in
    iret [json_response "200 OK" [] (jwrite failed)]
  else
    do* r := in_env (createRoom files others room_name creator_id creator_username [] (m_room_list s)) in
    let '(ret, room_id, error_msg, rooms) := r in
    do* _ := put_rooms rooms in
    if (ret =? 0)%Z then
      do* success := ilift (server_create_room room_id room_name creator_id creator_username) in
      let success_json := jwrite success in
      do* _ := push (MkPushMsg PushMsg_Type_BROADCAST 5 "global" success_json) in
      iret [json_response "200 OK" [] success_json]
    else iret [error_response 500 ("Failed to create room: " ++ error_msg)].

Definition handleCreateRoom (request : str) : M (list str) :=
  on_request request bad_http (λ body, on_json body bad_json (λ json,
    do* ok := ilift (has_members json ["type" : str; "payload" : str]) in
    if negb ok then iret [error_response 400 "Missing required fields"]
    else
      do* type := ilift (string_at json "type") in
      do* payload := ilift (jget json "payload") in
      if bool_decide (type = "clientCreateRoom") then
        do* ok := ilift (has_members payload ["roomName" : str]) in
        if negb ok then iret [error_response 400 "Missing roomName field"]
        else
          do* ok := ilift (has_members payload ["creatorId" : str; "creatorUsername" : str]) in
          if negb ok then iret [error_response 400 "Missing creator information"]
          else
            do* room_name := ilift (string_at payload "roomName") in
            do* creator_id := ilift (string_at payload "creatorId") in
            do* creator_username := ilift (string_at payload "creatorUsername") in
            create_room room_name creator_id creator_username
      else iret [error_response 400 "Unsupported message type"])).

(** ** Routing and start *)

(** [msg.find(pattern) != string::npos] *)
Definition contains (msg pattern : str) : bool := negb (sfind msg pattern 0 =? npos)%Z.

Definition onMessage (msg : str) : M (list str) :=
  if contains msg "POST /logic/login" then handleLogin msg
  else if contains msg "POST /logic/register" then handleRegister msg
  else if contains msg "POST /logic/verify" then handleVerifyAuth msg
  else if contains msg "POST /logic/hello" then handleHello msg
  else if contains msg "POST /logic/send" then handleSend msg
  else if contains msg "POST /logic/room_history" then handleRoomHistory msg
  else if contains msg "POST /logic/room/create" then handleCreateRoom msg
  else if contains msg "POST /logic/rooms" then handleGetAllRooms msg
  else iret [not_found_response].

(** The messages of all connections, as the event loop gives them to [onMessage].  An
    exception that a handler does not catch ends the process. *)
Fixpoint serve (msgs : list str) : M (list str) :=
  match msgs with
  | [] => iret []
  | msg :: msgs' =>
      do* out := onMessage msg in
      do* outs := serve msgs' in iret (out ++ outs)
  end.

(** [main] up to the event loop: the configuration, or [None] when it returns -1. *)
Definition logic_main : M (option ServerConfig) :=
  do* c := ilift (loadFromFile ServerConfig_default "logic.conf" (files "logic.conf")) in
  if negb c.1 then iret None
  else
    do* s := get_state in
    do* r := in_env (storage_init files "logic.conf" (l_storage s)) in
    do* _ := put_storage r.2 in
    if negb r.1 then iret None
    else
      do* s := get_state in
      do* r := in_env (room_initialize files others (m_room_list s)) in
      do* _ := put_rooms r.2 in
      if (r.1 <? 0)%Z then iret None
      else
        do* s := get_state in
        do* k := in_env (in_world (producer_init (kafka_brokers c.2) (kafka_topic c.2) (l_producer s))) in
        do* _ := put_producer k.2 in
        iret (Some c.2).
End Server.

(** ** The configuration is well typed *)

Lemma atoi_range s : int_range (atoi s).
Proof.
  assert (H : ∀ z, int_range (i32 z)).
  { intros z. unfold int_range, swrap. pose proof (Z.mod_pos_bound (z + 2 ^ (32 - 1)) (2 ^ 32)). lia. }
  unfold atoi. destruct (skip_space _); [done|]. by repeat case_bool_decide.
Qed.

(** C39: whatever text without NUL bytes the configuration file holds (lines of any length,
    missing or malformed entries), each field is read from its own key: the texts as they
    are, the port reduced to 16 bits, each other number what [atoi] makes of it, and a field
    whose key is absent keeps its value; all are then values of their C++ types.  The one
    exception is a [log_level] that the enumeration does not have: its cast is undefined. *)
Theorem loadFromFile_typed (config_path s : str) (c : ServerConfig) :
  Forall (λ b, b ≠ NUL) s → config_typed c →
  ∃ m, CConfigFileReader_new config_path (Some s) = Ok (MkReader (Some true) m config_path) ∧
    let text key d := default d (c_str <$> map_find m key) in
    let number key d := default d (atoi <$> (c_str <$> map_find m key)) in
    if LogLevel_value (number "log_level" (log_level c)) then
      ∃ c', loadFromFile c config_path (Some s) = Ok (true, c') ∧ config_typed c' ∧
        bind_ip c' = text "http_bind_ip" (bind_ip c) ∧
        http_port c' = u16 (number "http_bind_port" (http_port c)) ∧
        num_event_loops c' = number "num_event_loops" (num_event_loops c) ∧
        num_threads c' = number "num_threads" (num_threads c) ∧
        timeout_ms c' = number "timeout_ms" (timeout_ms c) ∧
        log_level c' = number "log_level" (log_level c) ∧
        kafka_brokers c' = text "kafka_brokers" (kafka_brokers c) ∧
        kafka_topic c' = text "kafka_topic" (kafka_topic c)
    else loadFromFile c config_path (Some s) = Undef EnumRange.
Proof.
  intros Hs (Hport & Hints & Hlevel). destruct (CConfigFileReader_new_defined config_path s Hs) as (m & Hm).
  exists m. split; [done|]. unfold loadFromFile. rewrite Hm. cbn [rbind].
  rewrite !(config_field_loaded _ _ _ _ _ _ eq_refl). unfold config_level, GetConfigName.
  cbn [load_ok_ config_map_ rbind].
  assert (Hl : (match c_str <$> map_find m "log_level" with Some v => LogLevel_cast (atoi v) | None => Ok (log_level c) end) =
    let level := default (log_level c) (atoi <$> (c_str <$> map_find m "log_level")) in
    if LogLevel_value level then Ok level else Undef EnumRange).
  { destruct (map_find m "log_level"); cbn; [done|by rewrite Hlevel]. }
  rewrite Hl. cbv beta zeta.
  destruct (LogLevel_value (default (log_level c) (atoi <$> (c_str <$> map_find m "log_level")))) eqn:El; [|done]. cbn [rbind].
  eexists. split; [reflexivity|]. clear Hm Hl. rewrite !Forall_cons in Hints. destruct Hints as (H1 & H2 & H3 & _).
  split; [split; cbn; [|split]|cbn; split_and!; try done].
  - clear El. case_match; [by apply wrap_range|done].
  - clear El. repeat (constructor; [case_match; [apply atoi_range|done]|]). constructor.
  - exact El.
  - clear El. by case_match.
  - clear El. case_match; [done|]. cbn. by rewrite wrap_small by lia.
  - clear El. by case_match.
  - clear El. by case_match.
  - clear El. by case_match.
  - clear El. by case_match.
  - clear El. by case_match.
Qed.

Definition demo_conf : str :=
  "http_bind_port=70000" ++ [LF] ++ "kafka_topic=chat" ++ [LF] ++ "no entry".

Lemma loadFromFile_typed_witness :
  ∃ c', loadFromFile ServerConfig_default "logic.conf" (Some demo_conf) = Ok (true, c') ∧
        config_typed c' ∧ http_port c' = 4464%Z ∧ kafka_topic c' = cstr "chat" ∧ num_threads c' = 0%Z.
Proof.
  destruct (loadFromFile_typed "logic.conf" demo_conf ServerConfig_default) as (m & Hm & H).
  - unfold demo_conf. repeat constructor; discriminate.
  - split; [cbn; lia|]. split; [repeat constructor; cbn; lia|reflexivity].
  - vm_compute in Hm. injection Hm as <-. destruct H as (c' & Hl & Ht & _ & Hp & _ & Hn & _ & _ & _ & Hk).
    exists c'. refine (conj Hl (conj Ht _)). rewrite Hp, Hn, Hk. vm_compute. auto.
Defined.

(** ** What every handler keeps *)

Section Structure.
Context {J W : Type} `{JC : JsonCpp J} (P : logic_state W → Prop).

Lemma preserves_get_state : preserves P get_state.
Proof. intros s r s' Hs H _. by injection H as _ <-. Qed.

Lemma preserves_on_request request bad handle :
  (∀ body, preserves P (handle body)) → preserves P (on_request request bad handle).
Proof.
  intros Hh. apply preserves_bind; [apply preserves_lift|]. intros [[[m p] b]|]; [done|].
  apply preserves_ret.
Qed.

Lemma preserves_on_json body bad (handle : J → _) :
  (∀ json, preserves P (handle json)) → preserves P (on_json body bad handle).
Proof. intros Hh. unfold on_json. destruct (jread body); [done|]. apply preserves_ret. Qed.
End Structure.

(** ** Connections are given back *)

Section Leaks.
Context {J W RES STMT : Type}.
Context `{JC : JsonCpp J} `{MY : MySql W RES STMT} `{HR : HiRedis W} `{HO : Host W} `{CL : Clock W}.
Context `{RK : RdKafka W} `{PB : PushMsgCodec}.
Variable files : str → option str.
Variable others : str → logic_env W → logic_env W.
Variable Lc Ld : str → list nat.
Variable ready_d ready_c : gset str.

(** Exactly the connections [Ld] and [Lc] are lent. *)
Definition service_lends (s : logic_state W) : Prop :=
  lent_exactly (MY := MY) Ld Lc ready_d ready_c (l_env s).

Lemma preserves_in_env {A : Type} (m : io (logic_env W) A) :
  preserves (lent_exactly (MY := MY) Ld Lc ready_d ready_c) m → preserves service_lends (in_env m).
Proof.
  intros Hm s r s' Hs H Hr. unfold in_env in H. destruct (m (l_env s)) as [r1 e1] eqn:E.
  injection H as <- <-. by eapply Hm.
Qed.

Lemma preserves_put_rooms l : preserves service_lends (put_rooms l).
Proof. intros s r s' Hs H _. by injection H as _ <-. Qed.

Lemma in_world_lent {A : Type} (m : io W A) :
  preserves (lent_exactly (MY := MY) Ld Lc ready_d ready_c) (in_world m).
Proof.
  intros e r e' HP H _. unfold in_world in H. destruct (m (world e)) as [r1 w].
  injection H as _ <-. by apply lent_world.
Qed.

Create HintDb lends.
#[local] Hint Resolve getRoomHistory_lent storeMessagesToCache_lent storeMessagesToDB_lent
  createRoom_lent in_world_lent via_world_lent : lends.

(** As [lent], for the handlers. *)
Ltac lends :=
  repeat first
    [ solve [eauto with lends nocore]
    | apply preserves_on_request; intros ? | apply preserves_on_json; intros ?
    | apply preserves_in_env | apply preserves_get_state | apply preserves_put_rooms
    | apply preserves_bind; [|intros ?]
    | apply preserves_ret | apply preserves_lift
    | case_match ].

Hypothesis Hslave : ("chatroom_slave" : str) ∈ ready_d.
Hypothesis Hmaster : ("chatroom_master" : str) ∈ ready_d.
Hypothesis Htoken : ("token" : str) ∈ ready_c.
Hypothesis Hmsg : ("msg" : str) ∈ ready_c.

Lemma hello_rooms_lends rooms it_index (arr : J) :
  preserves service_lends (hello_rooms files others rooms it_index arr).
Proof.
  revert it_index arr. induction rooms as [|room rooms IH]; intros it_index arr; cbn [hello_rooms];
    [apply preserves_ret|]. lends.
Qed.

Lemma read_messages_lends (json : J) elems i : preserves service_lends (read_messages json elems i).
Proof.
  revert i. induction elems as [|m elems IH]; intros i; cbn [read_messages]; [apply preserves_ret|]. lends.
Qed.

Lemma store_messages_lends room_id msgs :
  preserves service_lends (store_messages (J := J) files others room_id msgs).
Proof. unfold store_messages. lends. Qed.

Lemma push_lends m : preserves service_lends (push m).
Proof. unfold push. lends. Qed.
#[local] Hint Resolve hello_rooms_lends read_messages_lends store_messages_lends push_lends
  ApiLoginUser_lent ApiRegisterUser_lent ApiVerifyAuth_lent : lends.

(** C12: no request makes the logic service leak a connection: when its pools can serve,
    then whatever bytes arrive and however the database, Redis, Kafka and the documents
    behave, after the handler's return or exception exactly the connections lent before
    are lent, and the pools can serve again. *)
Theorem onMessage_returns_connections (msg : str) :
  preserves service_lends (onMessage files others msg).
Proof.
  unfold onMessage. repeat case_match; [..|apply preserves_ret].
  - unfold handleLogin. lends.
  - unfold handleRegister. lends.
  - unfold handleVerifyAuth. lends.
  - unfold handleHello. lends.
  - unfold handleSend. lends.
  - unfold handleRoomHistory. lends.
  - unfold handleCreateRoom, create_room. lends.
  - unfold handleGetAllRooms. lends.
Qed.
End Leaks.

(** ** The list of rooms *)

Section Rooms.
Context {J W RES STMT : Type}.
Context `{JC : JsonCpp J} `{MY : MySql W RES STMT} `{HR : HiRedis W} `{HO : Host W} `{CL : Clock W}.
Context `{RK : RdKafka W} `{PB : PushMsgCodec}.
Variable files : str → option str.
Variable others : str → logic_env W → logic_env W.

(** The list has grown from [l0] by additions at its end, and its ids are distinct. *)
Definition rooms_grown (l0 : list Room) (s : logic_state W) : Prop :=
  l0 `prefix_of` m_room_list s ∧ NoDup (room_id <$> m_room_list s).

Lemma rooms_in_env {A : Type} l0 (m : io (logic_env W) A) : preserves (rooms_grown l0) (in_env m).
Proof. intros s r s' Hs H _. unfold in_env in H. destruct (m _). by injection H as _ <-. Qed.

Create HintDb grown.
Ltac grows :=
  repeat first
    [ solve [eauto with grown nocore]
    | apply preserves_on_request; intros ? | apply preserves_on_json; intros ?
    | apply rooms_in_env | apply preserves_get_state | apply preserves_bind; [|intros ?]
    | apply preserves_ret | apply preserves_lift | case_match ].

Lemma rooms_create l0 name creator creator_username :
  preserves (rooms_grown l0) (create_room (J := J) files others name creator creator_username).
Proof.
  intros s r s' [Hp Hnd] Hrun Hr. unfold create_room in Hrun. cbn in Hrun.
  destruct (roomExistByName name (m_room_list s));
    [by eapply (preserves_bind (rooms_grown l0)); [apply preserves_lift|intros ?; apply preserves_ret| |exact Hrun|]|].
  unfold ibind at 1, in_env at 1 in Hrun.
  destruct (createRoom _ _ _ _ _ _ _ _) as [[[[[ret rid] err] rooms]|x|u] e] eqn:E.
  2: { by injection Hrun as _ <-. }
  2: { injection Hrun as <- _. by destruct (Hr u). }
  assert (Hnew : rooms_grown l0 (MkLogic e (l_storage s) rooms (l_producer s))).
  { destruct (createRoom_list _ _ _ _ _ _ _ _ _ _ _ _ _ E) as [->|(room & ->)]; [done|]. split; cbn.
    - etrans; [exact Hp|]. apply addRoomToList_prefix.
    - by apply addRoomToList_ids. }
  cbn in Hrun. revert Hrun Hr. generalize dependent (MkLogic e (l_storage s) rooms (l_producer s)).
  intros s1 Hs1. revert s1 r s' Hs1. case_match; [|apply preserves_ret].
  change (preserves (rooms_grown l0) (do* success := ilift (server_create_room (J := J) rid name creator creator_username) in
    do* _ := push (MkPushMsg PushMsg_Type_BROADCAST 5 "global" (jwrite success)) in
    iret [json_response "200 OK" [] (jwrite success)])).
  unfold push. grows.
Qed.

Lemma rooms_hello l0 rooms it_index (arr : J) :
  preserves (rooms_grown l0) (hello_rooms files others rooms it_index arr).
Proof.
  revert it_index arr. induction rooms as [|room rooms IH]; intros it_index arr; cbn [hello_rooms]; grows.
Qed.

Lemma rooms_read l0 (json : J) elems i : preserves (rooms_grown l0) (read_messages json elems i).
Proof. revert i. induction elems as [|m elems IH]; intros i; cbn [read_messages]; grows. Qed.
#[local] Hint Resolve rooms_create rooms_hello rooms_read : grown.

(** C28: whatever requests arrive, in whatever order and with whatever outcome, the list of
    rooms of the logic service only grows, at its end, and no two of its rooms have the
    same id: a room once known stays known under its id until the service stops. *)
Theorem served_rooms_grow (l0 : list Room) (msgs : list str) :
  preserves (rooms_grown l0) (serve files others msgs).
Proof.
  induction msgs as [|msg msgs IH]; cbn [serve]; [apply preserves_ret|].
  apply preserves_bind; [|intros out; apply preserves_bind; [exact IH|intros ?; apply preserves_ret]].
  unfold onMessage, handleLogin, handleRegister, handleVerifyAuth, handleHello, handleSend,
    store_messages, push, handleRoomHistory, handleCreateRoom, handleGetAllRooms.
  repeat case_match; grows.
Qed.
End Rooms.

(** ** What the handlers do *)

Section Functional.
Context {J W RES STMT : Type} `{JL : JsonLaws J}.
Context `{MY : MySql W RES STMT} `{HR : HiRedis W} `{HO : Host W} `{CL : Clock W}.
Context `{RK : RdKafka W} `{PB : PushMsgCodec}.
Variable files : str → option str.
Variable others : str → logic_env W → logic_env W.

(** [o] shows the message [msg]. *)
Definition object_of (msg : Message) (o : J) : Prop :=
  string_at o "id" = Ok (msg_id msg) ∧ string_at o "content" = Ok (msg_content msg) ∧
  jget o "timestamp" = Ok (juint (msg_timestamp msg)) ∧
  ∃ u, jget o "user" = Ok u ∧ string_at u "id" = Ok (msg_user_id msg) ∧
       string_at u "username" = Ok (msg_username msg).

Lemma message_obj_of msg : ∃ o, message_obj msg = Ok o ∧ object_of msg o.
Proof.
  unfold message_obj. destruct (jobj_Ok [("id" : str, jstring (msg_user_id msg));
    ("username" : str, jstring (msg_username msg))]) as (u & Hu). rewrite Hu. cbn [rbind].
  destruct (jobj_Ok [("id" : str, jstring (msg_id msg)); ("content" : str, jstring (msg_content msg));
    ("user" : str, u); ("timestamp" : str, juint (msg_timestamp msg))]) as (o & Ho).
  exists o. split; [done|]. unfold object_of, string_at. jget_in Ho. cbn.
  rewrite !jasString_jstring. split_and!; [done..|]. exists u. jget_in Hu. cbn.
  by rewrite !jasString_jstring.
Qed.

(** The contents of the elements of a request: an element without content is skipped. *)
Inductive contents : list J → list str → Prop :=
  | contents_nil : contents [] []
  | contents_skip el l cs :
      jisMember el "content" = Ok false → contents l cs → contents (el :: l) cs
  | contents_take el l c cs :
      jisMember el "content" = Ok true → string_at el "content" = Ok c → contents l cs →
      contents (el :: l) (c :: cs).

(** The [i]-th accepted message of a request of the user: its text is [c]. *)
Definition sent_message (user_id username : str) (i : nat) (c : str) (msg : Message) : Prop :=
  msg_content msg = c ∧ msg_user_id msg = user_id ∧ msg_username msg = username ∧
  msg_id msg = to_string (msg_timestamp msg) ++ "-" ++ to_string (Z.of_nat i).

(** The same service after a call that changed the world only. *)
Definition at_world (w : W) (s : logic_state W) : logic_state W :=
  MkLogic (set_world w (l_env s)) (l_storage s) (m_room_list s) (l_producer s).

Lemma read_messages_spec (json : J) elems cs i user_id username (s : logic_state W) :
  string_at json "userId" = Ok user_id → string_at json "username" = Ok username →
  contents elems cs →
  ∃ msgs objs w,
    read_messages json elems i s = (Ok (msgs, objs), at_world w s) ∧
    Forall2 (λ ic msg, sent_message user_id username ic.1 ic.2 msg) (zip (seq i (length cs)) cs) msgs ∧
    Forall2 object_of msgs objs.
Proof.
  intros Hu Hn Hc. revert i s.
  induction Hc as [|el l cs Hm _ IH|el l c cs Hm Hs _ IH]; intros i s.
  - exists [], [], (world (l_env s)). split_and!; [|constructor..]. by destruct s as [[] ? ? ?].
  - destruct (IH i s) as (msgs & objs & w & Hr & Hf). exists msgs, objs, w. split; [|done].
    cbn [read_messages]. by rewrite (ibind_lift _ _ _ Hm).
  - cbn [read_messages]. rewrite (ibind_lift _ _ _ Hm). cbn [negb].
    destruct (timestamp_us (world (l_env s))) as [us w1] eqn:Et.
    assert (Hw : in_env (via_world timestamp_us) s = (Ok us, at_world w1 s))
      by (unfold in_env, via_world; by rewrite Et).
    rewrite (ibind_Ok _ _ _ _ _ Hw), (ibind_lift _ _ _ Hs), (ibind_lift _ _ _ Hu), (ibind_lift _ _ _ Hn).
    set (msg := MkMessage _ _ _ _ _). destruct (message_obj_of msg) as (o & Ho & Hobj).
    rewrite (ibind_lift _ _ _ Ho).
    destruct (IH (S i) (at_world w1 s)) as (msgs & objs & w & Hr & Hf & Hf').
    exists (msg :: msgs), (o :: objs), w. rewrite (ibind_Ok _ _ _ _ _ Hr).
    split_and!; [done| |by constructor]. cbn. by constructor.
Qed.

(** [doc] is the push to the members of the room. *)
Definition announces (room : str) (msgs : list Message) (doc : J) : Prop :=
  string_at doc "type" = Ok ("serverMessages" : str) ∧
  ∃ payload arr, jget doc "payload" = Ok payload ∧ string_at payload "roomId" = Ok room ∧
    jget payload "messages" = Ok arr ∧ Forall2 object_of msgs (jelems arr).

Lemma server_messages_announce room msgs objs :
  Forall2 object_of msgs objs → ∃ doc, server_messages room objs = Ok doc ∧ announces room msgs doc.
Proof.
  intros Hf. unfold server_messages.
  destruct (jappend_all_items objs jarray [] jitems_array) as (arr & Ha & Hi). rewrite Ha. cbn [rbind].
  destruct (jobj_Ok [("roomId" : str, jstring room); ("messages" : str, arr)]) as (payload & Hp).
  rewrite Hp. cbn [rbind].
  destruct (jobj_Ok [("type" : str, jstring "serverMessages"); ("payload" : str, payload)]) as (doc & Hd).
  exists doc. split; [done|]. unfold announces, string_at. jget_in Hd. cbn.
  split; [apply jasString_jstring|]. exists payload, arr. jget_in Hp. cbn.
  split_and!; [done|apply jasString_jstring|done|]. by rewrite (jitems_elems _ _ Hi).
Qed.

(** A well-formed send request: each element with a content becomes, in order, a message of
    the user named in the request; they are stored, and whether or not that succeeds one
    push message that shows exactly them is given to Kafka. *)
Lemma handleSend_run (request m p body : str) (json arr : J)
    (room user_id username : str) (cs : list str) (s : logic_state W) :
  parseHttpRequest request = Ok (Some (m, p, body)) → jread body = Some json →
  has_members json ["roomId" : str; "userId" : str; "username" : str; "messages" : str] = Ok true →
  string_at json "roomId" = Ok room → string_at json "userId" = Ok user_id →
  string_at json "username" = Ok username →
  jget json "messages" = Ok arr → contents (jelems arr) cs →
  ∃ msgs doc w,
    Forall2 (λ ic msg, sent_message user_id username ic.1 ic.2 msg) (zip (seq 0 (length cs)) cs) msgs ∧
    announces room msgs doc ∧
    handleSend files others request s =
      (do* _ := store_messages files others room msgs in
       do* sent := push (MkPushMsg PushMsg_Type_PUSH 4 room (jwrite doc)) in
       iret [if sent : bool then wrapJsonInHttpResponse (dq "{'status': 'success'}")
             else send_failed_response]) (at_world w s).
Proof.
  intros Hp Hj Hm Hr Hu Hn Ha Hc.
  destruct (read_messages_spec json (jelems arr) cs 0 user_id username s Hu Hn Hc)
    as (msgs & objs & w & Hread & Hf & Hobj).
  destruct (server_messages_announce room msgs objs Hobj) as (doc & Hdoc & Hann).
  exists msgs, doc, w. split_and!; [done|done|].
  unfold handleSend, on_request. rewrite (ibind_lift _ _ _ Hp). unfold on_json. rewrite Hj.
  rewrite (ibind_lift _ _ _ Hm). cbn [negb]. rewrite (ibind_lift _ _ _ Hr), (ibind_lift _ _ _ Ha).
  rewrite (ibind_Ok _ _ _ _ _ Hread). cbn [fst snd].
  apply ibind_ext. intros y s1. by rewrite (ibind_lift _ _ _ Hdoc).
Qed.


(** [doc] announces a new room. *)
Definition announces_room (rid name creator creator_username : str) (doc : J) : Prop :=
  string_at doc "type" = Ok ("serverCreateRoom" : str) ∧
  ∃ payload, jget doc "payload" = Ok payload ∧ jisNull payload = false ∧
    string_at payload "roomId" = Ok rid ∧ string_at payload "roomName" = Ok name ∧
    string_at payload "creatorId" = Ok creator ∧
    string_at payload "creatorUsername" = Ok creator_username.

Lemma server_create_room_announces rid name creator creator_username :
  ∃ doc, server_create_room rid name creator creator_username = Ok doc ∧
         announces_room rid name creator creator_username doc.
Proof.
  unfold server_create_room. set (l := [("roomId" : str, jstring rid); _; _; _]).
  destruct (jobj_fields l) as (payload & Hp & Hf). rewrite Hp. cbn [rbind].
  destruct (jobj_Ok [("type" : str, jstring "serverCreateRoom"); ("payload" : str, payload)]) as (doc & Hd).
  exists doc. split; [done|]. unfold announces_room, string_at. jget_in Hd. cbn.
  split; [apply jasString_jstring|]. exists payload. unfold l in Hp. jget_in Hp. cbn.
  rewrite !jasString_jstring. split_and!; try done.
  apply (jfields_isObject payload (tail (rev l)) ("creatorUsername" : str) (jstring creator_username)).
  exact Hf.
Qed.

Lemma in_env_Ok {A : Type} (m : io (logic_env W) A) a e (s : logic_state W) :
  m (l_env s) = (Ok a, e) →
  in_env m s = (Ok a, MkLogic e (l_storage s) (m_room_list s) (l_producer s)).
Proof. unfold in_env. by intros ->. Qed.

(** [create_room] in a given state. *)
Lemma create_room_at (room_name creator_id creator_username : str) (s : logic_state W) :
  create_room (J := J) files others room_name creator_id creator_username s =
  (if roomExistByName room_name (m_room_list s) then
    do* failed := ilift (server_create_room [] [] [] []) in
    iret [json_response "200 OK" [] (jwrite failed)]
  else
    do* r := in_env (createRoom files others room_name creator_id creator_username [] (m_room_list s)) in
    let '(ret, room_id, error_msg, rooms) := r in
    do* _ := put_rooms rooms in
    if (ret =? 0)%Z then
      do* success := ilift (server_create_room room_id room_name creator_id creator_username) in
      let success_json := jwrite success in
      do* _ := push (MkPushMsg PushMsg_Type_BROADCAST 5 "global" success_json) in
      iret [json_response "200 OK" [] success_json]
    else iret [error_response 500 ("Failed to create room: " ++ error_msg)]) s.
Proof. reflexivity. Qed.

Lemma create_room_new (name creator creator_username : str) (s : logic_state W) rid err rooms e :
  roomExistByName name (m_room_list s) = false →
  createRoom files others name creator creator_username [] (m_room_list s) (l_env s) =
    (Ok (0%Z, rid, err, rooms), e) →
  ∃ doc : J, server_create_room rid name creator creator_username = Ok doc ∧
    announces_room rid name creator creator_username doc ∧
    create_room files others name creator creator_username s =
      (do* _ := push (MkPushMsg PushMsg_Type_BROADCAST 5 "global" (jwrite doc)) in
       iret [json_response "200 OK" [] (jwrite doc)]) (MkLogic e (l_storage s) rooms (l_producer s)).
Proof.
  intros Hnew E. rewrite create_room_at, Hnew.
  rewrite (ibind_Ok _ _ _ _ _ (in_env_Ok _ _ _ _ E)). cbn [Z.eqb].
  destruct (server_create_room_announces rid name creator creator_username) as (doc & Hd & Ha).
  exists doc. split_and!; [done..|].
  rewrite (ibind_Ok (put_rooms rooms) _ _ tt _ eq_refl). by rewrite (ibind_lift _ _ _ Hd).
Qed.

Lemma push_keeps (m : PushMsg) (s : logic_state W) :
  ∃ sent e, push m s = (Ok sent, MkLogic e (l_storage s) (m_room_list s) (l_producer s)).
Proof.
  unfold push. destruct (SerializeToString m) as [text|]; [|exists false, (l_env s); by destruct s].
  unfold ibind, get_state, in_env, in_world, sendMessage, iret.
  destruct (negb _); [by eexists _, _|]. unfold ibind. destruct (produce _ _ _) as [err w].
  destruct (negb _); by eexists _, _.
Qed.

(** C34: a request to create a room that returns.  If the name is known, nothing is done and
    the answer announces a room without id.  Otherwise a fresh id is made and the room is
    inserted on a connection of the pool of the master database.  When the insertion was
    executed, the room is the last of the list (if its id is new), the answer is a document
    that announces the room, and that very document is given to Kafka once, for everyone.
    When there was no connection or the statement failed, the list is as before, nothing
    goes to Kafka, and the answer is an error that tells why.  An exception leaves the list
    as it was. *)
Theorem create_room_outcomes (name creator creator_username : str) (s s' : logic_state W) r :
  create_room (J := J) files others name creator creator_username s = (r, s') →
  match r with
  | Ok answers =>
      if roomExistByName name (m_room_list s) then
        s' = s ∧ ∃ doc : J, announces_room [] [] [] [] doc ∧
          answers = [json_response "200 OK" [] (jwrite doc)]
      else
        ∃ rid e1, GenerateUUID (l_env s) = (Ok rid, e1) ∧
          ((∃ e2 (doc : J) sent,
              let rooms := if bool_decide (rid ∈ room_id <$> m_room_list s) then m_room_list s
                           else m_room_list s ++ [MkRoom rid name creator [] [] []] in
              room_inserted files others rid name creator e1 e2 ∧
              announces_room rid name creator creator_username doc ∧
              answers = [json_response "200 OK" [] (jwrite doc)] ∧ m_room_list s' = rooms ∧
              push (MkPushMsg PushMsg_Type_BROADCAST 5 "global" (jwrite doc))
                (MkLogic e2 (l_storage s) rooms (l_producer s)) = (Ok sent, s')) ∨
           (∃ e2 err, room_not_inserted files others rid name creator e1 err ∧
              answers = [error_response 500 ("Failed to create room: " ++ err)] ∧
              s' = MkLogic e2 (l_storage s) (m_room_list s) (l_producer s)))
  | Throw _ => m_room_list s' = m_room_list s
  | Undef _ => True
  end.
Proof.
  intros Hres. destruct (roomExistByName name (m_room_list s)) eqn:Hnew.
  { rewrite create_room_at, Hnew in Hres.
    destruct (server_create_room_announces [] [] [] []) as (doc & Hd & Ha).
    rewrite (ibind_lift _ _ _ Hd) in Hres. injection Hres as <- <-. split; [done|]. by exists doc. }
  destruct (createRoom files others name creator creator_username [] (m_room_list s) (l_env s))
    as [[[[[ret rid] err] rooms]|x|u] e2] eqn:E.
  2: { rewrite create_room_at, Hnew in Hres. unfold in_env, ibind in Hres. rewrite E in Hres. by injection Hres as <- <-. }
  2: { rewrite create_room_at, Hnew in Hres. unfold in_env, ibind in Hres. rewrite E in Hres. by injection Hres as <- <-. }
  destruct (createRoom_cases _ _ _ _ _ _ _ _ _ _ _ _ _ E)
    as (e1 & Hg & [(-> & Hins & ->)|(-> & Hnot & ->)]).
  - destruct (create_room_new name creator creator_username s _ _ _ _ Hnew E) as (doc & _ & Ha & Hrun).
    rewrite Hrun, addRoomToList_last in Hres.
    set (s1 := MkLogic e2 _ _ _) in Hres.
    destruct (push_keeps (MkPushMsg PushMsg_Type_BROADCAST 5 "global" (jwrite doc)) s1) as (sent & e3 & Hp).
    rewrite (ibind_Ok _ _ _ _ _ Hp) in Hres. injection Hres as <- <-. exists rid, e1. split; [done|]. left.
    by exists e2, doc, sent.
  - rewrite create_room_at, Hnew in Hres. rewrite (ibind_Ok _ _ _ _ _ (in_env_Ok _ _ _ _ E)) in Hres.
    injection Hres as <- <-. exists rid, e1. split; [done|]. right. by exists e2, err.
Qed.
End Functional.

(** ** Witnesses *)

(** Kafka takes every message; the last one is kept in the place of the last query. *)
#[export] Instance demo_rdkafka : RdKafka demo_api := {|
  conf_set _ _ w := (true, w);
  producer_create w := (true, w);
  topic_create _ w := (true, w);
  produce _ payload w := (ERR_NO_ERROR, MkDemoApi payload (da_kv w));
  poll _ w := w;
  outq_len _ := 0%Z;
  consumer_create w := (true, w);
  consumer_subscribe _ w := (ERR_NO_ERROR, w);
  consumer_consume _ w := ((ERR_NO_ERROR, Some (da_sql w)), w)
|}.

Definition demo_service (storage : bool) : logic_state demo_api :=
  MkLogic
    (MkEnv (Some {[ "chatroom_slave" : str := demo_db "chatroom_slave";
                    "chatroom_master" : str := demo_db "chatroom_master" ]})
       (Some {[ "token" : str := demo_token; "msg" : str := demo_msg_pool ]}) "f" "f" (MkDemoApi [] ∅))
    (MkStorage storage []) [] (MkProducer "t" true true true).

Definition demo_http (path : str) (body : Mini.jv) : str :=
  "POST " ++ path ++ " HTTP/1.1" ++ CRLF ++ CRLF ++ Mini.write body.

Definition demo_send_body : Mini.jv :=
  Mini.JObj [("roomId" : str, Mini.JStr "r"); ("userId" : str, Mini.JStr "u2");
             ("username" : str, Mini.JStr "bob");
             ("messages" : str, Mini.JArr [Mini.JObj [("content" : str, Mini.JStr "hi")]; Mini.JObj [("x" : str, Mini.JNull)]])].

Abbreviation demo_dbs := ({[ "chatroom_slave" : str; "chatroom_master" : str ]} : gset str).
Abbreviation demo_caches := ({[ "token" : str; "msg" : str ]} : gset str).

Lemma demo_service_holds b :
  service_lends (MY := demo_api_mysql) (λ _, []) (λ _, []) demo_dbs demo_caches (demo_service b).
Proof.
  assert (Hdb : ∀ name, named_ok 1 (demo_db name) []).
  { intros name. split; [|cbn; rewrite dom_singleton_L; set_solver].
    unfold conns_ok. cbn. split_and!; [apply NoDup_singleton|repeat constructor|lia..|done]. }
  assert (Hto : named_ok 2 demo_token []).
  { split; [|cbn; rewrite dom_insert_L, dom_singleton_L; set_solver].
    unfold conns_ok. cbn. split_and!; [by apply (bool_decide_unpack _)|repeat constructor|lia..|done]. }
  assert (Hmsg : named_ok 1 demo_msg_pool []).
  { split; [|cbn; rewrite dom_singleton_L; set_solver].
    unfold conns_ok. cbn. split_and!; [apply NoDup_singleton|repeat constructor|lia..|done]. }
  split; eexists; (split_and!; [reflexivity| | |done|]).
  - intros n p H. apply lookup_insert_Some in H as [[<- <-]|[_ H]]; [reflexivity|].
    apply lookup_singleton_Some in H as [<- <-]. reflexivity.
  - intros n p H. exists 1%Z. apply lookup_insert_Some in H as [[<- <-]|[_ H]]; [apply Hdb|].
    apply lookup_singleton_Some in H as [<- <-]. apply Hdb.
  - intros n [->%elem_of_singleton| ->%elem_of_singleton]%elem_of_union;
      (eexists; split; [vm_compute; reflexivity|by left]).
  - intros n p H. apply lookup_insert_Some in H as [[<- <-]|[_ H]]; [reflexivity|].
    apply lookup_singleton_Some in H as [<- <-]. reflexivity.
  - intros n p H. apply lookup_insert_Some in H as [[<- <-]|[_ H]]; [by exists 2%Z|].
    apply lookup_singleton_Some in H as [<- <-]. by exists 1%Z.
  - intros n [->%elem_of_singleton| ->%elem_of_singleton]%elem_of_union;
      (eexists; split; [vm_compute; reflexivity|by left]).
Qed.

Definition demo_on_message (msg : str) : io (logic_state demo_api) (list str) :=
  onMessage (J := Mini.jv) demo_files demo_others msg.

Lemma onMessage_returns_connections_witness :
  let run := demo_on_message (demo_http "/logic/send" demo_send_body) (demo_service true) in
  run.1 = Ok [wrapJsonInHttpResponse (dq "{'status': 'success'}")] ∧
  service_lends (MY := demo_api_mysql) (λ _, []) (λ _, []) demo_dbs demo_caches run.2.
Proof.
  intros run.
  assert (E : run.1 = Ok [wrapJsonInHttpResponse (dq "{'status': 'success'}")])
    by (vm_compute; reflexivity).
  split; [exact E|].
  assert (Hs : ("chatroom_slave" : str) ∈ demo_dbs) by (apply elem_of_union_l, elem_of_singleton_2, eq_refl).
  assert (Hm : ("chatroom_master" : str) ∈ demo_dbs) by (apply elem_of_union_r, elem_of_singleton_2, eq_refl).
  assert (Ht : ("token" : str) ∈ demo_caches) by (apply elem_of_union_l, elem_of_singleton_2, eq_refl).
  assert (Hg : ("msg" : str) ∈ demo_caches) by (apply elem_of_union_r, elem_of_singleton_2, eq_refl).
  apply (onMessage_returns_connections (J := Mini.jv) demo_files demo_others (λ _, []) (λ _, [])
    demo_dbs demo_caches Hs Hm Ht Hg (demo_http "/logic/send" demo_send_body) (demo_service true) run.1).
  - apply demo_service_holds.
  - apply surjective_pairing.
  - rewrite E. intros u Hu. discriminate Hu.
Defined.

Definition demo_create_body : Mini.jv :=
  Mini.JObj [("type" : str, Mini.JStr "clientCreateRoom");
    ("payload" : str, Mini.JObj [("roomName" : str, Mini.JStr "Rocq"); ("creatorId" : str, Mini.JStr "u1");
                                 ("creatorUsername" : str, Mini.JStr "ann")])].

Lemma create_room_outcomes_witness :
  let run := create_room (J := Mini.jv) demo_files demo_others "Rocq" "u1" "ann" (demo_service true) in
  ∃ e1 e2 (doc : Mini.jv),
    room_inserted (MY := demo_api_mysql) demo_files demo_others "id" "Rocq" "u1" e1 e2 ∧
    run.1 = Ok [json_response "200 OK" [] (jwrite doc)] ∧
    m_room_list run.2 = [MkRoom "id" "Rocq" "u1" [] [] []].
Proof.
  intros run.
  assert (E : is_Ok run.1 ∧ m_room_list run.2 = [MkRoom "id" "Rocq" "u1" [] [] []])
    by (vm_compute; split; [eexists; reflexivity|reflexivity]).
  destruct E as [[answers E1] E2].
  assert (Er : create_room (J := Mini.jv) demo_files demo_others "Rocq" "u1" "ann" (demo_service true) =
    (Ok answers, run.2)) by (rewrite <- E1; apply surjective_pairing).
  destruct (create_room_outcomes (J := Mini.jv) demo_files demo_others "Rocq" "u1" "ann" _ _ _ Er)
    as (rid & e1 & Hg & [(e2 & doc & sent & Hi & Ha & Hans & _)|(e2 & err & _ & _ & Hs)]).
  - assert (rid = cstr "id") as -> by (vm_compute in Hg; injection Hg as <- _; reflexivity).
    exists e1, e2, doc. split; [exact Hi|]. split; [rewrite E1, Hans; reflexivity|exact E2].
  - rewrite Hs in E2. discriminate E2.
Defined.

Definition demo_serve : io (logic_state demo_api) (list str) :=
  serve (J := Mini.jv) demo_files demo_others
    [demo_http "/logic/room/create" demo_create_body; demo_http "/logic/send" demo_send_body].

Lemma served_rooms_grow_witness :
  ∃ s', demo_serve (demo_service true) =
      (Ok [json_response "200 OK" [] (jwrite (default Mini.JNull (jparse (dq
         "{'type':'serverCreateRoom','payload':{'roomId':'id','roomName':'Rocq','creatorId':'u1','creatorUsername':'ann'}}"))));
           wrapJsonInHttpResponse (dq "{'status': 'success'}")], s') ∧
    rooms_grown [] s'.
Proof.
  assert (E : (demo_serve (demo_service true)).1 =
      Ok [json_response "200 OK" [] (jwrite (default Mini.JNull (jparse (dq
         "{'type':'serverCreateRoom','payload':{'roomId':'id','roomName':'Rocq','creatorId':'u1','creatorUsername':'ann'}}"))));
           wrapJsonInHttpResponse (dq "{'status': 'success'}")]) by (vm_compute; reflexivity).
  destruct (demo_serve (demo_service true)) as [r s'] eqn:Er. cbn [fst] in E. subst r.
  exists s'. split; [reflexivity|].
  eapply (served_rooms_grow (J := Mini.jv) demo_files demo_others [] _ (demo_service true)); [|exact Er|].
  - split; [apply prefix_nil|apply NoDup_nil; exact I].
  - intros u Hu. discriminate Hu.
Defined.
