(* ===== verification/Job.v ===== *)
(** [job/main.cc]: the job service, which takes the messages of the logic service from Kafka
    and calls the comet service by gRPC.

    gRPC is a class.  The loop of [main] runs for ever; [job_loop] is any number of its
    iterations. *)

From S2P Require Import Prelude ConfigReader Kafka.

(** ** gRPC *)

(** The protobuf messages sent, with the fields that are set. *)
Record Proto : Type := MkProto { ver : Z; op : Z; seq : Z; body : str }.
Record BroadcastRoomReq : Type := MkRoomReq { roomid : str; room_proto : Proto }.
Record BroadcastReq : Type := MkBroadcastReq { proto : Proto; speed : Z }.

Definition status_OK : Z := 0.
Definition CANCELLED : Z := 1.
Definition UNAVAILABLE : Z := 14.

Class CometStub (W : Type) : Type := {
  CreateChannel : str → W → W;                               (* and NewStub *)
  stub_BroadcastRoom : str → BroadcastRoomReq → W → Z * W;   (* the status *)
  stub_Broadcast : str → BroadcastReq → W → Z * W;
  sleep_ms : Z → W → W
}.

(** ** [class CometClient] *)

Definition MAX_RETRIES : nat := 3.

Definition room_request (roomId msgContent : str) : BroadcastRoomReq :=
  MkRoomReq roomId (MkProto 1 4 0 msgContent).
Definition all_request (msgContent : str) : BroadcastReq := MkBroadcastReq (MkProto 1 5 0 msgContent) 0.

Section Job.
Context {W : Type} `{GS : CometStub W} `{RK : RdKafka W} `{PB : PushMsgCodec}.

(** What follows the failed attempt number [retry]. *)
Definition after_failure (server_address : str) (status : Z) (retry : nat) (w : W) : W :=
  let w := if ((status =? UNAVAILABLE) || (status =? CANCELLED))%Z
           then CreateChannel server_address w else w in
  if (retry <? MAX_RETRIES - 1)%nat then sleep_ms (100 * (Z.of_nat retry + 1)) w else w.

(** The loop over [retry], with [tries] attempts left. *)
Fixpoint attempts (server_address : str) (call : W → Z * W) (tries retry : nat) : io W bool := λ w,
  match tries with
  | O => (Ok false, w)
  | S tries =>
      let (status, w) := call w in
      if (status =? status_OK)%Z then (Ok true, w)
      else attempts server_address call tries (S retry) (after_failure server_address status retry w)
  end.

Definition broadcastRoom (server_address roomId msgContent : str) : io W bool :=
  attempts server_address (stub_BroadcastRoom server_address (room_request roomId msgContent)) MAX_RETRIES 0.
Definition broadcast (server_address msgContent : str) : io W bool :=
  attempts server_address (stub_Broadcast server_address (all_request msgContent)) MAX_RETRIES 0.

(** ** [CometManager] and the loop *)

Variable files : str → option str.

(** The state: the address of [m_client], if there is one, and the world. *)
Abbreviation M := (io (option str * W)).

Definition job_world {A} (f : io W A) : M A := λ '(c, w),
  let (r, w) := f w in (r, (c, w)).

(** [getClient]: the address of the client. *)
Definition getClient : M str := λ '(m_client, w),
  match m_client with
  | Some address => (Ok address, (m_client, w))
  | None =>
      match (let* r := CConfigFileReader_new "job.conf" (files "job.conf") in
             config_field r "comet_server" id ("chatroom-app:50051" : str)) with
      | Ok address => (Ok address, (Some address, CreateChannel address w))
      | Throw x => (Throw x, (None, w))
      | Undef u => (Undef u, (None, w))
      end
  end.

(** One message of the loop. *)
Definition job_step (message : str) : M unit :=
  match message with
  | [] => iret tt
  | _ =>
      match ParseFromString message with
      | None => iret tt
      | Some pushMsg =>
          do* client := getClient in
          if (pm_type pushMsg =? PushMsg_Type_BROADCAST)%Z then
            do* _ := job_world (broadcast client (pm_msg pushMsg)) in iret tt
          else if ((pm_type pushMsg =? PushMsg_Type_PUSH) || (pm_type pushMsg =? PushMsg_Type_ROOM))%Z then
            do* _ := job_world (broadcastRoom client (pm_room pushMsg) (pm_msg pushMsg)) in iret tt
          else iret tt
      end
  end.

Fixpoint job_loop (iterations : nat) : M unit :=
  match iterations with
  | O => iret tt
  | S n =>
      do* message := job_world (consume 1000) in
      do* _ := job_step message in job_loop n
  end.

(** [main] up to the loop: whether it goes on. *)
Definition job_main : M bool :=
  do* r := ilift (CConfigFileReader_new "job.conf" (files "job.conf")) in
  do* brokers := ilift (config_field r "kafka_brokers" id ("localhost:9092" : str)) in
  do* topic := ilift (config_field r "kafka_topic" id ("my-topic" : str)) in
  do* k := job_world (consumer_init (KafkaConsumer_new brokers topic)) in
  if negb k.1 then iret false else job_world (subscribe k.2).

(** ** Properties *)

(** The statuses of the attempts from number [retry] on, between two worlds. *)
Inductive tried (address : str) (call : W → Z * W) : nat → W → list Z → W → Prop :=
  | tried_end retry w : tried address call retry w [] w
  | tried_ok retry w w' :
      call w = (status_OK, w') → tried address call retry w [status_OK] w'
  | tried_fail retry w status w1 statuses w' :
      call w = (status, w1) → status ≠ status_OK →
      tried address call (S retry) (after_failure address status retry w1) statuses w' →
      tried address call retry w (status :: statuses) w'.

Lemma attempts_tried address call tries retry w :
  ∃ ok statuses w',
    attempts address call tries retry w = (Ok ok, w') ∧ tried address call retry w statuses w' ∧
    (length statuses ≤ tries)%nat ∧
    (if ok : bool then last statuses = Some status_OK
     else length statuses = tries ∧ Forall (λ s, s ≠ status_OK) statuses).
Proof.
  revert retry w. induction tries as [|tries IH]; intros retry w.
  - exists false, [], w. split_and!; [done|apply tried_end|done|done|constructor].
  - cbn [attempts]. destruct (call w) as [status w1] eqn:Ec.
    destruct (Z.eqb_spec status status_OK) as [->|Hne].
    + exists true, [status_OK], w1. split_and!; [done|by constructor|cbn; lia|done].
    + destruct (IH (S retry) (after_failure address status retry w1)) as (ok & l & w' & -> & Ht & Hl & Hok).
      exists ok, (status :: l), w'. split_and!; [done|by econstructor|cbn; lia|].
      destruct ok; [|destruct Hok as [Hlen Hall]; cbn; by split; [lia|constructor]].
      destruct l as [|s l]; [done|]. by rewrite last_cons_cons.
Qed.

(** The request that a push message makes the job send, if any. *)
Definition rpc_of (address : str) (m : PushMsg) : option (W → Z * W) :=
  if (pm_type m =? PushMsg_Type_BROADCAST)%Z
  then Some (stub_Broadcast address (all_request (pm_msg m)))
  else if ((pm_type m =? PushMsg_Type_PUSH) || (pm_type m =? PushMsg_Type_ROOM))%Z
  then Some (stub_BroadcastRoom address (room_request (pm_room m) (pm_msg m)))
  else None.

(** A message whose first attempt succeeds makes exactly that call. *)
Lemma job_step_first_try (message address : str) (m : PushMsg) call (w w' : W) :
  ParseFromString message = Some m → message ≠ [] → rpc_of address m = Some call →
  call w = (status_OK, w') → job_step message (Some address, w) = (Ok tt, (Some address, w')).
Proof.
  intros Hp Hne Hc Hw. unfold job_step. destruct message as [|c message]; [done|]. rewrite Hp.
  unfold rpc_of in Hc. unfold ibind at 1, getClient.
  assert (Hrun : (do* _ := job_world (attempts address call MAX_RETRIES 0) in iret tt) (Some address, w) =
      (Ok tt, (Some address, w'))) by (unfold ibind, job_world, MAX_RETRIES; cbn [attempts]; by rewrite Hw).
  destruct (pm_type m =? PushMsg_Type_BROADCAST)%Z; [by injection Hc as <-|].
  destruct (_ || _); [by injection Hc as <-|done].
Qed.

(** Bytes that are no push message are dropped. *)
Lemma job_step_unparsed (message : str) (s : option str * W) :
  ParseFromString message = None → job_step message s = (Ok tt, s).
Proof. intros Hp. unfold job_step. destruct message; [done|]. by rewrite Hp. Qed.

(** The job handles one Kafka message: bytes that are no push message, or one of an
    unknown type, are dropped without a call; otherwise the one request that its type
    selects, with the room and body of the message, is sent to the comet server, once when
    the first attempt succeeds and at most three times in all, and no attempt follows a
    success.  The job survives every outcome. *)
Theorem job_step_dispatch (message address : str) (w : W) :
  ∃ statuses w',
    job_step message (Some address, w) = (Ok tt, (Some address, w')) ∧
    match (match message with [] => None | _ => ParseFromString message end) ≫= rpc_of address with
    | None => w' = w
    | Some call =>
        tried address call 0 w statuses w' ∧ (1 ≤ length statuses ≤ 3)%nat ∧
        (last statuses = Some status_OK ∨
         length statuses = 3%nat ∧ Forall (λ s, s ≠ status_OK) statuses)
    end.
Proof.
  unfold job_step. destruct message as [|c message]; [by exists [], w|].
  destruct (ParseFromString _) as [m|]; [|by exists [], w]. cbn [mbind option_bind].
  unfold rpc_of, ibind at 1, getClient.
  assert (Hrun : ∀ call, ∃ statuses w',
    (do* _ := job_world (attempts address call MAX_RETRIES 0) in iret tt) (Some address, w) =
      (Ok tt, (Some address, w')) ∧
    tried address call 0 w statuses w' ∧ (1 ≤ length statuses ≤ 3)%nat ∧
    (last statuses = Some status_OK ∨
     length statuses = 3%nat ∧ Forall (λ s, s ≠ status_OK) statuses)).
  { intros call. destruct (attempts_tried address call MAX_RETRIES 0 w)
      as (ok & statuses & w' & Ha & Ht & Hl & Hok).
    exists statuses, w'. split_and!.
    - unfold ibind, job_world. by rewrite Ha.
    - done.
    - unfold MAX_RETRIES in *. destruct ok, statuses; cbn in *; try done; lia.
    - done.
    - destruct ok; [by left|by right]. }
  destruct (pm_type m =? PushMsg_Type_BROADCAST)%Z; [apply Hrun|].
  destruct (_ || _); [apply Hrun|]. by exists [], w.
Qed.
End Job.
