(* ===== verification/EndToEnd.v ===== *)
(** The three services composed: what a request to the logic service makes the users of the
    comet service see, through Kafka, the job and gRPC.

    gRPC carries the fields of a request: [received_all] and [received_room] are what the
    comet service reads of the requests that the job sends. *)

From S2P Require Import Prelude Json ApiTypes ConfigReader ConnPool CacheConn DbPool PoolManager.
From S2P Require Import LogicEnv LogicApi MessageService RoomService Kafka.
From S2P Require Import WsFrame PubSub LogicClient WsConn CometService CometMain LogicMain Job.

Definition received_all (r : Job.BroadcastReq) : CometService.Proto :=
  CometService.MkProto (Job.op (Job.proto r)) (Job.body (Job.proto r)).
Definition received_room (r : Job.BroadcastRoomReq) : CometService.BroadcastRoomReq :=
  CometService.MkRoomReq (Job.roomid r)
    (CometService.MkProto (Job.op (Job.room_proto r)) (Job.body (Job.room_proto r))).

Section EndToEnd.
Context {J W RES STMT : Type} `{JL : JsonLaws J}.
Context `{MY : MySql W RES STMT} `{HR : HiRedis W} `{HO : Host W} `{CL : Clock W}.
Context `{RK : RdKafka W} `{PB : PushMsgCodec} `{PL : !PushMsgLaws} `{GS : CometStub W}.
Context {P : Type} `{SS : SubscriptionService P}.
Variable files job_files : str → option str.
Variable others : str → logic_env W → logic_env W.

(** What the logic service pushes has small types and operations. *)
Lemma pushed_typed (t o : Z) (r msg : str) :
  (0 <=? t)%Z && (t <? 2 ^ 31)%Z && (0 <=? o)%Z && (o <? 2 ^ 31)%Z = true → pm_typed (MkPushMsg t o r msg).
Proof.
  rewrite !andb_true_iff, !Z.leb_le, !Z.ltb_lt. intros [[[? ?] ?] ?]. split; cbn; lia.
Qed.

(** The document that the logic service makes is a creation message for the comet service. *)
Lemma announced_is_creation rid name creator creator_username (doc : J) :
  announces_room rid name creator creator_username doc → parses_back doc →
  creation_message (J := J) (jwrite doc) rid name creator.
Proof.
  intros (Ht & payload & Hp & Hn & Hi & Hnm & Hc & Hu) [Hparse _].
  apply rbind_inv in Ht as (t & Ht & Hts). apply rbind_inv in Hi as (i & Hi & His).
  apply rbind_inv in Hnm as (n & Hnm & Hns). apply rbind_inv in Hc as (c & Hc & Hcs).
  apply rbind_inv in Hu as (u & Hu & Hus).
  exists doc, t, payload, i, n, c, u, creator_username. by split_and!.
Qed.

(** C3: a room created by a request to the logic service becomes known to every user online:
    the document given to Kafka makes the job call the comet service once when that call
    succeeds, and the comet service, in any state, then subscribes everybody online to the
    new room, lists it, changes no other room's subscribers, and sends the announcement
    once to every connection. *)
Theorem created_room_reaches_users (name creator creator_username : str) (s : logic_state W)
    (rid err : str) (rooms : list Room) (e : logic_env W) :
  roomExistByName name (m_room_list s) = false →
  createRoom files others name creator creator_username [] (m_room_list s) (l_env s) =
    (Ok (0%Z, rid, err, rooms), e) →
  ∃ doc : J, server_create_room rid name creator creator_username = Ok doc ∧
    create_room files others name creator creator_username s =
      (do* _ := push (MkPushMsg PushMsg_Type_BROADCAST 5 "global" (jwrite doc)) in
       iret [json_response "200 OK" [] (jwrite doc)])
        (MkLogic e (l_storage s) rooms (l_producer s)) ∧
    ∀ payload, parses_back doc →
      SerializeToString (MkPushMsg PushMsg_Type_BROADCAST 5 "global" (jwrite doc)) = Some payload →
      (∀ address w w', stub_Broadcast address (all_request (jwrite doc)) w = (status_OK, w') →
         job_step job_files payload (Some address, w) = (Ok tt, (Some address, w'))) ∧
      ∀ (X : Type) (c : comet P X), registered_ok c → (slen (jwrite doc) < 2 ^ 64)%Z →
        ∃ c', Broadcast (J := J) (received_all (all_request (jwrite doc))) c = (Ok tt, c') ∧
          delivered (jwrite doc) (map_to_list (s_user_ws_conn_map c)).*2 c c' ∧
          (∀ r, svc_subscribers (pubsub c') r =
                if decide (r = rid)
                then Some (default ∅ (svc_subscribers (pubsub c) rid) ∪ dom (s_user_ws_conn_map c))
                else svc_subscribers (pubsub c) r) ∧
          (rid ∈ room_id <$> s_room_list c').
Proof.
  intros Hnew Hcreate.
  destruct (create_room_new files others name creator creator_username s rid err rooms e Hnew Hcreate)
    as (doc & Hdoc & Hann & Hrun).
  exists doc. split; [exact Hdoc|]. split; [exact Hrun|]. intros payload Hback Hser. split.
  - intros address w w' Hw. eapply job_step_first_try.
    + refine (parse_serialize _ _ _ _ Hser); [by apply pushed_typed|done].
    + refine (serialize_nonempty _ _ _ _ Hser); [by apply pushed_typed|done].
    + reflexivity.
    + exact Hw.
  - intros X c Hreg Hlen.
    destruct (Broadcast_effects (J := J) (jwrite doc) rid name creator c Hreg Hlen) as (c' & H1 & H2 & _ & H3 & H4);
      [by eapply announced_is_creation|].
    by exists c'.
Qed.

(** The document that [LogicClient::handleSend] of the comet service forwards has what
    [handleSend] of the logic service reads. *)
Lemma forwarded_document room user_id username (arr json : J) :
  jobj [("roomId" : str, jstring room); ("userId" : str, jstring user_id);
        ("username" : str, jstring username); ("messages" : str, arr)] = Ok json →
  has_members json ["roomId" : str; "userId" : str; "username" : str; "messages" : str] = Ok true ∧
  string_at json "roomId" = Ok room ∧ string_at json "userId" = Ok user_id ∧
  string_at json "username" = Ok username ∧ jget json "messages" = Ok arr.
Proof.
  intros H0. cbn [has_members]. jmember_in H0. unfold string_at. jget_in H0. cbn.
  by rewrite !jasString_jstring.
Qed.

(** C1: a chat message that the comet service forwards to the logic service reaches exactly
    the users of the room who are online: the request makes one push message, whose
    document shows the messages with a content, in order, under the identity that the
    comet service put into the request; the job turns it into one call
    for that room, if the id of the room is UTF-8 (otherwise it drops the message without a
    call); and the comet service sends that document, as one text frame, once to
    the connection of each online subscriber of the room and to nobody else. *)
Theorem chat_message_reaches_subscribers (request m p body : str) (json arr : J)
    (room user_id username : str) (cs : list str) (s : logic_state W) :
  parseHttpRequest request = Ok (Some (m, p, body)) → jread body = Some json →
  jobj [("roomId" : str, jstring room); ("userId" : str, jstring user_id);
        ("username" : str, jstring username); ("messages" : str, arr)] = Ok json →
  contents (jelems arr) cs →
  ∃ (msgs : list Message) (doc : J) (w : W),
    Forall2 (λ ic msg, sent_message user_id username ic.1 ic.2 msg) (zip (List.seq 0 (length cs)) cs) msgs ∧
    announces room msgs doc ∧
    LogicMain.handleSend files others request s =
      (do* _ := store_messages (J := J) files others room msgs in
       do* sent := push (MkPushMsg PushMsg_Type_PUSH 4 room (jwrite doc)) in
       iret [if sent : bool then wrapJsonInHttpResponse (dq "{'status': 'success'}")
             else send_failed_response]) (at_world w s) ∧
    ∀ payload,
      SerializeToString (MkPushMsg PushMsg_Type_PUSH 4 room (jwrite doc)) = Some payload →
      (is_utf8 room = true →
       ∀ address w w', stub_BroadcastRoom address (room_request room (jwrite doc)) w = (status_OK, w') →
         job_step job_files payload (Some address, w) = (Ok tt, (Some address, w'))) ∧
      (is_utf8 room = false →
       ∀ client w, job_step job_files payload (client, w) = (Ok tt, (client, w))) ∧
      ∀ (X : Type) (c : comet P X), registered_ok c → (slen (jwrite doc) < 2 ^ 64)%Z →
        let c' := (BroadcastRoom (received_room (room_request room (jwrite doc))) c).2 in
        ∃ conns, delivered (jwrite doc) conns c c' ∧
          ∀ cid, cid ∈ conns ↔
            ∃ u us, svc_subscribers (pubsub c) room = Some us ∧ u ∈ us ∧
                    s_user_ws_conn_map c !! u = Some cid.
Proof.
  intros Hp Hj Hjson Hc.
  destruct (forwarded_document room user_id username arr json Hjson) as (Hm & Hr & Hu & Hn & Ha).
  destruct (handleSend_run files others request m p body json arr room user_id username cs s
              Hp Hj Hm Hr Hu Hn Ha Hc) as (msgs & doc & w & Hf & Hann & Hrun).
  exists msgs, doc, w. split_and!; [done..|]. intros payload Hser. split_and!.
  - intros Hutf address w1 w' Hw. eapply job_step_first_try.
    + refine (parse_serialize _ _ _ _ Hser); [by apply pushed_typed|done].
    + refine (serialize_nonempty _ _ _ _ Hser); [by apply pushed_typed|done].
    + reflexivity.
    + exact Hw.
  - intros Hutf client w1. apply job_step_unparsed. refine (parse_not_utf8 _ _ _ _ Hser); [by apply pushed_typed|done].
  - intros X c Hreg Hlen.
    destruct (BroadcastRoom_effects room (jwrite doc) 4 c Hreg Hlen) as (conns & H1 & _ & H3). eauto.
Qed.

(** The object of a room in the answer to [/logic/rooms]. *)
Lemma room_objs_entries (rooms : list Room) :
  ∃ objs : list J, room_objs rooms = Ok objs ∧ Forall2 (λ r o, room_entry o (room_id r)) rooms objs.
Proof.
  induction rooms as [|r rooms (objs & Ho & Hf)]; [by exists []|]. cbn [room_objs].
  set (l := [("id" : str, jstring (room_id r)); _; _; _; _]).
  destruct (jobj_Ok l) as (v & Hv). rewrite Hv, Ho. exists (v :: objs). split; [done|].
  constructor; [|done]. unfold room_entry, l in *. jmember_in Hv. jget_in Hv.
  split_and!; [done..| |]; repeat (eexists; try done); apply jasString_jstring.
Qed.

(** C27: when the comet service starts, it learns every room of the logic service: if its
    request is answered by the logic service, the start-up step succeeds, and afterwards
    exactly the rooms in the list of the logic service have been given a topic; a topic
    that existed keeps its subscribers, a new one has none, and nothing else of the comet
    service changes. *)
Theorem start_up_learns_rooms (request m p body url : str) (s : logic_state W)
    {X : Type} `{CC : CurlClient X} (c : comet P X) :
  parseHttpRequest request = Ok (Some (m, p, body)) →
  ∃ (question doc : J),
    jobj [("type" : str, jstring "getAllRooms")] = Ok question ∧
    rooms_document (m_room_list s) = Ok doc ∧
    LogicMain.handleGetAllRooms (J := J) request s = (Ok [json_response "200 OK" [] (jwrite doc)], s) ∧
    ∀ reply w', parses_back doc →
      curl_post (c_str (url ++ "/logic/rooms")) (jwrite question) (http c) = (Some reply, w') →
      reply_accepted reply = true → curl_body reply = jwrite doc →
      ∃ p', InitializeRoomSubscriptions (J := J) url c = (Ok 0%Z, set_pubsub (set_http c w') p') ∧
        with_topics (room_id <$> m_room_list s) (pubsub c) p'.
Proof.
  intros Hp. destruct (jobj_Ok [("type" : str, jstring "getAllRooms")]) as (question & Hq).
  destruct (room_objs_entries (m_room_list s)) as (objs & Hobjs & Hf).
  destruct (jappend_all_items objs jarray [] jitems_array) as (arr & Ha & Hi). cbn [app] in Hi.
  destruct (jobj_Ok [("rooms" : str, arr); ("status" : str, jstring "success")]) as (doc & Hd).
  assert (Hdoc : rooms_document (m_room_list s) = Ok doc)
    by (unfold rooms_document; by rewrite Hobjs; cbn [rbind]; rewrite Ha).
  exists question, doc. split_and!; [done|done| |].
  { unfold LogicMain.handleGetAllRooms, on_request, ibind, ilift, get_state, getRoomList, iret.
    by rewrite Hp, Hdoc. }
  intros reply w' [Hparse _] Hpost Hacc Hbody.
  destruct (init_rooms_topics arr (List.seq 0 (jsize arr)) (room_id <$> m_room_list s) (set_http c w'))
    as (p' & Hrun & Htop).
  { apply (jidx_Forall2 (λ rid o, room_entry o rid) _ objs); [done|]. by apply Forall2_fmap_l. }
  exists p'. split; [|done]. unfold InitializeRoomSubscriptions. rewrite (ibind_lift _ _ _ Hq).
  rewrite (ibind_Ok _ _ _ (true, jwrite doc) (set_http c w')).
  2: { unfold via_http. by rewrite (sendHttpRequest_reply _ _ _ _ _ _ Hpost), Hacc, Hbody. }
  cbn [negb]. rewrite Hparse. unfold member_is. jmember_in Hd. jget_in Hd.
  unfold ibind, ilift. cbn [rbind]. rewrite jasString_jstring. cbn [rbind].
  rewrite bool_decide_true by done. by rewrite Hrun.
Qed.

(** What the comet service makes of a result of the logic service. *)
Definition as_logic_auth (r : AuthResult) : LogicAuthResult :=
  if ar_success r then MkAuth true (ar_user_id r) (ar_username r) (ar_email r) []
  else auth_failed (ar_error_message r).

Lemma parse_encoded_auth (r : AuthResult) :
  ∃ doc : J, auth_document r = Ok doc ∧
    (parses_back doc → parseAuthResponse (J := J) (jwrite doc) = Ok (as_logic_auth r)).
Proof.
  unfold auth_document, parseAuthResponse, as_logic_auth. destruct (ar_success r); cbn [app].
  - set (l := [("success" : str, jbool true); _; _; _]).
    destruct (jobj_Ok l) as (doc & Hd). rewrite Hd. exists doc. split; [done|].
    intros [-> _]. unfold l in Hd. jget_in Hd. cbn [rbind].
    rewrite jisBool_jbool, jasBool_jbool. cbn [rbind]. by rewrite !jasString_jstring.
  - set (l := [("success" : str, jbool false); _]).
    destruct (jobj_Ok l) as (doc & Hd). rewrite Hd. exists doc. split; [done|].
    intros [-> _]. unfold l in Hd. jget_in Hd. cbn [rbind].
    rewrite jisBool_jbool, jasBool_jbool. cbn [rbind]. by rewrite jasString_jstring.
Qed.

(** C5: the comet service gives a session exactly the identity that the logic service finds
    for its cookie: the request that the comet service sends for a cookie is understood by
    the logic service, its lookup is made for that cookie, and from the answer, whose
    status is 200 or 401, the comet service gets the same verdict with the same user id,
    name and email, or with the same error. *)
Theorem session_identity_agrees (cookie url : str) (res : AuthResult) (e e' : logic_env W)
    {X : Type} `{CC : CurlClient X} (x x' : X) (reply : curl_reply) :
  cookie ≠ [] →
  ApiVerifyUserByCookie files others cookie e = (Ok res, e') →
  ∃ question doc : J,
    jobj [("cookie" : str, jstring cookie)] = Ok question ∧ auth_document res = Ok doc ∧
    (parses_back question →
     ApiVerifyAuth (J := J) files others (jwrite question) e =
       (Ok (if ar_success res then 0 else -1, jwrite doc)%Z, e')) ∧
    (parses_back doc →
     curl_post (c_str (url ++ "/logic/verify")) (jwrite question) x = (Some reply, x') →
     curl_res reply = CURLE_OK → curl_code reply = (if ar_success res then 200 else 401)%Z →
     curl_body reply = jwrite doc →
     verifyUserAuth (J := J) url cookie x = (Ok (as_logic_auth res), x')).
Proof.
  intros Hne Hres. destruct (jobj_Ok [("cookie" : str, jstring cookie)]) as (question & Hq).
  destruct (parse_encoded_auth res) as (doc & Hdoc & Hparse).
  exists question, doc. split_and!; [done|done| |].
  - intros [Hback _]. unfold ApiVerifyAuth, DecodeAuthRequestJson, required_string. rewrite Hback.
    jget_in Hq. cbn [rbind]. rewrite jisNull_jstring, jasString_jstring. cbn [rbind].
    rewrite (ibind_lift _ _ _ eq_refl), (ibind_Ok _ _ _ _ _ Hres). 
    unfold EncodeAuthResultJson, ibind, ilift. by rewrite Hdoc.
  - intros Hback Hpost Hok Hcode Hbody. unfold verifyUserAuth. destruct cookie as [|a cookie]; [done|].
    rewrite (ibind_lift _ _ _ Hq), (ibind_Ok _ _ _ _ _ (sendHttpRequest_reply _ _ _ _ _ _ Hpost)).
    unfold reply_accepted. rewrite Hok, Hcode, Hbody. cbn [app].
    assert (((CURLE_OK =? CURLE_OK) && (((if ar_success res then 200 else 401) =? 200) ||
      ((if ar_success res then 200 else 401) =? 401)))%Z = true) as -> by by destruct (ar_success res).
    unfold ilift. by rewrite (Hparse Hback).
Qed.
End EndToEnd.

(** ** Witnesses *)

#[export] Instance demo_stub : CometStub demo_api := {|
  CreateChannel _ w := w;
  stub_BroadcastRoom _ _ w := (status_OK, w);
  stub_Broadcast _ _ w := (status_OK, w);
  sleep_ms _ w := w
|}.

Definition demo_doc : Mini.jv :=
  match server_create_room "id" "Rocq" "u1" "ann" with Ok v => v | _ => Mini.JNull end.

Lemma created_room_reaches_users_witness :
  (∃ payload, SerializeToString (MkPushMsg PushMsg_Type_BROADCAST 5 "global" (jwrite demo_doc)) = Some payload ∧
     ∀ w, job_step demo_files payload (Some ("comet:50051" : str), w) = (Ok tt, (Some ("comet:50051" : str), w : demo_api))) ∧
  ∃ c', Broadcast (J := Mini.jv) (received_all (all_request (jwrite demo_doc))) demo_two = (Ok tt, c') ∧
        ("id" : str) ∈ room_id <$> s_room_list c'.
Proof.
  set (s := demo_service true).
  assert (E : (createRoom demo_files demo_others "Rocq" "u1" "ann" [] [] (l_env s)).1 =
    Ok (0%Z, "id" : str, [] : str, [MkRoom "id" "Rocq" "u1" [] [] []])) by (vm_compute; reflexivity).
  destruct (createRoom demo_files demo_others "Rocq" "u1" "ann" [] [] (l_env s)) as [r e] eqn:Er.
  cbn in E. subst r.
  destruct (created_room_reaches_users (J := Mini.jv) demo_files demo_files demo_others "Rocq" "u1" "ann" s
    "id" [] [MkRoom "id" "Rocq" "u1" [] [] []] e eq_refl Er) as (doc & Hdoc & _ & H).
  assert (Hd : doc = demo_doc) by (unfold demo_doc; rewrite Hdoc; reflexivity). clear Hdoc. subst doc.
  destruct (SerializeToString (MkPushMsg PushMsg_Type_BROADCAST 5 "global" (jwrite demo_doc)))
    as [payload|] eqn:Ep; [|discriminate Ep].
  assert (Hback : parses_back demo_doc) by (split; vm_compute; reflexivity).
  destruct (H payload Hback eq_refl) as [Hjob Hcomet]. split.
  - exists payload. split; [reflexivity|]. intros w. apply (Hjob _ w w). reflexivity.
  - destruct (Hcomet Peer demo_two demo_two_ok) as (c' & Hc & _ & _ & Hin); [vm_compute; reflexivity|].
    exists c'. exact (conj Hc Hin).
Defined.

Definition demo_request : str := demo_http "/logic/send" demo_send_body.

(** The text that [demo_request] gives to Kafka is no longer than the payload kept. *)
Lemma demo_pushed_length (msgs : list Message) (doc : Mini.jv) (w : demo_api) answer :
  let s' := (do* _ := store_messages (J := Mini.jv) demo_files demo_others "r" msgs in
             do* sent := push (MkPushMsg PushMsg_Type_PUSH 4 "r" (jwrite doc)) in
             iret (answer sent : list str)) (at_world w (demo_service false)) in
  (slen (jwrite doc) ≤ slen (da_sql (world (l_env s'.2))))%Z.
Proof.
  intros s'.
  assert (E : da_sql (world (l_env s'.2)) = chr 0 :: chr 4 :: "1"%char :: "0"%char :: "r"%char :: jwrite doc)
    by (destruct msgs; reflexivity).
  rewrite E. unfold slen. cbn [length]. lia.
Qed.

Lemma chat_message_reaches_subscribers_witness :
  ∃ (doc : Mini.jv) msgs conns,
    announces "r" msgs doc ∧ msg_content <$> msgs = ["hi" : str] ∧
    delivered (jwrite doc) conns demo_two
      (BroadcastRoom (received_room (room_request "r" (jwrite doc))) demo_two).2 ∧
    0%nat ∈ conns ∧ 1%nat ∉ conns.
Proof.
  destruct (chat_message_reaches_subscribers (J := Mini.jv) demo_files demo_files demo_others demo_request
    "POST" "/logic/send" (Mini.write demo_send_body) demo_send_body
    (Mini.JArr [Mini.JObj [("content" : str, Mini.JStr "hi")]; Mini.JObj [("x" : str, Mini.JNull)]])
    "r" "u2" "bob" ["hi" : str] (demo_service false))
    as (msgs & doc & w & Hm & Hann & Hrun & H); [vm_compute; reflexivity..| |].
  { apply contents_take; [reflexivity..|]. apply contents_skip; [reflexivity|]. apply contents_nil. }
  assert (Hlen : (slen (jwrite doc) < 2 ^ 64)%Z).
  { assert (Hb : (slen (da_sql (world (l_env (LogicMain.handleSend (J := Mini.jv) demo_files demo_others
      demo_request (demo_service false)).2))) < 2 ^ 64)%Z) by (vm_compute; reflexivity).
    rewrite Hrun in Hb. eapply Z.le_lt_trans; [|exact Hb].
    exact (demo_pushed_length msgs doc w (λ sent, [if sent : bool
      then wrapJsonInHttpResponse (dq "{'status': 'success'}") else send_failed_response])). }
  assert (Hc : msg_content <$> msgs = ["hi" : str]).
  { apply Forall2_cons_inv_l in Hm as (m & l & (Hm & _) & Hl & ->). apply Forall2_nil_inv_l in Hl as ->.
    cbn. cbn in Hm. rewrite Hm. reflexivity. }
  destruct (SerializeToString (MkPushMsg PushMsg_Type_PUSH 4 "r" (jwrite doc)))
    as [payload|] eqn:Ep; [|discriminate Ep].
  destruct (H payload eq_refl) as (_ & _ & Hcomet).
  destruct (Hcomet Peer demo_two demo_two_ok Hlen) as (conns & Hd & Hin).
  exists doc, msgs, conns. refine (conj Hann (conj Hc (conj Hd _))). rewrite !Hin. split.
  - exists "u1", {["u1" : str]}. exact (conj eq_refl (conj (elem_of_singleton_2 _ _ eq_refl) eq_refl)).
  - intros (u & us & Hs & Hu & Hcid).
    assert (svc_subscribers (pubsub demo_two) "r" = Some {["u1" : str]}) as Es by reflexivity.
    rewrite Es in Hs. injection Hs as <-. apply elem_of_singleton in Hu as ->.
    assert (s_user_ws_conn_map demo_two !! ("u1" : str) = Some 0%nat) as Eu by reflexivity.
    change (s_user_ws_conn_map demo_two !! ("u1" : str) = Some 1%nat) in Hcid.
    rewrite Eu in Hcid. discriminate Hcid.
Defined.

Definition demo_room_list : list Room :=
  [MkRoom "0001" "Linux" "1" "t" "u" []; MkRoom "0002" "Git" "1" "t" "u" []].
Definition demo_rooms_service : logic_state demo_api :=
  MkLogic demo_env (MkStorage true []) demo_room_list (MkProducer "t" true true true).
Definition demo_rooms_doc : Mini.jv :=
  match rooms_document demo_room_list with Ok v => v | _ => Mini.JNull end.
Definition demo_starting : comet PubSubService Peer :=
  MkComet ∅ ∅ ∅ [] [] [] (MkPeer [] (Some (CurlReply (jwrite demo_rooms_doc) 0 200))).

Lemma start_up_learns_rooms_witness :
  ∃ x' p', InitializeRoomSubscriptions (J := Mini.jv) "http://logic:8090" demo_starting =
    (Ok 0%Z, set_pubsub (set_http demo_starting x') p') ∧
    svc_subscribers p' "0002" = Some ∅ ∧ svc_subscribers p' "0009" = None.
Proof.
  destruct (start_up_learns_rooms (J := Mini.jv) (demo_http "/logic/rooms" Mini.JNull) "POST" "/logic/rooms" "null"
    "http://logic:8090" demo_rooms_service demo_starting) as (question & doc & Hq & Hdoc & _ & H);
    [vm_compute; reflexivity|].
  assert (Hd : doc = demo_rooms_doc) by (unfold demo_rooms_doc; injection Hdoc as <-; reflexivity).
  clear Hdoc. subst doc.
  destruct (H (CurlReply (jwrite demo_rooms_doc) 0 200)
    (MkPeer [(c_str ("http://logic:8090" ++ "/logic/rooms"), jwrite question)]
      (Some (CurlReply (jwrite demo_rooms_doc) 0 200)))) as (p' & Hrun & Htop).
  - split; vm_compute; reflexivity.
  - reflexivity.
  - reflexivity.
  - reflexivity.
  - eexists _, p'. refine (conj Hrun _). rewrite (Htop "0002"), (Htop "0009").
    vm_compute. exact (conj eq_refl eq_refl).
Defined.

(** The session [sid1] belongs to the user of the demo database. *)
Definition demo_session_env : logic_env demo_api :=
  set_world (MkDemoApi [] {[ "sid1" : str := "a@b" : str ]}) demo_env.

Lemma session_identity_agrees_witness :
  ∃ reply, verifyUserAuth (J := Mini.jv) "http://logic:8090" "sid1" (MkPeer [] (Some reply)) =
    (Ok (MkAuth true "u1" "ann" "a@b" []),
     MkPeer [(("http://logic:8090/logic/verify" : str), jwrite (Mini.JObj [("cookie" : str, Mini.JStr "sid1")]))]
       (Some reply)).
Proof.
  set (res := MkAuthResult true "u1" "ann" "a@b" []).
  assert (E : (ApiVerifyUserByCookie demo_files demo_others "sid1" demo_session_env).1 = Ok res)
    by (vm_compute; reflexivity).
  destruct (ApiVerifyUserByCookie demo_files demo_others "sid1" demo_session_env) as [r e'] eqn:Er.
  cbn in E. subst r.
  set (reply := CurlReply (jwrite (match auth_document res with Ok v => v | _ => Mini.JNull end)) 0 200).
  set (x' := MkPeer [(("http://logic:8090/logic/verify" : str), jwrite (Mini.JObj [("cookie" : str, Mini.JStr "sid1")]))]
    (Some reply)).
  destruct (session_identity_agrees (J := Mini.jv) demo_files demo_others "sid1" "http://logic:8090" res
    demo_session_env e' (MkPeer [] (Some reply)) x' reply) as (question & doc & Hq & Hdoc & _ & H).
  - discriminate.
  - exact Er.
  - exists reply. injection Hq as <-. injection Hdoc as <-. apply H.
    + split; vm_compute; reflexivity.
    + vm_compute. reflexivity.
    + reflexivity.
    + reflexivity.
    + reflexivity.
Defined.
